(* ===== verification/_CoqProject ===== *)
-Q . S2P
Prelude.v
PyString.v
Json.v
Store.v
Identity.v
ProjectAlias.v
ProjectAliasProps.v
AddressRoles.v
Principals.v
Auth.v
Memory.v
MemoryProps.v
Inbox.v
InboxProps.v
WatchClaim.v
WatchClaimProps.v
Seats.v
SeatsProps.v
Presence.v
PresenceProps.v
Register.v
RegisterProps.v
Tree.v
TreeProps.v
MailSignal.v
MailSignalProps.v
Delivery.v
DeliveryProps.v
Send.v
SendProps.v
Fence.v
FenceProps.v
Scoping.v
ScopingProps.v
Session.v
SessionProps.v
Watcher.v
WatcherProps.v
Search.v
SearchProps.v
Frame.v
Requests.v
MemoryRoutes.v
MemoryRoutesProps.v
InboxRoutes.v
InboxRoutesProps.v
Batches.v
Admin.v
AdminRoutes.v
AdminProps.v
SessionRoutes.v
SessionRoutesProps.v
PeopleRoutes.v
PeopleProps.v
Service.v
ServiceProps.v
Clerk.v
ClerkProps.v
Client.v
ClientProps.v
Bridge.v
BridgeProps.v
Edits.v
Endpoints.v
EndpointsProps.v
Tools.v
ToolsProps.v
MailTools.v
MailToolsProps.v
PyClient.v
PyClientProps.v
