(* ===== verification/Prelude.v ===== *)
(** * Tiding: a verification library

    Tiding (the package is called [engram] in places) is a server that gives a
    fleet of coding agents a shared memory, mailboxes and an identity. One
    PostgreSQL table, [memories], carries memories, mail, presence, seats and
    watch claims, told apart by [scope]; small tables beside it hold project
    renames, role addresses, principals and the audit trail. Agents reach it
    over HTTP through an authentication middleware; on each machine a bridge
    resolves who the session is and what project it works on, renders mail to
    the model, and runs a watcher that tells the session of new mail.

    Paths below are relative to src/server/, and to
    src/integrations/claude-code/src/engram_mcp/ where marked (bridge). A file
    [XProps] holds the theorems about the definitions of [X].

    ** Files: ground

    - [Prelude] (this file): outcomes of operations that may raise, Python
      truthiness, selection and update of lists by a boolean predicate, stable
      deduplication, tactics and hint databases.
    - [PyString]: the Python string operations the source uses (strip, lower,
      split, prefixes) and their lemmas. Strings are lists of bytes: case and
      white space are those of ASCII.
    - [Json]: the [metadata JSONB] column and the operators applied to it.
    - [Store]: db.py's [memories] table and the SQL statements run on it. A
      table is the list of its rows and the id sequence; [wf] is the unique
      index and the primary key, and the class [KeepsKeys] marks the updates
      that leave both alone. [sql_rekeys] is an UPDATE of key columns checked
      row by row, which can fail.

    ** Files: names, logins, access

    - [Identity]: services/identity.py, every function.
    - [ProjectAlias]: services/project_alias.py. State: the table, the
      [project_aliases] table, the module's cache. [plan] is the source's
      [_plan]; [relabel] and [reverse] are whole transactions, a unique
      violation being an error value.
    - [AddressRoles]: services/address_roles.py. State: holders, history,
      cache.
    - [Principals]: services/principal_service.py. State: the principal and
      alias rows and the cache of verified tokens.
    - [Auth]: [PrincipalAuthMiddleware] of auth.py, the checks of dependencies.py,
      namespace aliases of config.py, signal paths of services/mail_signal.py.

    ** Files: the services over the table

    - [Memory]: the memory verbs of services/memory_service.py.
    - [Search]: its ranked search. Scores are rationals the embedding and the
      trigram extension supply, and so is which rows a scan of the vector index
      reaches, the index being approximate; the file is about thresholds, the
      nearest shortlist, the order and the stamps.
    - [Inbox]: the mailbox verbs of the same file. The class
      [ListenExpansion] is what the mailbox relies on when it widens a
      reader's addresses; project aliases and roles implement it.
    - [Delivery], [Send]: writing letters and wakes: recipients, receipts,
      retargeting, project receipts, advice on unknown addresses, and
      [send_inbox], the whole of routers/memory.py's send route.
    - [Presence]: heartbeats, watcher beats, farewells, the roster and the
      liveness of recipients. What is stored for a session is one metadata
      value, read back by [presence_meta].
    - [Seats]: the allocation ladder, [seat_claim] and [seat_release] of
      services/session_registry.py. A claim is continuity ([continue_seat])
      else allocation ([try_candidate] for each candidate).
    - [Register]: the read side of that file: death certificates and the
      address register.
    - [Tree]: its climb and sweep passes over unhandled asks.
    - [WatchClaim]: services/watch_claim.py. The operations, and [watch_step],
      a step relation that interleaves the single SQL statements of several
      clients with everything else the server does.
    - [MailSignal]: services/mail_signal.py: keys, poll intervals, the poll.
    - [Batches]: the shape of every deletion by batches: ids of at most one
      batch, a delete, and again until a batch is short.
    - [Admin]: services/admin_service.py and services/audit_service.py.

    ** Files: the routes

    - [Frame]: what a route may change, as relations between tables
      ([select_comm] and the like); shared by the route files.
    - [Requests]: the request models of models.py the modelled routes use,
      their defaults and validators.
    - [MemoryRoutes], [InboxRoutes]: routers/memory.py: guards, namespace
      checks, the service call, the audit row, the banner, the probe of
      foreign namespaces, the long poll, the empty-inbox guidance.
    - [AdminRoutes]: routers/admin.py. [SessionRoutes]: routers/session.py
      and routers/identity.py. [PeopleRoutes]: the login and alias routes.
    - [Service]: main.py's start (bootstrap admin, bind check), preflight.py,
      the cleanup task and the request log.

    A route is a function of the caller ([st_user] or the mode), the request
    and the state, to an answer or an HTTP error with the state it leaves: a
    route is not one transaction, so an error after a commit keeps the commit.

    ** Files: the bridge

    - [Fence] (bridge fence.py and the rendering of messages in server.py):
      quarantining and printing a message.
    - [Scoping] (bridge scoping.py): which project a folder belongs to, the
      declaration of a name, the gate before a project write.
    - [Session] (bridge identity.py): the seat file, the session's identity,
      its addresses, lane, listening set; where a reply goes.
    - [Watcher] (bridge inbox_wait.py): the watcher's loop as turns over the
      answers of server, process table and pipe.
    - [Client] (bridge client.py): requests as the constructors of [api],
      indexed by the type of their answer; one request with its retry over a
      script of what the network does; the count of refused logins.
    - [Bridge] (bridge server.py, below its tools): the globals of the process
      and a step as a function of them and the wire; the cached login name,
      the claim of the seat, the heartbeat, the note of exit, the watcher's
      restarts.
    - [Tools], [MailTools] (bridge server.py): the memory tools and the mail
      tools, each a step of [Bridge].

    ** Files: the whole and the other clients

    - [Edits]: what every operation of a service does to the table: it stays
      well formed, its ids go up, an id stays at its key.
    - [Endpoints]: the server as its clients meet it. [served] is one request
      through [Auth.dispatch] and the checks of its body to the handler of its
      route, for the requests of the bridge's client; its state is table, trail,
      logins and the number of requests served, by which dates and ids are
      drawn. The routes of administration are not composed there.
    - [Clerk]: integrations/clerk/clerk.py: the gates around the calls of a
      language model, its day's counter, its loop. It reads a message as the
      JSON object the server writes.
    - [PyClient]: integrations/python-client's client.py.

    ** How the parts meet

    [Send] calls [ProjectAlias] and [AddressRoles] to rename recipients and
    [Delivery] to write; [Inbox] reads with the listening set that
    [Session] computes, widened through [ListenExpansion]; [Seats] takes
    evidence from [Presence] and [WatchClaim], and [Register] reports what
    [Seats] would do; [Tree] moves letters on that evidence; [Watcher] runs
    the claim of [WatchClaim] and the poll of [InboxRoutes]; every route sits
    behind [Auth.dispatch], which the process of [Service] installs. The
    clients take the server as an argument of type [api A -> headers -> Srv ->
    outcome refusal A * Srv]: what they guarantee by themselves ([ClientProps],
    [BridgeProps], [ClerkProps]) is proved for any server, and what two of them
    guarantee each other ([ToolsProps], [MailToolsProps], [PyClientProps]) for
    [Endpoints.served].

    ** What the theorems show

    - Memory: the ownership and version gates refuse exactly the documented
      writes and let through all others; an ordinary project write leaves one
      live row of its key over all writers; only a row's controller or an
      admin destroys it; flagging for deletion hides at once and a rejection
      restores the lifecycle status; an estate transfer moves control and
      never authorship; supersede is idempotent; enumeration is complete; a
      search returns the eligible rows its index reaches best first and stamps
      only what it returned.
    - Routes of the memory verbs: a call is confined to the namespace and
      scope it names, recorded exactly once, answers rows only of granted
      namespaces (the banner of unread mail is not gated), and a version conflict is answered with what makes a retry succeed.
    - Mailbox: listing, ack, resolve, sweep, counts; one letter for each
      recipient; authority only from the owner; gates that refuse leave the
      table alone; the long poll returns the oldest unread waking mail and
      ends.
    - Watch claims: one holder per key under every interleaving, a displaced
      holder stays displaced until it claims again, and its watcher falls
      silent; exact verdicts with a bounded retry time.
    - Seats, register, presence: a new grant never evicts a session that may
      be alive nor shows a stranger's mail to a newcomer that was not named;
      addresses are stable; the register says free exactly when the allocator
      would grant; each stored instant stays evidence of one thing.
    - Authentication: under enforcement nothing but exempt paths is reached
      without a verified active principal; the cache of verified tokens is
      invisible; a rotation takes effect at once; no secret reaches an answer
      or the trail; a reachable server guards its routes or does not start.
    - Administration: the sweep by batches ends and removes exactly the
      expired; a bulk delete deletes what its dry run previewed; no
      administrative call changes an id, value, owner or date it should not.
    - Project renames: a merge refines one pass over the table, never hits
      the unique index, and reports exact counts in a faithful dry run;
      families are equivalence classes; a reversal brings a source's rows back
      under stated conditions and drops exactly its alias. Roles: one open history record per held role.
    - Bridge: a body cannot forge the frame it is printed in; a declared
      project is the one resolved; a session keeps its identity; a reply
      reaches a sender whose pin did not move; the watcher announces what is new
      at every poll, each message once, whole, and
      reports an exit only when it saw one.

    - The clients: the count of refusals is the streak of the answers; after a
      claim the session goes by the name the server granted; the clerk stays
      within its gates and its cap whatever the model says.
    - The whole ([EndpointsProps], [ToolsProps], [MailToolsProps]): whatever
      the bridge's clients request in any order, the books are kept
      (administrators' calls, which may move rows to other keys, are not among
      these requests); without a login nothing is changed; what one session stores the next one reads; a letter
      sent is shown to who listens; an acknowledged letter stays away.

    Where the code does not do what a comment or docstring says, a lemma of
    the same [Props] file shows the concrete run. Among them are
    [MemoryRoutesProps.reserved_scope_bypassed] (a capital in the scope
    passes the guard of the mail scope), [InboxRoutesProps.relay_acks_anybody],
    [SearchProps.search_of_seats_fails], [SessionRoutesProps.death_ungranted],
    [AdminProps.bulk_delete_unscoped], [AdminProps.edited_out_of_reach],
    [ServiceProps.bootstrap_locked_out], [FenceProps.thread_forges_badge],
    [ScopingProps.gate_bypassed], [SessionProps.pin_misroutes_reply],
    [WatcherProps.signal_farewell_stale], [MemoryProps.supersede_reexposes],
    [InboxProps.resolve_thread_leaves_root], [Principals.remove_alias_ten],
    [ClerkProps.clerk_acks_lost], [ClerkProps.sender_never_addressed],
    [ProjectAliasProps.reverse_keeps_flattened], [MailToolsProps.first_letter_misnamed],
    [MailToolsProps.reply_sent_twice] and [PyClientProps.lost_name_latched].

    ** Conventions, bounds and fuel

    An operation that raises returns [Raise e]; its transaction is rolled
    back, so only [Done] carries new state. Statements run one after another
    within an operation; watch claims are also modelled statement by
    statement, because their protocol is about that.

    Time: the clock is an argument, in whole seconds; an instant written into
    metadata is kept as the instant, and [iso], its text, is an argument where
    the text matters. [MailSignal] and the long poll count milliseconds, the
    watcher tenths of a second. Lengths are in bytes, save in [Fence], whose
    text is a list of code points. Scores are in Q. Text is ordered by its bytes,
    as in a database with the C collation.

    The audit trail of a state is the inserts tried; each is best effort, and
    [Requests.audit_log] is what is stored when some of them fail.

    SHA-256, bcrypt, random tokens, generated ids, embeddings and similarity
    scores are arguments; what the code relies on (a hash verifies its own
    input, SHA-256 does not collide on tokens) is a hypothesis of the theorems
    that need it, with a witness. So are the file system, the process table,
    the environment and the server's answers for the bridge: arguments, given
    per call or per turn.

    Recursion with fuel: [canonical_loop] (one step more than there are
    aliases), [free_key] (one more than there are taken keys),
    [strip_trailer_loop] and [unquote] (the length of the text, of which every
    step removes some) and [batch_loop] (one step more than there are rows,
    enough by [Batches.batch_loop_total]). [ancestors] is bounded by twelve in
    the source itself. The long poll and the watcher recurse over the list of
    what each poll or turn observes, of any length;
    [InboxRoutesProps.wait_ends] says how many polls are enough.

    The clients loop over the clock's readings or the letters they are given.
    The theorems of the whole need no fuel: [EndpointsProps.run] folds over any
    list of requests.

    ** Not modelled

    Embeddings and the scores themselves, migrations and the schema's start,
    the dashboard's pages, the shutdown and health routes (the answer of
    /health is an argument), logging: input and output, or third-party code.
    Of the bridge, the wording of banners and guidance, the reading of its
    config, the doctor's report and the detection of the model: text and files
    that no other part relies on. The Home Assistant integration, the command
    line of the python client and the one-off scripts. Text meant for people is
    kept where it is an error's payload and left out where it is advice.
    Two requests never overlap: [served] carries one out whole. Where the code
    is about overlap, in the watch claims, single statements are interleaved.
    *)

From stdpp Require Import base gmap sets list strings sorting.
From Stdlib Require Import ZArith Lia.

Declare Scope tiding_scope.
Delimit Scope tiding_scope with tiding.
Open Scope tiding_scope.

(** ** Notations *)

(** Decidable equality as a boolean test, the [==] of the source. *)
Notation "x == y" := (bool_decide (x = y)) (at level 70, no associativity) : tiding_scope.
Notation "x != y" := (negb (bool_decide (x = y))) (at level 70, no associativity) : tiding_scope.

(** Membership of a list as a boolean test, the [in] of the source. *)
Notation "x 'isin' l" := (bool_decide (x ∈ l)) (at level 70, no associativity) : tiding_scope.

(** ** Outcomes of operations that may raise *)

Inductive outcome (E A : Type) : Type :=
| Done (a : A)
| Raise (e : E).
Arguments Done {E A} a.
Arguments Raise {E A} e.

Definition obind {E A B} (o : outcome E A) (k : A → outcome E B) : outcome E B :=
  match o with
  | Done a => k a
  | Raise e => Raise e
  end.

Notation "'do!' x <- c ; k" := (obind c (λ x, k))
  (at level 10, x pattern, c at level 100, k at level 200) : tiding_scope.

Definition is_done {E A} (o : outcome E A) : bool :=
  match o with Done _ => true | Raise _ => false end.

(** ** Truthiness of optional strings (Python's [x or y], [if x]) *)

Definition truthy (s : option string) : bool :=
  match s with
  | Some "" | None => false
  | Some _ => true
  end.

(** [a or b] of two optional strings. *)
Definition py_or (a b : option string) : option string :=
  if truthy a then a else b.

(** [(a or "")]. *)
Definition or_empty (a : option string) : string := default "" a.

(** [x is not None] *)
Definition is_some {A} (o : option A) : bool :=
  match o with Some _ => true | None => false end.

(** ** Shared automation *)

Create HintDb tiding.
Create Rewrite HintDb tiding.
Create Rewrite HintDb tiding_b.

#[export] Hint Rewrite andb_true_iff andb_false_iff orb_true_iff orb_false_iff
  negb_true_iff negb_false_iff bool_decide_eq_true bool_decide_eq_false : tiding_b.

(** Turn boolean tests into propositions, everywhere. *)
Ltac bprop :=
  repeat (progress (autorewrite with tiding_b in * )).

(** Case analysis on one boolean test of the goal. *)
Ltac bcase P E :=
  destruct (decide P) as [E|E];
  [rewrite ?(bool_decide_eq_true_2 P E) in *|rewrite ?(bool_decide_eq_false_2 P E) in *].

(** Split conjunctions and simplify equations. *)
Ltac inv_all :=
  repeat match goal with
         | H : _ ∧ _ |- _ => destruct H
         | H : ∃ _, _ |- _ => destruct H
         | H : Some _ = Some _ |- _ => injection H as H
         | H : Done _ = Done _ |- _ => injection H as H
         | H : Raise _ = Raise _ |- _ => injection H as H
         | H : (_, _) = (_, _) |- _ => injection H as H
         end; simplify_eq.

(** Case analysis on the first [match] or [if] scrutinee found in a hypothesis. *)
Ltac dmatch H :=
  match type of H with
  | context [match ?x with _ => _ end] =>
      lazymatch x with
      | context [match _ with _ => _ end] => fail
      | _ => let E := fresh "E" in destruct x eqn:E
      end
  end.

(** The same in the goal. *)
Ltac gmatch :=
  match goal with
  | |- context [match ?x with _ => _ end] =>
      lazymatch x with
      | context [match _ with _ => _ end] => fail
      | _ => let E := fresh "E" in destruct x eqn:E
      end
  end.

(** ** Lists selected and updated by a boolean predicate (SQL's WHERE) *)

Section select.
Context {A : Type}.
Implicit Types (p q : A → bool) (f : A → A) (l : list A).

Definition select p l : list A := filter (λ x, p x = true) l.

Definition update_where p f l : list A := map (λ x, if p x then f x else x) l.

Lemma elem_of_select p l x : x ∈ select p l ↔ p x = true ∧ x ∈ l.
Proof. unfold select. by rewrite list_elem_of_filter. Qed.

Lemma select_nil p l : select p l = [] ↔ ∀ x, x ∈ l → p x = false.
Proof.
  split.
  - intros H x Hx. destruct (p x) eqn:E; [|done].
    assert (x ∈ select p l) as Hs by (by apply elem_of_select).
    rewrite H in Hs. by apply elem_of_nil in Hs.
  - intros H. destruct (select p l) as [|y k] eqn:E; [done|].
    assert (y ∈ select p l) as Hy by (rewrite E; left).
    apply elem_of_select in Hy as [Hp Hy]. specialize (H _ Hy). congruence.
Qed.

Lemma select_app p l k : select p (l ++ k) = select p l ++ select p k.
Proof. apply filter_app. Qed.

Lemma select_cons p x l :
  select p (x :: l) = if p x then x :: select p l else select p l.
Proof. unfold select. rewrite filter_cons. destruct (p x); by case_decide. Qed.

Lemma select_ext p q l : (∀ x, x ∈ l → p x = q x) → select p l = select q l.
Proof.
  induction l as [|x l IH]; intros H; [done|].
  rewrite !select_cons, (H x) by left.
  rewrite IH by (intros y Hy; apply H; by right). done.
Qed.

Lemma select_all p l : (∀ x, x ∈ l → p x = true) → select p l = l.
Proof.
  induction l as [|x l IH]; intros H; [done|].
  rewrite select_cons, (H x) by left. f_equal. apply IH. intros y Hy. apply H. by right.
Qed.

Lemma length_select_le p l : length (select p l) ≤ length l.
Proof. apply length_filter. Qed.

Lemma length_update_where p f l : length (update_where p f l) = length l.
Proof. apply length_map. Qed.

Lemma elem_of_update_where p f l y :
  y ∈ update_where p f l ↔ ∃ x, x ∈ l ∧ y = if p x then f x else x.
Proof.
  unfold update_where. rewrite list_elem_of_fmap. split; intros (x & H1 & H2); eauto.
Qed.

Lemma update_where_id p f l :
  (∀ x, x ∈ l → p x = true → f x = x) → update_where p f l = l.
Proof.
  unfold update_where. induction l as [|x l IH]; intros H; [done|].
  simpl. rewrite IH by (intros y Hy; apply H; by right). f_equal.
  destruct (p x) eqn:E; [|done]. apply H; [by left|done].
Qed.

Lemma update_where_nop p f l :
  (∀ x, x ∈ l → p x = false) → update_where p f l = l.
Proof. intros H. apply update_where_id. intros x Hx. rewrite H by done. done. Qed.

(** A projection the update does not change keeps its list of values. *)
Lemma fmap_update_where {B} (g : A → B) p f l :
  (∀ x, g (f x) = g x) → g <$> update_where p f l = g <$> l.
Proof.
  intros H. induction l as [|x l IH]; [done|].
  cbn. f_equal; [by destruct (p x)|exact IH].
Qed.

Lemma NoDup_fmap_select {B} (g : A → B) p l :
  NoDup (g <$> l) → NoDup (g <$> select p l).
Proof.
  induction l as [|x l IH]; [done|]. simpl. rewrite NoDup_cons. intros [Hx Hl].
  rewrite select_cons. destruct (p x); [|by apply IH].
  simpl. apply NoDup_cons. split; [|by apply IH].
  rewrite list_elem_of_fmap. intros (y & Hy & Hin). apply Hx.
  apply elem_of_select in Hin as [_ Hin]. rewrite Hy. by apply list_elem_of_fmap_2.
Qed.

(** Under a key, at most one element of the list has a given key. *)
Lemma NoDup_fmap_inj {B} (g : A → B) l x y :
  NoDup (g <$> l) → x ∈ l → y ∈ l → g x = g y → x = y.
Proof.
  intros Hnd Hx Hy Hg. apply list_elem_of_lookup in Hx as [i Hi].
  apply list_elem_of_lookup in Hy as [j Hj].
  assert (i = j) as ->.
  { eapply (NoDup_lookup (g <$> l) i j (g x)); [done| |].
    - by rewrite list_lookup_fmap, Hi.
    - by rewrite list_lookup_fmap, Hj, Hg. }
  congruence.
Qed.
End select.

Lemma filter_all {A} (P : A → Prop) `{∀ x, Decision (P x)} (l : list A) :
  (∀ x, x ∈ l → P x) → filter P l = l.
Proof.
  induction l as [|x l IH]; intros Hall; [done|].
  rewrite filter_cons_True by (apply Hall; by left). f_equal. apply IH.
  intros y Hy. apply Hall. by right.
Qed.

Lemma Forall2_same {A} (R : A → A → Prop) (l : list A) : (∀ x, x ∈ l → R x x) → Forall2 R l l.
Proof.
  induction l as [|x l IH]; intros H; constructor; [apply H; by left|].
  apply IH. intros y Hy. apply H. by right.
Qed.

#[export] Hint Rewrite @length_update_where : tiding.
#[export] Hint Resolve NoDup_fmap_select : tiding.

(** Stable deduplication keeping first occurrences ([dict.fromkeys], the
    [if x not in out: out.append(x)] loops of the source). *)
Fixpoint dedup_acc {A} `{EqDecision A} (seen : list A) (l : list A) : list A :=
  match l with
  | [] => []
  | x :: l' => if x isin seen then dedup_acc seen l' else x :: dedup_acc (x :: seen) l'
  end.

Definition dedup {A} `{EqDecision A} (l : list A) : list A := dedup_acc [] l.

Section dedup.
Context {A : Type} `{EqDecision A}.
Implicit Types (l seen : list A).

Lemma elem_of_dedup_acc seen l x : x ∈ dedup_acc seen l ↔ x ∈ l ∧ x ∉ seen.
Proof.
  revert seen. induction l as [|y l IH]; intros seen; simpl.
  - set_solver.
  - case_bool_decide as Hy.
    + rewrite IH. set_solver.
    + rewrite elem_of_cons, IH. destruct (decide (x = y)); set_solver.
Qed.

Lemma NoDup_dedup_acc seen l : NoDup (dedup_acc seen l).
Proof.
  revert seen. induction l as [|y l IH]; intros seen; simpl; [constructor|].
  case_bool_decide; [apply IH|]. constructor; [|apply IH].
  rewrite elem_of_dedup_acc. set_solver.
Qed.

Lemma elem_of_dedup l x : x ∈ dedup l ↔ x ∈ l.
Proof. unfold dedup. rewrite elem_of_dedup_acc. set_solver. Qed.

Lemma NoDup_dedup l : NoDup (dedup l).
Proof. apply NoDup_dedup_acc. Qed.
End dedup.

#[export] Hint Resolve NoDup_dedup : tiding.

(** ** Stable sorting by a boolean order (Python's [sorted], SQL's ORDER BY) *)

Fixpoint insert_by {A} (leb : A → A → bool) (x : A) (l : list A) : list A :=
  match l with
  | [] => [x]
  | y :: l' => if leb y x then y :: insert_by leb x l' else x :: l
  end.

Definition sort_by {A} (leb : A → A → bool) (l : list A) : list A :=
  foldl (λ acc x, insert_by leb x acc) [] l.

Section sort_by.
Context {A : Type} (leb : A → A → bool).
Implicit Types (x y : A) (l : list A).

Lemma insert_by_Permutation x l : insert_by leb x l ≡ₚ x :: l.
Proof.
  induction l as [|y l IH]; simpl; [done|]. destruct (leb y x); [|done]. rewrite IH. constructor.
Qed.

Lemma sort_by_Permutation l : sort_by leb l ≡ₚ l.
Proof.
  unfold sort_by.
  assert (∀ acc, foldl (λ acc x, insert_by leb x acc) acc l ≡ₚ l ++ acc) as H.
  { induction l as [|x l IH]; intros acc; simpl; [done|].
    rewrite IH, insert_by_Permutation. by rewrite Permutation_middle. }
  by rewrite H, app_nil_r.
Qed.

Lemma elem_of_sort_by x l : x ∈ sort_by leb l ↔ x ∈ l.
Proof. by rewrite sort_by_Permutation. Qed.

Context (leb_total : ∀ x y, leb x y = true ∨ leb y x = true)
        (leb_trans : ∀ x y z, leb x y = true → leb y z = true → leb x z = true).

Lemma insert_by_sorted x l :
  StronglySorted (λ a b, leb a b = true) l → StronglySorted (λ a b, leb a b = true) (insert_by leb x l).
Proof.
  induction 1 as [|y l Hs IH Hall]; simpl; [by repeat constructor|]. rewrite Forall_forall in Hall.
  destruct (leb y x) eqn:E.
  - constructor; [done|]. apply Forall_forall. intros z Hz. rewrite insert_by_Permutation in Hz.
    apply elem_of_cons in Hz as [->|Hz]; auto.
  - assert (leb x y = true) as Hxy by (destruct (leb_total x y); congruence).
    constructor; [constructor; [done|by apply Forall_forall]|]. apply Forall_forall.
    intros z [->|Hz]%elem_of_cons; [done|]. eauto.
Qed.

Lemma sort_by_sorted l : StronglySorted (λ a b, leb a b = true) (sort_by leb l).
Proof.
  unfold sort_by. assert (∀ acc, StronglySorted (λ a b, leb a b = true) acc →
    StronglySorted (λ a b, leb a b = true) (foldl (λ acc x, insert_by leb x acc) acc l)) as H.
  { induction l as [|x l IH]; intros acc Hacc; simpl; [done|]. by apply IH, insert_by_sorted. }
  apply H. constructor.
Qed.

(** The first of a sorted list that a predicate selects is its least one. *)
Lemma sort_by_head (p : A → bool) l x :
  head (select p (sort_by leb l)) = Some x → x ∈ l ∧ p x = true ∧ ∀ y, y ∈ l → p y = true → y = x ∨ leb x y = true.
Proof.
  intros Hh. assert (x ∈ select p (sort_by leb l)) as Hx by (by apply head_Some_elem_of).
  apply elem_of_select in Hx as [Hp Hx]. rewrite elem_of_sort_by in Hx. split_and!; [done..|].
  intros y Hy Hpy. rewrite <- (elem_of_sort_by y l) in Hy.
  pose proof (sort_by_sorted l) as Hs. induction Hs as [|z k Hs IH Hall]; [by apply elem_of_nil in Hy|].
  rewrite select_cons in Hh. destruct (p z) eqn:Hz.
  - injection Hh as ->. apply elem_of_cons in Hy as [->|Hy]; [by left|right].
    rewrite Forall_forall in Hall. auto.
  - apply elem_of_cons in Hy as [->|Hy]; [congruence|auto].
Qed.

Lemma sort_by_least (p : A → bool) l x :
  (∀ y, leb x y = true → leb y x = true → y ∈ l → y = x) →
  x ∈ l → p x = true → (∀ y, y ∈ l → p y = true → leb x y = true) →
  head (select p (sort_by leb l)) = Some x.
Proof.
  intros Hanti Hx Hp Hmin. destruct (head (select p (sort_by leb l))) as [y|] eqn:E.
  - destruct (sort_by_head p l y E) as (Hy & Hpy & Hleast). f_equal.
    destruct (Hleast x Hx Hp) as [->|Hle]; [done|]. apply Hanti; auto.
  - apply head_None in E. exfalso.
    assert (x ∈ select p (sort_by leb l)) as Hin by (apply elem_of_select; by rewrite elem_of_sort_by).
    rewrite E in Hin. by apply elem_of_nil in Hin.
Qed.
End sort_by.

(** A selection of a sorted list is sorted. *)
Lemma StronglySorted_select {A} (R : A → A → Prop) (p : A → bool) l :
  StronglySorted R l → StronglySorted R (select p l).
Proof.
  induction 1 as [|x l Hs IH Hall]; [constructor|]. rewrite select_cons.
  destruct (p x); [|done]. constructor; [done|]. rewrite Forall_forall in Hall |- *.
  intros y [_ Hy]%elem_of_select. auto.
Qed.

(** Sorting commutes with a map that leaves the order alone. *)
Lemma sort_by_fmap {A B} (leb : A → A → bool) (leb' : B → B → bool) (f : A → B) l :
  (∀ x y, leb' (f x) (f y) = leb x y) → sort_by leb' (f <$> l) = f <$> sort_by leb l.
Proof.
  intros Hf. assert (∀ x k, insert_by leb' (f x) (f <$> k) = f <$> insert_by leb x k) as Hins.
  { intros x k. induction k as [|y k IH]; [done|]. cbn [fmap list_fmap insert_by]. rewrite Hf.
    destruct (leb y x); [|done]. cbn [fmap list_fmap]. f_equal. exact IH. }
  unfold sort_by. assert (∀ acc, foldl (λ acc x, insert_by leb' x acc) (f <$> acc) (f <$> l) =
    f <$> foldl (λ acc x, insert_by leb x acc) acc l) as H; [|apply (H [])].
  induction l as [|x l IH]; intros acc; [done|]. cbn [fmap list_fmap foldl].
  change (list_fmap _ _ f acc) with (f <$> acc). rewrite Hins. apply IH.
Qed.
