(* ===== verification/PyString.v ===== *)
(** Python's [str] methods, as the source uses them: [lower], [strip],
    [startswith], [endswith], slicing after a prefix, [partition] and
    [split(sep, 1)] on a one-character separator, [replace], [isdigit].
    Strings are byte strings (UTF-8); case folding and white space are the
    ASCII ones, which are those of every address, key and identifier. *)

From stdpp Require Import base list strings sorting.
From Stdlib Require Import Ascii.
From S2P Require Import Prelude.

(** Let [simpl] compute concatenation (std++ blocks it). *)
#[global] Arguments String.append : simpl nomatch.

(** ** Characters *)

Definition in_range (lo hi c : ascii) : bool :=
  (N_of_ascii lo <=? N_of_ascii c)%N && (N_of_ascii c <=? N_of_ascii hi)%N.

Definition is_lower_char (c : ascii) : bool := in_range "a" "z" c.
Definition is_upper_char (c : ascii) : bool := in_range "A" "Z" c.
Definition is_digit_char (c : ascii) : bool := in_range "0" "9" c.
Definition is_alnum_char (c : ascii) : bool :=
  is_lower_char c || is_upper_char c || is_digit_char c.

(** [str.isspace] on ASCII: 9-13, 28-31 and 32. *)
Definition is_space_char (c : ascii) : bool :=
  let n := N_of_ascii c in
  ((9 <=? n)%N && (n <=? 13)%N) || ((28 <=? n)%N && (n <=? 32)%N).

Definition lower_char (c : ascii) : ascii :=
  if is_upper_char c then ascii_of_N (N_of_ascii c + 32) else c.

(** ** Whole strings *)

Fixpoint smap (f : ascii → ascii) (s : string) : string :=
  match s with
  | EmptyString => EmptyString
  | String c s' => String (f c) (smap f s')
  end.

Fixpoint sforall (p : ascii → bool) (s : string) : bool :=
  match s with
  | EmptyString => true
  | String c s' => p c && sforall p s'
  end.

(** [s.lower()] *)
Definition lower (s : string) : string := smap lower_char s.

Fixpoint lstrip (s : string) : string :=
  match s with
  | String c s' => if is_space_char c then lstrip s' else s
  | EmptyString => EmptyString
  end.

Fixpoint rstrip (s : string) : string :=
  match s with
  | EmptyString => EmptyString
  | String c s' =>
      match rstrip s' with
      | EmptyString => if is_space_char c then EmptyString else String c EmptyString
      | r => String c r
      end
  end.

(** [s.strip()] *)
Definition strip (s : string) : string := rstrip (lstrip s).

(** [s[len(p):]] when [s] starts with [p]. *)
Fixpoint drop_prefix (p s : string) : option string :=
  match p, s with
  | EmptyString, _ => Some s
  | String a p', String b s' => if a == b then drop_prefix p' s' else None
  | String _ _, EmptyString => None
  end.

(** [s.startswith(p)] *)
Definition startswith (p s : string) : bool :=
  match drop_prefix p s with Some _ => true | None => false end.

(** [s.removeprefix(p)] *)
Definition removeprefix (p s : string) : string := default s (drop_prefix p s).

(** [s.endswith(p)] *)
Fixpoint endswith (p s : string) : bool :=
  (p == s) || match s with EmptyString => false | String _ s' => endswith p s' end.

(** [c in s] for one character. *)
Fixpoint has_char (c : ascii) (s : string) : bool :=
  match s with
  | EmptyString => false
  | String d s' => (c == d) || has_char c s'
  end.

(** [s.split(c, 1)]: the text before the first [c], and after it when there is one. *)
Fixpoint split1 (c : ascii) (s : string) : string * option string :=
  match s with
  | EmptyString => ("", None)
  | String d s' =>
      if c == d then ("", Some s')
      else let '(l, r) := split1 c s' in (String d l, r)
  end.

(** [s.partition(c)[0]] and [s.split(c, 1)[0]]. *)
Definition before (c : ascii) (s : string) : string := (split1 c s).1.

(** [sep + rest] of [s.partition(c)]: empty when [c] does not occur. *)
Definition sep_after (c : ascii) (s : string) : string :=
  match (split1 c s).2 with
  | Some r => String c r
  | None => ""
  end.

(** [s.split(c)] *)
Fixpoint split_on (c : ascii) (s : string) : list string :=
  match s with
  | EmptyString => [""]
  | String d s' =>
      if c == d then "" :: split_on c s'
      else match split_on c s' with
           | x :: rest => String d x :: rest
           | [] => [String d ""]
           end
  end.

(** [int(s)] of a text of digits, after [acc]. *)
Fixpoint digits (acc : N) (s : string) : N :=
  match s with
  | EmptyString => acc
  | String c s' => digits (acc * 10 + (N_of_ascii c - 48)) s'
  end.

Definition isdigit (s : string) : bool :=
  match s with EmptyString => false | _ => sforall is_digit_char s end.

(** [s[:n]] *)
Fixpoint stake (n : nat) (s : string) : string :=
  match n, s with
  | S n', String c s' => String c (stake n' s')
  | _, _ => ""
  end.

(** Python truth of a string. *)
Definition nonempty (s : string) : bool :=
  match s with EmptyString => false | _ => true end.

(** [sep.join(l)] *)
Fixpoint join (sep : string) (l : list string) : string :=
  match l with
  | [] => ""
  | [x] => x
  | x :: l' => x +:+ sep +:+ join sep l'
  end.

(** [(v or "").strip().lower()], the normal form of names and addresses. *)
Definition norm (v : option string) : string := lower (strip (or_empty v)).

(** ** Lemmas *)

Lemma lower_char_idem c : lower_char (lower_char c) = lower_char c.
Proof. by destruct c as [[] [] [] [] [] [] [] []]. Qed.

Lemma lower_char_space c : is_space_char (lower_char c) = is_space_char c.
Proof. by destruct c as [[] [] [] [] [] [] [] []]. Qed.

Lemma lower_idem s : lower (lower s) = lower s.
Proof.
  unfold lower. induction s as [|c s IH]; simpl; [done|].
  by rewrite lower_char_idem, IH.
Qed.

Lemma lower_app s t : lower (s +:+ t) = lower s +:+ lower t.
Proof. unfold lower. induction s as [|c s IH]; simpl; [done|]. f_equal; auto. Qed.

Lemma lstrip_lower s : lstrip (lower s) = lower (lstrip s).
Proof.
  unfold lower. induction s as [|c s IH]; simpl; [done|].
  rewrite lower_char_space. by destruct (is_space_char c).
Qed.

Lemma rstrip_lower s : rstrip (lower s) = lower (rstrip s).
Proof.
  unfold lower. induction s as [|c s IH]; simpl; [done|].
  rewrite IH. destruct (rstrip s) as [|d r]; simpl; [|done].
  rewrite lower_char_space. by destruct (is_space_char c).
Qed.

Lemma strip_lower s : strip (lower s) = lower (strip s).
Proof. unfold strip. by rewrite lstrip_lower, rstrip_lower. Qed.

Lemma rstrip_idem s : rstrip (rstrip s) = rstrip s.
Proof.
  induction s as [|c s IH]; simpl; [done|].
  destruct (rstrip s) as [|d r] eqn:E; simpl.
  - destruct (is_space_char c) eqn:Hc; simpl; [done|]. by rewrite Hc.
  - simpl in IH. by rewrite IH.
Qed.

(** A string without leading white space. *)
Definition no_lead (s : string) : bool :=
  match s with String c _ => negb (is_space_char c) | EmptyString => true end.

Lemma lstrip_no_lead s : no_lead (lstrip s) = true.
Proof.
  induction s as [|c s IH]; simpl; [done|].
  destruct (is_space_char c) eqn:E; simpl; [done|]. by rewrite E.
Qed.

Lemma no_lead_lstrip s : no_lead s = true → lstrip s = s.
Proof. destruct s as [|c s]; simpl; [done|]. by destruct (is_space_char c). Qed.

Lemma no_lead_rstrip s : no_lead s = true → no_lead (rstrip s) = true.
Proof.
  destruct s as [|c s]; simpl; [done|]. intros H.
  destruct (is_space_char c) eqn:Hc; [done|].
  destruct (rstrip s); simpl; by rewrite Hc.
Qed.

Lemma strip_idem s : strip (strip s) = strip s.
Proof.
  unfold strip.
  rewrite (no_lead_lstrip (rstrip (lstrip s)))
    by (apply no_lead_rstrip, lstrip_no_lead).
  apply rstrip_idem.
Qed.

(** The normal form is a normal form. *)
Lemma norm_idem v : norm (Some (norm v)) = norm v.
Proof. unfold norm. simpl. by rewrite strip_lower, strip_idem, lower_idem. Qed.

Lemma lower_norm v : lower (norm v) = norm v.
Proof. unfold norm. apply lower_idem. Qed.

Lemma strip_norm v : strip (norm v) = norm v.
Proof. unfold norm. by rewrite strip_lower, strip_idem. Qed.

Lemma drop_prefix_Some p s r : drop_prefix p s = Some r ↔ s = p +:+ r.
Proof.
  revert s. induction p as [|a p IH]; intros s; simpl; [naive_solver|].
  destruct s as [|b s]; [naive_solver|].
  case_bool_decide; [subst|naive_solver]. rewrite IH. naive_solver.
Qed.

Lemma drop_prefix_app p r : drop_prefix p (p +:+ r) = Some r.
Proof. by apply drop_prefix_Some. Qed.

Lemma startswith_true p s : startswith p s = true ↔ ∃ r, s = p +:+ r.
Proof.
  unfold startswith. destruct (drop_prefix p s) as [r|] eqn:E.
  - apply drop_prefix_Some in E. naive_solver.
  - split; [done|]. intros [r ->]. by rewrite drop_prefix_app in E.
Qed.

Lemma startswith_app p r : startswith p (p +:+ r) = true.
Proof. apply startswith_true. eauto. Qed.

Lemma removeprefix_app p r : removeprefix p (p +:+ r) = r.
Proof. unfold removeprefix. by rewrite drop_prefix_app. Qed.

Lemma string_app_inj_l p s t : p +:+ s = p +:+ t → s = t.
Proof. induction p; simpl; [done|]. intros [=]; auto. Qed.

Lemma string_app_assoc (s t u : string) : (s +:+ t) +:+ u = s +:+ t +:+ u.
Proof. induction s; simpl; [done|]. f_equal; auto. Qed.

Lemma string_app_nil_r (s : string) : s +:+ "" = s.
Proof. induction s; simpl; [done|]. f_equal; auto. Qed.

Lemma string_length_app (s t : string) :
  String.length (s +:+ t) = String.length s + String.length t.
Proof. induction s; simpl; [done|]. f_equal; auto. Qed.

Lemma endswith_true p s : endswith p s = true ↔ ∃ r, s = r +:+ p.
Proof.
  induction s as [|c s IH]; simpl.
  - rewrite orb_false_r, bool_decide_eq_true. split.
    + intros ->. by exists "".
    + intros [[|] H]; simpl in *; [done|discriminate].
  - rewrite orb_true_iff, bool_decide_eq_true, IH. split.
    + intros [->|[r ->]]; [by exists ""|by exists (String c r)].
    + intros [[|d r] H]; simpl in H; [by left|]. injection H as -> ->. right. eauto.
Qed.

Lemma split1_None c s : has_char c s = false → split1 c s = (s, None).
Proof.
  induction s as [|d s IH]; simpl; [done|].
  rewrite orb_false_iff, bool_decide_eq_false. intros [Hne H].
  rewrite bool_decide_eq_false_2 by done. by rewrite IH.
Qed.

Lemma split1_app c l r : has_char c l = false → split1 c (l +:+ String c r) = (l, Some r).
Proof.
  induction l as [|d l IH]; simpl.
  - by rewrite bool_decide_eq_true_2.
  - rewrite orb_false_iff, bool_decide_eq_false. intros [Hne H].
    rewrite bool_decide_eq_false_2 by done. by rewrite IH.
Qed.

Lemma split1_before c s : has_char c (split1 c s).1 = false.
Proof.
  induction s as [|d s IH]; simpl; [done|].
  case_bool_decide as E; simpl; [done|].
  destruct (split1 c s) as [l r]; simpl in *.
  by rewrite bool_decide_eq_false_2, IH.
Qed.

(** [partition] loses nothing. *)
Lemma before_sep_after c s : before c s +:+ sep_after c s = s.
Proof.
  unfold before, sep_after. induction s as [|d s IH]; simpl; [done|].
  case_bool_decide; [by subst|].
  destruct (split1 c s) as [l r]; simpl in *. by rewrite IH.
Qed.

Lemma before_no_char c s : has_char c (before c s) = false.
Proof. apply split1_before. Qed.

Lemma before_id c s : has_char c s = false → before c s = s.
Proof. intros H. unfold before. by rewrite split1_None. Qed.

Lemma sep_after_id c s : has_char c s = false → sep_after c s = "".
Proof. intros H. unfold sep_after. by rewrite split1_None. Qed.

Lemma before_app c l r : has_char c l = false → before c (l +:+ String c r) = l.
Proof. intros H. unfold before. by rewrite split1_app. Qed.

Lemma has_char_app c s t : has_char c (s +:+ t) = has_char c s || has_char c t.
Proof. induction s; simpl; [done|]. rewrite IHs. by rewrite orb_assoc. Qed.

Lemma sforall_app p s t : sforall p (s +:+ t) = sforall p s && sforall p t.
Proof. induction s; simpl; [done|]. rewrite IHs. by rewrite andb_assoc. Qed.

Lemma nonempty_true s : nonempty s = true ↔ s ≠ "".
Proof. by destruct s. Qed.

#[export] Hint Rewrite lower_idem norm_idem lower_norm strip_norm drop_prefix_app
  startswith_app removeprefix_app : tiding.

(** ** Sorting ([sorted] on strings: code point order, which is byte order in UTF-8) *)

Definition sorted (l : list string) : list string := merge_sort String.le l.

Lemma elem_of_sorted l x : x ∈ sorted l ↔ x ∈ l.
Proof. unfold sorted. by rewrite merge_sort_Permutation. Qed.

Lemma NoDup_sorted l : NoDup (sorted l) ↔ NoDup l.
Proof. unfold sorted. by rewrite merge_sort_Permutation. Qed.
