(* ===== verification/Json.v ===== *)
(** JSON values and the [metadata JSONB] column: the operators the SQL of the
    source applies to it ([->>], [||], [?], [jsonb_set], [- key]) and the
    Python accesses to the decoded dictionary.

    An instant written into metadata (by [datetime.isoformat()] or by
    [NOW()::text]) is the JSON string of that instant; it is kept as [JTime t],
    the instant itself, because the code only ever casts it back
    ([::timestamptz], [fromisoformat]) or hands it on unread. *)

From stdpp Require Import base gmap list strings pretty.
From Stdlib Require Import ZArith Ascii.
From S2P Require Import Prelude PyString.

Inductive json : Type :=
| JNull
| JBool (b : bool)
| JNum (z : Z)
| JStr (s : string)
| JTime (t : Z)
| JArr (l : list json)
| JObj (m : list (string * json)).

#[global] Instance json_eq_dec : EqDecision json.
Proof.
  refine (fix go x y : Decision (x = y) :=
    let _ : EqDecision json := @go in
    match x, y with
    | JNull, JNull => left _
    | JBool b, JBool c => cast_if (decide (b = c))
    | JNum z, JNum w => cast_if (decide (z = w))
    | JStr s, JStr u => cast_if (decide (s = u))
    | JTime s, JTime u => cast_if (decide (s = u))
    | JArr l, JArr k => cast_if (decide_rel (=) l k)
    | JObj l, JObj k => cast_if (decide_rel (=) l k)
    | _, _ => right _
    end); abstract congruence.
Defined.

(** A decoded metadata object. *)
Abbreviation jobj := (gmap string json).

(** ** The text form of a value, as [jsonb] prints it *)

Definition hex_digit (n : nat) : string :=
  default "" (["0"; "1"; "2"; "3"; "4"; "5"; "6"; "7"; "8"; "9"; "a"; "b"; "c"; "d"; "e"; "f"] !! n).

Definition jescape_char (c : ascii) : string :=
  match nat_of_ascii c with
  | 8 => "\b" | 9 => "\t" | 10 => "\n" | 12 => "\f" | 13 => "\r"
  | 34 => String "\" (String c "")
  | 92 => "\\"
  | n => if (n <? 32)%nat then "\u00" +:+ hex_digit (n / 16) +:+ hex_digit (n mod 16)
         else String c ""
  end.

Fixpoint jescape (s : string) : string :=
  match s with
  | EmptyString => ""
  | String c s' => jescape_char c +:+ jescape s'
  end.

Definition jquote (s : string) : string :=
  let q := String (ascii_of_nat 34) "" in q +:+ jescape s +:+ q.

Fixpoint jprint (j : json) : string :=
  match j with
  | JNull => "null"
  | JBool b => if b then "true" else "false"
  | JNum z => pretty z
  | JStr s => jquote s
  | JTime t => jquote (pretty t)
  | JArr l => "[" +:+ join ", " (map jprint l) +:+ "]"
  | JObj m => "{" +:+ join ", " (map (λ kv, jquote kv.1 +:+ ": " +:+ jprint kv.2) m) +:+ "}"
  end.

(** [metadata->>'k'] of one value: SQL NULL for JSON null, a string's own
    text, the printed form of anything else. *)
Definition jtext (j : json) : option string :=
  match j with
  | JNull => None
  | JStr s => Some s
  | JTime t => Some (pretty t)
  | _ => Some (jprint j)
  end.

(** [metadata->>'k'] *)
Definition md_text (m : option jobj) (k : string) : option string :=
  md ← m; j ← md !! k; jtext j.

(** [COALESCE(metadata->>'k', d)] *)
Definition md_text_or (d : string) (m : option jobj) (k : string) : string :=
  default d (md_text m k).

(** [metadata->'k'] *)
Definition md_get (m : option jobj) (k : string) : option json := md ← m; md !! k.

(** The instant behind [(metadata->>'k')::timestamptz] / [fromisoformat]. *)
Definition md_time (m : option jobj) (k : string) : option Z :=
  match md_get m k with
  | Some (JTime t) => Some t
  | _ => None
  end.

(** [COALESCE(metadata, '{}'::jsonb) || stamp] *)
Definition md_merge (m : option jobj) (stamp : jobj) : option jobj :=
  Some (stamp ∪ default ∅ m).

(** [metadata || stamp] without the COALESCE: NULL absorbs. *)
Definition md_merge_strict (m : option jobj) (stamp : jobj) : option jobj :=
  md ← m; Some (stamp ∪ md).

(** [jsonb_set(COALESCE(metadata, '{}'), '{k}', v, true)] *)
Definition md_set (m : option jobj) (k : string) (v : json) : option jobj :=
  Some (<[k := v]> (default ∅ m)).

(** [COALESCE((metadata->>'k')::bool, false)], with PostgreSQL's spellings of true. *)
Definition pg_true : list string :=
  ["t"; "tr"; "tru"; "true"; "y"; "ye"; "yes"; "on"; "1"].
Definition md_bool (m : option jobj) (k : string) : bool :=
  match md_text m k with
  | Some s => lower s isin pg_true
  | None => false
  end.

(** [j ? x]: a string element of an array, or a key of an object. *)
Definition jhas (j : json) (x : string) : bool :=
  match j with
  | JArr l => existsb (λ e, match e with JStr s => s == x | _ => false end) l
  | JObj m => existsb (λ kv, kv.1 == x) m
  | JStr s => s == x
  | _ => false
  end.

(** [COALESCE(metadata->'k', '[]'::jsonb) ? x] *)
Definition md_has (m : option jobj) (k x : string) : bool :=
  match md_get m k with
  | Some j => jhas j x
  | None => false
  end.

(** [j || to_jsonb(x)] *)
Definition jappend (j : json) (x : json) : json :=
  match j with
  | JArr l => JArr (l ++ [x])
  | _ => JArr [j; x]
  end.

(** [jsonb_array_length(COALESCE(metadata->'k', '[]'::jsonb))] *)
Definition md_array_length (m : option jobj) (k : string) : nat :=
  match md_get m k with
  | Some (JArr l) => length l
  | _ => 0
  end.

(** An optional text as a JSON value ([None] dumps to [null]). *)
Definition jopt (s : option string) : json :=
  match s with
  | Some s => JStr s
  | None => JNull
  end.

(** Python's [md.get("k")] where the value is text: [None] for null and for
    values that are not text. *)
Definition py_str (m : option jobj) (k : string) : option string :=
  match md_get m k with
  | Some (JStr s) => Some s
  | _ => None
  end.

(** [md.get("k") or {}] of a dictionary value, as its items. *)
Definition py_items (m : option jobj) (k : string) : list (string * json) :=
  match md_get m k with
  | Some (JObj l) => l
  | _ => []
  end.

(** [[n for n in md.get("k") or [] if isinstance(n, str)]] *)
Definition py_strs (m : option jobj) (k : string) : list string :=
  match md_get m k with
  | Some (JArr l) => omap (λ e, match e with JStr s => Some s | _ => None end) l
  | _ => []
  end.

(** [bool(md.get("k"))] *)
Definition py_flag (m : option jobj) (k : string) : bool :=
  match md_get m k with
  | Some (JBool b) => b
  | Some (JStr s) => nonempty s
  | Some (JNum z) => negb (z == 0%Z)
  | Some (JTime _) => true
  | Some (JArr l) => negb (length l == 0)
  | Some (JObj l) => negb (length l == 0)
  | Some JNull | None => false
  end.

(** ** Lemmas *)

Section metadata.
Implicit Types (m : option jobj) (k x : string) (stamp : jobj).

Lemma md_get_merge m stamp k :
  md_get (md_merge m stamp) k =
    match stamp !! k with Some v => Some v | None => md_get m k end.
Proof.
  unfold md_get, md_merge. simpl. rewrite lookup_union.
  destruct (stamp !! k) eqn:E; simpl.
  - by rewrite union_Some_l.
  - rewrite left_id by apply _. by destruct m.
Qed.

Lemma md_text_get m k : md_text m k = md_get m k ≫= jtext.
Proof. by destruct m. Qed.

Lemma md_text_merge m stamp k :
  md_text (md_merge m stamp) k =
    match stamp !! k with Some v => jtext v | None => md_text m k end.
Proof.
  rewrite !md_text_get, md_get_merge. by destruct (stamp !! k).
Qed.

Lemma md_get_set_eq m k v : md_get (md_set m k v) k = Some v.
Proof. unfold md_get, md_set; simpl. by rewrite lookup_insert_eq. Qed.

Lemma md_get_set_ne m k k' v : k ≠ k' → md_get (md_set m k v) k' = md_get m k'.
Proof.
  intros. unfold md_get, md_set; simpl. rewrite lookup_insert_ne by done.
  by destruct m.
Qed.

Lemma md_text_set_ne m k k' v : k ≠ k' → md_text (md_set m k v) k' = md_text m k'.
Proof. intros. by rewrite !md_text_get, md_get_set_ne. Qed.

Lemma md_bool_ext m m' k : md_text m k = md_text m' k → md_bool m k = md_bool m' k.
Proof. unfold md_bool. by intros ->. Qed.

Lemma jhas_append j x : jhas (jappend j (JStr x)) x = true.
Proof.
  destruct j; simpl; rewrite ?existsb_app; simpl;
    rewrite (bool_decide_eq_true_2 (x = x)) by done; by rewrite ?orb_true_r.
Qed.

(** Appending one name leaves every other name as it was, in an array. *)
Lemma jhas_append_ne l x y :
  x ≠ y → jhas (jappend (JArr l) (JStr x)) y = jhas (JArr l) y.
Proof.
  intros. simpl. rewrite existsb_app. simpl.
  rewrite (bool_decide_eq_false_2 (x = y)) by done. by rewrite !orb_false_r.
Qed.

Lemma elem_of_py_strs m k s :
  s ∈ py_strs m k ↔ ∃ l, md_get m k = Some (JArr l) ∧ JStr s ∈ l.
Proof.
  unfold py_strs. split.
  - destruct (md_get m k) as [[]|]; try by intros ?%elem_of_nil.
    intros (e & He & Hs)%list_elem_of_omap. destruct e; naive_solver.
  - intros (l & -> & Hl). apply list_elem_of_omap. by exists (JStr s).
Qed.
End metadata.

#[export] Hint Rewrite md_get_merge md_text_merge md_get_set_eq jhas_append : tiding.
