(* ===== verification/Store.v ===== *)
(** The [memories] table (src/server/db.py) and the SQL statements the server
    runs on it.

    One table carries every kind of row: memories, inbox mail, presence,
    seats, watch claims, death certificates. A [table] is the list of its
    rows with the sequence that mints ids; every statement is a function on
    it. [NOW()] is an argument, in seconds. A statement that would violate
    the unique index [(namespace, key, scope, user_id, project)] (NULLS NOT
    DISTINCT) does not apply. The embedding column is computed by a
    third-party model and no operation here reads it: it is left out. *)

From stdpp Require Import base gmap list strings.
From Stdlib Require Import ZArith Lia.
From S2P Require Import Prelude PyString Json.

(** ** Rows *)

(** The unique key of a row. *)
Record pkey := PKey {
  k_ns : string;
  k_key : string;
  k_scope : string;
  k_user : string;
  k_project : option string
}.

#[global] Instance pkey_eq_dec : EqDecision pkey.
Proof. solve_decision. Defined.

Record row := Row {
  r_id : Z;
  r_pk : pkey;
  r_value : string;
  r_tags : string;
  r_tags_search : string;
  r_search : string;
  r_created : Z;
  r_used : Z;
  r_expires : option Z;
  r_meta : option jobj;
  r_owner : option string;
  r_custodian : option string
}.

#[global] Instance row_eq_dec : EqDecision row.
Proof. solve_decision. Defined.

Abbreviation r_ns r := (k_ns (r_pk r)).
Abbreviation r_key r := (k_key (r_pk r)).
Abbreviation r_scope r := (k_scope (r_pk r)).
Abbreviation r_user r := (k_user (r_pk r)).
Abbreviation r_project r := (k_project (r_pk r)).

(** What an INSERT supplies: every column but the id and the two clocks. *)
Record new_row := NewRow {
  n_pk : pkey;
  n_value : string;
  n_tags : string;
  n_tags_search : string;
  n_search : string;
  n_expires : option Z;
  n_meta : option jobj;
  n_owner : option string
}.

Definition set_meta (m : option jobj) (r : row) : row :=
  Row (r_id r) (r_pk r) (r_value r) (r_tags r) (r_tags_search r) (r_search r)
      (r_created r) (r_used r) (r_expires r) m (r_owner r) (r_custodian r).

Definition set_used (t : Z) (r : row) : row :=
  Row (r_id r) (r_pk r) (r_value r) (r_tags r) (r_tags_search r) (r_search r)
      (r_created r) t (r_expires r) (r_meta r) (r_owner r) (r_custodian r).

Definition set_value (v : string) (r : row) : row :=
  Row (r_id r) (r_pk r) v (r_tags r) (r_tags_search r) (r_search r)
      (r_created r) (r_used r) (r_expires r) (r_meta r) (r_owner r) (r_custodian r).

Definition set_custodian (c : option string) (r : row) : row :=
  Row (r_id r) (r_pk r) (r_value r) (r_tags r) (r_tags_search r) (r_search r)
      (r_created r) (r_used r) (r_expires r) (r_meta r) (r_owner r) c.

Definition set_pk (k : pkey) (r : row) : row :=
  Row (r_id r) k (r_value r) (r_tags r) (r_tags_search r) (r_search r)
      (r_created r) (r_used r) (r_expires r) (r_meta r) (r_owner r) (r_custodian r).

Definition has_pk (k : pkey) (r : row) : bool := r_pk r == k.

(** ** The table *)

Record table := Table { t_rows : list row; t_seq : Z }.

Definition empty_table : table := Table [] 1.

(** ** Statements *)

(** [SELECT ... WHERE p] *)
Definition sql_select (p : row → bool) (t : table) : list row := select p (t_rows t).

(** [fetchrow] of the row at a key. *)
Definition sql_find (k : pkey) (t : table) : option row := head (sql_select (has_pk k) t).

(** [UPDATE ... SET f WHERE p], for an [f] that leaves the unique key alone. *)
Definition sql_update (p : row → bool) (f : row → row) (t : table) : table :=
  Table (update_where p f (t_rows t)) (t_seq t).

(** How many rows the UPDATE (or DELETE) reports. *)
Definition sql_count (p : row → bool) (t : table) : nat := length (sql_select p t).

(** [DELETE ... WHERE p] *)
Definition sql_delete (p : row → bool) (t : table) : table :=
  Table (select (λ r, negb (p r)) (t_rows t)) (t_seq t).

Definition mk_row (id now : Z) (n : new_row) : row :=
  Row id (n_pk n) (n_value n) (n_tags n) (n_tags_search n) (n_search n)
      now now (n_expires n) (n_meta n) (n_owner n) None.

(** [INSERT] at a key the caller knows to be free. *)
Definition sql_append (now : Z) (n : new_row) (t : table) : table :=
  Table (t_rows t ++ [mk_row (t_seq t) now n]) (t_seq t + 1).

(** [INSERT ... ON CONFLICT DO NOTHING RETURNING id] *)
Definition sql_insert_nothing (now : Z) (n : new_row) (t : table) : option Z * table :=
  match sql_find (n_pk n) t with
  | Some _ => (None, t)
  | None => (Some (t_seq t), sql_append now n t)
  end.

(** [INSERT ... ON CONFLICT DO UPDATE SET f RETURNING (xmax = 0)] *)
Definition sql_upsert (now : Z) (n : new_row) (f : row → row) (t : table) : bool * table :=
  match sql_find (n_pk n) t with
  | Some _ => (false, sql_update (has_pk (n_pk n)) f t)
  | None => (true, sql_append now n t)
  end.

(** One row of an UPDATE that assigns key columns: refused (unique violation)
    when another row already has the new key. *)
Definition sql_rekey (i : Z) (g : pkey → pkey) (t : table) : option table :=
  if existsb (λ r, (r_id r == i) &&
        existsb (λ r', (r_id r' != i) && has_pk (g (r_pk r)) r') (t_rows t)) (t_rows t)
  then None
  else Some (sql_update (λ r, r_id r == i) (λ r, set_pk (g (r_pk r)) r) t).

(** An UPDATE of key columns checks the unique index row by row. *)
Fixpoint sql_rekeys (us : list (Z * (pkey → pkey))) (t : table) : option table :=
  match us with
  | [] => Some t
  | (i, g) :: us' => t' ← sql_rekey i g t; sql_rekeys us' t'
  end.

(** ** Well-formedness: the unique index and the primary key *)

Definition wf (t : table) : Prop :=
  NoDup (r_pk <$> t_rows t) ∧ NoDup (r_id <$> t_rows t) ∧
  Forall (λ r, (r_id r < t_seq t)%Z) (t_rows t).

(** An update that leaves both keys alone. *)
Class KeepsKeys (f : row → row) : Prop := {
  keeps_pk r : r_pk (f r) = r_pk r;
  keeps_id r : r_id (f r) = r_id r
}.

Section store.
Implicit Types (t : table) (r : row) (k : pkey) (p : row → bool) (f : row → row) (n : new_row).

#[global] Instance set_meta_keeps m : KeepsKeys (set_meta m).
Proof. by split. Qed.
#[global] Instance set_used_keeps u : KeepsKeys (set_used u).
Proof. by split. Qed.
#[global] Instance set_value_keeps v : KeepsKeys (set_value v).
Proof. by split. Qed.
#[global] Instance set_custodian_keeps c : KeepsKeys (set_custodian c).
Proof. by split. Qed.
#[global] Instance set_meta_of_keeps (g : row → option jobj) :
  KeepsKeys (λ r, set_meta (g r) r).
Proof. by split. Qed.
#[global] Instance compose_keeps f g : KeepsKeys f → KeepsKeys g → KeepsKeys (λ r, f (g r)).
Proof.
  intros Hf Hg. split; intros r.
  - by rewrite (keeps_pk (f := f)), (keeps_pk (f := g)).
  - by rewrite (keeps_id (f := f)), (keeps_id (f := g)).
Qed.

Lemma wf_empty : wf empty_table.
Proof. repeat split; constructor. Qed.

Lemma elem_of_sql_select p t r : r ∈ sql_select p t ↔ p r = true ∧ r ∈ t_rows t.
Proof. apply elem_of_select. Qed.

Lemma has_pk_true k r : has_pk k r = true ↔ r_pk r = k.
Proof. apply bool_decide_eq_true. Qed.

Lemma sql_find_Some_elem k t r : sql_find k t = Some r → r ∈ t_rows t ∧ r_pk r = k.
Proof.
  intros H. apply head_Some_elem_of in H. apply elem_of_sql_select in H.
  rewrite has_pk_true in H. tauto.
Qed.

Lemma sql_find_None k t : sql_find k t = None ↔ ∀ r, r ∈ t_rows t → r_pk r ≠ k.
Proof.
  unfold sql_find. rewrite head_None. unfold sql_select. rewrite select_nil.
  unfold has_pk. split; intros H r Hr; specialize (H r Hr);
    [by apply bool_decide_eq_false in H|by apply bool_decide_eq_false].
Qed.

(** Under the unique index a lookup finds exactly the row with that key. *)
Lemma sql_find_Some k t r :
  wf t → sql_find k t = Some r ↔ r ∈ t_rows t ∧ r_pk r = k.
Proof.
  intros (Hpk & _). split; [apply sql_find_Some_elem|]. intros [Hr Hk].
  destruct (sql_find k t) as [r'|] eqn:E.
  - apply sql_find_Some_elem in E as [Hr' Hk']. f_equal.
    eapply NoDup_fmap_inj; [exact Hpk|done..|congruence].
  - rewrite sql_find_None in E. by destruct (E r Hr).
Qed.

Lemma wf_row_eq t r r' : wf t → r ∈ t_rows t → r' ∈ t_rows t → r_pk r = r_pk r' → r = r'.
Proof. intros (Hpk & _). by apply NoDup_fmap_inj. Qed.

Lemma wf_id_eq t r r' : wf t → r ∈ t_rows t → r' ∈ t_rows t → r_id r = r_id r' → r = r'.
Proof. intros (_ & Hid & _). by apply NoDup_fmap_inj. Qed.

Lemma wf_update p f t `{!KeepsKeys f} : wf t → wf (sql_update p f t).
Proof.
  intros (Hpk & Hid & Hseq). repeat split; simpl.
  - rewrite fmap_update_where; [done|apply keeps_pk].
  - rewrite fmap_update_where; [done|apply keeps_id].
  - apply Forall_forall. intros y (x & Hx & ->)%elem_of_update_where.
    rewrite Forall_forall in Hseq. destruct (p x); [rewrite keeps_id|]; auto.
Qed.

Lemma wf_delete p t : wf t → wf (sql_delete p t).
Proof.
  intros (Hpk & Hid & Hseq). repeat split; simpl.
  - by apply NoDup_fmap_select.
  - by apply NoDup_fmap_select.
  - apply Forall_forall. intros y [_ Hy]%elem_of_select.
    rewrite Forall_forall in Hseq. auto.
Qed.

Lemma wf_append now n t : wf t → sql_find (n_pk n) t = None → wf (sql_append now n t).
Proof.
  intros (Hpk & Hid & Hseq) Hf. rewrite sql_find_None in Hf.
  rewrite Forall_forall in Hseq. repeat split; simpl.
  - rewrite fmap_app. apply NoDup_app. split; [done|]. split; [|apply NoDup_singleton].
    intros k (r & -> & Hr)%list_elem_of_fmap. simpl.
    rewrite list_elem_of_singleton. by apply Hf.
  - rewrite fmap_app. apply NoDup_app. split; [done|]. split; [|apply NoDup_singleton].
    intros i (r & -> & Hr)%list_elem_of_fmap. simpl.
    rewrite list_elem_of_singleton. specialize (Hseq r Hr). simpl in Hseq. lia.
  - apply Forall_forall. intros r [Hr| ->%list_elem_of_singleton]%elem_of_app; simpl.
    + specialize (Hseq r Hr). simpl in Hseq. lia.
    + lia.
Qed.

Lemma wf_insert_nothing now n t : wf t → wf (sql_insert_nothing now n t).2.
Proof.
  intros H. unfold sql_insert_nothing. destruct (sql_find _ _) eqn:E; simpl; [done|].
  by apply wf_append.
Qed.

Lemma wf_upsert now n f t `{!KeepsKeys f} : wf t → wf (sql_upsert now n f t).2.
Proof.
  intros H. unfold sql_upsert. destruct (sql_find _ _) eqn:E; simpl.
  - by apply wf_update.
  - by apply wf_append.
Qed.

Lemma elem_of_append now n t r :
  r ∈ t_rows (sql_append now n t) ↔ r ∈ t_rows t ∨ r = mk_row (t_seq t) now n.
Proof. simpl. by rewrite elem_of_app, list_elem_of_singleton. Qed.

(** Looking up after an update: the same row, updated when it matched. *)
Lemma sql_find_update p f t k `{!KeepsKeys f} :
  wf t → sql_find k (sql_update p f t) =
    (λ r, if p r then f r else r) <$> sql_find k t.
Proof.
  intros Hwf. destruct (sql_find k t) as [r|] eqn:E; simpl.
  - apply sql_find_Some_elem in E as [Hr Hk].
    apply sql_find_Some; [by apply wf_update|]. split.
    + apply elem_of_update_where. eauto.
    + destruct (p r); [rewrite keeps_pk|]; done.
  - rewrite sql_find_None in E |- *. intros y (x & Hx & ->)%elem_of_update_where.
    destruct (p x); [rewrite keeps_pk|]; auto.
Qed.

Lemma sql_find_append_eq now n t :
  wf t → sql_find (n_pk n) t = None →
  sql_find (n_pk n) (sql_append now n t) = Some (mk_row (t_seq t) now n).
Proof.
  intros Hwf Hf. apply sql_find_Some; [by apply wf_append|].
  split; [|done]. apply elem_of_append. by right.
Qed.

Lemma sql_find_append_ne now n t k :
  n_pk n ≠ k → sql_find k (sql_append now n t) = sql_find k t.
Proof.
  intros Hne. unfold sql_find, sql_select. simpl. rewrite select_app. simpl.
  rewrite select_cons. unfold has_pk at 2. simpl.
  rewrite bool_decide_eq_false_2 by done. unfold select. simpl. by rewrite app_nil_r.
Qed.

Lemma sql_find_delete p t k :
  wf t → sql_find k (sql_delete p t) =
    match sql_find k t with Some r => if p r then None else Some r | None => None end.
Proof.
  intros Hwf. destruct (sql_find k t) as [r|] eqn:E.
  - apply sql_find_Some_elem in E as [Hr Hk]. destruct (p r) eqn:Hp.
    + apply sql_find_None. intros r' [Hp' Hr']%elem_of_select Hk'.
      assert (r' = r) as -> by (eapply wf_row_eq; eauto; congruence).
      by rewrite Hp in Hp'.
    + apply sql_find_Some; [by apply wf_delete|]. split; [|done].
      apply elem_of_select. by rewrite Hp.
  - rewrite sql_find_None in E |- *. intros r' [_ Hr']%elem_of_select. by apply E.
Qed.

(** Upserting stores the new content under the key, whatever was there. *)
Lemma sql_find_upsert_ne now n f t k `{!KeepsKeys f} :
  wf t → n_pk n ≠ k → sql_find k (sql_upsert now n f t).2 = sql_find k t.
Proof.
  intros Hwf Hne. unfold sql_upsert. destruct (sql_find (n_pk n) t) eqn:E; simpl.
  - rewrite sql_find_update by done. destruct (sql_find k t) as [r'|] eqn:E'; simpl; [|done].
    apply sql_find_Some_elem in E' as [_ Hk]. unfold has_pk.
    by rewrite bool_decide_eq_false_2 by congruence.
  - by apply sql_find_append_ne.
Qed.

Lemma sql_update_nop p f t : (∀ r, r ∈ t_rows t → p r = false) → sql_update p f t = t.
Proof. intros H. unfold sql_update. rewrite update_where_nop by done. by destruct t. Qed.

Lemma sql_update_id p f t : (∀ r, r ∈ t_rows t → p r = true → f r = r) → sql_update p f t = t.
Proof. intros H. unfold sql_update. rewrite update_where_id by done. by destruct t. Qed.

Lemma sql_delete_nop p t : (∀ r, r ∈ t_rows t → p r = false) → sql_delete p t = t.
Proof.
  intros H. unfold sql_delete. rewrite select_all; [by destruct t|].
  intros r Hr. by rewrite H.
Qed.

(** Statements that leave the rows of a predicate [q] alone. *)
Lemma sql_select_update q p f t :
  (∀ r, p r = true → q r = false ∧ q (f r) = false) → sql_select q (sql_update p f t) = sql_select q t.
Proof.
  intros H. unfold sql_select, sql_update, update_where. cbn [t_rows].
  induction (t_rows t) as [|r l IH]; [done|]. cbn [map]. rewrite !select_cons, IH.
  destruct (p r) eqn:E; [|done]. by destruct (H r E) as [-> ->].
Qed.

Lemma sql_select_delete q p t :
  (∀ r, p r = true → q r = false) → sql_select q (sql_delete p t) = sql_select q t.
Proof.
  intros H. unfold sql_select, sql_delete. cbn [t_rows].
  induction (t_rows t) as [|r l IH]; [done|]. rewrite !select_cons.
  destruct (p r) eqn:E; cbn [negb]; [by rewrite IH, (H r E)|]. by rewrite select_cons, IH.
Qed.

Lemma sql_select_append q now n t :
  q (mk_row (t_seq t) now n) = false → sql_select q (sql_append now n t) = sql_select q t.
Proof.
  intros H. unfold sql_select, sql_append. cbn [t_rows]. rewrite select_app, select_cons, H.
  apply app_nil_r.
Qed.

(** A test of the rows' existence depends on the selected rows only. *)
Lemma existsb_select q t : existsb q (t_rows t) = negb (length (sql_select q t) == 0).
Proof.
  unfold sql_select. induction (t_rows t) as [|r l IH]; [done|]. cbn [existsb].
  rewrite select_cons, IH. by destruct (q r).
Qed.

Lemma sql_count_zero p t : sql_count p t = 0 ↔ ∀ r, r ∈ t_rows t → p r = false.
Proof. unfold sql_count, sql_select. rewrite length_zero_iff_nil. apply select_nil. Qed.
End store.

(** ** Key-changing updates *)

(** The key function recorded for an id, if any. *)
Fixpoint rekey_of (us : list (Z * (pkey → pkey))) (i : Z) : option (pkey → pkey) :=
  match us with
  | [] => None
  | (j, g) :: us' => if j == i then Some g else rekey_of us' i
  end.

Definition rekey_row (us : list (Z * (pkey → pkey))) (r : row) : row :=
  match rekey_of us (r_id r) with
  | Some g => set_pk (g (r_pk r)) r
  | None => r
  end.

Lemma rekey_of_None us i : i ∉ us.*1 → rekey_of us i = None.
Proof.
  induction us as [|[j g] us IH]; simpl; [done|]. rewrite not_elem_of_cons.
  intros [Hj Hi]. rewrite bool_decide_eq_false_2 by done. auto.
Qed.

Lemma rekey_of_Some us i g : rekey_of us i = Some g → (i, g) ∈ us.
Proof.
  induction us as [|[j h] us IH]; simpl; [done|].
  case_bool_decide; intros; simplify_eq; [by left|right; auto].
Qed.

Lemma rekey_of_elem us i g : NoDup us.*1 → (i, g) ∈ us → rekey_of us i = Some g.
Proof.
  induction us as [|[j h] us IH]; simpl; [by intros _ ?%elem_of_nil|].
  rewrite NoDup_cons. intros [Hj Hnd] [[= <- <-]|Hin]%elem_of_cons.
  - by rewrite bool_decide_eq_true_2.
  - rewrite bool_decide_eq_false_2; [auto|]. intros ->.
    apply Hj. apply list_elem_of_fmap. by exists (i, g).
Qed.

(** No assigned key is that of another row, before or after the update. *)
Definition rekey_free (us : list (Z * (pkey → pkey))) (l : list row) : Prop :=
  ∀ r r' g, r ∈ l → r' ∈ l → r_id r ≠ r_id r' → rekey_of us (r_id r) = Some g →
    g (r_pk r) ≠ r_pk r' ∧ g (r_pk r) ≠ r_pk (rekey_row us r').

Lemma rekey_row_id us r : r_id (rekey_row us r) = r_id r.
Proof. unfold rekey_row. by destruct (rekey_of us (r_id r)). Qed.

Lemma sql_rekeys_ok us t :
  NoDup us.*1 → rekey_free us (t_rows t) →
  sql_rekeys us t = Some (Table (rekey_row us <$> t_rows t) (t_seq t)).
Proof.
  revert t. induction us as [|[i g] us IH]; intros t Hnd Hfree.
  { simpl. f_equal. destruct t as [l q]; simpl. f_equal.
    clear Hfree. induction l as [|r l IHl]; [done|]. cbn. by f_equal. }
  simpl in Hnd. apply NoDup_cons in Hnd as [Hi Hnd].
  assert (∀ r, r ∈ t_rows t → r_id r = i → ∀ r', r' ∈ t_rows t → r_id r' ≠ i →
    g (r_pk r) ≠ r_pk r') as Hstep.
  { intros r Hr Hri r' Hr' Hne. apply (Hfree r r' g); [done..|congruence|].
    simpl. by rewrite bool_decide_eq_true_2. }
  assert (sql_rekey i g t =
    Some (sql_update (λ r, r_id r == i) (λ r, set_pk (g (r_pk r)) r) t)) as Hone.
  { unfold sql_rekey. destruct (existsb _ (t_rows t)) eqn:E; [|done].
    apply existsb_exists in E as (r & Hr & E). bprop. destruct E as [Hri E].
    apply existsb_exists in E as (r' & Hr' & E). bprop. destruct E as [Hne E].
    apply list_elem_of_In in Hr, Hr'. apply has_pk_true in E.
    destruct (Hstep r Hr Hri r' Hr' Hne). done. }
  simpl. rewrite Hone. simpl. rewrite IH; [|done|].
  - f_equal. f_equal. unfold sql_update, update_where. simpl. rewrite <- list_fmap_compose.
    apply list_fmap_ext. intros _ r _. simpl. unfold rekey_row. simpl.
    destruct (decide (r_id r = i)) as [Hri|Hri].
    + rewrite !bool_decide_eq_true_2 by done. simpl. rewrite Hri. by rewrite rekey_of_None.
    + by rewrite !bool_decide_eq_false_2 by done.
  - intros r r' h. simpl. intros (x & Hx & ->)%elem_of_update_where
      (x' & Hx' & ->)%elem_of_update_where.
    assert (∀ y : row, r_id (if r_id y == i then set_pk (g (r_pk y)) y else y) = r_id y) as Hid
      by (intros y; by case_bool_decide).
    rewrite !Hid. intros Hne Hof.
    assert (r_id x ≠ i) as Hxi.
    { intros <-. rewrite rekey_of_None in Hof; done. }
    rewrite (bool_decide_eq_false_2 (r_id x = i)) by done.
    assert (rekey_of ((i, g) :: us) (r_id x) = Some h) as Hof'.
    { simpl. by rewrite bool_decide_eq_false_2. }
    destruct (Hfree x x' h Hx Hx' Hne Hof') as [H1 H2].
    unfold rekey_row in H2 |- *. simpl in H2. rewrite Hid.
    destruct (decide (r_id x' = i)) as [Hxi'|Hxi'].
    + rewrite bool_decide_eq_true_2 in H2 |- * by done. simpl in H2 |- *.
      rewrite Hxi' at 1. rewrite rekey_of_None by done. done.
    + rewrite bool_decide_eq_false_2 in H2 |- * by done. done.
Qed.

Lemma wf_rekey us t : wf t → rekey_free us (t_rows t) →
  wf (Table (rekey_row us <$> t_rows t) (t_seq t)).
Proof.
  intros (Hpk & Hid & Hseq) Hfree. repeat split; simpl.
  - rewrite <- list_fmap_compose.
    clear Hseq. induction (t_rows t) as [|r l IH]; simpl; [constructor|].
    simpl in Hpk, Hid. apply NoDup_cons in Hpk as [Hr Hpk]. apply NoDup_cons in Hid as [Hi Hid].
    constructor; [|apply IH; [done..|intros ???????; apply Hfree; [by right|by right|done..]]].
    rewrite list_elem_of_fmap. intros (r' & Heq & Hin). simpl in Heq.
    assert (r_id r ≠ r_id r') as Hne.
    { intros Hn. apply Hi. rewrite Hn. by apply list_elem_of_fmap_2. }
    unfold rekey_row at 1 in Heq. destruct (rekey_of us (r_id r)) as [g|] eqn:E.
    + simpl in Heq. destruct (Hfree r r' g) as [_ []]; [by left|by right|done..].
    + unfold rekey_row in Heq. destruct (rekey_of us (r_id r')) as [g|] eqn:E'.
      * simpl in Heq. destruct (Hfree r' r g) as [[] _]; [by right|by left|congruence|done..].
      * apply Hr. rewrite Heq. by apply list_elem_of_fmap_2.
  - rewrite <- list_fmap_compose.
    erewrite (list_fmap_ext _ r_id); [done|]. intros; simpl. apply rekey_row_id.
  - apply Forall_fmap. eapply Forall_impl; [exact Hseq|]. intros r H.
    simpl. by rewrite rekey_row_id.
Qed.

#[export] Hint Resolve wf_empty wf_update wf_delete wf_append wf_insert_nothing wf_upsert : tiding.
#[export] Hint Extern 1 (KeepsKeys _) => typeclasses eauto : tiding.
