(* ===== verification/Identity.v ===== *)
(** Inbox addresses (src/server/services/identity.py): validation, the
    corrections applied to mistyped addresses, and the read-time expansion
    of the shared admin role. *)

From stdpp Require Import base list strings.
From Stdlib Require Import Ascii Lia.
From S2P Require Import Prelude PyString.

(** ** Data *)

Definition RESERVED_PREFIXES : list string := ["machine:"; "topic:"].
Definition ADMIN_ROLE : string := "admin".
Definition FLEET_QUALIFIER : string := "fleet".
Definition ADMIN_FLEET : string := ADMIN_ROLE +:+ "@" +:+ FLEET_QUALIFIER.

(** The two [ValueError]s of [validate_address]. *)
Inductive address_error := EmptyAddress | InvalidAddress (a : string).

(** [[a-zA-Z0-9_.\-:@]] *)
Definition addr_char (c : ascii) : bool :=
  is_alnum_char c || (c isin ["_"; "."; "-"; ":"; "@"]%char).

(** [[a-zA-Z0-9][a-zA-Z0-9_.\-:@]{0,127}$] *)
Definition addr_body (s : string) : bool :=
  match s with
  | EmptyString => false
  | String c s' =>
      is_alnum_char c && sforall addr_char s' && (String.length s' <=? 127)
  end.

(** [ADDRESS_RE.match], on a string without a trailing newline: an optional
    leading [#], then the body. *)
Definition ADDRESS_RE (s : string) : bool :=
  match s with
  | String "#" s' => addr_body s'
  | _ => addr_body s
  end.

(** ** Operations *)

Definition validate_address (address : string) : outcome address_error string :=
  if negb (nonempty (strip address)) then Raise EmptyAddress
  else
    let address := lower (strip address) in
    if ADDRESS_RE address then Done address else Raise (InvalidAddress address).

Definition autocorrect_address (address : string)
  : outcome address_error (string * option string) :=
  do! clean <- validate_address address;
  if negb (has_char ":" clean) then Done (clean, None)
  else if existsb (λ p, startswith p clean) RESERVED_PREFIXES then Done (clean, None)
  else
    let lhs := before ":" clean in
    let rhs := default "" (split1 ":" clean).2 in
    if lhs == "admin" then Done ("machine:" +:+ rhs, Some clean)
    else if rhs == "admin" then Done ("machine:" +:+ lhs, Some clean)
    else Done (rhs, Some clean).

Definition is_unqualified_admin (address : string) : bool :=
  lower (strip address) == ADMIN_ROLE.

Definition admin_listen_expansion (listen_set : list string) : list string :=
  if existsb is_unqualified_admin listen_set
  then if ADMIN_FLEET isin listen_set then [] else [ADMIN_FLEET]
  else [].

Fixpoint validate_listen (addresses : list string) : outcome address_error (list string) :=
  match addresses with
  | [] => Done []
  | a :: rest =>
      do! a' <- validate_address a;
      do! rest' <- validate_listen rest;
      Done (a' :: rest')
  end.

(** [None] is the absent listen set. *)
Definition validate_listen_set (addresses : option (list string))
  : outcome address_error (list string) :=
  match addresses with
  | None => Done []
  | Some l => validate_listen l
  end.

(** ** Lemmas *)

Lemma validate_address_Done a b :
  validate_address a = Done b ↔
  b = lower (strip a) ∧ strip a ≠ "" ∧ ADDRESS_RE b = true.
Proof.
  unfold validate_address. destruct (nonempty (strip a)) eqn:E; simpl.
  - apply nonempty_true in E.
    destruct (ADDRESS_RE (lower (strip a))) eqn:H; split.
    + intros [= <-]. auto.
    + by intros (-> & _).
    + done.
    + intros (-> & _ & HR). congruence.
  - destruct (strip a); [|done]. split; [done|]. by intros (_ & [] & _).
Qed.

Lemma ADDRESS_RE_nonempty a : ADDRESS_RE a = true → a ≠ "".
Proof. by intros H ->. Qed.

Lemma addr_body_length s : addr_body s = true → String.length s ≤ 128.
Proof.
  destruct s as [|c s]; simpl; [done|]. bprop. intros [_ H].
  apply Nat.leb_le in H. lia.
Qed.

Lemma ADDRESS_RE_length a : ADDRESS_RE a = true → String.length a ≤ 129.
Proof.
  intros H. assert (addr_body a = true ∨ ∃ s, a = String "#" s ∧ addr_body s = true) as Hc.
  { destruct a as [|c s]; [by left|].
    destruct c as [[] [] [] [] [] [] [] []]; try (by left); right; eauto. }
  destruct Hc as [Hc|(s & -> & Hc)]; apply addr_body_length in Hc; simpl; lia.
Qed.

Lemma lower_addr_strip a : lower (strip (lower (strip a))) = lower (strip a).
Proof. by rewrite strip_lower, strip_idem, lower_idem. Qed.

Lemma validated_fix a b : validate_address a = Done b → lower (strip b) = b.
Proof. intros (-> & _)%validate_address_Done. apply lower_addr_strip. Qed.

Lemma validate_listen_length l l' : validate_listen l = Done l' → length l' = length l.
Proof.
  revert l'. induction l as [|a l IH]; simpl; intros l' H; [by simplify_eq|].
  destruct (validate_address a); simpl in H; [|done].
  destruct (validate_listen l); simpl in H; [|done]. simplify_eq. simpl. f_equal. auto.
Qed.

Lemma existsb_reserved c :
  existsb (λ p, startswith p c) RESERVED_PREFIXES = true ↔
  startswith "machine:" c = true ∨ startswith "topic:" c = true.
Proof. simpl. bprop. naive_solver. Qed.

Lemma autocorrect_address_clean a b :
  validate_address a = Done b → has_char ":" b = false →
  autocorrect_address a = Done (b, None).
Proof. unfold autocorrect_address. intros -> H. simpl. by rewrite H. Qed.

(** ** Properties *)

(** A validated address is in normal form: it is lower case, without
    surrounding white space, non-empty, at most 129 characters long, and
    validating it again returns it unchanged. *)
Lemma validate_address_normal a b :
  validate_address a = Done b →
  validate_address b = Done b ∧ lower b = b ∧ strip b = b ∧ b ≠ "" ∧
  String.length b ≤ 129.
Proof.
  intros H. pose proof (validated_fix _ _ H) as Hfix.
  apply validate_address_Done in H as (Hb & Hne & HR).
  assert (strip b = b) as Hs by (by rewrite Hb, strip_lower, strip_idem).
  pose proof (ADDRESS_RE_nonempty _ HR) as Hb0.
  split_and!; auto using ADDRESS_RE_length.
  - apply validate_address_Done. by rewrite Hfix, Hs.
  - rewrite Hb. apply lower_idem.
Qed.

(** A colon that is neither absent nor part of a reserved prefix. *)
Definition stray_colon (c : string) : bool :=
  has_char ":" c && negb (existsb (λ p, startswith p c) RESERVED_PREFIXES).

Lemma split1_colon c :
  has_char ":" c = true →
  ∃ r, (split1 ":" c).2 = Some r ∧ c = before ":" c +:+ String ":" r.
Proof.
  intros H. pose proof (before_sep_after ":" c) as Hc. unfold sep_after in Hc.
  destruct (split1 ":" c).2 as [r|] eqn:E; [by eauto|].
  rewrite string_app_nil_r in Hc. rewrite <- Hc in H.
  by rewrite before_no_char in H.
Qed.

Lemma stray_colon_machine s : stray_colon ("machine:" +:+ s) = false.
Proof.
  unfold stray_colon.
  rewrite (proj2 (existsb_reserved _)) by (left; apply startswith_app).
  by rewrite andb_false_r.
Qed.

(** Address correction reports what it did: the original is returned
    exactly when the address was changed, and a mistyped address with one
    colon comes out without any colon outside the reserved prefixes. *)
Lemma autocorrect_address_sound a c o :
  autocorrect_address a = Done (c, o) →
  ∃ b, validate_address a = Done b ∧
    (o = None ∧ c = b ∨ o = Some b ∧ c ≠ b) ∧
    (has_char ":" (default "" (split1 ":" b).2) = false → stray_colon c = false).
Proof.
  unfold autocorrect_address.
  destruct (validate_address a) as [b|] eqn:Hv; cbn [obind]; [|done].
  intros H. exists b. split; [done|].
  destruct (has_char ":" b) eqn:Hcol; cbn [negb] in H.
  2: { simplify_eq. split; [by left|]. intros _. unfold stray_colon. by rewrite Hcol. }
  destruct (existsb _ RESERVED_PREFIXES) eqn:Hres.
  { simplify_eq. split; [by left|]. intros _. unfold stray_colon. by rewrite Hres, andb_false_r. }
  destruct (split1_colon b Hcol) as (r & Hr & Hb). rewrite Hr in H |- *.
  cbn [default from_option id] in H |- *.
  assert (∀ s, "machine:" +:+ s ≠ b) as Hm.
  { intros s <-. rewrite (proj2 (existsb_reserved _)) in Hres; [done|].
    left. apply startswith_app. }
  assert (r ≠ b) as Hrb.
  { intros Heq. apply (f_equal String.length) in Hb, Heq.
    rewrite string_length_app in Hb. simpl in Hb. lia. }
  case_bool_decide; [|case_bool_decide];
    injection H as <- <-.
  1,2: split; [right; split; [done|apply Hm]|intros _; apply stray_colon_machine].
  split; [by right|]. intros Hn. unfold stray_colon. by rewrite Hn.
Qed.

(** Correction is not closed on valid addresses: a trailing colon leaves the
    empty address, which [validate_address] refuses. *)
Lemma autocorrect_address_empty :
  autocorrect_address "engram:" = Done ("", Some "engram:") ∧
  validate_address "" = Raise EmptyAddress.
Proof. split; reflexivity. Qed.

(** An address of 129 characters passes: the sigil is not counted. *)
Lemma validate_address_129 :
  let a := String "#" (String.concat "" (replicate 128 "a")) in
  String.length a = 129 ∧ validate_address a = Done a.
Proof. split; vm_compute; reflexivity. Qed.

Lemma existsb_unqualified l :
  existsb is_unqualified_admin l = true ↔ ∃ a, a ∈ l ∧ lower (strip a) = ADMIN_ROLE.
Proof.
  rewrite existsb_exists. unfold is_unqualified_admin.
  split; intros (a & Ha & H); exists a; bprop;
    [split; [by apply list_elem_of_In|done]|split; [by apply list_elem_of_In|done]].
Qed.

(** A reader of the bare admin role hears the fleet-wide announcement,
    nobody else is subscribed to it by the expansion, and no address is
    listened to twice. *)
Lemma admin_listen_expansion_spec (l : list string) :
  NoDup l →
  let l' := l ++ admin_listen_expansion l in
  NoDup l' ∧
  ((∃ a, a ∈ l ∧ lower (strip a) = ADMIN_ROLE) → ADMIN_FLEET ∈ l') ∧
  (∀ a, a ∈ l' → a ∈ l ∨ a = ADMIN_FLEET ∧ ∃ b, b ∈ l ∧ lower (strip b) = ADMIN_ROLE).
Proof.
  intros Hnd l'. subst l'. unfold admin_listen_expansion.
  destruct (existsb is_unqualified_admin l) eqn:E.
  - apply existsb_unqualified in E. case_bool_decide as Hin.
    + rewrite app_nil_r. naive_solver.
    + split_and!.
      * apply NoDup_app. split; [done|]. split; [|apply NoDup_singleton].
        intros x Hx ->%list_elem_of_singleton. done.
      * intros _. apply elem_of_app. right. by left.
      * intros a [Ha| ->%list_elem_of_singleton]%elem_of_app; naive_solver.
  - rewrite app_nil_r. split_and!; [done| |naive_solver].
    intros Hx. apply existsb_unqualified in Hx. congruence.
Qed.

