(* ===== verification/ProjectAlias.v ===== *)
(** Project renames (src/server/services/project_alias.py): the alias map and
    its resolution, the plan of a merge, [relabel], [reverse], and the
    read-time expansion of a listen set. *)

From stdpp Require Import base gmap list strings pretty sorting.
From Stdlib Require Import ZArith Lia Ascii.
From S2P Require Import Prelude PyString Json Store.

(** ** State *)

(** A row of the [project_aliases] table (its key [old_name] is the map key). *)
Record alias_row := AliasRow {
  al_new : string;
  al_by : option string;
  al_at : Z
}.

(** The tables the module reads and writes, and its cache [_aliases]. *)
Record alias_state := AliasState {
  as_mem : table;
  as_db : gmap string alias_row;
  as_cache : gmap string string
}.

(** [refresh(force=True)]: reload the cache from the table. *)
Definition refresh (st : alias_state) : alias_state :=
  AliasState (as_mem st) (as_db st) (al_new <$> as_db st).

(** ** Names *)

Definition ARCHIVE_PREFIX : string := "archive/".

Definition name_head_char (c : ascii) : bool := is_lower_char c || is_digit_char c.
Definition name_char (c : ascii) : bool :=
  name_head_char c || (c isin ["."; "_"; "-"]%char).

(** [^[a-z0-9][a-z0-9._-]{0,127}$] *)
Definition PROJECT_NAME_RE (s : string) : bool :=
  match s with
  | EmptyString => false
  | String c s' => name_head_char c && sforall name_char s' && (String.length s' <=? 127)
  end.

Inductive alias_error :=
| BadName (n : string)
| NoSources
| TargetIsAlias (canonical : string)
| NameClash (names : list string)
| UniqueViolation.

Definition validate_project_name (name : string) : outcome alias_error string :=
  let n := norm (Some name) in
  if PROJECT_NAME_RE n then Done n else Raise (BadName name).

(** ** Resolution *)

(** The [while n in _aliases] loop; [None] is fuel exhausted. *)
Fixpoint canonical_loop (fuel : nat) (aliases : gmap string string)
    (seen : list string) (n : string) : option string :=
  match fuel with
  | O => None
  | S fuel' =>
      match aliases !! n with
      | None => Some n
      | Some m =>
          if m isin seen then Some m
          else canonical_loop fuel' aliases (m :: seen) m
      end
  end.

Definition canonical_name (aliases : gmap string string) (name : string) : string :=
  let n := norm (Some name) in
  default n (canonical_loop (S (size aliases)) aliases [n] n).

(** [None] and the empty string are returned as they are. *)
Definition canonical (aliases : gmap string string) (name : option string) : option string :=
  match name with
  | Some n => if nonempty n then Some (canonical_name aliases n) else name
  | None => None
  end.

(** [[o for o in _aliases if o != c and canonical(o) == c]], sorted. *)
Definition family_members (aliases : gmap string string) (c : string) : list string :=
  sorted (filter (λ o, o ≠ c ∧ canonical_name aliases o = c) (map_to_list aliases).*1).

Definition family (aliases : gmap string string) (name : option string) : list string :=
  match name with
  | Some n =>
      if nonempty n then
        let c := canonical_name aliases n in c :: family_members aliases c
      else []
  | None => []
  end.

Definition old_names (aliases : gmap string string) (name : option string) : list string :=
  filter (λ m, Some m ≠ canonical aliases name) (family aliases name).

(** Rewrite a bare project address or its [@host] form; all else passes through. *)
Definition canonical_address (aliases : gmap string string) (addr : option string)
  : option string :=
  match addr with
  | Some a0 =>
      if nonempty a0 then
        let a := lower (strip a0) in
        let base := before "@" a in
        match aliases !! base with
        | Some _ => Some (canonical_name aliases base +:+ sep_after "@" a)
        | None => Some a
        end
      else addr
  | None => None
  end.

(** [_add]: append a candidate once, tracking what is already listened to. *)
Definition add_listen (acc : list string * list string) (cand : string)
  : list string * list string :=
  let '(have, extra) := acc in
  if cand isin have then acc else (cand :: have, extra ++ [cand]).

(** The candidates one listened address contributes: the other names of its
    project with the same qualifier, then the roles it holds. *)
Definition listen_candidates (aliases : gmap string string)
    (roles_held_by : string → list string) (a : string) : list string :=
  let base := before "@" (lower a) in
  let qual := sep_after "@" (lower a) in
  let fam := family aliases (Some base) in
  (if 2 <=? length fam then (λ m, m +:+ qual) <$> fam else []) ++ roles_held_by base.

Definition expand_listen_set (aliases : gmap string string)
    (roles_held_by : string → list string) (listen_set : list string) : list string :=
  (foldl (λ acc a, foldl add_listen acc (listen_candidates aliases roles_held_by a))
         (lower <$> listen_set, []) listen_set).2.

(** [describe]: (project, canonical, renamed, old_names). *)
Definition describe (aliases : gmap string string) (name : option string)
  : string * option string * bool * list string :=
  let n := norm name in
  let c := canonical aliases (Some n) in
  (n, c, c != Some n, old_names aliases (Some n)).

(** ** The plan of a merge *)

(** The group of a row: one logical key of one writer. *)
Definition group_of (r : row) : string * string * string := (r_ns r, r_user r, r_key r).

Definition proj_of (r : row) : string := default "" (r_project r).

(** [rank = {target: 0, **{s: i + 1 for i, s in enumerate(sources)}}] *)
Fixpoint index_from (i : nat) (sources : list string) (p : string) : option nat :=
  match sources with
  | [] => None
  | s :: rest => if s == p then Some i else index_from (S i) rest p
  end.

Definition rank (sources : list string) (target p : string) : nat :=
  match index_from 1 sources p with
  | Some i => i
  | None => 0
  end.

(** [members.sort(key=lambda r: rank[r["project"]])], a stable insertion. *)
Definition sort_ranked (rk : row → nat) (l : list row) : list row :=
  sort_by (λ x r, rk x <=? rk r) l.

(** [while (ns, uid, cand) in taken: cand, n = f"{base}-{n}", n + 1] *)
Fixpoint free_key (fuel : nat) (taken : list (string * string * string))
    (ns uid base cand : string) (n : N) : string :=
  match fuel with
  | O => cand
  | S fuel' =>
      if (ns, uid, cand) isin taken
      then free_key fuel' taken ns uid base (base +:+ "-" +:+ pretty n) (n + 1)
      else cand
  end.

(** One entry of [renames]. *)
Record rename := Rename {
  rn_from : string;
  rn_key : string;
  rn_new : string;
  rn_user : string
}.

(** The accumulators of the planning loop. *)
Record plan_state := PlanState {
  ps_taken : list (string * string * string);
  ps_new : list (Z * string);
  ps_renames : list rename
}.

Definition plan_loser (acc : plan_state) (loser : row) : plan_state :=
  let base := ARCHIVE_PREFIX +:+ proj_of loser +:+ "/" +:+ r_key loser in
  let cand := free_key (S (length (ps_taken acc))) (ps_taken acc)
                (r_ns loser) (r_user loser) base base 2 in
  PlanState ((r_ns loser, r_user loser, cand) :: ps_taken acc)
            (ps_new acc ++ [(r_id loser, cand)])
            (ps_renames acc ++ [Rename (proj_of loser) (r_key loser) cand (r_user loser)]).

(** The rows that lose their key, group by group in order of first occurrence. *)
Definition losers (rows : list row) (sources : list string) (target : string) : list row :=
  g ← dedup (group_of <$> rows);
  tail (sort_ranked (λ r, rank sources target (proj_of r))
          (select (λ r, group_of r == g) rows)).

Definition plan (rows : list row) (sources : list string) (target : string) : plan_state :=
  foldl plan_loser (PlanState (group_of <$> rows) [] []) (losers rows sources target).

(** [counts]: rows moved, per source. *)
Definition plan_counts (rows : list row) (sources : list string) : list (string * nat) :=
  (λ s, (s, length (select (λ r, proj_of r == s) rows))) <$> sources.

(** ** relabel *)

Record relabel_result := RelabelResult {
  rr_dry_run : bool;
  rr_target : string;
  rr_moved : list (string * nat);
  rr_total : nat;
  rr_renamed : list rename;
  rr_aliases : list (string * string)
}.

Fixpoint validate_sources (target : string) (sources srcs : list string)
  : outcome alias_error (list string) :=
  match sources with
  | [] => Done srcs
  | s :: rest =>
      do! s <- validate_project_name s;
      validate_sources target rest
        (if (s != target) && negb (s isin srcs) then srcs ++ [s] else srcs)
  end.

(** [scope = 'project' AND project = ANY(names)] *)
Definition in_projects (names : list string) (r : row) : bool :=
  (r_scope r == "project") &&
  match r_project r with Some p => p isin names | None => false end.

Definition set_key_of (key : string) (k : pkey) : pkey :=
  PKey (k_ns k) key (k_scope k) (k_user k) (k_project k).

Definition set_project_of (project : string) (k : pkey) : pkey :=
  PKey (k_ns k) (k_key k) (k_scope k) (k_user k) (Some project).

(** [|| jsonb_build_object('project', .., 'moved_from', project, 'moved_at', NOW())] *)
Definition moved_stamp (now : Z) (target : string) (r : row) : option jobj :=
  md_merge (r_meta r)
    (<["project" := JStr target]> (<["moved_from" := jopt (r_project r)]>
       {["moved_at" := JTime now]})).

(** The three memory updates of the transaction: renamed keys, then project
    and stamp. [None] is a unique violation, which aborts the transaction. *)
Definition relabel_rows (now : Z) (srcs : list string) (target : string)
    (new_key : list (Z * string)) (t : table) : option table :=
  t1 ← sql_rekeys ((λ '(i, key), (i, set_key_of key)) <$> new_key) t;
  let t2 := sql_update (in_projects srcs) (λ r, set_meta (moved_stamp now target r) r) t1 in
  sql_rekeys ((λ r, (r_id r, set_project_of target)) <$> sql_select (in_projects srcs) t2) t2.

(** Flatten the aliases that pointed at a source, then alias each source. *)
Definition relabel_aliases (now : Z) (srcs : list string) (target : string)
    (actor : option string) (db : gmap string alias_row) : gmap string alias_row :=
  let db1 := (λ a, if al_new a isin srcs then AliasRow target (al_by a) (al_at a) else a) <$> db in
  foldl (λ m s, <[s := AliasRow target actor now]> m) db1 srcs.

(** [person_names]: the lower-cased names of [principals] and
    [principal_aliases]; [owner]: the configured owner name. *)
Definition relabel (now : Z) (person_names : list string) (owner : option string)
    (sources : list string) (target : string) (dry_run : bool) (actor : option string)
    (st : alias_state) : outcome alias_error (relabel_result * alias_state) :=
  do! target <- validate_project_name target;
  do! srcs <- validate_sources target sources [];
  if length srcs == 0 then Raise NoSources
  else
    let st := refresh st in
    if bool_decide (is_Some (as_cache st !! target))
    then Raise (TargetIsAlias (canonical_name (as_cache st) target))
    else
      let clashing :=
        sorted (dedup (filter (λ s, s ∈ person_names ∨ s = norm owner) srcs)) in
      if negb (length clashing == 0) then Raise (NameClash clashing)
      else
        let rows := sql_select (in_projects (srcs ++ [target])) (as_mem st) in
        let p := plan rows srcs target in
        let counts := plan_counts rows srcs in
        let result := RelabelResult dry_run target counts (sum_list counts.*2)
                        (ps_renames p) ((λ s, (s, target)) <$> srcs) in
        if dry_run then Done (result, st)
        else
          match relabel_rows now srcs target (ps_new p) (as_mem st) with
          | None => Raise UniqueViolation
          | Some mem =>
              Done (result, refresh (AliasState mem
                      (relabel_aliases now srcs target actor (as_db st)) (as_cache st)))
          end.

(** ** reverse *)

(** [scope = 'project' AND project = $1 AND metadata->>'moved_from' = $2] *)
Definition moved_from (source target : string) (r : row) : bool :=
  (r_scope r == "project") && (r_project r == Some target) &&
  (md_text (r_meta r) "moved_from" == Some source).

Definition unmoved_meta (source : string) (m : option jobj) : option jobj :=
  Some ({["project" := JStr source]} ∪
        delete "moved_at" (delete "moved_from" (default ∅ m))).

Definition unarchive (source key : string) : string :=
  removeprefix (ARCHIVE_PREFIX +:+ source +:+ "/") key.

Definition restore_pk (source : string) (k : pkey) : pkey :=
  PKey (k_ns k) (unarchive source (k_key k)) (k_scope k) (k_user k) (Some source).

Definition reverse_rows (source target : string) (t : table) : option table :=
  let moved := sql_select (moved_from source target) t in
  t1 ← sql_rekeys ((λ r, (r_id r, restore_pk source)) <$> moved) t;
  Some (sql_update (λ r, r_id r isin (r_id <$> moved))
          (λ r, set_meta (unmoved_meta source (r_meta r)) r) t1).

Record reverse_result := ReverseResult { rv_restored : nat; rv_alias_dropped : bool }.

Definition reverse (source target : string) (st : alias_state)
  : outcome alias_error (reverse_result * alias_state) :=
  do! source <- validate_project_name source;
  do! target <- validate_project_name target;
  match reverse_rows source target (as_mem st) with
  | None => Raise UniqueViolation
  | Some mem =>
      Done (ReverseResult (length (sql_select (moved_from source target) (as_mem st)))
                          (bool_decide (is_Some (as_db st !! source))),
            refresh (AliasState mem (delete source (as_db st)) (as_cache st)))
  end.

(** ** Resolution terminates and finds the current name *)

(** No name is both an old name and a current name: what [relabel] maintains. *)
Definition flat (aliases : gmap string string) : Prop :=
  ∀ o n, aliases !! o = Some n → aliases !! n = None.

Section canonical.
Implicit Types (aliases : gmap string string) (seen : list string) (n : string).

(** The names passed through are distinct old names, so [S (size aliases)]
    steps are enough. *)
Lemma canonical_loop_total fuel aliases seen n :
  NoDup (n :: seen) → (∀ x, x ∈ seen → x ∈ dom aliases) →
  size aliases < fuel + length seen →
  is_Some (canonical_loop fuel aliases (n :: seen) n).
Proof.
  revert seen n. induction fuel as [|fuel IH]; intros seen n Hnd Hdom Hsz.
  - exfalso. apply NoDup_cons in Hnd as [_ Hnd].
    assert (size (list_to_set (C := gset string) seen) ≤ size (dom aliases)) as Hle.
    { apply subseteq_size. intros x Hx. apply elem_of_list_to_set in Hx. auto. }
    rewrite size_list_to_set in Hle by done. rewrite size_dom in Hle. simpl in Hsz. lia.
  - simpl. destruct (aliases !! n) as [m|] eqn:E; [|by eauto].
    case_bool_decide as Hm; [by eauto|]. apply IH.
    + by apply NoDup_cons.
    + intros x [->|Hx]%elem_of_cons; [|by auto]. apply elem_of_dom. by eauto.
    + simpl. lia.
Qed.

Lemma canonical_name_loop aliases name :
  canonical_loop (S (size aliases)) aliases [norm (Some name)] (norm (Some name))
    = Some (canonical_name aliases name).
Proof.
  unfold canonical_name.
  destruct (canonical_loop_total (S (size aliases)) aliases [] (norm (Some name)))
    as [c ->]; [apply NoDup_singleton|by intros x ?%elem_of_nil|simpl; lia|done].
Qed.

Lemma canonical_name_none aliases n :
  norm (Some n) = n → aliases !! n = None → canonical_name aliases n = n.
Proof.
  intros Hn E. pose proof (canonical_name_loop aliases n) as H. rewrite Hn in H.
  simpl in H. rewrite E in H. by injection H.
Qed.

Lemma canonical_name_flat aliases o n :
  flat aliases → norm (Some o) = o → aliases !! o = Some n → canonical_name aliases o = n.
Proof.
  intros Hf Ho E. pose proof (canonical_name_loop aliases o) as H. rewrite Ho in H.
  assert (n ≠ o) as Hne by (intros ->; specialize (Hf _ _ E); congruence).
  simpl in H. rewrite E in H. rewrite bool_decide_eq_false_2 in H
    by (rewrite list_elem_of_singleton; done).
  assert (size aliases ≠ 0) as Hsz.
  { rewrite map_size_ne_0_lookup. by eauto. }
  destruct (size aliases) as [|k]; [done|]. simpl in H.
  rewrite (Hf _ _ E) in H. by injection H.
Qed.

(** A lookup in the loop follows the map: the result is reached by hops. *)
Inductive hops aliases : string → string → Prop :=
| hops_refl n : hops aliases n n
| hops_step n m c : aliases !! n = Some m → hops aliases m c → hops aliases n c.

Lemma hops_snoc aliases n m c : hops aliases n m → aliases !! m = Some c → hops aliases n c.
Proof.
  induction 1 as [n|n m' c' E H IH]; intros Hc.
  - eapply hops_step; [done|constructor].
  - eapply hops_step; [done|auto].
Qed.

Lemma canonical_loop_hops fuel aliases seen n c :
  (∀ x, x ∈ seen → hops aliases x n) →
  canonical_loop fuel aliases seen n = Some c →
  hops aliases n c ∧ (aliases !! c = None ∨ ∃ d, hops aliases c d ∧ aliases !! d = Some c).
Proof.
  revert seen n. induction fuel as [|fuel IH]; intros seen n Hseen; simpl; [done|].
  destruct (aliases !! n) as [m|] eqn:E.
  - case_bool_decide as Hm.
    + intros [= <-]. split; [eapply hops_step; [done|constructor]|]. right. eauto.
    + intros H. apply IH in H as [Hh Hc].
      * split; [by eapply hops_step|done].
      * intros x [->|Hx]%elem_of_cons; [constructor|]. eapply hops_snoc; eauto.
  - intros [= <-]. split; [constructor|by auto].
Qed.
End canonical.

(** ** The plan: every renamed row gets a key nobody has *)

Section free_key.
Context (ns uid base : string).

Definition cand_at (i : nat) : string :=
  match i with
  | O => base
  | S j => base +:+ "-" +:+ pretty (N.of_nat (j + 2))
  end.

Lemma cand_at_inj i j : cand_at i = cand_at j → i = j.
Proof.
  assert (∀ s, base ≠ base +:+ "-" +:+ s) as Hne.
  { intros s H. apply (f_equal String.length) in H.
    rewrite string_length_app in H. simpl in H. lia. }
  destruct i as [|i], j as [|j]; cbn [cand_at]; intros H.
  - done.
  - by destruct (Hne _ H).
  - by destruct (Hne _ (eq_sym H)).
  - apply string_app_inj_l in H. simpl in H. injection H as H. apply pretty_N_inj in H. lia.
Qed.

Lemma free_key_search fuel (taken : list (string * string * string)) i :
  let k := free_key fuel taken ns uid base (cand_at i) (N.of_nat (i + 2)) in
  ∃ j, k = cand_at (i + j) ∧ j ≤ fuel ∧
    (∀ j', j' < j → (ns, uid, cand_at (i + j')) ∈ taken) ∧
    (j < fuel → (ns, uid, k) ∉ taken).
Proof.
  revert i. induction fuel as [|fuel IH]; intros i; cbn zeta; cbn [free_key].
  - exists 0. rewrite Nat.add_0_r. split_and!; [done|lia|intros; lia|lia].
  - case_bool_decide as Hin.
    + change (base +:+ "-" +:+ pretty (N.of_nat (i + 2))) with (cand_at (S i)).
      replace (N.of_nat (i + 2) + 1)%N with (N.of_nat (S i + 2)) by lia.
      destruct (IH (S i)) as (j & Hk & Hj & Htaken & Hfree).
      exists (S j). replace (i + S j) with (S i + j) by lia.
      split_and!; [exact Hk|lia| |intros; apply Hfree; lia].
      intros [|j'] Hj'; [by rewrite Nat.add_0_r|].
      replace (i + S j') with (S i + j') by lia. apply Htaken. lia.
    + exists 0. rewrite Nat.add_0_r. split_and!; [done|lia|intros; lia|done].
Qed.

(** With one more step than there are taken keys the search ends at a free one. *)
Lemma free_key_fresh taken :
  (ns, uid, free_key (S (length taken)) taken ns uid base base 2) ∉ taken.
Proof.
  destruct (free_key_search (S (length taken)) taken 0) as (j & Hk & Hj & Htaken & Hfree).
  simpl (cand_at 0) in *. simpl (N.of_nat (0 + 2)) in *.
  destruct (decide (j < S (length taken))) as [Hlt|Hge]; [by apply Hfree|].
  exfalso.
  assert (length ((λ i, (ns, uid, cand_at i)) <$> seq 0 (S (length taken))) ≤ length taken) as Hle.
  { apply submseteq_length, NoDup_submseteq.
    - apply NoDup_fmap_2; [|apply NoDup_seq]. intros x y [= H]. by apply cand_at_inj.
    - intros x (i & -> & Hi)%list_elem_of_fmap. apply elem_of_seq in Hi. apply Htaken. lia. }
  rewrite length_fmap, length_seq in Hle. lia.
Qed.

Lemma free_key_base fuel taken n :
  (ns, uid, base) ∉ taken → free_key (S fuel) taken ns uid base base n = base.
Proof. intros H. simpl. by rewrite bool_decide_eq_false_2. Qed.
End free_key.

Section ranked.
Implicit Types (rk : row → nat) (l : list row).

Lemma sort_ranked_Permutation rk l : sort_ranked rk l ≡ₚ l.
Proof. apply sort_by_Permutation. Qed.

(** The first element has the least rank. *)
Definition head_least rk l : Prop :=
  ∀ x rest, l = x :: rest → ∀ y, y ∈ rest → rk x ≤ rk y.

Lemma sort_ranked_least rk l : head_least rk (sort_ranked rk l).
Proof.
  intros x rest E y Hy. assert (StronglySorted (λ a b, (rk a <=? rk b) = true) (sort_ranked rk l)) as Hs.
  { apply sort_by_sorted; [intros a b|intros a b c]; rewrite !Nat.leb_le; lia. }
  rewrite E in Hs. apply StronglySorted_inv in Hs as [_ Hall]. rewrite Forall_forall in Hall.
  apply Nat.leb_le. auto.
Qed.
End ranked.

Lemma index_from_None i sources p : index_from i sources p = None ↔ p ∉ sources.
Proof.
  revert i. induction sources as [|s rest IH]; intros i; simpl; [set_solver|].
  case_bool_decide; [set_solver|]. rewrite IH. set_solver.
Qed.

Lemma index_from_ge i sources p j : index_from i sources p = Some j → i ≤ j.
Proof.
  revert i. induction sources as [|s rest IH]; intros i; simpl; [done|].
  case_bool_decide; [naive_solver|]. intros Hj%IH. lia.
Qed.

Lemma rank_zero sources target p : rank sources target p = 0 ↔ p ∉ sources.
Proof.
  unfold rank. destruct (index_from 1 sources p) as [j|] eqn:E.
  - pose proof (index_from_ge _ _ _ _ E). split; [lia|]. intros Hp.
    apply (index_from_None 1) in Hp. congruence.
  - by apply index_from_None in E.
Qed.

Section losers.
Context (rows : list row) (sources : list string) (target : string).
Let rk := λ r, rank sources target (proj_of r).
Let members (g : string * string * string) := sort_ranked rk (select (λ r, group_of r == g) rows).

Lemma elem_of_members g r : r ∈ members g ↔ group_of r = g ∧ r ∈ rows.
Proof.
  unfold members. rewrite sort_ranked_Permutation, elem_of_select.
  by rewrite bool_decide_eq_true.
Qed.

Lemma elem_of_losers r :
  r ∈ losers rows sources target ↔ r ∈ rows ∧ r ∈ tail (members (group_of r)).
Proof.
  assert (∀ (l : list row) x, x ∈ tail l → x ∈ l) as Htl by (intros [|y l] x; [done|by right]).
  unfold losers. fold rk. rewrite list_elem_of_bind. split.
  - intros (g & Hr & Hg). fold (members g) in Hr.
    assert (group_of r = g ∧ r ∈ rows) as [<- ?]; [|done].
    apply elem_of_members. by apply Htl.
  - intros [Hr Ht]. exists (group_of r). split; [exact Ht|].
    apply elem_of_dedup. by apply list_elem_of_fmap_2.
Qed.

(** One row per group keeps its key. *)
Lemma not_losers_eq r r' :
  r ∈ rows → r' ∈ rows → r ∉ losers rows sources target → r' ∉ losers rows sources target →
  group_of r = group_of r' → r = r'.
Proof.
  intros Hr Hr' Hl Hl' Hg. rewrite elem_of_losers in Hl, Hl'.
  assert (r ∈ members (group_of r)) as Hm by (by apply elem_of_members).
  assert (r' ∈ members (group_of r)) as Hm' by (by apply elem_of_members).
  rewrite <- Hg in Hl'. destruct (members (group_of r)) as [|h tl]; [by apply elem_of_nil in Hm|].
  simpl in *. apply elem_of_cons in Hm as [->|?], Hm' as [->|?]; tauto.
Qed.

Lemma NoDup_losers : NoDup rows → NoDup (losers rows sources target).
Proof.
  intros Hnd. unfold losers. fold rk. apply NoDup_bind; [| |apply NoDup_dedup].
  - intros g1 g2 y Hg1 Hg2 H1 H2. fold (members g1) in H1. fold (members g2) in H2.
    assert (∀ (l : list row) x, x ∈ tail l → x ∈ l) as Htl by (intros [|z l] x; [done|by right]).
    apply Htl, elem_of_members in H1 as [<- _]. by apply Htl, elem_of_members in H2 as [<- _].
  - intros g Hg. fold (members g).
    assert (NoDup (members g)) as Hm.
    { unfold members. rewrite sort_ranked_Permutation. by apply NoDup_filter. }
    destruct (members g); [constructor|]. by apply NoDup_cons in Hm as [_ Hm].
Qed.

(** The row that keeps the key has the least rank: the target's own row,
    then the first source listed. *)
Lemma loser_beaten r :
  NoDup rows → r ∈ losers rows sources target →
  ∃ w, w ∈ rows ∧ group_of w = group_of r ∧ rk w ≤ rk r ∧ w ≠ r ∧
    w ∉ losers rows sources target.
Proof.
  intros Hnd. rewrite elem_of_losers. intros [Hr Ht].
  pose proof (sort_ranked_least rk (select (λ x, group_of x == group_of r) rows)) as Hh.
  fold (members (group_of r)) in Hh.
  assert (∀ w, w ∈ members (group_of r) → group_of w = group_of r ∧ w ∈ rows) as Hin
    by (intros w Hw; by apply elem_of_members).
  assert (NoDup (members (group_of r))) as Hm.
  { unfold members. rewrite sort_ranked_Permutation. by apply NoDup_filter. }
  destruct (members (group_of r)) as [|w tl] eqn:E; [by apply elem_of_nil in Ht|].
  simpl in Ht. apply NoDup_cons in Hm as [Hw _].
  exists w. destruct (Hin w) as [Hw1 Hw2]; [by left|].
  split_and!; [done..|by apply (Hh w tl)|by intros ->|].
  rewrite elem_of_losers, Hw1, E. by intros [].
Qed.
End losers.

(** The outcome of the planning loop: each loser with the key chosen for it. *)
Definition trip (rc : row * string) : string * string * string := (r_ns rc.1, r_user rc.1, rc.2).

Lemma plan_foldl ls acc :
  ∃ pl : list (row * string),
    pl.*1 = ls ∧
    ps_new (foldl plan_loser acc ls) = ps_new acc ++ ((λ rc, (r_id rc.1, rc.2)) <$> pl) ∧
    ps_renames (foldl plan_loser acc ls) = ps_renames acc ++
      ((λ rc, Rename (proj_of rc.1) (r_key rc.1) rc.2 (r_user rc.1)) <$> pl) ∧
    NoDup (trip <$> pl) ∧ (∀ x, x ∈ trip <$> pl → x ∉ ps_taken acc).
Proof.
  revert acc. induction ls as [|r ls IH]; intros acc.
  { exists []. simpl. rewrite !app_nil_r. split_and!; [done..|constructor|by intros x ?%elem_of_nil]. }
  simpl. destruct (IH (plan_loser acc r)) as (pl & Hpl & Hnew & Hren & Hnd & Hfresh).
  set (c := free_key (S (length (ps_taken acc))) (ps_taken acc) (r_ns r) (r_user r)
              (ARCHIVE_PREFIX +:+ proj_of r +:+ "/" +:+ r_key r)
              (ARCHIVE_PREFIX +:+ proj_of r +:+ "/" +:+ r_key r) 2).
  exists ((r, c) :: pl). cbn [fmap list_fmap].
  rewrite Hnew, Hren. unfold plan_loser at 1 2. fold c. cbn [ps_new ps_renames].
  rewrite <- !app_assoc. split_and!; [by cbn; f_equal|done|done| |].
  - apply NoDup_cons. split; [|done]. intros Hin. apply (Hfresh _ Hin).
    unfold plan_loser. cbn [ps_taken]. fold c. by left.
  - intros x [->|Hx]%elem_of_cons.
    + apply free_key_fresh.
    + intros Hin. apply (Hfresh _ Hx). unfold plan_loser. cbn [ps_taken]. by right.
Qed.

(** ** The merge as one pass over the rows *)

(** The key a plan gives a row: its new key, or the one it has. *)
Fixpoint final_key (new_key : list (Z * string)) (r : row) : string :=
  match new_key with
  | [] => r_key r
  | (i, key) :: rest => if i == r_id r then key else final_key rest r
  end.

(** What [relabel] makes of one row. *)
Definition relabelled (now : Z) (srcs : list string) (target : string)
    (new_key : list (Z * string)) (r : row) : row :=
  if in_projects srcs r then
    set_meta (moved_stamp now target r)
      (set_pk (PKey (r_ns r) (final_key new_key r) (r_scope r) (r_user r) (Some target)) r)
  else r.

Lemma final_key_rekey nk r :
  r_pk (rekey_row ((λ '(i, key), (i, set_key_of key)) <$> nk) r)
    = PKey (r_ns r) (final_key nk r) (r_scope r) (r_user r) (r_project r).
Proof.
  unfold rekey_row. induction nk as [|[i key] nk IH]; simpl; [by destruct (r_pk r)|].
  case_bool_decide; [done|exact IH].
Qed.

Lemma final_key_notin nk r : r_id r ∉ nk.*1 → final_key nk r = r_key r.
Proof.
  induction nk as [|[i key] nk IH]; simpl; [done|]. rewrite not_elem_of_cons.
  intros [Hi Hn]. rewrite bool_decide_eq_false_2 by done. auto.
Qed.

Lemma final_key_in nk r c : NoDup nk.*1 → (r_id r, c) ∈ nk → final_key nk r = c.
Proof.
  induction nk as [|[i key] nk IH]; simpl; [by intros _ ?%elem_of_nil|].
  rewrite NoDup_cons. intros [Hj Hnd] [[= <- <-]|Hin]%elem_of_cons.
  - by rewrite bool_decide_eq_true_2.
  - rewrite bool_decide_eq_false_2; [auto|]. intros ->.
    apply Hj. apply list_elem_of_fmap. by exists (r_id r, c).
Qed.

Lemma in_projects_true names r :
  in_projects names r = true ↔ r_scope r = "project" ∧ ∃ p, r_project r = Some p ∧ p ∈ names.
Proof.
  unfold in_projects. rewrite andb_true_iff, bool_decide_eq_true.
  destruct (r_project r) as [p|].
  - rewrite bool_decide_eq_true. naive_solver.
  - naive_solver.
Qed.

Lemma in_projects_app a b r : in_projects a r = true → in_projects (a ++ b) r = true.
Proof. rewrite !in_projects_true. set_solver. Qed.

Section merge.
Context (t : table) (srcs : list string) (target : string).
Hypothesis Hwf : wf t.
Hypothesis Htarget : target ∉ srcs.
Let rows := sql_select (in_projects (srcs ++ [target])) t.
Let nk := ps_new (plan rows srcs target).

Lemma merge_rows r : r ∈ rows ↔ in_projects (srcs ++ [target]) r = true ∧ r ∈ t_rows t.
Proof. apply elem_of_sql_select. Qed.

Lemma merge_NoDup : NoDup rows.
Proof.
  apply (NoDup_fmap_1 r_id). destruct Hwf as (_ & Hid & _). by apply NoDup_fmap_select.
Qed.

Lemma merge_pk r r' : r ∈ rows → r' ∈ rows → group_of r = group_of r' →
  r_project r = r_project r' → r = r'.
Proof.
  intros [Hr Hrt]%merge_rows [Hr' Hrt']%merge_rows [= Hn Hu Hk] Hp.
  apply in_projects_true in Hr as [Hs _], Hr' as [Hs' _].
  eapply wf_row_eq; [exact Hwf|done..|].
  destruct (r_pk r), (r_pk r'); simpl in *; congruence.
Qed.

(** The target's own row never loses its key. *)
Lemma merge_loser_src r : r ∈ losers rows srcs target → in_projects srcs r = true.
Proof.
  intros Hl. pose proof Hl as Hl0. apply elem_of_losers in Hl0 as [Hr _].
  pose proof Hr as [Hp Ht]%merge_rows. apply in_projects_true in Hp as [Hs (p & Hp & Hin)].
  apply in_projects_true. split; [done|]. exists p. split; [done|].
  apply elem_of_app in Hin as [Hin| ->%list_elem_of_singleton]; [done|]. exfalso.
  destruct (loser_beaten rows srcs target r merge_NoDup Hl) as (w & Hw & Hg & Hrk & Hne & _).
  apply Hne. apply merge_pk; [done..|].
  assert (rank srcs target (proj_of r) = 0) as Hz.
  { apply rank_zero. unfold proj_of. by rewrite Hp. }
  assert (rank srcs target (proj_of w) = 0) as Hzw by lia.
  apply rank_zero in Hzw. pose proof Hw as [Hwp _]%merge_rows.
  apply in_projects_true in Hwp as [_ (q & Hq & Hqin)]. unfold proj_of in Hzw.
  rewrite Hq in Hzw. simpl in Hzw. rewrite Hq, Hp. f_equal.
  apply elem_of_app in Hqin as [?| ->%list_elem_of_singleton]; done.
Qed.

(** What the plan chose, row by row. *)
Lemma merge_plan :
  ∃ pl : list (row * string),
    pl.*1 = losers rows srcs target ∧ nk = (λ rc, (r_id rc.1, rc.2)) <$> pl ∧
    NoDup (trip <$> pl) ∧ (∀ x, x ∈ trip <$> pl → x ∉ group_of <$> rows) ∧ NoDup nk.*1.
Proof.
  destruct (plan_foldl (losers rows srcs target) (PlanState (group_of <$> rows) [] []))
    as (pl & Hpl & Hnew & _ & Hnd & Hfresh).
  exists pl. split; [done|]. split; [exact Hnew|]. split; [done|]. split; [exact Hfresh|].
  unfold nk, plan. rewrite Hnew. simpl. rewrite <- list_fmap_compose.
  change ((fst ∘ (λ rc : row * string, (r_id rc.1, rc.2))) <$> pl) with ((λ rc, r_id rc.1) <$> pl).
  replace ((λ rc, r_id rc.1) <$> pl) with (r_id <$> pl.*1) by (by rewrite <- list_fmap_compose).
  rewrite Hpl. apply NoDup_fmap_2_strong.
  - intros x y [Hx _]%elem_of_losers [Hy _]%elem_of_losers Hi.
    apply merge_rows in Hx as [_ Hx], Hy as [_ Hy]. by eapply wf_id_eq.
  - apply NoDup_losers, merge_NoDup.
Qed.

Lemma final_key_loser r :
  r ∈ t_rows t → r ∉ losers rows srcs target → final_key nk r = r_key r.
Proof.
  intros Hr Hl. destruct merge_plan as (pl & Hpl & Hnk & _).
  apply final_key_notin. rewrite Hnk. intros ([i c] & Hi & Hin)%list_elem_of_fmap.
  apply list_elem_of_fmap in Hin as ([x c'] & Hx & Hin). simpl in *. simplify_eq.
  apply Hl. assert (x ∈ losers rows srcs target) as Hxl.
  { rewrite <- Hpl. apply list_elem_of_fmap. by exists (x, c'). }
  pose proof Hxl as [Hxr _]%elem_of_losers. apply merge_rows in Hxr as [_ Hxr].
  by rewrite (wf_id_eq t r x).
Qed.

(** Two rows of the merged projects never end at the same key. *)
Lemma final_key_inj r r' :
  r ∈ rows → r' ∈ rows →
  (r_ns r, r_user r, final_key nk r) = (r_ns r', r_user r', final_key nk r') → r = r'.
Proof.
  intros Hr Hr' Heq.
  destruct merge_plan as (pl & Hpl & Hnk & Hnd & Hfresh & Hids).
  assert (∀ x, x ∈ losers rows srcs target → ∃ c, (x, c) ∈ pl ∧ final_key nk x = c) as Hlose.
  { intros x Hx. rewrite <- Hpl in Hx. apply list_elem_of_fmap in Hx as ([y c] & -> & Hin).
    exists c. split; [done|]. apply final_key_in; [done|]. rewrite Hnk.
    apply list_elem_of_fmap. by exists (y, c). }
  assert (∀ x, x ∈ rows → x ∉ losers rows srcs target →
    (r_ns x, r_user x, final_key nk x) = group_of x) as Hkeep.
  { intros x Hx Hxl. rewrite final_key_loser; [done| |done]. by apply merge_rows in Hx as [_ Hx]. }
  destruct (decide (r ∈ losers rows srcs target)) as [Hl|Hl],
    (decide (r' ∈ losers rows srcs target)) as [Hl'|Hl'].
  - destruct (Hlose r Hl) as (c & Hc & Hk), (Hlose r' Hl') as (c' & Hc' & Hk').
    rewrite Hk, Hk' in Heq.
    assert ((r, c) = (r', c')) as [=]; [|done].
    by eapply (NoDup_fmap_inj trip).
  - destruct (Hlose r Hl) as (c & Hc & Hk). rewrite Hk in Heq. exfalso.
    apply (Hfresh (trip (r, c))); [by apply list_elem_of_fmap_2|].
    unfold trip. simpl. rewrite Heq, Hkeep by done. by apply list_elem_of_fmap_2.
  - destruct (Hlose r' Hl') as (c & Hc & Hk). rewrite Hk in Heq. exfalso.
    apply (Hfresh (trip (r', c))); [by apply list_elem_of_fmap_2|].
    unfold trip. simpl. rewrite <- Heq, Hkeep by done. by apply list_elem_of_fmap_2.
  - apply (not_losers_eq rows srcs target); [done..|]. rewrite !Hkeep in Heq by done. done.
Qed.

Let us1 := (λ '(i, key), (i, set_key_of key)) <$> nk.

Lemma us1_NoDup : NoDup us1.*1.
Proof.
  destruct (merge_plan) as (_ & _ & _ & _ & _ & Hids). unfold us1.
  rewrite <- list_fmap_compose. erewrite (list_fmap_ext _ fst); [exact Hids|].
  by intros _ [i c] _.
Qed.

Lemma us1_loser r g : r ∈ t_rows t → rekey_of us1 (r_id r) = Some g →
  r ∈ losers rows srcs target ∧ g = set_key_of (final_key nk r).
Proof.
  intros Hr Hg. destruct merge_plan as (pl & Hpl & Hnk & _ & _ & Hids).
  apply rekey_of_Some in Hg. unfold us1 in Hg.
  apply list_elem_of_fmap in Hg as ([i c] & [= Hi ->] & Hin).
  rewrite (final_key_in nk r c); [|done|by rewrite Hi]. split; [|done].
  rewrite Hnk in Hin. apply list_elem_of_fmap in Hin as ([x c'] & [= -> ->] & Hin).
  simpl in Hi. assert (x ∈ losers rows srcs target) as Hx.
  { rewrite <- Hpl. apply list_elem_of_fmap. by exists (x, c'). }
  rewrite (wf_id_eq t r x); [done..| |done].
  apply elem_of_losers in Hx as [Hx _]. by apply merge_rows in Hx as [_ Hx].
Qed.

Lemma loser_key_new r : r ∈ losers rows srcs target →
  (r_ns r, r_user r, final_key nk r) ∉ group_of <$> rows.
Proof.
  intros Hx. destruct merge_plan as (pl & Hpl & Hnk & Hnd & Hfresh & Hids).
  rewrite <- Hpl in Hx. apply list_elem_of_fmap in Hx as ([y c] & -> & Hin).
  rewrite (final_key_in nk _ c); [|done|].
  - apply Hfresh. by apply (list_elem_of_fmap_2 trip _ (y, c)).
  - rewrite Hnk. apply list_elem_of_fmap. by exists (y, c).
Qed.

Lemma merge_rows_pk r r' k :
  r ∈ rows → r' ∈ t_rows t → r_scope r' = r_scope r → r_project r' = Some k →
  k ∈ srcs ++ [target] → r' ∈ rows.
Proof.
  intros [Hr _]%merge_rows Hr' Hs Hp Hk. apply merge_rows. split; [|done].
  apply in_projects_true in Hr as [Hrs _]. apply in_projects_true.
  split; [congruence|]. by exists k.
Qed.

Lemma us1_free : rekey_free us1 (t_rows t).
Proof.
  intros r r' g Hr Hr' Hne Hg. apply us1_loser in Hg as [Hl ->]; [|done].
  pose proof Hl as [Hrow _]%elem_of_losers.
  pose proof Hrow as [Hin _]%merge_rows. apply in_projects_true in Hin as [_ (p & Hp & Hpin)].
  split; intros Heq.
  - assert (r' ∈ rows) as Hrow'.
    { apply (merge_rows_pk r r' p); [done..| | |done].
      - by rewrite <- Heq.
      - by rewrite <- Heq. }
    apply (loser_key_new r Hl).
    replace (r_ns r, r_user r, final_key nk r) with (group_of r'); [by apply list_elem_of_fmap_2|].
    unfold group_of. by rewrite <- Heq.
  - unfold us1 in Heq. rewrite final_key_rekey in Heq. injection Heq as H1 H2 H3 H4 H5.
    apply Hne. f_equal. apply final_key_inj; [done| |congruence].
    apply (merge_rows_pk r r' p); [done..|congruence|done].
Qed.

(** The table between the two updates of a merge: every row under its planned
    key, the rows to be moved stamped. *)
Section second_pass.
Context (now : Z).

Let f2 := λ r, set_meta (moved_stamp now target r) r.
Let t1 := Table (rekey_row us1 <$> t_rows t) (t_seq t).
Let t2 := sql_update (in_projects srcs) f2 t1.
Let us2 := (λ r, (r_id r, set_project_of target)) <$> sql_select (in_projects srcs) t2.
Let row2 := λ r, if in_projects srcs r then f2 (rekey_row us1 r) else rekey_row us1 r.

Lemma second_wf : wf t2.
Proof.
  apply wf_update; [unfold f2; apply _|]. apply wf_rekey; [done|apply us1_free].
Qed.

Lemma second_rows : t_rows t2 = row2 <$> t_rows t.
Proof.
  unfold t2, t1, sql_update, update_where. simpl. rewrite <- list_fmap_compose.
  apply list_fmap_ext. intros _ r _. unfold row2. simpl.
  assert (in_projects srcs (rekey_row us1 r) = in_projects srcs r) as -> by (unfold in_projects, us1; by rewrite final_key_rekey). done.
Qed.

Lemma row2_pk r : r_pk (row2 r) = PKey (r_ns r) (final_key nk r) (r_scope r) (r_user r) (r_project r).
Proof. unfold row2, f2. rewrite <- final_key_rekey. by destruct (in_projects srcs r). Qed.

Lemma row2_id r : r_id (row2 r) = r_id r.
Proof. unfold row2. destruct (in_projects srcs r); simpl; apply rekey_row_id. Qed.

Lemma row2_in r : in_projects srcs (row2 r) = in_projects srcs r.
Proof. unfold in_projects. by rewrite row2_pk. Qed.

Lemma us2_NoDup : NoDup (fst <$> us2).
Proof.
  unfold us2. rewrite <- list_fmap_compose. simpl. destruct second_wf as (_ & Hids & _). by apply (NoDup_fmap_select r_id).
Qed.

(** The second update moves the rows of the sources, and no others. *)
Lemma us2_of r : r ∈ t_rows t → rekey_of us2 (r_id r) = if in_projects srcs r then Some (set_project_of target) else None.
Proof.
  intros Hr. assert (row2 r ∈ t_rows t2) as Hr2 by (rewrite second_rows; by apply list_elem_of_fmap_2).
  destruct (in_projects srcs r) eqn:E.
  - apply rekey_of_elem; [apply us2_NoDup|]. unfold us2. apply list_elem_of_fmap. exists (row2 r). rewrite row2_id. split; [done|].
    apply elem_of_sql_select. by rewrite row2_in.
  - apply rekey_of_None. unfold us2. rewrite <- list_fmap_compose.
    intros (x & Hx & Hin)%list_elem_of_fmap. apply elem_of_sql_select in Hin as [Hp Hin].
    simpl in Hx. assert (x = row2 r) as -> by (pose proof second_wf; eapply wf_id_eq; eauto; by rewrite row2_id).
    by rewrite row2_in, E in Hp.
Qed.

(** No row moved runs into another: their keys were planned apart. *)
Lemma us2_free : rekey_free us2 (t_rows t2).
Proof.
  rewrite second_rows. intros a a' g (r & -> & Hr)%list_elem_of_fmap (r' & -> & Hr')%list_elem_of_fmap.
  rewrite !row2_id. intros Hne Hg. rewrite us2_of in Hg by done.
  destruct (in_projects srcs r) eqn:E; [|done]. injection Hg as <-.
  assert (r ∈ rows) as Hrow by (apply merge_rows; split; [by apply in_projects_app|done]).
  assert (∀ r', r' ∈ rows → r_id r ≠ r_id r' →
    (r_ns r, r_user r, final_key nk r) ≠ (r_ns r', r_user r', final_key nk r')) as Hinj.
  { intros x Hx Hxne Heq. apply Hxne. f_equal. by apply final_key_inj. }
  split.
  - rewrite !row2_pk. unfold set_project_of. simpl. intros [= H1 H2 H3 H4 H5].
    apply (Hinj r'); [|done|congruence].
    apply (merge_rows_pk r r' target); [done..|set_solver].
  - unfold rekey_row. rewrite row2_id, us2_of by done. destruct (in_projects srcs r') eqn:E'.
    + simpl. rewrite !row2_pk. unfold set_project_of. simpl. intros [= H1 H2 H3 H4].
      apply (Hinj r'); [|done|congruence].
      apply merge_rows. split; [by apply in_projects_app|done].
    + rewrite !row2_pk. unfold set_project_of. simpl. intros [= H1 H2 H3 H4 H5].
      apply (Hinj r'); [|done|congruence].
      apply (merge_rows_pk r r' target); [done..|set_solver].
Qed.

Lemma second_end : rekey_row us2 <$> t_rows t2 = relabelled now srcs target nk <$> t_rows t.
Proof.
  rewrite second_rows, <- list_fmap_compose. apply Forall_fmap_ext_1.
  apply Forall_forall. intros r Hr. simpl. unfold rekey_row at 1. rewrite row2_id, us2_of by done.
  unfold relabelled. destruct (in_projects srcs r) eqn:E.
  - rewrite row2_pk. unfold row2. rewrite E. unfold f2, moved_stamp, set_project_of, rekey_row. simpl.
    by destruct (rekey_of us1 (r_id r)) as [g|] eqn:Eg; [pose proof (us1_loser r g Hr Eg) as [_ ->]|].
  - unfold row2. rewrite E. unfold rekey_row.
    destruct (rekey_of us1 (r_id r)) as [g|] eqn:Eg; [|done].
    apply us1_loser in Eg as [Hl _]; [|done]. apply merge_loser_src in Hl. congruence.
Qed.


(** The three updates are one pass over the table: no unique violation,
    each row of a source moved with its final key and stamp, all else as
    it was. *)
Lemma relabel_rows_map :
  relabel_rows now srcs target nk t = Some (Table (relabelled now srcs target nk <$> t_rows t) (t_seq t)) ∧
  wf (Table (relabelled now srcs target nk <$> t_rows t) (t_seq t)).
Proof.
  rewrite <- second_end. split; [|exact (wf_rekey us2 t2 second_wf us2_free)].
  unfold relabel_rows. fold us1. rewrite (sql_rekeys_ok us1 t us1_NoDup us1_free). simpl.
  fold f2 t1. fold t2. fold us2. by rewrite (sql_rekeys_ok us2 t2 us2_NoDup us2_free).
Qed.
End second_pass.
End merge.

Lemma validate_project_name_Done name n :
  validate_project_name name = Done n → PROJECT_NAME_RE n = true ∧ norm (Some n) = n.
Proof.
  unfold validate_project_name. destruct (PROJECT_NAME_RE _) eqn:E; [|done].
  intros [= <-]. by rewrite norm_idem.
Qed.

Lemma validate_sources_Done target sources acc srcs :
  validate_sources target sources acc = Done srcs →
  NoDup acc → Forall (λ s, s ≠ target ∧ PROJECT_NAME_RE s = true ∧ norm (Some s) = s) acc →
  NoDup srcs ∧ Forall (λ s, s ≠ target ∧ PROJECT_NAME_RE s = true ∧ norm (Some s) = s) srcs.
Proof.
  revert acc. induction sources as [|s rest IH]; intros acc; simpl; [by intros [= <-]|].
  destruct (validate_project_name s) as [n|] eqn:E; [|done]. simpl.
  apply validate_project_name_Done in E as [Hre Hn].
  intros H Hnd Hall. apply IH in H; [done| |]; repeat case_bool_decide; simpl; try done.
  - apply NoDup_app. split; [done|]. split; [|apply NoDup_singleton].
    by intros x Hx ->%list_elem_of_singleton.
  - apply Forall_app. split; [done|]. by apply Forall_singleton.
Qed.

Lemma sum_select_proj (srcs : list string) (l : list row) :
  NoDup srcs →
  sum_list ((λ s, length (select (λ r, proj_of r == s) l)) <$> srcs)
    = length (select (λ r, proj_of r isin srcs) l).
Proof.
  induction srcs as [|s srcs IH]; intros Hnd.
  { rewrite (proj2 (select_nil _ l)); [done|]. intros r _. by apply bool_decide_eq_false_2, not_elem_of_nil. }
  apply NoDup_cons in Hnd as [Hs Hnd]. cbn [fmap list_fmap sum_list sum_list_with]. 
  change (sum_list_with id) with sum_list. rewrite IH by done. clear IH.
  induction l as [|r l IHl]; [done|]. rewrite !select_cons.
  destruct (decide (proj_of r = s)) as [Hr|Hr].
  - rewrite (bool_decide_eq_true_2 (proj_of r = s)) by done.
    rewrite (bool_decide_eq_false_2 (proj_of r ∈ srcs)) by congruence.
    rewrite (bool_decide_eq_true_2 (proj_of r ∈ s :: srcs)) by (rewrite Hr; by left).
    simpl in *. lia.
  - rewrite (bool_decide_eq_false_2 (proj_of r = s)) by done.
    destruct (decide (proj_of r ∈ srcs)) as [Hin|Hin].
    + rewrite (bool_decide_eq_true_2 (proj_of r ∈ srcs)) by done.
      rewrite (bool_decide_eq_true_2 (proj_of r ∈ s :: srcs)) by (by right).
      simpl in *. lia.
    + rewrite (bool_decide_eq_false_2 (proj_of r ∈ srcs)) by done.
      rewrite (bool_decide_eq_false_2 (proj_of r ∈ s :: srcs)) by (rewrite elem_of_cons; tauto).
      done.
Qed.

Lemma plan_counts_total t srcs target :
  NoDup srcs →
  sum_list (plan_counts (sql_select (in_projects (srcs ++ [target])) t) srcs).*2
    = sql_count (in_projects srcs) t.
Proof.
  intros Hnd. unfold plan_counts. rewrite <- list_fmap_compose. cbn [compose snd].
  change (snd ∘ _) with
    (λ s, length (select (λ r, proj_of r == s) (sql_select (in_projects (srcs ++ [target])) t))).
  rewrite sum_select_proj by done. unfold sql_count, sql_select. f_equal.
  induction (t_rows t) as [|r l IH]; [done|]. rewrite !select_cons.
  destruct (in_projects srcs r) eqn:E.
  - rewrite in_projects_app by done. rewrite select_cons, IH.
    apply in_projects_true in E as [_ (p & Hp & Hin)]. unfold proj_of. rewrite Hp.
    by rewrite bool_decide_eq_true_2.
  - destruct (in_projects (srcs ++ [target]) r) eqn:E'; [|done].
    rewrite select_cons, IH. apply in_projects_true in E' as [Hs (p & Hp & Hin)].
    unfold proj_of. rewrite Hp. rewrite bool_decide_eq_false_2; [done|].
    intros Hps. assert (in_projects srcs r = true); [|congruence].
    apply in_projects_true. split; [done|]. by exists p.
Qed.

(** The sources a call names, once checked: what lets [relabel] proceed. *)
Definition relabel_ready (person_names : list string) (owner : option string)
    (sources : list string) (target : string) (db : gmap string alias_row)
    (tg : string) (srcs : list string) : Prop :=
  validate_project_name target = Done tg ∧ validate_sources tg sources [] = Done srcs ∧
  srcs ≠ [] ∧ db !! tg = None ∧ Forall (λ s, s ∉ person_names ∧ s ≠ norm owner) srcs.

Lemma relabel_unfold now pn owner sources target dry actor st tg srcs :
  relabel_ready pn owner sources target (as_db st) tg srcs →
  let p := plan (sql_select (in_projects (srcs ++ [tg])) (as_mem st)) srcs tg in
  let counts := plan_counts (sql_select (in_projects (srcs ++ [tg])) (as_mem st)) srcs in
  let res := RelabelResult dry tg counts (sum_list counts.*2) (ps_renames p)
               ((λ s, (s, tg)) <$> srcs) in
  relabel now pn owner sources target dry actor st =
    if dry then Done (res, refresh st)
    else match relabel_rows now srcs tg (ps_new p) (as_mem st) with
         | None => Raise UniqueViolation
         | Some mem => Done (res, refresh (AliasState mem
             (relabel_aliases now srcs tg actor (as_db st)) (al_new <$> as_db st)))
         end.
Proof.
  intros (Ht & Hs & Hne & Hal & Hcl). unfold relabel. rewrite Ht. simpl. rewrite Hs. simpl.
  rewrite bool_decide_eq_false_2 by (by destruct srcs).
  rewrite bool_decide_eq_false_2 by (rewrite lookup_fmap, Hal; by intros []).
  assert (filter (λ s, s ∈ pn ∨ s = norm owner) srcs = []) as ->.
  { clear -Hcl. induction srcs as [|s srcs IH]; [done|]. apply Forall_cons in Hcl as [[H1 H2] H3].
    rewrite filter_cons_False by tauto. auto. }
  done.
Qed.

Lemma relabel_ready_srcs pn owner sources target db tg srcs :
  relabel_ready pn owner sources target db tg srcs →
  NoDup srcs ∧ tg ∉ srcs ∧ (∀ s, s ∈ srcs → PROJECT_NAME_RE s = true ∧ norm (Some s) = s).
Proof.
  intros (Ht & Hs & _). apply validate_sources_Done in Hs as [Hnd Hall]; [|constructor|done].
  rewrite Forall_forall in Hall. split_and!; [done| |].
  - intros Hin. by apply Hall in Hin as [].
  - intros s Hin. by apply Hall in Hin as [_].
Qed.

(** C19. A merge that passes its checks commits: it raises no unique violation,
    moves every project row of the sources to the target in one pass (each
    under the key the plan chose, stamped with where it came from), leaves
    every other row alone, keeps the table's keys unique, leaves no row
    behind in a source, and reports exactly the number of rows moved; the
    dry run reports the same result and changes no row and no alias. *)
Theorem relabel_moves now pn owner sources target actor st tg srcs :
  wf (as_mem st) →
  relabel_ready pn owner sources target (as_db st) tg srcs →
  let p := plan (sql_select (in_projects (srcs ++ [tg])) (as_mem st)) srcs tg in
  ∃ res st',
    relabel now pn owner sources target false actor st = Done (res, st') ∧
    t_rows (as_mem st') = relabelled now srcs tg (ps_new p) <$> t_rows (as_mem st) ∧
    wf (as_mem st') ∧ sql_count (in_projects srcs) (as_mem st') = 0 ∧
    rr_total res = sql_count (in_projects srcs) (as_mem st) ∧
    relabel now pn owner sources target true actor st =
      Done (RelabelResult true (rr_target res) (rr_moved res) (rr_total res)
              (rr_renamed res) (rr_aliases res), refresh st).
Proof.
  intros Hwf Hready p. pose proof (relabel_ready_srcs _ _ _ _ _ _ _ Hready) as (Hnd & Htg & _).
  rewrite !(relabel_unfold now pn owner sources target _ actor st tg srcs Hready).
  destruct (relabel_rows_map (as_mem st) srcs tg Hwf Htg now) as [Hrows Hwf'].
  rewrite Hrows. eexists _, _. split; [done|]. simpl. split_and!; [done|done| |by apply plan_counts_total|done].
  apply sql_count_zero. intros y (r & -> & Hr)%list_elem_of_fmap.
  unfold relabelled. destruct (in_projects srcs r) eqn:E; [|done].
  apply not_true_is_false. intros [_ (q & [= <-] & Hin)]%in_projects_true. done.
Qed.
