(* ===== verification/ProjectAliasProps.v ===== *)
(** What project renames promise: how a merge names the rows that collide,
    that the alias map stays one hop deep, how names resolve and a listen set
    is widened, and when [reverse] undoes [relabel]. *)

From stdpp Require Import base gmap list strings pretty sorting.
From Stdlib Require Import ZArith Lia Ascii.
From S2P Require Import Prelude PyString Json Store ProjectAlias.

(** ** Keys after a merge *)

Definition archive_base (r : row) : string :=
  ARCHIVE_PREFIX +:+ proj_of r +:+ "/" +:+ r_key r.

(** Each loser's key is one of the numbered candidates of its archive key. *)
Lemma plan_foldl_cand ls acc i c :
  (i, c) ∈ ps_new (foldl plan_loser acc ls) →
  (i, c) ∈ ps_new acc ∨ ∃ r n, r ∈ ls ∧ r_id r = i ∧ c = cand_at (archive_base r) n.
Proof.
  revert acc. induction ls as [|r ls IH]; intros acc; simpl; [by left|].
  intros H. apply IH in H as [H|(x & n & Hx & Hi & Hc)].
  - unfold plan_loser in H. cbn [ps_new] in H.
    apply elem_of_app in H as [H|[= -> ->]%list_elem_of_singleton]; [by left|]. right.
    destruct (free_key_search (r_ns r) (r_user r) (archive_base r) (S (length (ps_taken acc)))
      (ps_taken acc) 0) as (j & Hk & _).
    exists r, j. split_and!; [by left|done|exact Hk].
  - right. exists x, n. split_and!; [by right|done..].
Qed.

(** Of the rows of the merged projects that share a key (same namespace and
    writer), exactly one keeps it: the target's own, else that of the first
    source listed. Every other one gets "archive/" + its old project + "/" +
    its key, with "-n" appended when that is taken; and no two rows of the merge ever
    end at the same key. *)
Lemma plan_keys t srcs target :
  wf t → target ∉ srcs →
  let rows := sql_select (in_projects (srcs ++ [target])) t in
  let nk := ps_new (plan rows srcs target) in
  ∀ r, r ∈ rows →
    (∀ r', r' ∈ rows →
       (r_ns r, r_user r, final_key nk r) = (r_ns r', r_user r', final_key nk r') → r = r') ∧
    (final_key nk r = r_key r ∨
     ∃ w n, w ∈ rows ∧ w ≠ r ∧ group_of w = group_of r ∧ final_key nk w = r_key r ∧
       rank srcs target (proj_of w) ≤ rank srcs target (proj_of r) ∧
       final_key nk r = cand_at (ARCHIVE_PREFIX +:+ proj_of r +:+ "/" +:+ r_key r) n).
Proof.
  intros Hwf Htg rows nk r Hr. split.
  { intros r' Hr' Heq. by apply (final_key_inj t srcs target). }
  pose proof Hr as [_ Hrt]%elem_of_sql_select.
  destruct (decide (r ∈ losers rows srcs target)) as [Hl|Hl].
  - right.
    destruct (loser_beaten rows srcs target r (merge_NoDup t srcs target Hwf) Hl)
      as (w & Hw & Hg & Hrk & Hne & Hwl).
    destruct (merge_plan t srcs target Hwf) as (pl & Hpl & Hnk & _ & _ & Hids).
    fold rows in Hpl, Hnk, Hids. fold nk in Hnk, Hids.
    rewrite <- Hpl in Hl. apply list_elem_of_fmap in Hl as ([x c] & -> & Hin). simpl in *.
    assert ((r_id x, c) ∈ nk) as Hc.
    { rewrite Hnk. apply list_elem_of_fmap. by exists (x, c). }
    pose proof Hc as Hc'. apply plan_foldl_cand in Hc' as [Hc'|(y & n & Hy & Hyi & Hcn)];
      [by apply elem_of_nil in Hc'|].
    assert (y = x) as ->.
    { apply elem_of_losers in Hy as [Hy _]. apply elem_of_sql_select in Hy as [_ Hy].
      by eapply wf_id_eq. }
    exists w, n. split_and!; [done..| |done|].
    + pose proof Hw as [_ Hwt]%elem_of_sql_select.
      unfold nk, rows. rewrite (final_key_loser t srcs target Hwf); [|done..].
      by injection Hg.
    + rewrite (final_key_in nk x c); [exact Hcn|done..].
  - left. by apply (final_key_loser t srcs target Hwf).
Qed.

(** ** The alias map stays flat *)

Lemma relabel_aliases_lookup now srcs target actor db o :
  relabel_aliases now srcs target actor db !! o =
    if o isin srcs then Some (AliasRow target actor now)
    else (λ a, if al_new a isin srcs then AliasRow target (al_by a) (al_at a) else a) <$> db !! o.
Proof.
  unfold relabel_aliases.
  set (f := λ a, if al_new a isin srcs then AliasRow target (al_by a) (al_at a) else a).
  assert (∀ l (m : gmap string alias_row), foldl (λ m s, <[s := AliasRow target actor now]> m) m l !! o =
    if o isin l then Some (AliasRow target actor now) else m !! o) as H.
  { induction l as [|s l IH]; intros m; simpl; [done|]. rewrite IH.
    destruct (decide (o = s)) as [->|Hne].
    - rewrite lookup_insert_eq. rewrite (bool_decide_eq_true_2 (s ∈ s :: l)) by (by left).
      by destruct (bool_decide _).
    - rewrite lookup_insert_ne by done.
      rewrite (bool_decide_ext (o ∈ l) (o ∈ s :: l)); [done|]. rewrite elem_of_cons. tauto. }
  by rewrite H, lookup_fmap.
Qed.

(** Relabelling keeps the alias map one hop deep, so a cycle can never be
    written; afterwards each source, and each older name that already led to
    a source, resolves to the target, and every other name resolves where it
    did before. *)
Lemma relabel_keeps_flat now pn owner sources target actor st tg srcs res st' :
  relabel_ready pn owner sources target (as_db st) tg srcs →
  flat (al_new <$> as_db st) →
  relabel now pn owner sources target false actor st = Done (res, st') →
  flat (as_cache st') ∧ as_cache st' = al_new <$> as_db st' ∧
  (∀ s, s ∈ srcs → canonical_name (as_cache st') s = tg) ∧
  (∀ o, norm (Some o) = o → o ∉ srcs →
     canonical_name (as_cache st') o =
       if canonical_name (al_new <$> as_db st) o isin srcs then tg
       else canonical_name (al_new <$> as_db st) o).
Proof.
  intros Hready Hflat H. pose proof (relabel_ready_srcs _ _ _ _ _ _ _ Hready) as (Hnd & Htg & Hre).
  assert (as_db st !! tg = None) as Hal by apply Hready.
  rewrite (relabel_unfold now pn owner sources target _ actor st tg srcs Hready) in H.
  destruct (relabel_rows _ _ _ _ _) as [mem|]; [|done]. injection H as <- <-. cbn [refresh as_cache as_db].
  set (c := al_new <$> as_db st) in *.
  set (c' := al_new <$> relabel_aliases now srcs tg actor (as_db st)).
  assert (∀ o, c' !! o = if o isin srcs then Some tg
    else (λ n, if n isin srcs then tg else n) <$> c !! o) as Hc'.
  { intros o. unfold c', c. rewrite !lookup_fmap, relabel_aliases_lookup.
    case_bool_decide; [done|]. destruct (as_db st !! o) as [a|]; [|done]. simpl.
    by destruct (al_new a isin srcs). }
  assert (c !! tg = None) as Hctg by (unfold c; by rewrite lookup_fmap, Hal).
  assert (c' !! tg = None) as Hc'tg.
  { rewrite Hc', bool_decide_eq_false_2 by done. by rewrite Hctg. }
  assert (flat c') as Hflat'.
  { intros o n. rewrite Hc'. case_bool_decide as Ho; [by intros [= <-]|].
    destruct (c !! o) as [m|] eqn:E; [|done]. simpl. case_bool_decide as Hm; intros [= <-]; [done|].
    rewrite Hc', bool_decide_eq_false_2 by done. by rewrite (Hflat _ _ E). }
  split_and!; [done|done| |].
  - intros s Hs. apply canonical_name_flat; [done|by apply Hre|].
    by rewrite Hc', bool_decide_eq_true_2.
  - intros o Hn Ho. assert (c' !! o = (λ n, if n isin srcs then tg else n) <$> c !! o) as Hco.
    { by rewrite Hc', bool_decide_eq_false_2. }
    destruct (c !! o) as [m|] eqn:E; simpl in Hco.
    + rewrite (canonical_name_flat c o m) by done. by rewrite (canonical_name_flat c' o _ Hflat' Hn Hco).
    + rewrite (canonical_name_none c o) by done. rewrite bool_decide_eq_false_2 by done.
      by rewrite canonical_name_none.
Qed.

(** ** Families *)

Lemma elem_of_family_members aliases c o :
  o ∈ family_members aliases c ↔ is_Some (aliases !! o) ∧ o ≠ c ∧ canonical_name aliases o = c.
Proof.
  unfold family_members. rewrite elem_of_sorted, list_elem_of_filter, list_elem_of_fmap. split.
  - intros [H ([k v] & -> & Hin)]. apply elem_of_map_to_list in Hin. simpl in *. eauto.
  - intros ((v & Hv) & H). split; [done|]. exists (o, v). split; [done|]. by apply elem_of_map_to_list.
Qed.

Lemma NoDup_family_members aliases c : NoDup (family_members aliases c).
Proof.
  unfold family_members. apply NoDup_sorted, NoDup_filter, NoDup_fst_map_to_list.
Qed.

(** A family is an equivalence class of names: the current name first, then
    each alias that resolves to it, each once; every member of the family,
    old or current, has the same family; and [describe] reports a name as
    renamed exactly when it is one of the old names. *)
Lemma family_class aliases n :
  flat aliases → (∀ o m, aliases !! o = Some m → norm (Some o) = o ∧ norm (Some m) = m ∧ nonempty o = true ∧ nonempty m = true) →
  nonempty n = true → norm (Some n) = n →
  let c := canonical_name aliases n in
  family aliases (Some n) = c :: old_names aliases (Some n) ∧
  NoDup (family aliases (Some n)) ∧
  (∀ o, o ∈ family aliases (Some n) ↔ (o = c ∨ is_Some (aliases !! o)) ∧ canonical_name aliases o = c) ∧
  (∀ o, o ∈ family aliases (Some n) → family aliases (Some o) = family aliases (Some n)) ∧
  describe aliases (Some n) = (n, Some c, n isin old_names aliases (Some n), old_names aliases (Some n)).
Proof.
  intros Hflat Hnorm Hne Hn c.
  assert (aliases !! c = None ∧ canonical_name aliases c = c ∧ nonempty c = true) as (Hc & Hcc & Hcne).
  { unfold c. destruct (aliases !! n) as [m|] eqn:E.
    - destruct (Hnorm _ _ E) as (_ & Hm & _ & Hmne). rewrite (canonical_name_flat aliases n m) by done.
      pose proof (Hflat _ _ E). split_and!; [done| |done]. by apply canonical_name_none.
    - rewrite (canonical_name_none aliases n) by done. split_and!; [done| |done].
      by apply canonical_name_none. }
  assert (∀ o, nonempty o = true → canonical_name aliases o = c →
    family aliases (Some o) = c :: family_members aliases c) as Hfam.
  { intros o Ho Hoc. unfold family. by rewrite Ho, Hoc. }
  assert (old_names aliases (Some n) = family_members aliases c) as Hold.
  { unfold old_names. rewrite (Hfam n) by done. unfold canonical. rewrite Hne. fold c.
    rewrite filter_cons_False by auto. apply filter_all.
    intros o Ho%elem_of_family_members [= ->]. tauto. }
  split_and!.
  - by rewrite (Hfam n), Hold.
  - rewrite (Hfam n) by done. apply NoDup_cons. split; [|apply NoDup_family_members].
    rewrite elem_of_family_members. tauto.
  - intros o. rewrite (Hfam n), elem_of_cons, elem_of_family_members by done.
    destruct (decide (o = c)) as [->|]; naive_solver.
  - intros o. rewrite (Hfam n) by done. intros [->|[(m & Hm) [_ Ho]]%elem_of_family_members]%elem_of_cons.
    + by apply Hfam.
    + apply Hfam; [|done]. by destruct (Hnorm _ _ Hm) as (_ & _ & ? & _).
  - assert (canonical aliases (Some n) = Some c) as Hcan by (unfold canonical; by rewrite Hne).
    unfold describe. rewrite Hn, Hold, Hcan.
    repeat f_equal. rewrite <- bool_decide_not. apply bool_decide_ext.
    rewrite elem_of_family_members. unfold c.
    destruct (aliases !! n) as [m|] eqn:E.
    + rewrite (canonical_name_flat aliases n m) by done. split; [|naive_solver].
      intros Hd. split_and!; [by eauto|congruence|done].
    + rewrite (canonical_name_none aliases n) by done. split; [done|]. by intros [[? [=]] _].
Qed.

(** ** Listen sets *)

Lemma foldl_add_listen cands have extra :
  (∀ x, x ∈ extra → x ∈ have) → NoDup extra →
  let '(have', extra') := foldl add_listen (have, extra) cands in
  (∀ x, x ∈ have' ↔ x ∈ have ∨ x ∈ cands) ∧ NoDup extra' ∧
  (∀ x, x ∈ extra' ↔ x ∈ extra ∨ (x ∈ cands ∧ x ∉ have)) ∧ (∀ x, x ∈ extra' → x ∈ have').
Proof.
  revert have extra. induction cands as [|y cands IH]; intros have extra Hsub Hnd; simpl.
  { split_and!; set_solver. }
  case_bool_decide as Hy.
  - specialize (IH have extra Hsub Hnd). destruct (foldl _ _ _) as [h e].
    destruct IH as (H1 & H2 & H3 & H4). split_and!; [set_solver|done|set_solver|set_solver].
  - specialize (IH (y :: have) (extra ++ [y])). destruct (foldl _ _ _) as [h e].
    destruct IH as (H1 & H2 & H3 & H4).
    + set_solver.
    + apply NoDup_app. split; [done|]. split; [|apply NoDup_singleton]. set_solver.
    + split_and!; [set_solver|done| |done]. intros x. rewrite H3.
      destruct (decide (x = y)); set_solver.
Qed.

Lemma expand_listen_elems aliases roles listen :
  let extra := expand_listen_set aliases roles listen in
  NoDup extra ∧
  ∀ x, x ∈ extra ↔ x ∉ lower <$> listen ∧
    ∃ a, a ∈ listen ∧
      let base := before "@" (lower a) in
      x ∈ roles base ∨
      ∃ m, x = m +:+ sep_after "@" (lower a) ∧ m ∈ family aliases (Some base) ∧
           2 ≤ length (family aliases (Some base)).
Proof.
  unfold expand_listen_set.
  assert (∀ l have extra, (∀ x, x ∈ extra → x ∈ have) → NoDup extra →
    let '(have', extra') := foldl (λ acc a, foldl add_listen acc (listen_candidates aliases roles a))
                              (have, extra) l in
    NoDup extra' ∧ (∀ x, x ∈ extra' ↔ x ∈ extra ∨ (x ∉ have ∧ ∃ a, a ∈ l ∧ x ∈ listen_candidates aliases roles a))) as H.
  { induction l as [|a l IH]; intros have extra Hsub Hnd; simpl.
    - split; [done|]. intros x. split; [by left|]. intros [?|[_ (a & ?%elem_of_nil & _)]]; done.
    - pose proof (foldl_add_listen (listen_candidates aliases roles a) have extra Hsub Hnd) as Ha.
      destruct (foldl add_listen (have, extra) _) as [h e]. destruct Ha as (H1 & H2 & H3 & H4).
      specialize (IH h e H4 H2). destruct (foldl _ _ _) as [h' e']. destruct IH as [H5 H6].
      split; [done|]. intros x. rewrite H6, H3, H1. split.
      + intros [[?|[??]]|[Hx (b & Hb & Hin)]]; [by left|right; split; [done|]; exists a; split; [by left|done]|].
        right. split; [tauto|]. exists b. split; [by right|done].
      + intros [?|[Hx (b & [->|Hb]%elem_of_cons & Hin)]]; [by left; left|left; right; done|].
        destruct (decide (x ∈ listen_candidates aliases roles a)); [left; right; done|].
        right. split; [tauto|]. by exists b. }
  specialize (H listen (lower <$> listen) []). destruct (foldl _ _ _) as [h e]. simpl.
  destruct H as [H1 H2]; [by intros x ?%elem_of_nil|constructor|].
  split; [done|]. intros x. rewrite H2. split.
  - intros [?%elem_of_nil|[Hx (a & Ha & Hin)]]; [done|]. split; [done|]. exists a. split; [done|].
    unfold listen_candidates in Hin. apply elem_of_app in Hin as [Hin|Hin]; [right|by left].
    destruct (2 <=? _) eqn:E; [|by apply elem_of_nil in Hin]. apply Nat.leb_le in E.
    apply list_elem_of_fmap in Hin as (m & -> & Hm). by exists m.
  - intros [Hx (a & Ha & Hc)]. right. split; [done|]. exists a. split; [done|].
    unfold listen_candidates. apply elem_of_app. destruct Hc as [Hr|(m & -> & Hm & Hlen)]; [by right|left].
    destruct (2 <=? _) eqn:E; [apply list_elem_of_fmap; by exists m|].
    apply Nat.leb_gt in E. exfalso. exact (proj1 (Nat.lt_nge _ _) E Hlen).
Qed.

(** Widening a listen set adds nothing already listened to and nothing
    twice; it adds exactly the other names of each listened project, with the
    same "@host", and the roles each listened address holds. *)
Lemma expand_listen_set_spec aliases roles listen :
  let extra := expand_listen_set aliases roles listen in
  NoDup extra ∧
  ∀ x, x ∈ extra ↔ x ∉ lower <$> listen ∧
    ∃ a, a ∈ listen ∧
      let base := before "@" (lower a) in
      x ∈ roles base ∨
      ∃ m, x = m +:+ sep_after "@" (lower a) ∧ m ∈ family aliases (Some base) ∧
           2 ≤ length (family aliases (Some base)).
Proof. apply expand_listen_elems. Qed.

(** ** Undoing a merge *)

Lemma name_no_slash s : PROJECT_NAME_RE s = true → has_char "/" s = false.
Proof.
  assert (∀ c, name_char c = true → "/"%char ≠ c) as Hc.
  { intros c H <-. by vm_compute in H. }
  assert (∀ u, sforall name_char u = true → has_char "/" u = false) as Hall.
  { induction u as [|c u IH]; simpl; [done|]. intros [H1 H2]%andb_true_iff.
    rewrite bool_decide_eq_false_2 by auto. by apply IH. }
  destruct s as [|c s]; simpl; [done|]. intros [[H1 H2]%andb_true_iff _]%andb_true_iff.
  rewrite bool_decide_eq_false_2; [by apply Hall|]. apply Hc. unfold name_char. by rewrite H1.
Qed.

Lemma archive_base_inj r r' :
  has_char "/" (proj_of r) = false → has_char "/" (proj_of r') = false →
  archive_base r = archive_base r' → proj_of r = proj_of r' ∧ r_key r = r_key r'.
Proof.
  unfold archive_base. intros H H' Heq. apply string_app_inj_l in Heq.
  apply (f_equal (split1 "/")) in Heq. simpl in Heq.
  rewrite !split1_app in Heq by done. by injection Heq.
Qed.

Definition base_trip (r : row) : string * string * string := (r_ns r, r_user r, archive_base r).

Lemma plan_foldl_base ls acc :
  NoDup (base_trip <$> ls) → (∀ x, x ∈ base_trip <$> ls → x ∉ ps_taken acc) →
  ps_new (foldl plan_loser acc ls) = ps_new acc ++ ((λ r, (r_id r, archive_base r)) <$> ls).
Proof.
  revert acc. induction ls as [|r ls IH]; intros acc Hnd Hfresh; simpl; [by rewrite app_nil_r|].
  simpl in Hnd, Hfresh. apply NoDup_cons in Hnd as [Hr Hnd].
  assert (base_trip r ∉ ps_taken acc) as Hfr by (apply Hfresh; by left).
  assert (free_key (S (length (ps_taken acc))) (ps_taken acc) (r_ns r) (r_user r)
            (archive_base r) (archive_base r) 2 = archive_base r) as Hk
    by (by apply free_key_base).
  rewrite IH; [|done|].
  - unfold plan_loser. cbn [ps_new]. fold (archive_base r). rewrite Hk. by rewrite <- app_assoc.
  - intros x Hx. unfold plan_loser. cbn [ps_taken]. fold (archive_base r). rewrite Hk.
    fold (base_trip r). intros [->|Hin]%elem_of_cons; [done|]. apply (Hfresh x); [by right|done].
Qed.

Section undo.
Context (t : table) (srcs : list string) (tg : string) (now : Z) (s : string).
Hypothesis Hwf : wf t.
Hypothesis Htg : tg ∉ srcs.
Hypothesis Hs : s ∈ srcs.
Hypothesis Hslash : ∀ x, x ∈ srcs → has_char "/" x = false.
Let rows := sql_select (in_projects (srcs ++ [tg])) t.
Let nk := ps_new (plan rows srcs tg).
Hypothesis Hkeys : ∀ r, r ∈ rows → startswith ARCHIVE_PREFIX (r_key r) = false.
Hypothesis Hstamp : ∀ r, r ∈ t_rows t → moved_from s tg r = false.

Lemma undo_loser_proj r : r ∈ losers rows srcs tg → ∃ p, r_project r = Some p ∧ p ∈ srcs.
Proof.
  intros H. apply (merge_loser_src t srcs tg Hwf Htg) in H.
  by apply in_projects_true in H as [_ H].
Qed.

(** No candidate is taken: the archived keys carry no number. *)
Lemma undo_new_keys : nk = (λ r, (r_id r, archive_base r)) <$> losers rows srcs tg.
Proof.
  unfold nk, plan. rewrite plan_foldl_base; [done| |].
  - apply NoDup_fmap_2_strong; [|by apply NoDup_losers, (merge_NoDup t srcs tg)].
    intros x y Hx Hy Heq. pose proof (f_equal snd Heq) as H3. pose proof (f_equal fst Heq) as H12. simpl in H3, H12.
    pose proof (undo_loser_proj x Hx) as (p & Hp & Hpin).
    pose proof (undo_loser_proj y Hy) as (q & Hq & Hqin).
    apply archive_base_inj in H3 as [H3 H4];
      [|unfold proj_of; rewrite ?Hp, ?Hq; by apply Hslash..].
    apply elem_of_losers in Hx as [Hx _], Hy as [Hy _].
    apply (merge_pk t srcs tg Hwf); [done..| |].
    + unfold group_of. congruence.
    + unfold proj_of in H3. rewrite Hp, Hq in H3. simpl in H3. congruence.
  - intros x (r & -> & Hr)%list_elem_of_fmap (r' & Heq & Hr')%list_elem_of_fmap.
    apply (f_equal snd) in Heq. simpl in Heq. specialize (Hkeys r' Hr'). rewrite <- Heq in Hkeys.
    unfold archive_base in Hkeys. by rewrite startswith_app in Hkeys.
Qed.

Lemma undo_key r : r ∈ t_rows t → in_projects [s] r = true → unarchive s (final_key nk r) = r_key r.
Proof.
  intros Hr Hin. apply in_projects_true in Hin as [Hsc (p & Hp & ->%list_elem_of_singleton)].
  assert (r ∈ rows) as Hrow.
  { apply elem_of_sql_select. split; [|done]. apply in_projects_true. split; [done|].
    exists s. set_solver. }
  destruct (decide (r ∈ losers rows srcs tg)) as [Hl|Hl].
  - rewrite (final_key_in nk r (archive_base r)).
    + unfold unarchive, archive_base, proj_of. rewrite Hp.
      change (default "" (Some s)) with s.
      replace (ARCHIVE_PREFIX +:+ s +:+ "/" +:+ r_key r)
        with ((ARCHIVE_PREFIX +:+ s +:+ "/") +:+ r_key r) by (by rewrite !string_app_assoc).
      apply removeprefix_app.
    + destruct (merge_plan t srcs tg Hwf) as (_ & _ & _ & _ & _ & Hids). exact Hids.
    + rewrite undo_new_keys. apply list_elem_of_fmap. by exists r.
  - unfold nk, rows. rewrite (final_key_loser t srcs tg Hwf r Hr Hl).
    unfold unarchive, removeprefix. specialize (Hkeys r Hrow).
    destruct (drop_prefix _ (r_key r)) as [k|] eqn:E; [|done].
    apply drop_prefix_Some in E. rewrite E, string_app_assoc, startswith_app in Hkeys. done.
Qed.

Let f := relabelled now srcs tg nk.

Lemma undo_moved r : r ∈ t_rows t → moved_from s tg (f r) = in_projects [s] r.
Proof.
  intros Hr. unfold f, relabelled. destruct (in_projects srcs r) eqn:E.
  - pose proof E as [Hsc (p & Hp & Hpin)]%in_projects_true.
    unfold moved_from, moved_stamp, in_projects.
    cbn [set_meta set_pk r_pk r_meta k_scope k_project]. rewrite Hsc, md_text_merge, Hp.
    rewrite (lookup_insert_ne _ "project") by done. rewrite lookup_insert_eq. cbn [jopt jtext].
    apply eq_bool_prop_intro. rewrite !Is_true_true. rewrite !andb_true_iff, !bool_decide_eq_true.
    rewrite list_elem_of_singleton. naive_solver.
  - rewrite Hstamp by done. symmetry. apply not_true_is_false. intros H.
    apply in_projects_true in H as [Hsc (p & Hp & ->%list_elem_of_singleton)].
    assert (in_projects srcs r = true); [|congruence]. apply in_projects_true. split; [done|]. by exists s.
Qed.

Lemma undo_src r : in_projects [s] r = true → in_projects srcs r = true.
Proof. rewrite !in_projects_true. set_solver. Qed.

(** The restored row: the row itself, but for the stamp in its metadata. *)
Definition undone (r : row) : row :=
  if in_projects [s] r then set_meta (unmoved_meta s (r_meta r)) r else f r.

Lemma unmoved_stamp r : unmoved_meta s (moved_stamp now tg r) = unmoved_meta s (r_meta r).
Proof.
  unfold unmoved_meta, moved_stamp, md_merge. simpl. f_equal. apply map_eq. intros k.
  rewrite !lookup_union. destruct (decide (k = "project")) as [->|Hk].
  { by rewrite lookup_singleton_eq, !union_Some_l. }
  rewrite lookup_singleton_ne by done. rewrite !left_id by apply _.
  destruct (decide (k = "moved_at")) as [->|Hk1]; [by rewrite !lookup_delete_eq|].
  rewrite !(lookup_delete_ne _ "moved_at") by done.
  destruct (decide (k = "moved_from")) as [->|Hk2]; [by rewrite !lookup_delete_eq|].
  rewrite !(lookup_delete_ne _ "moved_from") by done.
  rewrite lookup_union, !lookup_insert_ne, lookup_singleton_ne by done. by rewrite left_id by apply _.
Qed.

Lemma reverse_rows_undone :
  reverse_rows s tg (Table (f <$> t_rows t) (t_seq t)) = Some (Table (undone <$> t_rows t) (t_seq t)).
Proof.
  set (t1 := Table (f <$> t_rows t) (t_seq t)).
  set (moved := sql_select (moved_from s tg) t1).
  set (us := (λ r, (r_id r, restore_pk s)) <$> moved).
  assert (wf t1) as Hwf1 by apply (relabel_rows_map t srcs tg Hwf Htg now).
  assert (∀ r, r_id (f r) = r_id r) as Hid by (intros r; unfold f, relabelled; by destruct (in_projects srcs r)).
  assert (∀ r, r ∈ t_rows t → r_id r ∈ r_id <$> moved ↔ in_projects [s] r = true) as Hids.
  { intros r Hr. rewrite <- undo_moved by done. rewrite list_elem_of_fmap. split.
    - intros (y & Hy & [Hm Hin]%elem_of_sql_select).
      assert (y = f r) as ->; [|done]. eapply wf_id_eq; [exact Hwf1|done| |by rewrite Hid].
      by apply list_elem_of_fmap_2.
    - intros Hm. exists (f r). split; [by rewrite Hid|]. apply elem_of_sql_select.
      split; [done|]. by apply list_elem_of_fmap_2. }
  assert (us.*1 = r_id <$> moved) as Hus by (unfold us; by rewrite <- list_fmap_compose).
  assert (NoDup us.*1) as Hnd.
  { rewrite Hus. destruct Hwf1 as (_ & Hi & _). by apply (NoDup_fmap_select r_id). }
  assert (∀ r, r ∈ t_rows t → rekey_of us (r_id r) =
    if in_projects [s] r then Some (restore_pk s) else None) as Hof.
  { intros r Hr. destruct (in_projects [s] r) eqn:E.
    - apply rekey_of_elem; [done|]. apply Hids in E; [|done].
      apply list_elem_of_fmap in E as (y & Hy & Hin). apply list_elem_of_fmap. exists y. by rewrite Hy.
    - apply rekey_of_None. rewrite Hus, Hids by done. by rewrite E. }
  assert (∀ r, r ∈ t_rows t → in_projects [s] r = true → restore_pk s (r_pk (f r)) = r_pk r) as Hpk.
  { intros r Hr Hin. pose proof Hin as [Hsc (p & Hp & ->%list_elem_of_singleton)]%in_projects_true.
    unfold f, relabelled. rewrite undo_src by done. simpl. unfold restore_pk. simpl.
    rewrite undo_key by done. destruct (r_pk r). simpl in *. by rewrite Hp. }
  assert (∀ r r', r ∈ t_rows t → r' ∈ t_rows t → r_id r ≠ r_id r' → in_projects [s] r = true →
    r_pk r ≠ r_pk (f r')) as Hdis.
  { intros r r' Hr Hr' Hne Hin Heq. unfold f, relabelled in Heq.
    apply in_projects_true in Hin as [_ (p & Hp & ->%list_elem_of_singleton)].
    destruct (in_projects srcs r') eqn:E.
    - simpl in Heq. rewrite Heq in Hp. simpl in Hp. injection Hp as Hp. by rewrite Hp in Htg.
    - apply Hne. f_equal. by apply (wf_row_eq t). }
  unfold reverse_rows. fold moved. fold us. rewrite sql_rekeys_ok; [|done|].
  - simpl. f_equal. unfold sql_update, update_where. simpl. f_equal.
    rewrite <- !list_fmap_compose. apply Forall_fmap_ext_1, Forall_forall. intros r Hr. simpl.
    unfold rekey_row. rewrite Hid, Hof by done. unfold undone.
    destruct (in_projects [s] r) eqn:E; simpl; rewrite Hid.
    + rewrite bool_decide_eq_true_2 by (by apply Hids). rewrite Hpk by done.
      unfold f, relabelled. rewrite undo_src by done. simpl. rewrite unmoved_stamp.
      destruct r; done.
    + rewrite bool_decide_eq_false_2; [done|]. rewrite Hids by done. by rewrite E.
  - simpl. intros a a' g (r & -> & Hr)%list_elem_of_fmap (r' & -> & Hr')%list_elem_of_fmap.
    rewrite !Hid. intros Hne Hg. rewrite Hof in Hg by done.
    destruct (in_projects [s] r) eqn:E; [|done]. injection Hg as <-. rewrite Hpk by done.
    split; [by apply Hdis|]. unfold rekey_row. rewrite Hid, Hof by done.
    destruct (in_projects [s] r') eqn:E'; [|by apply Hdis].
    simpl. rewrite Hpk by done. intros Heq. apply Hne. f_equal. by apply (wf_row_eq t).
Qed.
End undo.

Lemma unmoved_meta_clean s m :
  md_get m "project" = Some (JStr s) → md_get m "moved_from" = None → md_get m "moved_at" = None →
  unmoved_meta s m = m.
Proof.
  destruct m as [o|]; [|done]. simpl. intros H1 H2 H3. unfold unmoved_meta. simpl. f_equal.
  apply map_eq. intros k. rewrite lookup_union.
  destruct (decide (k = "project")) as [->|Hk].
  { by rewrite lookup_singleton_eq, union_Some_l. }
  rewrite lookup_singleton_ne, left_id by first [done|apply _].
  destruct (decide (k = "moved_at")) as [->|Hk1]; [by rewrite lookup_delete_eq|].
  rewrite lookup_delete_ne by done.
  destruct (decide (k = "moved_from")) as [->|Hk2]; [by rewrite lookup_delete_eq|].
  by rewrite lookup_delete_ne.
Qed.

Lemma length_select_fmap {A B} (p : B → bool) (q : A → bool) (f : A → B) l :
  (∀ x, x ∈ l → p (f x) = q x) → length (select p (f <$> l)) = length (select q l).
Proof.
  induction l as [|x l IH]; intros H; [done|]. rewrite fmap_cons, !select_cons, (H x) by left.
  specialize (IH (λ y Hy, H y (list_elem_of_further y x l Hy))). destruct (q x); simpl; congruence.
Qed.

(** C40. Undoing a merge for one source brings its rows back: each under the
    unique key it had before (archived keys un-archived), with only the stamp
    keys of its metadata rewritten, so a row whose metadata named its project
    and carried no stamp comes back exactly; every other row stays as the
    merge left it, and every row restored is counted. Of the aliases exactly
    the source's own is dropped: an alias the merge had left alone is as it was
    before it, the other sources stay aliases of the target, and so does an
    older alias of the source, which the merge had turned to the target.
    It holds when no key of the merged projects already starts with
    "archive/" and no row of the target is stamped as moved from the source. *)
Theorem reverse_undoes_relabel now pn owner sources target actor st tg srcs res st' s :
  wf (as_mem st) →
  relabel_ready pn owner sources target (as_db st) tg srcs → s ∈ srcs →
  (∀ r, r ∈ t_rows (as_mem st) → in_projects (srcs ++ [tg]) r = true →
     startswith ARCHIVE_PREFIX (r_key r) = false) →
  (∀ r, r ∈ t_rows (as_mem st) → moved_from s tg r = false) →
  relabel now pn owner sources target false actor st = Done (res, st') →
  let back := undone (as_mem st) srcs tg now s in
  ∃ rv st'', reverse s tg st' = Done (rv, st'') ∧
    t_rows (as_mem st'') = back <$> t_rows (as_mem st) ∧
    (∀ r, in_projects [s] r = true → r_pk (back r) = r_pk r ∧ r_value (back r) = r_value r) ∧
    (∀ r, in_projects [s] r = true → md_get (r_meta r) "project" = Some (JStr s) →
       md_get (r_meta r) "moved_from" = None → md_get (r_meta r) "moved_at" = None → back r = r) ∧
    as_db st'' = delete s (as_db st') ∧ as_cache st'' = al_new <$> as_db st'' ∧ rv_alias_dropped rv = true ∧
    (∀ x a, x ∉ srcs → as_db st !! x = Some a →
       as_db st'' !! x = Some (if al_new a isin srcs then AliasRow tg (al_by a) (al_at a) else a)) ∧
    rv_restored rv = sql_count (in_projects [s]) (as_mem st).
Proof.
  intros Hwf Hready Hs Hkeys Hstamp H back.
  pose proof (relabel_ready_srcs _ _ _ _ _ _ _ Hready) as (Hnd & Htg & Hre).
  rewrite (relabel_unfold now pn owner sources target _ actor st tg srcs Hready) in H. cbv zeta in H.
  rewrite (proj1 (relabel_rows_map (as_mem st) srcs tg Hwf Htg now)) in H. injection H as <- <-.
  assert (∀ x, x ∈ srcs → has_char "/" x = false) as Hslash
    by (intros x Hx; by apply name_no_slash, Hre).
  assert (∀ r, r ∈ sql_select (in_projects (srcs ++ [tg])) (as_mem st) →
    startswith ARCHIVE_PREFIX (r_key r) = false) as Hkeys'
    by (intros r [Hin Hr]%elem_of_sql_select; by apply Hkeys).
  assert (∀ x, PROJECT_NAME_RE x = true ∧ norm (Some x) = x → validate_project_name x = Done x) as Hval.
  { intros x [H1 H2]. unfold validate_project_name. by rewrite H2, H1. }
  assert (validate_project_name tg = Done tg) as Hvtg.
  { destruct Hready as (Ht & _). apply validate_project_name_Done in Ht. auto. }
  unfold reverse. rewrite (Hval s), Hvtg by (by apply Hre). cbn [obind refresh as_mem as_db].
  rewrite reverse_rows_undone by done. eexists _, _. split; [done|].
  cbn [refresh as_mem as_cache as_db t_rows rv_alias_dropped rv_restored].
  split_and!; [done| | |done|done| | |].
  - intros r Hin. unfold back, undone. by rewrite Hin.
  - intros r Hin H1 H2 H3. unfold back, undone. rewrite Hin, unmoved_meta_clean by done. by destruct r.
  - apply bool_decide_eq_true_2. rewrite relabel_aliases_lookup, bool_decide_eq_true_2 by done. eauto.
  - intros x a Hx Ha. rewrite lookup_delete_ne by (intros ->; done).
    by rewrite relabel_aliases_lookup, bool_decide_eq_false_2, Ha by done.
  - unfold sql_count, sql_select. simpl. apply length_select_fmap. intros r Hr.
    by apply (undo_moved (as_mem st) srcs tg now s).
Qed.

(** Resolving a name always ends within one step more than there are
    aliases, whatever the map holds (cycles included): the result is reached
    by following aliases from the name, and it is a current name unless it
    lies on a cycle of aliases. *)
Lemma canonical_resolves aliases name :
  let n := norm (Some name) in
  let c := canonical_name aliases name in
  canonical_loop (S (size aliases)) aliases [n] n = Some c ∧ hops aliases n c ∧
  (aliases !! c = None ∨ ∃ d, hops aliases c d ∧ aliases !! d = Some c).
Proof.
  intros n c. pose proof (canonical_name_loop aliases name) as H. fold n c in H. split; [done|].
  eapply canonical_loop_hops; [|exact H]. intros x ->%list_elem_of_singleton. constructor.
Qed.

(** ** Witnesses *)

Section example.
Let mk (id : Z) (key proj : string) : row :=
  Row id (PKey "ns" key "project" "u" (Some proj)) "v" "" "" "" 0 0 None
      (Some {["project" := JStr proj]}) None None.
Definition ex_table : table :=
  Table [mk 1 "startup/next" "new"; mk 2 "startup/next" "old"; mk 3 "notes" "old"] 4.
Definition ex_state : alias_state :=
  AliasState ex_table {["older" := AliasRow "old" None 0]} ∅.
End example.

Lemma ex_wf : wf (as_mem ex_state).
Proof. split_and!; [vm_compute; repeat constructor; set_solver..|]. repeat constructor. Qed.

Lemma ex_ready : relabel_ready ["robert"] (Some "owner") ["old"; "New"] "new" (as_db ex_state) "new" ["old"].
Proof. split_and!; [by vm_compute..|done|done|]. repeat constructor; vm_compute; set_solver. Qed.

Lemma relabel_moves_witness :
  ∃ res st', relabel 7 ["robert"] (Some "owner") ["old"; "New"] "new" false None ex_state
               = Done (res, st') ∧ wf (as_mem st') ∧ rr_total res = 2.
Proof.
  destruct (relabel_moves 7 ["robert"] (Some "owner") ["old"; "New"] "new" None ex_state "new" ["old"]
    ex_wf ex_ready) as (res & st' & H & _ & Hwf & _ & Ht & _).
  exists res, st'. split; [exact H|]. split; [exact Hwf|]. rewrite Ht. by vm_compute.
Defined.

Lemma reverse_undoes_relabel_witness :
  ∃ res st' rv st'',
    relabel 7 ["robert"] (Some "owner") ["old"; "New"] "new" false None ex_state = Done (res, st') ∧
    reverse "old" "new" st' = Done (rv, st'') ∧ t_rows (as_mem st'') = t_rows ex_table ∧
    as_db st'' !! "old" = None ∧ as_db st'' !! "older" = Some (AliasRow "new" None 0) ∧
    rv_restored rv = 2.
Proof.
  destruct (relabel 7 ["robert"] (Some "owner") ["old"; "New"] "new" false None ex_state)
    as [[res st']|] eqn:E; [|by vm_compute in E].
  destruct (reverse_undoes_relabel 7 ["robert"] (Some "owner") ["old"; "New"] "new" None ex_state "new"
    ["old"] res st' "old" ex_wf ex_ready) as (rv & st'' & H & Hrows & _ & _ & Hdb & _ & _ & Hal & Hn).
  - by left.
  - intros r [->|[->|[->|?%elem_of_nil]%elem_of_cons]%elem_of_cons]%elem_of_cons; by vm_compute.
  - intros r [->|[->|[->|?%elem_of_nil]%elem_of_cons]%elem_of_cons]%elem_of_cons; by vm_compute.
  - exact E.
  - exists res, st', rv, st''. split; [done|]. split; [exact H|]. split; [rewrite Hrows; by vm_compute|].
    split; [rewrite Hdb; apply lookup_delete_eq|]. split; [|rewrite Hn; by vm_compute].
    rewrite (Hal "older" (AliasRow "old" None 0)); [by vm_compute|by intros ?%list_elem_of_singleton|by vm_compute].
Defined.

(** Two cases [reverse] does not undo, although the module promises that it
    does: a source row whose own key starts with its archive prefix comes
    back under another key, and a renumbered archived row comes back
    with its number. *)
Section not_exact.
Let mk (id : Z) (key proj : string) : row :=
  Row id (PKey "ns" key "project" "u" (Some proj)) "v" "" "" "" 0 0 None None None None.
Definition ex_own_archive : alias_state :=
  AliasState (Table [mk 1 "archive/old/x" "old"] 2) ∅ ∅.
Definition ex_numbered : alias_state :=
  AliasState (Table [mk 1 "x" "new"; mk 2 "archive/old/x" "new"; mk 3 "x" "old"] 4) ∅ ∅.
End not_exact.

Definition round_trip_keys (st : alias_state) : option (list (string * string)) :=
  match relabel 7 [] None ["old"] "new" false None st with
  | Done (_, st') =>
      match reverse "old" "new" st' with
      | Done (_, st'') => Some ((λ r, (r_key r, proj_of r)) <$> t_rows (as_mem st''))
      | Raise _ => None
      end
  | Raise _ => None
  end.

Lemma reverse_not_exact :
  round_trip_keys ex_own_archive = Some [("x", "old")] ∧
  round_trip_keys ex_numbered = Some [("x", "new"); ("archive/old/x", "new"); ("x-2", "old")].
Proof. split; by vm_compute. Qed.

(** Nor are older aliases of the source brought back: [older], an alias of
    [old] before the merge, is one of [new] after it was undone. *)
Lemma reverse_keeps_flattened :
  match relabel 7 [] None ["old"] "new" false None ex_state with
  | Done (_, st') =>
      match reverse "old" "new" st' with
      | Done (_, st'') => canonical_name (as_cache (refresh ex_state)) "older" = "old" ∧
          canonical_name (as_cache st'') "older" = "new" ∧ canonical_name (as_cache st'') "old" = "old"
      | Raise _ => False
      end
  | Raise _ => False
  end.
Proof. by vm_compute. Qed.
