(* ===== verification/AddressRoles.v ===== *)
(** Transferable role addresses (src/server/services/address_roles.py): the
    holder table, its history, [assign], [unassign] and the lookups. *)

From stdpp Require Import base gmap list strings sorting.
From Stdlib Require Import ZArith Lia Ascii.
From S2P Require Import Prelude PyString Json Store ProjectAlias.

(** ** State *)

(** A row of [address_roles] (its key is the role). *)
Record role_row := RoleRow {
  ro_holder : string;
  ro_by : option string;
  ro_at : Z
}.

(** A row of [address_role_history]. *)
Record hist_row := HistRow {
  h_role : string;
  h_holder : string;
  h_by : option string;
  h_at : Z;
  h_ended : option Z
}.

(** The two tables and the module's cache [_holder_of]. *)
Record role_state := RoleState {
  rs_db : gmap string role_row;
  rs_hist : list hist_row;
  rs_cache : gmap string string
}.

(** What else the module consults: the owner's name, the lower-cased names of
    [principals] and [principal_aliases], the active principals, the project
    alias cache and the [memories] table. *)
Record role_env := RoleEnv {
  re_owner : option string;
  re_logins : list string;
  re_active : list string;
  re_aliases : gmap string string;
  re_mem : table
}.

Definition role_refresh (st : role_state) : role_state :=
  RoleState (rs_db st) (rs_hist st) (ro_holder <$> rs_db st).

(** ** Lookups *)

Definition bare (address : option string) : string := before "@" (norm address).

Definition holder (cache : gmap string string) (role : option string) : option string :=
  cache !! bare role.

Definition roles_held_by (cache : gmap string string) (address : option string) : list string :=
  sorted (filter (λ r, cache !! r = Some (bare address)) (map_to_list cache).*1).

(** [ORDER BY assigned_at], rows of equal time in table order. *)
Fixpoint insert_by_at (h : hist_row) (l : list hist_row) : list hist_row :=
  match l with
  | [] => [h]
  | x :: l' => if (h_at x <=? h_at h)%Z then x :: insert_by_at h l' else h :: l
  end.

Definition history (st : role_state) (role : string) : list hist_row :=
  foldl (λ acc h, insert_by_at h acc) [] (select (λ h, h_role h == norm (Some role)) (rs_hist st)).

(** ** Changes *)

Inductive role_refusal :=
| OwnersAddress | LoginName | ProjectWithMemory | OldProjectName | SessionRegistered.

Inductive role_error :=
| BadRoleName (role : string)
| RefusedRole (role : string) (why : list role_refusal)
| BadHolder
| HolderIsRole (h : string).

Definition refusals (env : role_env) (role : string) : list role_refusal :=
  (if role == norm (re_owner env) then [OwnersAddress] else []) ++
  (if role isin re_logins env then [LoginName] else []) ++
  (if negb (sql_count (λ r, r_project r == Some role) (re_mem env) == 0)
   then [ProjectWithMemory] else []) ++
  (if bool_decide (is_Some (re_aliases env !! role)) then [OldProjectName] else []) ++
  (if negb (sql_count (λ r, (r_scope r == "presence") && (r_key r == "presence/" +:+ role))
              (re_mem env) == 0)
   then [SessionRegistered] else []).

Definition _refuse_role_name (env : role_env) (role : string) : outcome role_error unit :=
  if negb (PROJECT_NAME_RE role) then Raise (BadRoleName role)
  else match refusals env role with
       | [] => Done tt
       | why => Raise (RefusedRole role why)
       end.

Record assign_result := AssignResult {
  ar_role : string;
  ar_holder : string;
  ar_previous : option string;
  ar_changed : bool;
  ar_unknown : bool  (* the note: not an active principal *)
}.

(** [UPDATE address_role_history SET ended_at = NOW() WHERE role = $1 AND ended_at IS NULL] *)
Definition close_open (now : Z) (role : string) (hist : list hist_row) : list hist_row :=
  update_where (λ h, (h_role h == role) && (h_ended h == None))
    (λ h, HistRow (h_role h) (h_holder h) (h_by h) (h_at h) (Some now)) hist.

Definition assign (now : Z) (env : role_env) (role new_holder : string) (actor : option string)
    (st : role_state) : outcome role_error (assign_result * role_state) :=
  let role := norm (Some role) in
  let new_holder := norm (Some new_holder) in
  if negb (nonempty new_holder) || has_char "@" new_holder then Raise BadHolder
  else
    let st := role_refresh st in
    if bool_decide (is_Some (rs_cache st !! new_holder)) then Raise (HolderIsRole new_holder)
    else
      let commit :=
        role_refresh (RoleState (<[role := RoleRow new_holder actor now]> (rs_db st))
          (close_open now role (rs_hist st) ++ [HistRow role new_holder actor now None])
          (rs_cache st)) in
      let unknown := negb (new_holder isin re_active env) in
      match rs_db st !! role with
      | None =>
          do! _ <- _refuse_role_name env role;
          Done (AssignResult role new_holder None true unknown, commit)
      | Some cur =>
          if ro_holder cur == new_holder
          then Done (AssignResult role new_holder (Some new_holder) false false, st)
          else Done (AssignResult role new_holder (Some (ro_holder cur)) true unknown, commit)
      end.

Definition unassign (now : Z) (role : string) (st : role_state) : bool * role_state :=
  let role := norm (Some role) in
  (bool_decide (is_Some (rs_db st !! role)),
   role_refresh (RoleState (delete role (rs_db st)) (close_open now role (rs_hist st)) (rs_cache st))).

(** ** Invariant *)

Definition open_rows (role : string) (hist : list hist_row) : list hist_row :=
  select (λ h, (h_role h == role) && (h_ended h == None)) hist.

(** The history agrees with the table: a held role has exactly one open
    record, its holder's; a role nobody holds has none. *)
Definition role_inv (st : role_state) : Prop :=
  ∀ role, match rs_db st !! role with
          | Some r => open_rows role (rs_hist st) = [HistRow role (ro_holder r) (ro_by r) (ro_at r) None]
          | None => open_rows role (rs_hist st) = []
          end.

(** The moves of the module. *)
Inductive role_step (env : role_env) : role_state → role_state → Prop :=
| step_assign now role h actor st res st' :
    assign now env role h actor st = Done (res, st') → role_step env st st'
| step_unassign now role st b st' :
    unassign now role st = (b, st') → role_step env st st'.

Inductive role_reach (env : role_env) : role_state → Prop :=
| reach_init : role_reach env (RoleState ∅ [] ∅)
| reach_step st st' : role_reach env st → role_step env st st' → role_reach env st'.

(** A record survives in a later history: the same, or closed. *)
Definition hist_le (h h' : hist_row) : Prop :=
  h' = h ∨ (h_ended h = None ∧ ∃ t, h' = HistRow (h_role h) (h_holder h) (h_by h) (h_at h) (Some t)).

Section roles.
Implicit Types (st : role_state) (role : string) (hist : list hist_row).

Lemma open_close_eq now role hist : open_rows role (close_open now role hist) = [].
Proof.
  apply select_nil. intros h (x & Hx & ->)%elem_of_update_where.
  destruct ((h_role x == role) && (h_ended x == None)) eqn:E; [|done].
  simpl. by rewrite andb_false_r.
Qed.

Lemma open_close_ne now role role' hist :
  role ≠ role' → open_rows role' (close_open now role hist) = open_rows role' hist.
Proof.
  intros Hne. unfold open_rows, close_open. induction hist as [|h hist IH]; [done|].
  cbn [update_where map]. rewrite !select_cons. fold (update_where (λ h, (h_role h == role) && (h_ended h == None))
    (λ h, HistRow (h_role h) (h_holder h) (h_by h) (h_at h) (Some now)) hist). rewrite IH.
  destruct (decide (h_role h = role)) as [Hr|Hr].
  - rewrite (bool_decide_eq_true_2 (h_role h = role)) by done.
    rewrite (bool_decide_eq_false_2 (h_role h = role')) by congruence.
    destruct (h_ended h == None); simpl; [|rewrite bool_decide_eq_false_2 by congruence; done].
    rewrite bool_decide_eq_false_2 by congruence. done.
  - rewrite (bool_decide_eq_false_2 (h_role h = role)) by done. done.
Qed.

Lemma open_app role hist h :
  h_ended h = None → open_rows role (hist ++ [h]) =
    open_rows role hist ++ (if h_role h == role then [h] else []).
Proof.
  intros Hh. unfold open_rows. rewrite select_app, select_cons, Hh.
  rewrite (bool_decide_eq_true_2 (None = None)) by done. rewrite andb_true_r.
  by destruct (h_role h == role).
Qed.

Lemma close_le now role hist i h :
  hist !! i = Some h → ∃ h', close_open now role hist !! i = Some h' ∧ hist_le h h'.
Proof.
  intros Hi. unfold close_open, update_where. eexists. split.
  { rewrite list_lookup_fmap, Hi. done. }
  destruct ((h_role h == role) && (h_ended h == None)) eqn:E; [right|by left].
  bprop. destruct E as [_ E]. split; [done|]. by exists now.
Qed.

Lemma commit_inv now role h actor st :
  role_inv st →
  role_inv (role_refresh (RoleState (<[role := RoleRow h actor now]> (rs_db st))
    (close_open now role (rs_hist st) ++ [HistRow role h actor now None]) (rs_cache st))).
Proof.
  intros Hinv role'. cbn [role_refresh rs_db rs_hist]. rewrite open_app by done. simpl.
  destruct (decide (role = role')) as [<-|Hne].
  - rewrite lookup_insert_eq, open_close_eq. by rewrite bool_decide_eq_true_2.
  - rewrite lookup_insert_ne by done. rewrite open_close_ne by done.
    rewrite bool_decide_eq_false_2, app_nil_r by done. apply Hinv.
Qed.

Lemma step_inv env st st' :
  role_step env st st' → role_inv st →
  role_inv st' ∧ rs_cache st' = ro_holder <$> rs_db st' ∧
  ∀ i h, rs_hist st !! i = Some h → ∃ h', rs_hist st' !! i = Some h' ∧ hist_le h h'.
Proof.
  assert (∀ now role x (hist : list hist_row) i h, hist !! i = Some h →
    ∃ h', (close_open now role hist ++ x) !! i = Some h' ∧ hist_le h h') as Hext.
  { intros now role x hist i h Hi. destruct (close_le now role hist i h Hi) as (h' & Hh' & Hle).
    exists h'. split; [|done]. by apply lookup_app_l_Some. }
  intros [now role h actor s res s' H|now role s b s' H] Hinv.
  - unfold assign in H. destruct (_ || _); [done|]. case_bool_decide; [done|].
    cbn [role_refresh rs_db rs_hist] in H.
    destruct (rs_db s !! norm (Some role)) as [cur|].
    + destruct (ro_holder cur == norm (Some h)); injection H as _ <-.
      * split_and!; [exact Hinv|done|]. intros i x Hx. exists x. split; [done|]. by left.
      * split_and!; [by apply (commit_inv _ _ _ _ s)|done|]. intros. by apply Hext.
    + destruct (_refuse_role_name env _); [|done]. injection H as _ <-.
      split_and!; [by apply (commit_inv _ _ _ _ s)|done|]. intros. by apply Hext.
  - unfold unassign in H. injection H as _ <-. split_and!; [|done|].
    + intros role'. cbn [role_refresh rs_db rs_hist].
      destruct (decide (norm (Some role) = role')) as [<-|Hne].
      * by rewrite lookup_delete_eq, open_close_eq.
      * rewrite lookup_delete_ne, open_close_ne by done. apply Hinv.
    + intros i x Hx. destruct (Hext now (norm (Some role)) [] _ _ _ Hx) as (h' & Hh' & Hle).
      rewrite app_nil_r in Hh'. by exists h'.
Qed.
End roles.

(** In every state the module can reach, each held role has exactly one
    open history record and it names the current holder, and a retired role
    has none; each further change keeps every earlier record, at most
    closing it. *)
Lemma role_history_sound env st st' :
  role_reach env st → role_step env st st' →
  role_inv st ∧ role_inv st' ∧
  ∀ i h, rs_hist st !! i = Some h → ∃ h', rs_hist st' !! i = Some h' ∧ hist_le h h'.
Proof.
  intros Hr Hs. assert (role_inv st) as Hi.
  { clear Hs st'. induction Hr as [|s s' _ IH Hs]; [by intros role|]. by eapply step_inv. }
  split; [done|]. destruct (step_inv env st st' Hs Hi) as (H1 & _ & H2). done.
Qed.

Lemma elem_of_roles_held_by cache a r :
  r ∈ roles_held_by cache a ↔ cache !! r = Some (bare a).
Proof.
  unfold roles_held_by. rewrite elem_of_sorted, list_elem_of_filter, list_elem_of_fmap. split; [tauto|].
  intros H. split; [done|]. exists (r, bare a). split; [done|]. by apply elem_of_map_to_list.
Qed.

(** A successful assignment makes the named address the one holder of the
    role, whatever its "@host" form: it is the current holder, the role is
    among the roles it holds and among nobody else's, and every other role
    keeps its holder. *)
Lemma assign_transfers now env role h actor st res st' :
  rs_cache st = ro_holder <$> rs_db st →
  has_char "@" (norm (Some role)) = false →
  assign now env role h actor st = Done (res, st') →
  let r := norm (Some role) in
  holder (rs_cache st') (Some role) = Some (norm (Some h)) ∧
  (∀ a, r ∈ roles_held_by (rs_cache st') a ↔ bare a = norm (Some h)) ∧
  (∀ r', r' ≠ r → rs_cache st' !! r' = rs_cache st !! r') ∧
  ar_previous res = rs_cache st !! r ∧ ar_changed res = negb (rs_cache st !! r == Some (norm (Some h))).
Proof.
  intros Hc Hat H r.
  assert (bare (Some role) = r) as Hbare by (unfold bare; by apply before_id).
  assert (rs_cache st' !! r = Some (norm (Some h)) ∧ (∀ r', r' ≠ r → rs_cache st' !! r' = rs_cache st !! r') ∧
    ar_previous res = rs_cache st !! r ∧ ar_changed res = negb (rs_cache st !! r == Some (norm (Some h))))
    as (H1 & H2 & H3).
  { unfold assign in H. destruct (_ || _); [done|]. case_bool_decide; [done|].
    cbn [role_refresh rs_db rs_hist] in H. fold r in H. rewrite Hc, lookup_fmap.
    destruct (rs_db st !! r) as [cur|] eqn:E; simpl.
    - case_bool_decide as Hh; injection H as <- <-; cbn [role_refresh rs_cache rs_db ar_previous ar_changed].
      + rewrite lookup_fmap, E. simpl. rewrite Hh.
        split_and!; [done|done|done|]. by rewrite bool_decide_eq_true_2.
      + rewrite lookup_fmap, lookup_insert_eq. simpl. split_and!; [done| |done|].
        * intros r' Hr'. by rewrite lookup_fmap, lookup_insert_ne, lookup_fmap.
        * by rewrite bool_decide_eq_false_2 by congruence.
    - destruct (_refuse_role_name env r); [|done]. injection H as <- <-.
      cbn [role_refresh rs_cache rs_db ar_previous ar_changed].
      rewrite lookup_fmap, lookup_insert_eq. simpl. split_and!; [done| |done|done].
      intros r' Hr'. by rewrite lookup_fmap, lookup_insert_ne, lookup_fmap. }
  split_and!; [| |done|apply H3..].
  - unfold holder. by rewrite Hbare.
  - intros a. rewrite elem_of_roles_held_by, H1. split; [by intros [= ->]|by intros ->].
Qed.

(** ** Witnesses and a chain *)

Definition ex_env : role_env := RoleEnv (Some "owner") ["robert"] ["alice"] ∅ empty_table.

(** Assigning role "b" to "a" and then creating a role "a" chains two roles:
    only the new holder is checked against the roles, never the new role
    against the holders. *)
Definition ex_chain : option (gmap string string) :=
  match assign 5 ex_env "b" "a" None (RoleState ∅ [] ∅) with
  | Done (_, st1) =>
      match assign 6 ex_env "a" "c" None st1 with
      | Done (_, st2) => Some (rs_cache st2)
      | Raise _ => None
      end
  | Raise _ => None
  end.

Lemma roles_can_chain :
  ∃ cache, ex_chain = Some cache ∧ cache !! "b" = Some "a" ∧ cache !! "a" = Some "c".
Proof. eexists. split_and!; [reflexivity|by vm_compute..]. Qed.
