(* ===== verification/Principals.v ===== *)
(** Principals (src/server/services/principal_service.py): logins, their
    tokens and passwords, the cache of verified tokens, and aliases.

    bcrypt and SHA-256 are third-party: [hashpw], [checkpw] and [sha256] are
    parameters. What the code relies on is stated where it is used: a hash
    verifies the input it was made from, and SHA-256 does not collide on
    tokens. Salts, generated tokens and new ids are arguments, as are the two
    readings of the monotonic clock. *)

From stdpp Require Import base gmap list strings sorting.
From Stdlib Require Import ZArith Lia Ascii.
From S2P Require Import Prelude PyString.

(** ** State *)

(** A row of [principals]. *)
Record principal_row := PrincipalRow {
  p_id : Z;
  p_name : string;
  p_type : string;
  p_is_admin : bool;
  p_token_hash : option string;
  p_token_lookup : option string;
  p_password_hash : option string;
  p_read : list string;
  p_write : list string;
  p_active : bool;
  p_created : Z;
  p_updated : option Z
}.

(** A row of [principal_aliases]. *)
Record palias_row := PAliasRow {
  pa_id : Z;
  pa_principal : Z;
  pa_alias : string;
  pa_source : string
}.

(** The two tables and the module's [_verified] cache. *)
Record pstate := PState {
  ps_rows : list principal_row;
  ps_aliases : list palias_row;
  ps_verified : gmap string (string * Z)
}.

(** The dictionary the service hands out. *)
Record principal := Principal {
  pd_id : Z;
  pd_name : string;
  pd_type : string;
  pd_is_admin : bool;
  pd_has_token : bool;
  pd_has_password : bool;
  pd_read_namespaces : list string;
  pd_write_namespaces : list string;
  pd_active : bool;
  pd_created_at : Z;
  pd_updated_at : option Z
}.


Definition _principal_dict (r : principal_row) : principal :=
  Principal (p_id r) (p_name r) (p_type r) (p_is_admin r) (is_some (p_token_hash r))
    (is_some (p_password_hash r)) (p_read r) (p_write r) (p_active r) (p_created r) (p_updated r).

Inductive principal_error :=
| DuplicateName (name : string)   (* UNIQUE (name) *)
| BadType (type : string)         (* CHECK (type IN ('human', 'agent')) *)
| NoTokenHash.                    (* None.encode() *)

Definition _VERIFIED_TTL_SECONDS : Z := 300.
Definition _VERIFIED_MAX : nat := 1024.

Section service.
Context (sha256 : string → string).
Context (hashpw : string → string → string).
Context (checkpw : string → string → bool).

(** ** Hashing *)

Definition _bcrypt_input (plaintext : string) : string :=
  if 72 <? String.length plaintext then sha256 plaintext else plaintext.

Definition _token_lookup (raw : string) : string := sha256 raw.

Definition _hash_password (plaintext salt : string) : string :=
  hashpw (_bcrypt_input plaintext) salt.

Definition _check_password (plaintext hashed : string) : bool :=
  checkpw (_bcrypt_input plaintext) hashed.

(** ** Creation and lookup *)

(** [(raw_token, token_hash)]: the given token, or a generated one for an agent. *)
Definition create_token (type : string) (token : option string) (generated salt : string)
  : option (string * string) :=
  if truthy token then Some (or_empty token, _hash_password (or_empty token) salt)
  else if type == "agent" then
    let raw := "engram_" +:+ generated in Some (raw, _hash_password raw salt)
  else None.

Definition create_principal (now id : Z) (generated salt_tok salt_pw : string)
    (name type : string) (is_admin : bool) (password token : option string)
    (rns wns : list string) (st : pstate)
  : outcome principal_error (principal * option string * pstate) :=
  let name := norm (Some name) in
  let tok := create_token type token generated salt_tok in
  let row := PrincipalRow id name type is_admin (snd <$> tok) (_token_lookup ∘ fst <$> tok)
               (if truthy password then Some (_hash_password (or_empty password) salt_pw) else None)
               rns wns true now None in
  if negb (type isin ["human"; "agent"]) then Raise (BadType type)
  else if existsb (λ r, p_name r == name) (ps_rows st) then Raise (DuplicateName name)
  else Done (_principal_dict row, fst <$> tok,
             PState (ps_rows st ++ [row]) (ps_aliases st) (ps_verified st)).

Definition get_principal (name : string) (st : pstate) : option principal :=
  _principal_dict <$> head (select (λ r, p_name r == name) (ps_rows st)).

Definition get_principal_by_id (id : Z) (st : pstate) : option principal :=
  _principal_dict <$> head (select (λ r, p_id r == id) (ps_rows st)).

(** ** Tokens *)

Definition _verified_recently (now : Z) (lookup token_hash : string)
    (v : gmap string (string * Z)) : bool :=
  match v !! lookup with
  | Some (h, until) => (h == token_hash) && (now <? until)%Z
  | None => false
  end.

Definition _remember_verified (now : Z) (lookup token_hash : string)
    (v : gmap string (string * Z)) : gmap string (string * Z) :=
  <[lookup := (token_hash, (now + _VERIFIED_TTL_SECONDS)%Z)]>
    (if _VERIFIED_MAX <=? size v then ∅ else v).

Definition reset_verified_cache (st : pstate) : pstate :=
  PState (ps_rows st) (ps_aliases st) ∅.

(** The fast-path candidate and the legacy candidates. *)
Definition by_lookup (lookup : string) (rows : list principal_row) : option principal_row :=
  head (select (λ r, p_active r && (p_token_lookup r == Some lookup)) rows).

Definition legacy_rows (rows : list principal_row) : list principal_row :=
  select (λ r, p_active r && is_some (p_token_hash r) && negb (is_some (p_token_lookup r))) rows.

(** The bcrypt scan of the legacy rows: the first that verifies. *)
Definition legacy_scan (raw : string) (rows : list principal_row) : option principal_row :=
  head (select (λ r, match p_token_hash r with
                     | Some h => _check_password raw h
                     | None => false
                     end) (legacy_rows rows)).

Definition set_lookup (lookup : string) (r : principal_row) : principal_row :=
  PrincipalRow (p_id r) (p_name r) (p_type r) (p_is_admin r) (p_token_hash r) (Some lookup)
    (p_password_hash r) (p_read r) (p_write r) (p_active r) (p_created r) (p_updated r).

Definition get_principal_by_token (now_check now_store : Z) (raw : string) (st : pstate)
  : outcome principal_error (option principal * pstate) :=
  let lookup := _token_lookup raw in
  match by_lookup lookup (ps_rows st) with
  | Some r =>
      match p_token_hash r with
      | None => Raise NoTokenHash
      | Some h =>
          if _verified_recently now_check lookup h (ps_verified st)
          then Done (Some (_principal_dict r), st)
          else if _check_password raw h
          then Done (Some (_principal_dict r),
                     PState (ps_rows st) (ps_aliases st)
                            (_remember_verified now_store lookup h (ps_verified st)))
          else Done (None, st)
      end
  | None =>
      match legacy_scan raw (ps_rows st) with
      | Some r =>
          Done (Some (_principal_dict r),
                PState (update_where (λ x, p_id x == p_id r) (set_lookup lookup) (ps_rows st))
                       (ps_aliases st) (ps_verified st))
      | None => Done (None, st)
      end
  end.

(** ** Updates *)

Definition or_else {A} (new : option A) (old : A) : A := default old new.

Definition update_row (now : Z) (is_admin : option bool) (password_hash : option string)
    (token : option (string * string)) (rns wns : option (list string)) (active : option bool)
    (r : principal_row) : principal_row :=
  PrincipalRow (p_id r) (p_name r) (p_type r) (or_else is_admin (p_is_admin r))
    (match token with Some (_, h) => Some h | None => p_token_hash r end)
    (match token with Some (t, _) => Some (_token_lookup t) | None => p_token_lookup r end)
    (match password_hash with Some h => Some h | None => p_password_hash r end)
    (or_else rns (p_read r)) (or_else wns (p_write r)) (or_else active (p_active r))
    (p_created r) (Some now).

Definition update_principal (now : Z) (salt_tok salt_pw : string) (name : string)
    (is_admin : option bool) (password token : option string)
    (rns wns : option (list string)) (active : option bool) (st : pstate)
  : option principal * option string * pstate :=
  let some_set := is_some is_admin || is_some password || is_some token || is_some rns
                  || is_some wns || is_some active in
  if negb some_set then (get_principal name st, None, st)
  else
    let f := update_row now is_admin ((λ p, _hash_password p salt_pw) <$> password)
               ((λ t, (t, _hash_password t salt_tok)) <$> token) rns wns active in
    match head (select (λ r, p_name r == name) (ps_rows st)) with
    | None => (None, None, st)
    | Some r => (Some (_principal_dict (f r)), token,
                 PState (update_where (λ r, p_name r == name) f (ps_rows st))
                        (ps_aliases st) (ps_verified st))
    end.

Definition deactivate_principal (now : Z) (name : string) (st : pstate) : bool * pstate :=
  let p := λ r, (p_name r == name) && p_active r in
  (length (select p (ps_rows st)) == 1,
   PState (update_where p (update_row now None None None None None (Some false)) (ps_rows st))
          (ps_aliases st) (ps_verified st)).

(** ** Aliases *)

Definition add_alias (id : Z) (principal_name alias source : string) (st : pstate)
  : option palias_row * pstate :=
  match head (select (λ r, p_name r == principal_name) (ps_rows st)) with
  | None => (None, st)
  | Some p =>
      let here := λ a, (pa_alias a == alias) && (pa_source a == source) in
      match head (select here (ps_aliases st)) with
      | Some a =>
          let a' := PAliasRow (pa_id a) (p_id p) alias source in
          (Some a', PState (ps_rows st) (update_where here (λ _, a') (ps_aliases st)) (ps_verified st))
      | None =>
          let a' := PAliasRow id (p_id p) alias source in
          (Some a', PState (ps_rows st) (ps_aliases st ++ [a']) (ps_verified st))
      end
  end.

(** The rows [remove_alias] deletes. *)
Definition alias_removable (alias : string) (source principal_name : option string)
    (rows : list principal_row) (a : palias_row) : bool :=
  (pa_alias a == alias) &&
  (if truthy source then Some (pa_source a) == source else true) &&
  (if truthy principal_name
   then match head (select (λ r, Some (p_name r) == principal_name) rows) with
        | Some p => pa_principal a == p_id p
        | None => false
        end
   else true).

(** [not result.endswith("0")] of the tag "DELETE n". *)
Definition delete_tag (n : nat) : string := "DELETE " +:+ pretty.pretty (N.of_nat n).

Definition remove_alias (alias : string) (source principal_name : option string) (st : pstate)
  : bool * pstate :=
  let gone := alias_removable alias source principal_name (ps_rows st) in
  (negb (endswith "0" (delete_tag (length (select gone (ps_aliases st))))),
   PState (ps_rows st) (select (λ a, negb (gone a)) (ps_aliases st)) (ps_verified st)).

Definition resolve_alias (alias : string) (source : option string) (st : pstate)
  : option principal :=
  _principal_dict <$>
    head (select (λ p, p_active p &&
            existsb (λ a, (pa_principal a == p_id p) && (pa_alias a == alias) &&
                          (if truthy source then Some (pa_source a) == source else true))
                    (ps_aliases st)) (ps_rows st)).

Definition verify_password (name password : string) (st : pstate) : option principal :=
  match head (select (λ r, (p_name r == name) && p_active r) (ps_rows st)) with
  | Some r =>
      if truthy (p_password_hash r) && _check_password password (or_empty (p_password_hash r))
      then Some (_principal_dict r) else None
  | None => None
  end.
End service.

(** ** The cache of verified tokens never changes a verdict *)

(** The database's own constraints on [principals]. *)
Definition principals_wf (rows : list principal_row) : Prop :=
  NoDup (p_name <$> rows) ∧ NoDup (p_id <$> rows).

Section auth.
Context (sha256 : string → string).
Context (hashpw : string → string → string).
Context (checkpw : string → string → bool).

(** What the cache holds: a lookup key with a hash its token verified against. *)
Definition cache_ok (v : gmap string (string * Z)) : Prop :=
  ∀ raw h until, v !! _token_lookup sha256 raw = Some (h, until) →
    _check_password sha256 checkpw raw h = true.

(** [get_principal_by_token] with the cache never consulted. *)
Definition authenticate_uncached (raw : string) (rows : list principal_row)
  : outcome principal_error (option principal) :=
  match by_lookup (_token_lookup sha256 raw) rows with
  | Some r =>
      match p_token_hash r with
      | None => Raise NoTokenHash
      | Some h => Done (if _check_password sha256 checkpw raw h then Some (_principal_dict r) else None)
      end
  | None => Done (_principal_dict <$> legacy_scan sha256 checkpw raw rows)
  end.

Lemma remember_ok now raw h v :
  (∀ a b, sha256 a = sha256 b → a = b) →
  cache_ok v → _check_password sha256 checkpw raw h = true →
  cache_ok (_remember_verified now (_token_lookup sha256 raw) h v).
Proof.
  intros Hsha Hok Hch raw' h' until. unfold _remember_verified.
  destruct (decide (raw = raw')) as [<-|Hne].
  - rewrite lookup_insert_eq. by intros [= <- <-].
  - rewrite lookup_insert_ne by (intros Heq; by apply Hne, Hsha).
    destruct (_VERIFIED_MAX <=? size v); [by rewrite lookup_empty|]. apply Hok.
Qed.

Lemma token_cache_equiv now1 now2 raw st :
  (∀ a b, sha256 a = sha256 b → a = b) → cache_ok (ps_verified st) →
  match get_principal_by_token sha256 checkpw now1 now2 raw st with
  | Done (res, st') =>
      authenticate_uncached raw (ps_rows st) = Done res ∧ cache_ok (ps_verified st')
  | Raise e => authenticate_uncached raw (ps_rows st) = Raise e
  end.
Proof.
  intros Hsha Hok. unfold get_principal_by_token, authenticate_uncached.
  destruct (by_lookup _ _) as [r|].
  - destruct (p_token_hash r) as [h|]; [|done].
    destruct (_verified_recently now1 _ h _) eqn:Ev.
    + split; [|done]. unfold _verified_recently in Ev.
      destruct (ps_verified st !! _token_lookup sha256 raw) as [[h' until]|] eqn:E; [|done].
      bprop. destruct Ev as [-> _]. by rewrite (Hok raw h until E).
    + destruct (_check_password sha256 checkpw raw h) eqn:Ec; [|done].
      split; [done|]. by apply remember_ok.
  - by destruct (legacy_scan sha256 checkpw raw (ps_rows st)).
Qed.
End auth.

(** C26. Caching bcrypt verdicts is invisible: with a cache whose entries were
    verified, a token resolves to exactly what it resolves to without the
    cache (the same principal, refusal or error), at any time and whatever
    the principals table now holds (a rotated hash, a deactivated row), and
    the entries of the new cache are again verified ones. *)
Theorem token_cache_transparent sha256 checkpw now1 now2 raw st :
  (∀ a b, sha256 a = sha256 b → a = b) → cache_ok sha256 checkpw (ps_verified st) →
  match get_principal_by_token sha256 checkpw now1 now2 raw st with
  | Done (res, st') =>
      authenticate_uncached sha256 checkpw raw (ps_rows st) = Done res ∧
      cache_ok sha256 checkpw (ps_verified st')
  | Raise e => authenticate_uncached sha256 checkpw raw (ps_rows st) = Raise e
  end.
Proof. apply token_cache_equiv. Qed.

Lemma token_resolves sha256 checkpw now1 now2 raw st res st' :
  (∀ a b, sha256 a = sha256 b → a = b) → cache_ok sha256 checkpw (ps_verified st) →
  get_principal_by_token sha256 checkpw now1 now2 raw st = Done (Some res, st') →
  ∃ r h, r ∈ ps_rows st ∧ res = _principal_dict r ∧ p_active r = true ∧
    p_token_hash r = Some h ∧ _check_password sha256 checkpw raw h = true.
Proof.
  intros Hsha Hok H.
  pose proof (token_cache_equiv sha256 checkpw now1 now2 raw st Hsha Hok) as He.
  rewrite H in He. destruct He as [He _]. unfold authenticate_uncached in He.
  destruct (by_lookup _ _) as [r|] eqn:E.
  - apply head_Some_elem_of, elem_of_select in E as [E Hin]. bprop. destruct E as [Ha _].
    destruct (p_token_hash r) as [h|] eqn:Eh; [|done].
    destruct (_check_password sha256 checkpw raw h) eqn:Ec; [|done]. injection He as <-.
    by exists r, h.
  - injection He as He. destruct (legacy_scan _ _ _ _) as [r|] eqn:El; [|done].
    injection He as <-. apply head_Some_elem_of, elem_of_select in El as [Hc Hin].
    apply elem_of_select in Hin as [Hl Hin]. bprop. destruct Hl as [[Ha _] _].
    destruct (p_token_hash r) as [h|] eqn:Eh; [|done]. by exists r, h.
Qed.

(** A token only ever resolves to an active principal whose stored bcrypt
    hash verifies that token; so once a principal is deactivated no token
    resolves to it, cached or not, from the very next call. *)
Lemma token_auth_sound sha256 checkpw now1 now2 raw st res st' :
  (∀ a b, sha256 a = sha256 b → a = b) → cache_ok sha256 checkpw (ps_verified st) →
  get_principal_by_token sha256 checkpw now1 now2 raw st = Done (Some res, st') →
  (∃ r h, r ∈ ps_rows st ∧ res = _principal_dict r ∧ p_active r = true ∧
     p_token_hash r = Some h ∧ _check_password sha256 checkpw raw h = true) ∧
  (∀ t name b st0, deactivate_principal sha256 t name st0 = (b, st) → pd_name res ≠ name).
Proof.
  intros Hsha Hok H.
  pose proof (token_resolves sha256 checkpw now1 now2 raw st res st' Hsha Hok H) as Hr.
  split; [done|]. destruct Hr as (r & h & Hin & -> & Ha & _). intros t name b st0 [= _ <-] Hn.
  simpl in Hin, Hn. apply elem_of_update_where in Hin as (x & Hx & ->).
  destruct ((p_name x == name) && p_active x) eqn:E; simpl in *; [done|].
  rewrite Ha, andb_true_r in E. bprop. done.
Qed.

(** A created principal can log in: the token handed back resolves to the
    principal created, on the fast path, and the password given verifies. It
    needs only that bcrypt verifies its own hashes and that no active login
    already uses that token. *)
Lemma create_then_authenticate sha256 hashpw checkpw now id gen s1 s2 name type adm pw tok rns wns st p raw st' n1 n2 :
  (∀ x salt, checkpw x (hashpw x salt) = true) →
  by_lookup (sha256 raw) (ps_rows st) = None →
  create_principal sha256 hashpw now id gen s1 s2 name type adm pw tok rns wns st = Done (p, Some raw, st') →
  (∃ st'', get_principal_by_token sha256 checkpw n1 n2 raw st' = Done (Some p, st'')) ∧
  (hashpw (_bcrypt_input sha256 (or_empty pw)) s2 ≠ "" → truthy pw = true →
   verify_password sha256 checkpw (norm (Some name)) (or_empty pw) st' = Some p) ∧
  get_principal (norm (Some name)) st' = Some p.
Proof.
  intros Hbc Hnew H. unfold create_principal in H.
  destruct (negb _); [done|]. destruct (existsb _ _) eqn:Ex; [done|].
  destruct (create_token _ _ _ _ _ _) as [[raw' h]|] eqn:Et; [|done].
  injection H as <- -> <-.
  assert (_check_password sha256 checkpw raw h = true) as Hch.
  { unfold create_token in Et. unfold _check_password, _hash_password in *.
    destruct (truthy tok); [injection Et as <- <-; by apply Hbc|].
    destruct (type == "agent"); [|done]. injection Et as <- <-. by apply Hbc. }
  set (row := PrincipalRow id (norm (Some name)) type adm _ _ _ rns wns true now None).
  assert (∀ q : principal_row → bool, select q (ps_rows st) = [] → q row = true →
    head (select q (ps_rows st ++ [row])) = Some row) as Hhead.
  { intros q Hq Hr. by rewrite select_app, Hq, select_cons, Hr. }
  assert (∀ r, r ∈ ps_rows st → (p_name r == norm (Some name)) = false) as Hfresh.
  { intros r Hr. apply not_true_is_false. intros Hn. rewrite <- not_true_iff_false in Ex.
    apply Ex, existsb_exists. exists r. split; [by apply list_elem_of_In|done]. }
  split_and!.
  - unfold get_principal_by_token. cbn [ps_rows ps_verified ps_aliases]. unfold by_lookup.
    rewrite Hhead.
    + cbn [p_token_hash row fmap option_fmap option_map snd].
      destruct (_verified_recently _ _ _ _); [by eexists|]. rewrite Hch. by eexists.
    + by apply head_None in Hnew.
    + cbn [row p_active p_token_lookup]. simpl. by rewrite bool_decide_eq_true_2.
  - intros Hne Hpw. unfold verify_password. cbn [ps_rows]. rewrite Hhead.
    + assert (∀ u : string, u ≠ "" → truthy (Some u) = true) as Htr by (by intros []).
      assert (p_password_hash row = Some (hashpw (_bcrypt_input sha256 (or_empty pw)) s2)) as ->.
      { cbn [row p_password_hash]. by rewrite Hpw. }
      rewrite Htr by done. unfold _check_password. simpl. by rewrite Hbc.
    + apply select_nil. intros r Hr. by rewrite Hfresh.
    + cbn [row p_active p_name]. by rewrite bool_decide_eq_true_2.
  - unfold get_principal. cbn [ps_rows]. rewrite Hhead; [done| |].
    + apply select_nil. intros r Hr. by rewrite Hfresh.
    + cbn [row p_name]. by rewrite bool_decide_eq_true_2.
Qed.

(** ** Witnesses *)

Definition ex_sha (s : string) : string := s.
Definition ex_hashpw (x salt : string) : string := "#" +:+ x.
Definition ex_checkpw (x h : string) : bool := h == ("#" +:+ x).
Definition ex_pstate : pstate := PState [] [] ∅.

Definition ex_created : pstate :=
  match create_principal ex_sha ex_hashpw 9 1 "abc" "" "" "Hal" "agent" false (Some "pw") None [] [] ex_pstate with
  | Done (_, _, st) => st
  | Raise _ => ex_pstate
  end.

Lemma ex_cache_ok : cache_ok ex_sha ex_checkpw (ps_verified ex_created).
Proof. by intros raw h until. Qed.

Lemma token_cache_transparent_witness :
  authenticate_uncached ex_sha ex_checkpw "engram_abc" (ps_rows ex_created)
    = Done (Some (Principal 1 "hal" "agent" false true true [] [] true 9 None)).
Proof.
  pose proof (token_cache_transparent ex_sha ex_checkpw 10 11 "engram_abc" ex_created
    (λ a b H, H) ex_cache_ok) as H.
  vm_compute in H. vm_compute. exact (proj1 H).
Defined.

(** Deleting ten aliases at once reports that nothing was deleted: the answer
    is read off the last digit of the command tag "DELETE 10". *)
Definition ex_ten_aliases : pstate :=
  PState [] ((λ i, PAliasRow i 1 "hal" (String (ascii_of_nat (97 + Z.to_nat i)) "")) <$> [0; 1; 2; 3; 4; 5; 6; 7; 8; 9]%Z) ∅.

Lemma remove_alias_ten :
  (remove_alias "hal" None None ex_ten_aliases).1 = false ∧
  length (ps_aliases ex_ten_aliases) = 10 ∧
  ps_aliases (remove_alias "hal" None None ex_ten_aliases).2 = [].
Proof. by vm_compute. Qed.
