(* ===== verification/Auth.v ===== *)
(** Who may call what (src/server/auth.py, src/server/dependencies.py, the
    namespace aliases of src/server/config.py and the path predicates of
    src/server/services/mail_signal.py): the authentication middleware, the
    fence around owner relays, the refusal of admin credentials on the public
    surface, and the namespace and admin checks of the routes. *)

From stdpp Require Import base gmap list strings.
From Stdlib Require Import ZArith Lia Ascii.
From S2P Require Import Prelude PyString Principals.

(** ** Settings and requests *)

Record auth_settings := AuthSettings {
  s_require_auth : bool;
  s_api_token : string;
  s_public_proxy_header : string;
  s_owner_principal_name : option string;
  s_owner_relay_principals : option string;
  s_namespace_aliases : string;
  s_host : string
}.

Record request := Request {
  rq_method : string;
  rq_path : string;
  rq_header : string → option string
}.

(** ** Paths *)

Definition SIGNAL_PATH_PREFIX : string := "/memory/signal/".
Definition REDACTED_PATH : string := SIGNAL_PATH_PREFIX +:+ "<redacted>".

Definition is_signal_path (path : string) : bool :=
  match drop_prefix SIGNAL_PATH_PREFIX path with
  | None => false
  | Some rest => nonempty rest && negb (has_char "/" rest)
  end.

Definition redact_path (path : string) : string :=
  if startswith SIGNAL_PATH_PREFIX path then REDACTED_PATH else path.

(** The paths served without a token. *)
Definition exempt (rq : request) : bool :=
  (rq_path rq == "/health") || startswith "/dashboard" (rq_path rq) ||
  (rq_path rq == "/bridge") || startswith "/static/" (rq_path rq) ||
  ((rq_method rq == "GET") && is_signal_path (rq_path rq)).

(** ** Owner relays *)

Definition _RELAY_EXACT : list (string * string) :=
  [("POST", "/memory/inbox"); ("POST", "/memory/send"); ("POST", "/memory/roster"); ("GET", "/health")].
Definition _RELAY_INBOX_ACTIONS : list string := ["/ack"; "/resolve"].

Definition owner_relay_names (cfg : auth_settings) : list string :=
  if negb (nonempty (strip (or_empty (s_owner_principal_name cfg)))) then []
  else (λ n, lower (strip n)) <$>
         filter (λ n, nonempty (strip n) = true)
                (split_on "," (or_empty (s_owner_relay_principals cfg))).

Definition is_owner_relay (cfg : auth_settings) (p : principal) : bool :=
  norm (Some (pd_name p)) isin owner_relay_names cfg.

Definition _relay_route_allowed (method path : string) : bool :=
  ((method, path) isin _RELAY_EXACT) ||
  ((method == "POST") && startswith "/memory/inbox/" path &&
   existsb (λ a, endswith a path) _RELAY_INBOX_ACTIONS).

(** ** The middleware *)

Inductive auth_source := FromPrincipal | FromLegacy | Anonymous.

Inductive auth_verdict :=
| Forward (p : option principal) (src : auth_source)
| Reject401 (detail : string)
| Refuse403 (detail : string)
| ServerError (e : principal_error).

Definition refuses_admin_on_public (cfg : auth_settings) (rq : request) (p : principal) : bool :=
  pd_is_admin p && nonempty (s_public_proxy_header cfg) &&
  truthy (rq_header rq (s_public_proxy_header cfg)).

Definition fences_owner_relay (cfg : auth_settings) (rq : request) (p : principal) : bool :=
  is_owner_relay cfg p && negb (_relay_route_allowed (rq_method rq) (rq_path rq)).

(** Both guards on an identified principal, then the route. *)
Definition let_in (cfg : auth_settings) (rq : request) (p : principal) : auth_verdict :=
  if refuses_admin_on_public cfg rq p then Refuse403 "admin on the public surface"
  else if fences_owner_relay cfg rq p then Refuse403 "owner relay"
  else Forward (Some p) FromPrincipal.

(** [auth_header[7:] if auth_header.startswith("Bearer ") else None] *)
Definition bearer (rq : request) : option string :=
  drop_prefix "Bearer " (or_empty (rq_header rq "authorization")).

Section middleware.
Context (sha256 : string → string) (checkpw : string → string → bool).

Definition lookup_token (n1 n2 : Z) (token : string) (st : pstate)
  : outcome principal_error (option principal * pstate) :=
  get_principal_by_token sha256 checkpw n1 n2 token st.

Definition _enforce (cfg : auth_settings) (n1 n2 : Z) (rq : request) (token : option string)
    (st : pstate) : auth_verdict * pstate :=
  if negb (truthy token) then (Reject401 "Authentication required", st)
  else match lookup_token n1 n2 (or_empty token) st with
       | Raise e => (ServerError e, st)
       | Done (Some p, st') => (let_in cfg rq p, st')
       | Done (None, st') => (Reject401 "Invalid or inactive token.", st')
       end.

Definition _enrich (cfg : auth_settings) (n1 n2 : Z) (rq : request) (token : option string)
    (st : pstate) : auth_verdict * pstate :=
  if negb (truthy token) then
    if nonempty (s_api_token cfg) then (Reject401 "Authentication required", st)
    else (Forward None Anonymous, st)
  else match lookup_token n1 n2 (or_empty token) st with
       | Raise e => (ServerError e, st)
       | Done (Some p, st') => (let_in cfg rq p, st')
       | Done (None, st') =>
           if nonempty (s_api_token cfg) && (token == Some (s_api_token cfg))
           then (Forward None FromLegacy, st')
           else (Reject401 "Invalid API token.", st')
       end.

Definition dispatch (cfg : auth_settings) (n1 n2 : Z) (rq : request) (st : pstate)
  : auth_verdict * pstate :=
  if exempt rq then (Forward None Anonymous, st)
  else if s_require_auth cfg then _enforce cfg n1 n2 rq (bearer rq) st
  else _enrich cfg n1 n2 rq (bearer rq) st.
End middleware.

(** ** Namespaces *)

(** The first pair "old=new" whose old name matches. *)
Fixpoint ns_alias (pairs : list string) (ns : string) : option string :=
  match pairs with
  | [] => None
  | kv :: rest =>
      match split1 "=" kv with
      | (old, Some new) =>
          if lower (strip ns) == lower (strip old) then Some (lower (strip new))
          else ns_alias rest ns
      | (_, None) => ns_alias rest ns
      end
  end.

Definition canonical_namespace (cfg : auth_settings) (ns : string) : string :=
  if nonempty ns then default ns (ns_alias (split_on "," (s_namespace_aliases cfg)) ns) else ns.

Inductive access_error := Http (status : Z) | ValueError (what : string).

(** ** Route checks *)

Definition require_principal (p : option principal) : outcome access_error principal :=
  match p with Some p => Done p | None => Raise (Http 401) end.

Definition require_admin (p : option principal) : outcome access_error principal :=
  do! p <- require_principal p;
  if pd_is_admin p then Done p else Raise (Http 403).

Definition _loopback_bind (cfg : auth_settings) : bool :=
  s_host cfg isin ["127.0.0.1"; "::1"; "localhost"].

Definition admin_or_open (cfg : auth_settings) (p : option principal) (src : auth_source)
  : outcome access_error (option principal) :=
  if s_require_auth cfg then do! p <- require_admin p; Done (Some p)
  else if _loopback_bind cfg then Done p
  else match src with
       | FromLegacy => Done p
       | _ => match p with
              | Some p => if pd_is_admin p then Done (Some p) else Raise (Http 403)
              | None => Raise (Http 401)
              end
       end.

Definition check_namespace_access (cfg : auth_settings) (p : option principal)
    (namespace mode : string) (force : bool) : outcome access_error unit :=
  match p with
  | None => Done tt
  | Some p =>
      if negb (s_require_auth cfg) && negb force then Done tt
      else if pd_is_admin p then Done tt
      else if negb (mode isin ["read"; "write"]) then Raise (ValueError mode)
      else
        let allowed := if mode == "read" then pd_read_namespaces p else pd_write_namespaces p in
        if ("*" isin allowed) ||
           (canonical_namespace cfg namespace isin (canonical_namespace cfg <$> allowed))
        then Done tt else Raise (Http 403)
  end.

Fixpoint check_namespaces_access (cfg : auth_settings) (p : option principal)
    (namespaces : list string) (mode : string) : outcome access_error unit :=
  match namespaces with
  | [] => Done tt
  | ns :: rest =>
      do! _ <- check_namespace_access cfg p ns mode false;
      check_namespaces_access cfg p rest mode
  end.

(** [all_ns] stands for [admin_service.list_namespaces()]. *)
Definition resolve_read_namespaces (cfg : auth_settings) (p : option principal) (all_ns : list string)
  : outcome access_error (list string) :=
  match p with
  | None => Raise (Http 401)
  | Some p =>
      if ("*" isin pd_read_namespaces p) || pd_is_admin p then Done all_ns
      else if length (pd_read_namespaces p) == 0 then Raise (Http 403)
      else Done (dedup (canonical_namespace cfg <$> pd_read_namespaces p))
  end.

(** ** Theorems *)

Lemma let_in_forward cfg rq p v src :
  let_in cfg rq p = Forward v src →
  v = Some p ∧ src = FromPrincipal ∧ refuses_admin_on_public cfg rq p = false ∧
  fences_owner_relay cfg rq p = false.
Proof.
  unfold let_in. destruct (refuses_admin_on_public cfg rq p), (fences_owner_relay cfg rq p);
    try done. by intros [= <- <-].
Qed.

(** The outcomes of an enforced dispatch, by the exemption test. *)
Lemma enforced_outcome sha256 checkpw cfg n1 n2 rq st v src st' :
  (∀ a b, sha256 a = sha256 b → a = b) → cache_ok sha256 checkpw (ps_verified st) →
  s_require_auth cfg = true →
  dispatch sha256 checkpw cfg n1 n2 rq st = (Forward v src, st') →
  (exempt rq = true ∧ v = None ∧ src = Anonymous) ∨
  (∃ p tok r h, v = Some p ∧ src = FromPrincipal ∧ exempt rq = false ∧
     rq_header rq "authorization" = Some ("Bearer " +:+ tok) ∧
     r ∈ ps_rows st ∧ p = _principal_dict r ∧ p_active r = true ∧ p_token_hash r = Some h ∧
     _check_password sha256 checkpw tok h = true ∧
     (pd_is_admin p = true → s_public_proxy_header cfg ≠ "" →
        truthy (rq_header rq (s_public_proxy_header cfg)) = false) ∧
     (is_owner_relay cfg p = true → _relay_route_allowed (rq_method rq) (rq_path rq) = true)).
Proof.
  intros Hsha Hok Hreq H. unfold dispatch in H. destruct (exempt rq) eqn:Ex.
  { injection H as <- <- <-. by left. }
  right. rewrite Hreq in H. unfold _enforce in H.
  destruct (truthy (bearer rq)) eqn:Et; [|done]. simpl in H.
  destruct (bearer rq) as [tok|] eqn:Eb; [|done]. simpl in H.
  destruct (lookup_token _ _ _ _ _ _) as [[[p|] st1]|] eqn:El; [|done..].
  injection H as H <-. apply let_in_forward in H as (-> & -> & Hpub & Hrel).
  pose proof (token_cache_equiv sha256 checkpw n1 n2 tok st Hsha Hok) as He.
  unfold lookup_token in El.
  assert (∃ r h, r ∈ ps_rows st ∧ p = _principal_dict r ∧ p_active r = true ∧
    p_token_hash r = Some h ∧ _check_password sha256 checkpw tok h = true) as (r & h & Hr)
    by (by eapply token_resolves).
  exists p, tok, r, h. split_and!; try tauto.
  - unfold bearer in Eb. destruct (rq_header rq "authorization") as [a|]; [|done].
    change (or_empty (Some a)) with a in Eb. apply drop_prefix_Some in Eb. by rewrite Eb.
  - intros Ha Hh. unfold refuses_admin_on_public in Hpub. rewrite Ha in Hpub.
    apply nonempty_true in Hh. by rewrite Hh in Hpub.
  - intros Hr'. unfold fences_owner_relay in Hrel. rewrite Hr' in Hrel.
    by destruct (_relay_route_allowed _ _).
Qed.

(** C7. With authentication required, a request reaches a route without a
    principal only on an exempt path; every other request that gets through
    carries an active principal whose stored hash verifies its bearer token,
    is not an admin arriving through the public edge, and, when the principal
    relays the owner's words, is one of the mail routes a relay may call. *)
Theorem dispatch_enforced sha256 checkpw cfg n1 n2 rq st v src st' :
  (∀ a b, sha256 a = sha256 b → a = b) → cache_ok sha256 checkpw (ps_verified st) →
  s_require_auth cfg = true →
  dispatch sha256 checkpw cfg n1 n2 rq st = (Forward v src, st') →
  ((rq_path rq = "/health" ∨ startswith "/dashboard" (rq_path rq) = true ∨ rq_path rq = "/bridge" ∨
      startswith "/static/" (rq_path rq) = true ∨
      rq_method rq = "GET" ∧ is_signal_path (rq_path rq) = true) ∧ v = None ∧ src = Anonymous) ∨
  (∃ p tok r h, v = Some p ∧ src = FromPrincipal ∧ exempt rq = false ∧
     rq_header rq "authorization" = Some ("Bearer " +:+ tok) ∧
     r ∈ ps_rows st ∧ p = _principal_dict r ∧ p_active r = true ∧ p_token_hash r = Some h ∧
     _check_password sha256 checkpw tok h = true ∧
     (pd_is_admin p = true → s_public_proxy_header cfg ≠ "" →
        truthy (rq_header rq (s_public_proxy_header cfg)) = false) ∧
     (is_owner_relay cfg p = true → _relay_route_allowed (rq_method rq) (rq_path rq) = true)).
Proof.
  intros Hsha Hok Hreq H.
  destruct (enforced_outcome sha256 checkpw cfg n1 n2 rq st v src st' Hsha Hok Hreq H)
    as [(Hex & Hv & Hs)|Hp]; [left|by right].
  split; [|done]. unfold exempt in Hex.
  rewrite !orb_true_iff, andb_true_iff, !bool_decide_eq_true in Hex. tauto.
Qed.

(** The login-free signal path is exactly "/memory/signal/" followed by one
    non-empty segment, and its key never reaches a log line: all such paths
    are logged alike. *)
Lemma signal_path_exact path :
  (is_signal_path path = true ↔
     ∃ key, path = "/memory/signal/" +:+ key ∧ key ≠ "" ∧ has_char "/" key = false) ∧
  (is_signal_path path = true → redact_path path = "/memory/signal/<redacted>").
Proof.
  assert (is_signal_path path = true ↔
     ∃ key, path = "/memory/signal/" +:+ key ∧ key ≠ "" ∧ has_char "/" key = false) as Hiff.
  { unfold is_signal_path. destruct (drop_prefix SIGNAL_PATH_PREFIX path) as [rest|] eqn:E.
    - apply drop_prefix_Some in E. rewrite andb_true_iff, nonempty_true, negb_true_iff. split.
      + intros [H1 H2]. by exists rest.
      + intros (key & Hk & H1 & H2). rewrite E in Hk. apply string_app_inj_l in Hk. by subst key.
    - split; [done|]. intros (key & -> & _). exfalso.
      fold SIGNAL_PATH_PREFIX in E. rewrite drop_prefix_app in E. done. }
  split; [done|]. rewrite Hiff. intros (key & -> & _).
  unfold redact_path. fold SIGNAL_PATH_PREFIX. by rewrite startswith_app.
Qed.

(** The header the public edge sets can only take access away: a request
    that gets through with it gets through without it, as the same
    principal, from the same source. *)
Lemma public_header_only_removes sha256 checkpw cfg n1 n2 rq rq' st v src st' :
  rq_method rq' = rq_method rq → rq_path rq' = rq_path rq →
  rq_header rq' "authorization" = rq_header rq "authorization" →
  rq_header rq' (s_public_proxy_header cfg) = None →
  dispatch sha256 checkpw cfg n1 n2 rq st = (Forward v src, st') →
  dispatch sha256 checkpw cfg n1 n2 rq' st = (Forward v src, st').
Proof.
  intros Hm Hp Ha Hh.
  assert (exempt rq' = exempt rq) as Hex by (unfold exempt; by rewrite Hm, Hp).
  assert (bearer rq' = bearer rq) as Hb by (unfold bearer; by rewrite Ha).
  assert (∀ p, let_in cfg rq p = Forward v src → let_in cfg rq' p = Forward v src) as Hadm.
  { intros p H. pose proof H as (-> & -> & _ & Hf)%let_in_forward. unfold let_in.
    unfold refuses_admin_on_public, fences_owner_relay in *. rewrite Hh, Hm, Hp, Hf.
    simpl. by rewrite andb_false_r. }
  unfold dispatch, _enforce, _enrich. rewrite Hex, Hb.
  destruct (exempt rq); [done|]. destruct (s_require_auth cfg), (negb (truthy (bearer rq))); [done| |done|].
  - destruct (lookup_token _ _ _ _ _ _) as [[[p|] st1]|]; [|done..].
    intros [= H <-]. by rewrite (Hadm p H).
  - destruct (lookup_token _ _ _ _ _ _) as [[[p|] st1]|]; [|done..].
    intros [= H <-]. by rewrite (Hadm p H).
Qed.

(** A namespace check on a known principal under enforcement lets through
    exactly admins, wildcard grants, and grants that name the namespace under
    any of its aliases; an admin route on a non-loopback bind never admits an
    anonymous caller, nor an identified one that is not an admin. *)
Lemma access_checks cfg p ns mode :
  mode = "read" ∨ mode = "write" →
  (∀ q, p = Some q → s_require_auth cfg = true →
    let allowed := if mode == "read" then pd_read_namespaces q else pd_write_namespaces q in
    (check_namespace_access cfg p ns mode false = Done tt ↔
       pd_is_admin q = true ∨ "*" ∈ allowed ∨
       ∃ g, g ∈ allowed ∧ canonical_namespace cfg g = canonical_namespace cfg ns) ∧
    (check_namespace_access cfg p ns mode false ≠ Done tt →
       check_namespace_access cfg p ns mode false = Raise (Http 403))) ∧
  (_loopback_bind cfg = false → ∀ src r, admin_or_open cfg p src = Done r →
     src ≠ FromLegacy ∨ s_require_auth cfg = true → ∃ q, p = Some q ∧ pd_is_admin q = true).
Proof.
  intros Hmode. split.
  - intros q -> Hreq allowed.
    assert (check_namespace_access cfg (Some q) ns mode false =
      if pd_is_admin q || (("*" isin allowed) ||
           (canonical_namespace cfg ns isin (canonical_namespace cfg <$> allowed)))
      then Done tt else Raise (Http 403)) as ->.
    { unfold check_namespace_access. rewrite Hreq. cbn [negb andb].
      destruct (pd_is_admin q); [done|].
      rewrite (bool_decide_eq_true_2 (mode ∈ ["read"; "write"])) by set_solver. done. }
    split; [|by destruct (_ || _)].
    assert (∀ b : bool, (if b then Done tt else Raise (Http 403)) = (Done tt : outcome access_error unit) ↔ b = true)
      as -> by (by intros []).
    rewrite !orb_true_iff, !bool_decide_eq_true, list_elem_of_fmap. naive_solver.
  - intros Hl src r. unfold admin_or_open, require_admin, require_principal. rewrite Hl.
    destruct (s_require_auth cfg).
    + destruct p as [q|]; simpl; [|done]. destruct (pd_is_admin q) eqn:E; [|done]. eauto.
    + intros H [Hs|?]; [|done]. destruct src; [|done|];
        (destruct p as [q|]; [|done]; destruct (pd_is_admin q) eqn:E; [eauto|done]).
Qed.

(** ** Witnesses *)

Definition ex_cfg : auth_settings :=
  AuthSettings true "" "x-public" (Some "robert") (Some "Telegram, ") "old=fleet" "0.0.0.0".
Definition ex_rq : request :=
  Request "GET" "/memory/keys" (λ h, if h == "authorization" then Some "Bearer engram_abc" else None).

Lemma dispatch_enforced_witness :
  ∃ p st', dispatch ex_sha ex_checkpw ex_cfg 10 11 ex_rq ex_created = (Forward (Some p) FromPrincipal, st') ∧
    pd_name p = "hal".
Proof.
  destruct (dispatch ex_sha ex_checkpw ex_cfg 10 11 ex_rq ex_created) as [v st'] eqn:E.
  assert (v = Forward (Some (Principal 1 "hal" "agent" false true true [] [] true 9 None)) FromPrincipal) as ->
    by (vm_compute in E; by simplify_eq).
  destruct (dispatch_enforced ex_sha ex_checkpw ex_cfg 10 11 ex_rq ex_created _ _ st'
    (λ a b H, H) ex_cache_ok eq_refl E) as [(H & _)|(p & tok & r & h & H & _)];
    [exfalso; destruct H as [H|[H|[H|[H|[_ H]]]]]; discriminate H|].
  exists p, st'. injection H as <-. done.
Defined.
