(* ===== verification/Memory.v ===== *)
(** The memory verbs (src/server/services/memory_service.py): set, get, keys,
    forget, the deletion queue, estate transfer and supersede, with their
    ownership, version and lifecycle rules.

    The SHA-256 hex digest behind a version token is the parameter [sha256].
    The clock is the argument [now]. An operation that raises has rolled its
    transaction back: only [Done] carries a new table. *)

From stdpp Require Import base gmap list strings pretty sorting.
From Stdlib Require Import ZArith Lia Ascii.
From S2P Require Import Prelude PyString Json Store.

(** ** Keys, versions, errors *)

Definition HIDDEN_STATUSES : list string := ["superseded"; "deletion_requested"].
Definition DATA_SCOPES : list string := ["project"; "shared"; "user"; "machine"].
Definition _VERSION_LEN : nat := 16.

(** Lower-case partition fields ([None] and the empty string stay). *)
Definition _normalize_key_fields (namespace key scope user_id : string) (project : option string) : pkey :=
  PKey (lower namespace) (lower key) (lower scope) (lower user_id) (lower <$> project).

Inductive mem_error :=
| VersionConflict (current : option string) (version : string)
| OwnershipConflict (owner : string) (attempted : option string)
| ForgetDenied (controller : string) (attempted : option string)
| BadRequest (what : string).

(** ** Search text *)

Fixpoint replace_char (a b : ascii) (s : string) : string :=
  match s with
  | EmptyString => EmptyString
  | String c s' => String (if c == a then b else c) (replace_char a b s')
  end.

(** [re.sub(r"([a-z])([A-Z])", r"\1 \2", s)] *)
Fixpoint split_camel (s : string) : string :=
  match s with
  | EmptyString => EmptyString
  | String c s' =>
      match s' with
      | String d _ =>
          if is_lower_char c && is_upper_char d
          then String c (String " " (split_camel s'))
          else String c (split_camel s')
      | EmptyString => String c EmptyString
      end
  end.

Definition _expand_key (key : string) : string :=
  strip (lower (split_camel (replace_char "-" " " (replace_char "_" " " key)))).

Definition _build_search_text (key value tags : string) : string :=
  join " " ([_expand_key key; key; value] ++ (if nonempty tags then [tags] else [])).

(** ** Lifecycle predicates of the SQL *)

Definition status_of (r : row) : option string := md_text (r_meta r) "status".

(** [COALESCE(metadata->>'status', '') NOT IN ('superseded', 'deletion_requested')] *)
Definition live (r : row) : bool := negb (or_empty (status_of r) isin HIDDEN_STATUSES).

(** [existing["lifecycle_status"] in HIDDEN_STATUSES] *)
Definition drained (r : row) : bool :=
  match status_of r with Some s => s isin HIDDEN_STATUSES | None => false end.

(** [expires_at IS NULL OR expires_at > NOW()] *)
Definition unexpired (now : Z) (r : row) : bool :=
  match r_expires r with Some e => (now <? e)%Z | None => true end.

(** The first of the newest rows ([ORDER BY created_at DESC LIMIT 1]). *)
Definition newest (l : list row) : option row :=
  foldl (λ acc r, match acc with
                  | Some b => if (r_created b <? r_created r)%Z then Some r else acc
                  | None => Some r
                  end) None l.

Record set_args := SetArgs {
  a_namespace : string;
  a_key : string;
  a_value : string;
  a_scope : string;
  a_user_id : string;
  a_project : option string;
  a_tags : string;
  a_tags_search : string;
  a_expiration_days : Z;
  a_metadata : option jobj;
  a_owner : option string;
  a_if_match : option string;
  a_is_admin : bool
}.

(** The row a write supplies; [json.dumps(metadata) if metadata else None]. *)
Definition new_of (now : Z) (a : set_args) (k : pkey) : new_row :=
  NewRow k (a_value a) (a_tags a) (a_tags_search a)
    (_build_search_text (k_key k) (a_value a) (a_tags a))
    (if (0 <? a_expiration_days a)%Z then Some (now + 86400 * a_expiration_days a)%Z else None)
    (match a_metadata a with
     | Some m => if size m == 0 then None else Some m
     | None => None
     end)
    (a_owner a).

(** [DO UPDATE SET ... EXCLUDED ...]: id, key, created_at and custodian stay. *)
Definition set_content (now : Z) (n : new_row) (r : row) : row :=
  Row (r_id r) (r_pk r) (n_value n) (n_tags n) (n_tags_search n) (n_search n)
      (r_created r) now (n_expires n) (n_meta n) (n_owner n) (r_custodian r).

#[global] Instance set_content_keeps now n : KeepsKeys (set_content now n).
Proof. by split. Qed.

Definition _upsert_memory (now : Z) (n : new_row) (t : table) : bool * table :=
  sql_upsert now n (set_content now n) t.

Definition _insert_if_absent (now : Z) (n : new_row) (t : table) : option Z * table :=
  sql_insert_nothing now n t.

(** MEM-6: the stamp on other writers' live rows of the same project key. *)
Definition collapse_stamp (now : Z) (owner : option string) (k : pkey) : jobj :=
  list_to_map [("status", JStr "superseded"); ("superseded_at", JTime now);
    ("superseded_by_principal", jopt owner); ("superseded_by_user_id", JStr (k_user k));
    ("superseded_reason",
       JStr "a newer write of this project key by another writer (MEM-6 cross-writer collapse)");
    ("superseded_by_key", JStr (k_key k))].

(** The same logical key: namespace, key, scope and project. *)
Definition same_logical (k : pkey) (r : row) : bool :=
  (r_ns r == k_ns k) && (r_key r == k_key k) && (r_scope r == k_scope k) && (r_project r == k_project k).

Definition collapse_twins (now : Z) (owner : option string) (k : pkey) (t : table) : table :=
  sql_update (λ r, same_logical k r && (r_user r != k_user k) && live r)
    (λ r, set_meta (md_merge (r_meta r) (collapse_stamp now owner k)) r) t.

Record mem_item := MemItem {
  i_pk : pkey;
  i_value : string;
  i_tags : string;
  i_tags_search : string;
  i_created_at : Z;
  i_version : string
}.

Section versioned.
Context (sha256 : string → string).

Definition compute_version (value : option string) : string :=
  match value with
  | None => ""
  | Some v => String.substring 0 _VERSION_LEN (sha256 v)
  end.

(** The value a [fetchval] reads at the key. *)
Definition value_at (k : pkey) (t : table) : option string := r_value <$> sql_find k t.

(** OWN-1 refuses: the row is owned by someone else and is not drained. *)
Definition owned_by_other (owner : option string) (existing : option row) : option string :=
  match existing with
  | Some r =>
      match r_owner r with
      | Some o => if (Some o != owner) && negb (drained r) then Some o else None
      | None => None
      end
  | None => None
  end.

Definition memory_set (now : Z) (a : set_args) (t : table)
  : outcome mem_error (string * bool * string * table) :=
  let k := _normalize_key_fields (a_namespace a) (a_key a) (a_scope a) (a_user_id a) (a_project a) in
  let n := new_of now a k in
  let version := compute_version (Some (a_value a)) in
  let enforce_owner := (k_scope k == "project") && negb (a_is_admin a) in
  let create_only := a_if_match a == Some "" in
  let existing := if enforce_owner || create_only then sql_find k t else None in
  match (if enforce_owner then owned_by_other (a_owner a) existing else None) with
  | Some o => Raise (OwnershipConflict o (a_owner a))
  | None =>
      if create_only then
        if match existing with Some r => drained r | None => false end
        then Done (k_key k, true, version, (_upsert_memory now n t).2)
        else match _insert_if_absent now n t with
             | (None, _) => Raise (VersionConflict (value_at k t) (compute_version (value_at k t)))
             | (Some _, t') => Done (k_key k, true, version, t')
             end
      else if match a_if_match a with
              | Some v => compute_version (value_at k t) != v
              | None => false
              end
      then Raise (VersionConflict (value_at k t) (compute_version (value_at k t)))
      else
        let '(created, t') := _upsert_memory now n t in
        let t'' := if k_scope k == "project" then collapse_twins now (a_owner a) k t' else t' in
        Done (k_key k, created, version, t'')
  end.

(** The row a get serves. *)
Definition get_row (now : Z) (k : pkey) (t : table) : option row :=
  if (k_user k == "*") && (k_scope k == "project")
  then newest (sql_select (λ r, same_logical k r && unexpired now r && live r) t)
  else head (sql_select (λ r, has_pk k r && unexpired now r &&
               (or_empty (status_of r) != "deletion_requested")) t).

Definition memory_get (now : Z) (namespace key scope user_id : string) (project : option string)
    (t : table) : option mem_item * table :=
  let k := _normalize_key_fields namespace key scope user_id project in
  match get_row now k t with
  | None => (None, t)
  | Some r =>
      (Some (MemItem (r_pk r) (r_value r) (r_tags r) (r_tags_search r) (r_created r)
               (compute_version (Some (r_value r)))),
       sql_update (has_pk (PKey (k_ns k) (k_key k) (k_scope k) (r_user r) (k_project k)))
         (set_used now) t)
  end.
End versioned.

(** ** Enumeration *)

(** [prefix.replace("\\", "\\\\").replace("%", "\\%").replace("_", "\\_")] *)
Fixpoint escape_char (c : ascii) (s : string) : string :=
  match s with
  | EmptyString => EmptyString
  | String d s' => if d == c then String "\" (String d (escape_char c s')) else String d (escape_char c s')
  end.

Definition like_escape (prefix : string) : string :=
  escape_char "_" (escape_char "%" (escape_char "\" prefix)).

(** SQL's [s LIKE pat ESCAPE '\']. *)
Fixpoint like (pat : string) (s : string) {struct pat} : bool :=
  match pat with
  | EmptyString => s == ""
  | String c p =>
      if c == "\"%char then
        match p, s with
        | String d p', String e s' => (d == e) && like p' s'
        | _, _ => false
        end
      else if c == "%"%char then
        (fix any (u : string) : bool :=
           like p u || match u with String _ u' => any u' | EmptyString => false end) s
      else match s with
           | String e s' => ((c == "_"%char) || (c == e)) && like p s'
           | EmptyString => false
           end
  end.

(** [ORDER BY key, namespace, user_id] *)
Definition key_order (r : row) : list string := [r_key r; r_ns r; r_user r].

Fixpoint lex_leb (a b : list string) : bool :=
  match a, b with
  | x :: a', y :: b' =>
      match String.compare x y with Lt => true | Eq => lex_leb a' b' | Gt => false end
  | [], _ => true
  | _ :: _, [] => false
  end.

(** [ORDER BY key, namespace, user_id], text compared by its bytes (the [C]
    collation; a database created under another one orders accented letters,
    capitals and punctuation otherwise). *)
Definition order_by_key (l : list row) : list row :=
  sort_by (λ x r, lex_leb (key_order x) (key_order r)) l.

Record key_entry := KeyEntry {
  e_pk : pkey;
  e_tags : string;
  e_created_at : Z;
  e_last_used_at : Z;
  e_value_chars : nat;
  e_status : option string;
  e_owner : option string;
  e_custodian : option string
}.

Definition entry_of (r : row) : key_entry :=
  KeyEntry (r_pk r) (r_tags r) (r_created r) (r_used r) (String.length (r_value r))
    (status_of r) (r_owner r) (r_custodian r).

(** The WHERE clause of the listing. *)
Definition keys_match (now : Z) (namespaces : list string) (prefix scope user_id : string)
    (project : option string) (r : row) : bool :=
  let all_writers := (user_id == "*") && (scope == "project") in
  unexpired now r && (r_ns r isin namespaces) && (r_scope r == scope) && (r_scope r != "inbox") &&
  (all_writers || (r_user r == user_id)) && (r_project r == project) &&
  like (like_escape prefix +:+ "%") (r_key r).

Definition memory_keys (now : Z) (namespaces : list string) (prefix scope user_id : string)
    (project : option string) (limit : nat) (t : table) : list key_entry * nat :=
  let rows := order_by_key (sql_select
    (keys_match now (lower <$> namespaces) prefix (lower scope) (lower user_id) (lower <$> project)) t) in
  (entry_of <$> take limit rows, if length (take limit rows) == 0 then 0 else length rows).

(** ** Destruction *)

(** The controller: the custodian when set, else the owner. *)
Definition controller (r : row) : option string := py_or (r_custodian r) (r_owner r).

Definition memory_forget (namespace key scope user_id : string) (project : option string)
    (actor : option string) (is_admin : bool) (t : table) : outcome mem_error (bool * table) :=
  let k := _normalize_key_fields namespace key scope user_id project in
  let denied :=
    match actor with
    | Some who =>
        if is_admin then None
        else match sql_find k t with
             | Some r => match controller r with
                         | Some c => if c != who then Some c else None
                         | None => None
                         end
             | None => None
             end
    | None => None
    end in
  match denied with
  | Some c => Raise (ForgetDenied c actor)
  | None => Done (sql_count (has_pk k) t == 1, sql_delete (has_pk k) t)
  end.

Definition flag_stamp (now : Z) (actor : option string) (reason : string) (prior : option string) : jobj :=
  let base := list_to_map [("status", JStr "deletion_requested"); ("deletion_flagged_at", JTime now);
                ("deletion_flagged_by_principal", jopt actor); ("deletion_reason", JStr (strip reason))] in
  if truthy prior then <["deletion_prior_status" := jopt prior]> base else base.

Definition memory_flag_deletion (now : Z) (namespace key : string) (scope : option string)
    (user_id : string) (project : option string) (actor : option string) (reason : option string)
    (t : table) : outcome mem_error (option row * table) :=
  let sc := lower (or_empty scope) in
  if negb (sc isin DATA_SCOPES) then Raise (BadRequest "flag_deletion reaches data scopes only")
  else if negb (nonempty (strip (or_empty reason))) then Raise (BadRequest "flag_deletion requires a reason")
  else
    let k := _normalize_key_fields namespace key sc user_id project in
    let prior := sql_find k t ≫= status_of in
    let stamp := flag_stamp now actor (or_empty reason) prior in
    let p := λ r, has_pk k r && (or_empty (status_of r) != "deletion_requested") in
    let f := λ r, set_meta (md_merge (r_meta r) stamp) r in
    Done (f <$> head (sql_select p t), sql_update p f t).

(** [ORDER BY metadata->>'deletion_flagged_at' NULLS LAST]: instants in order. *)
Definition flagged_at (r : row) : option Z := md_time (r_meta r) "deletion_flagged_at".

Definition flag_before (r r' : row) : bool :=
  match flagged_at r, flagged_at r' with
  | Some a, Some b => (a <=? b)%Z
  | Some _, None => true
  | None, Some _ => false
  | None, None => true
  end.

Fixpoint insert_flag (r : row) (l : list row) : list row :=
  match l with
  | [] => [r]
  | x :: l' => if flag_before x r then x :: insert_flag r l' else r :: l
  end.

Definition deletion_queue_list (limit : nat) (t : table) : list row :=
  take limit (foldl (λ acc r, insert_flag r acc) []
    (sql_select (λ r, status_of r == Some "deletion_requested") t)).

(** The metadata a rejection writes back. *)
Definition reject_meta (now : Z) (actor : option string) (reason : string) (m : jobj) : jobj :=
  let md := delete "deletion_prior_status" m in
  let md := match m !! "deletion_prior_status" with
            | Some prior =>
                if py_flag (Some m) "deletion_prior_status" then <["status" := prior]> md
                else delete "status" md
            | None => delete "status" md
            end in
  <["deletion_rejected_reason" := JStr (strip reason)]>
    (<["deletion_rejected_by_principal" := jopt actor]>
       (<["deletion_rejected_at" := JTime now]> md)).

Definition deletion_queue_reject (now : Z) (namespace key scope user_id : string)
    (project : option string) (actor reason : option string) (t : table)
    : outcome mem_error (option pkey * table) :=
  let k := _normalize_key_fields namespace key scope user_id project in
  if negb (nonempty (strip (or_empty reason)))
  then Raise (BadRequest "rejecting a deletion request requires a reason")
  else match head (sql_select (λ r, has_pk k r && (status_of r == Some "deletion_requested")) t) with
       | None => Done (None, t)
       | Some r =>
           match r_meta r with
           | None => Done (None, t)
           | Some m =>
               Done (Some k, sql_update (has_pk k)
                       (set_meta (Some (reject_meta now actor (or_empty reason) m))) t)
           end
       end.

(** ** Estate transfer *)

Definition estate_row (from_p : string) (namespace project : option string) (r : row) : bool :=
  ((r_custodian r == Some from_p) || ((r_custodian r == None) && (r_owner r == Some from_p))) &&
  (r_scope r isin DATA_SCOPES) &&
  match namespace with Some ns => r_ns r == ns | None => true end &&
  match project with Some p => r_project r == Some p | None => true end.

Definition estate_transfer (from_principal to_principal namespace project : option string)
    (dry_run : bool) (t : table) : outcome mem_error (nat * table) :=
  let from_p := norm from_principal in
  let to_p := norm to_principal in
  if negb (nonempty from_p) || negb (nonempty to_p)
  then Raise (BadRequest "estate_transfer requires from_principal and to_principal")
  else if from_p == to_p then Raise (BadRequest "the same principal")
  else
    let p := estate_row from_p namespace project in
    Done (sql_count p t, if dry_run then t else sql_update p (set_custodian (Some to_p)) t).

(** ** Other writers, supersede *)

Definition partition_siblings (now : Z) (namespaces : list string) (key : string)
    (project exclude_user_id : option string) (t : table) : list string :=
  let exclude := lower (or_empty exclude_user_id) in
  sorted ((λ r, r_user r) <$> sql_select (λ r,
    (r_ns r isin (lower <$> namespaces)) && (r_key r == lower key) && (r_scope r == "project") &&
    (r_project r == (lower <$> project)) && (negb (nonempty exclude) || (r_user r != exclude)) &&
    unexpired now r) t).

Definition supersede_meta (now : Z) (actor : option string) (reason : string)
    (replacement_key : option string) : jobj :=
  let base := list_to_map [("status", JStr "superseded"); ("superseded_at", JTime now);
                ("superseded_by_principal", jopt actor); ("superseded_reason", JStr (strip reason))] in
  if truthy replacement_key
  then <["superseded_by_key" := JStr (strip (or_empty replacement_key))]> base else base.

(** The rows the verb reaches: one writer's row of the key, in any of the namespaces. *)
Definition supersede_target (namespaces : list string) (key scope target : string)
    (project : option string) (r : row) : bool :=
  (r_ns r isin (lower <$> namespaces)) && (r_key r == lower key) && (r_scope r == scope) &&
  (r_user r == lower target) && (r_project r == project).

Definition memory_supersede (now : Z) (namespaces : list string) (key : string) (project : option string)
    (target_user_id : string) (actor reason replacement_key scope : option string) (t : table)
    : outcome mem_error (option row * table) :=
  let sc := lower (or_empty (py_or scope (Some "project"))) in
  if negb (sc isin ["project"; "shared"]) then Raise (BadRequest "supersede scope")
  else
    let project := if sc == "shared" then None else lower <$> project in
    if negb (nonempty (strip (or_empty reason))) then Raise (BadRequest "supersede requires a reason")
    else
      let stamp := supersede_meta now actor (or_empty reason) replacement_key in
      let p := λ r, supersede_target namespaces key sc target_user_id project r &&
                    (or_empty (status_of r) != "superseded") in
      let f := λ r, set_meta (md_merge (r_meta r) stamp) r in
      Done (f <$> head (sql_select p t), sql_update p f t).

Record stamp_info := StampInfo {
  si_at : option json;
  si_by : option json;
  si_reason : option json;
  si_key : option json
}.

Definition supersede_stamp (namespaces : list string) (key : string) (project : option string)
    (target_user_id : string) (scope : option string) (t : table) : option stamp_info :=
  let sc := lower (or_empty (py_or scope (Some "project"))) in
  let project := if sc == "shared" then None else lower <$> project in
  r ← head (sql_select (λ r, supersede_target namespaces key sc target_user_id project r &&
                             (status_of r == Some "superseded")) t);
  Some (StampInfo (md_get (r_meta r) "superseded_at") (md_get (r_meta r) "superseded_by_principal")
          (md_get (r_meta r) "superseded_reason") (md_get (r_meta r) "superseded_by_key")).
