(* ===== verification/MemoryProps.v ===== *)
(** What the memory verbs guarantee: the ownership and version gates of a
    write, what a write stores and what a read then serves, one live row per
    project key, who may destroy a row, the deletion queue, estate transfer,
    supersede, and complete enumeration. *)

From stdpp Require Import base gmap list strings pretty sorting.
From Stdlib Require Import ZArith Lia Ascii.
From S2P Require Import Prelude PyString Json Store Memory.

(** ** Shared lemmas *)

Section upsert.
Implicit Types (t : table) (n : new_row).

Lemma upsert_spec now n t created t' :
  wf t → _upsert_memory now n t = (created, t') →
  wf t' ∧ (∀ k, k ≠ n_pk n → sql_find k t' = sql_find k t) ∧
  (created = true ↔ sql_find (n_pk n) t = None) ∧
  ∃ r, sql_find (n_pk n) t' = Some r ∧ r_value r = n_value n ∧ r_meta r = n_meta n ∧
       r_owner r = n_owner n ∧ r_expires r = n_expires n ∧ r_used r = now.
Proof.
  intros Hwf. unfold _upsert_memory. intros H.
  assert (t' = (sql_upsert now n (set_content now n) t).2) as Ht' by (by rewrite H).
  assert (wf t') as Hwf' by (subst t'; by apply wf_upsert; [apply _|]).
  split; [done|]. split.
  { intros k Hk. rewrite Ht'. by apply sql_find_upsert_ne; [apply _|..]. }
  unfold sql_upsert in H. destruct (sql_find (n_pk n) t) as [r0|] eqn:E; injection H as <- <-.
  - split; [done|]. rewrite sql_find_update by done. rewrite E. simpl.
    apply sql_find_Some_elem in E as [_ Hk]. unfold has_pk. rewrite bool_decide_eq_true_2 by done.
    eexists. split; [done|]. done.
  - split; [done|]. rewrite sql_find_append_eq by done. eexists. split; [done|]. done.
Qed.

Lemma insert_absent_spec now n t i t' :
  wf t → _insert_if_absent now n t = (Some i, t') →
  wf t' ∧ (∀ k, k ≠ n_pk n → sql_find k t' = sql_find k t) ∧ sql_find (n_pk n) t = None ∧
  ∃ r, sql_find (n_pk n) t' = Some r ∧ r_value r = n_value n ∧ r_meta r = n_meta n ∧
       r_owner r = n_owner n ∧ r_expires r = n_expires n ∧ r_used r = now.
Proof.
  intros Hwf. unfold _insert_if_absent, sql_insert_nothing.
  destruct (sql_find (n_pk n) t) as [r0|] eqn:E; [done|]. intros [= <- <-].
  split; [by apply wf_append|]. split; [intros k Hk; by apply sql_find_append_ne|].
  split; [done|]. rewrite sql_find_append_eq by done. eexists. split; [done|]. done.
Qed.

Lemma insert_absent_None now n t t' :
  _insert_if_absent now n t = (None, t') → is_Some (sql_find (n_pk n) t).
Proof. unfold _insert_if_absent, sql_insert_nothing. destruct (sql_find _ _); [eauto|done]. Qed.
End upsert.

Lemma drained_live r : live r = negb (drained r).
Proof.
  unfold live, drained. destruct (status_of r) as [s|]; [done|]. by vm_compute.
Qed.

Lemma collapse_wf now o k t : wf t → wf (collapse_twins now o k t).
Proof. intros H. by apply wf_update; [apply _|]. Qed.

Lemma collapse_find now o k t k' :
  wf t → sql_find k' (collapse_twins now o k t) =
    (λ r, if same_logical k r && (r_user r != k_user k) && live r
          then set_meta (md_merge (r_meta r) (collapse_stamp now o k)) r else r) <$> sql_find k' t.
Proof. intros H. unfold collapse_twins. by rewrite sql_find_update by first [done|apply _]. Qed.

Lemma collapse_same now o k t : wf t → sql_find k (collapse_twins now o k t) = sql_find k t.
Proof.
  intros H. rewrite collapse_find by done. destruct (sql_find k t) as [r|] eqn:E; [|done].
  apply sql_find_Some_elem in E as [_ Hk]. simpl. rewrite Hk.
  rewrite (bool_decide_eq_true_2 (k_user k = k_user k)) by done. simpl. by rewrite andb_false_r.
Qed.

Lemma collapse_stamp_status now o k : collapse_stamp now o k !! "status" = Some (JStr "superseded").
Proof. by vm_compute. Qed.

Lemma collapsed_not_live now o k m r :
  live (set_meta (md_merge m (collapse_stamp now o k)) r) = false.
Proof.
  unfold live, status_of. cbn [set_meta r_meta]. by rewrite md_text_merge, collapse_stamp_status.
Qed.

Definition key_of (a : set_args) : pkey :=
  _normalize_key_fields (a_namespace a) (a_key a) (a_scope a) (a_user_id a) (a_project a).

Definition enforces (a : set_args) : bool := (k_scope (key_of a) == "project") && negb (a_is_admin a).

Section write.
Context (sha256 : string → string) (now : Z) (a : set_args) (t : table).
Let k := key_of a.
Let n := new_of now a k.

(** Every way a write succeeds: the gate passed, the version matched, and
    the row under the key now holds what was written. *)
Lemma memory_set_Done key created version t' :
  wf t → memory_set sha256 now a t = Done (key, created, version, t') →
  (enforces a = true → owned_by_other (a_owner a) (sql_find k t) = None) ∧
  (a_if_match a = Some "" → match sql_find k t with Some r => drained r = true | None => True end) ∧
  (∀ v, a_if_match a = Some v → v ≠ "" → compute_version sha256 (value_at k t) = v) ∧
  key = k_key k ∧ version = compute_version sha256 (Some (a_value a)) ∧
  (created = true ↔ sql_find k t = None ∨ a_if_match a = Some "") ∧
  ∃ t1, wf t1 ∧ (∀ k', k' ≠ k → sql_find k' t1 = sql_find k' t) ∧
    (∃ r, sql_find k t1 = Some r ∧ r_value r = a_value a ∧ r_meta r = n_meta n ∧
       r_owner r = a_owner a ∧ r_expires r = n_expires n ∧ r_used r = now) ∧
    t' = if (k_scope k == "project") && (a_if_match a != Some "")
         then collapse_twins now (a_owner a) k t1 else t1.
Proof.
  intros Hwf. unfold memory_set. fold (key_of a). fold k. fold n. cbv zeta.
  change ((k_scope k == "project") && negb (a_is_admin a)) with (enforces a). assert (n_pk n = k) as Hnk by done.
  destruct (decide (a_if_match a = Some "")) as [Hif|Hif].
  - rewrite (bool_decide_eq_true_2 (a_if_match a = Some "")) by done. rewrite orb_true_r.
    destruct (if enforces a then _ else _) as [o|] eqn:Eo; [done|].
    assert (enforces a = true → owned_by_other (a_owner a) (sql_find k t) = None) as Hgate
      by (intros He; by rewrite He in Eo).
    destruct (match sql_find k t with Some r => drained r | None => false end) eqn:Ed.
    + intros [= <- <- <- <-]. destruct (_upsert_memory now n t) as [c t1] eqn:Eu.
      destruct (upsert_spec now n t c t1 Hwf Eu) as (H1 & H2 & H3 & H4). rewrite Hnk in *.
      split_and!; [done| |congruence|done|done|tauto|].
      * intros _. by destruct (sql_find k t).
      * exists t1. split_and!; [done..|]. by rewrite andb_false_r.
    + destruct (_insert_if_absent now n t) as [[i|] t1] eqn:Ei; [|done]. intros [= <- <- <- <-].
      destruct (insert_absent_spec now n t i t1 Hwf Ei) as (H1 & H2 & H3 & H4). rewrite Hnk in *.
      split_and!; [done| |congruence|done|done|tauto|].
      * intros _. by rewrite H3.
      * exists t1. split_and!; [done..|]. by rewrite andb_false_r.
  - rewrite (bool_decide_eq_false_2 (a_if_match a = Some "")) by done. rewrite orb_false_r.
    destruct (if enforces a then owned_by_other (a_owner a) (if enforces a then sql_find k t else None) else None)
      as [o|] eqn:Eo; [done|].
    assert (enforces a = true → owned_by_other (a_owner a) (sql_find k t) = None) as Hgate
      by (intros He; by rewrite He in Eo).
    destruct (match a_if_match a with Some v => _ | None => _ end) eqn:Em; [done|].
    destruct (_upsert_memory now n t) as [c t1] eqn:Eu. intros [= <- <- <- <-].
    destruct (upsert_spec now n t c t1 Hwf Eu) as (H1 & H2 & H3 & H4). rewrite Hnk in *.
    split_and!; [done|done| |done|done|tauto|].
    + intros v Hv _. rewrite Hv in Em. by bprop.
    + exists t1. split_and!; [done..|]. by rewrite andb_true_r.
Qed.

(** Every way a write is refused. *)
Lemma memory_set_Raise e :
  memory_set sha256 now a t = Raise e →
  (∃ r o, e = OwnershipConflict o (a_owner a) ∧ enforces a = true ∧ sql_find k t = Some r ∧
     r_owner r = Some o ∧ a_owner a ≠ Some o ∧ drained r = false) ∨
  (e = VersionConflict (value_at k t) (compute_version sha256 (value_at k t)) ∧
   ((a_if_match a = Some "" ∧ is_Some (sql_find k t)) ∨
    (∃ v, a_if_match a = Some v ∧ v ≠ "" ∧ compute_version sha256 (value_at k t) ≠ v))).
Proof.
  unfold memory_set. fold (key_of a). fold k. fold n. cbv zeta.
  change ((k_scope k == "project") && negb (a_is_admin a)) with (enforces a).
  destruct (if enforces a then _ else _) as [o|] eqn:Eo.
  - intros [= <-]. left. destruct (enforces a) eqn:He; [|done]. simpl in Eo.
    unfold owned_by_other in Eo. destruct (sql_find k t) as [r|]; [|done].
    destruct (r_owner r) as [o'|] eqn:Ho; [|done].
    destruct ((Some o' != a_owner a) && negb (drained r)) eqn:Ed; [|done]. injection Eo as <-.
    bprop. destruct Ed as [H1 H2]. exists r, o'. split_and!; done.
  - intros E. right. revert E. clear Eo. destruct (decide (a_if_match a = Some "")) as [Hif|Hif].
    + rewrite (bool_decide_eq_true_2 (a_if_match a = Some "")) by done. rewrite orb_true_r.
      destruct (match sql_find k t with Some r => drained r | None => false end); [done|].
      destruct (_insert_if_absent now n t) as [[i|] t1] eqn:Ei; [done|]. intros [= <-].
      split; [done|]. left. split; [done|]. by apply insert_absent_None in Ei.
    + rewrite (bool_decide_eq_false_2 (a_if_match a = Some "")) by done.
      destruct (match a_if_match a with Some v => _ | None => _ end) eqn:Em.
      * intros [= <-]. split; [done|]. right. destruct (a_if_match a) as [v|]; [|done].
        exists v. bprop. split_and!; [done|congruence|done].
      * by destruct (_upsert_memory now n t).
Qed.
End write.

(** C1. The write gates are exact. A write is refused for ownership just when it
    targets a project row that another principal owns and that is not
    drained, and the writer is not an admin; it is refused for its version just
    when the caller asked for a fresh key that is taken by a live row, or for
    a version other than that of the stored value, and the refusal carries
    that value. Otherwise it succeeds. *)
Theorem memory_set_gates sha256 now a t :
  wf t →
  let k := key_of a in
  let owner_refuses := ∃ r o, sql_find k t = Some r ∧ r_owner r = Some o ∧ a_owner a ≠ Some o ∧
                         drained r = false ∧ k_scope k = "project" ∧ a_is_admin a = false in
  let version_refuses :=
    (a_if_match a = Some "" ∧ ∃ r, sql_find k t = Some r ∧ drained r = false) ∨
    (∃ v, a_if_match a = Some v ∧ v ≠ "" ∧ compute_version sha256 (value_at k t) ≠ v) in
  match memory_set sha256 now a t with
  | Raise (OwnershipConflict _ _) => owner_refuses
  | Raise e => ¬ owner_refuses ∧ version_refuses ∧
      e = VersionConflict (value_at k t) (compute_version sha256 (value_at k t))
  | Done (_, _, _, t') => ¬ owner_refuses ∧ ¬ version_refuses ∧ wf t'
  end.
Proof.
  intros Hwf k own ver.
  assert (own ↔ ∃ o, enforces a = true ∧ owned_by_other (a_owner a) (sql_find k t) = Some o) as Hown.
  { unfold own, enforces. fold k. split.
    - intros (r & o & Hr & Ho & Hne & Hd & Hs & Had). exists o. rewrite Hs, Had.
      split; [done|]. unfold owned_by_other. rewrite Hr, Ho, Hd.
      by rewrite bool_decide_eq_false_2 by congruence.
    - intros (o & He & H). bprop. destruct He as [Hs Ha]. unfold owned_by_other in H.
      destruct (sql_find k t) as [r|]; [|done]. destruct (r_owner r) as [o'|] eqn:Eo; [|done].
      destruct ((Some o' != a_owner a) && negb (drained r)) eqn:Ed; [|done]. bprop.
      destruct Ed. exists r, o'. split_and!; congruence. }
  destruct (memory_set sha256 now a t) as [[[[key c] v] t']|e] eqn:E.
  - destruct (memory_set_Done sha256 now a t key c v t' Hwf E)
      as (Hg & Hc & Hv & _ & _ & _ & t1 & Hw & _ & _ & ->). fold k in Hg, Hc, Hv.
    split_and!.
    + rewrite Hown. intros (o & He & H). by rewrite Hg in H.
    + intros [[H1 (r & Hr & Hd)]|(w & H1 & H2 & H3)].
      * specialize (Hc H1). rewrite Hr in Hc. congruence.
      * by apply H3, Hv.
    + destruct (_ && _); [by apply collapse_wf|done].
  - pose proof E as Hr. apply memory_set_Raise in Hr as [(r & o & -> & He & Hr & Ho & Hne & Hd)|[-> Hv]].
    + fold k in Hr. unfold own. exists r, o. unfold enforces in He. bprop. split_and!; try done; apply He.
    + assert (¬ own) as Hno.
      { rewrite Hown. intros (o & He & Ho). revert E. unfold memory_set. fold (key_of a). fold k. cbv zeta.
        change ((k_scope k == "project") && negb (a_is_admin a)) with (enforces a).
        rewrite He. simpl. rewrite Ho. done. }
      split; [done|]. split; [|done]. fold k in Hv. destruct Hv as [[H1 [r Hr]]|H]; [left|by right].
      split; [done|]. exists r. split; [done|]. apply not_true_is_false. intros Hd.
      revert E. unfold memory_set. fold (key_of a). fold k. cbv zeta.
      rewrite H1. rewrite (bool_decide_eq_true_2 (Some "" = Some "")) by done. rewrite orb_true_r, Hr, Hd.
      by destruct (_ && _); [destruct (owned_by_other (a_owner a) (Some r))|].
Qed.

(** Read your write: after a successful write that has not expired and is
    not itself flagged for deletion, an exact read of the key serves the value
    and the version the write returned, in any letter case of the key; no
    other row of the table changes but for the lifecycle stamp on the
    project key's other live rows, and each keeps its value, owner and
    clocks. *)
Lemma set_then_get sha256 now a t key created version t' now' ns2 key2 scope2 user2 project2 :
  wf t → memory_set sha256 now a t = Done (key, created, version, t') →
  _normalize_key_fields ns2 key2 scope2 user2 project2 = key_of a →
  (k_user (key_of a) ≠ "*" ∨ k_scope (key_of a) ≠ "project") →
  (a_expiration_days a ≤ 0 ∨ now' < now + 86400 * a_expiration_days a)%Z →
  md_text (a_metadata a) "status" ≠ Some "deletion_requested" →
  (∃ item, (memory_get sha256 now' ns2 key2 scope2 user2 project2 t').1 = Some item ∧
     i_pk item = key_of a ∧ i_value item = a_value a ∧ i_version item = version) ∧
  (∀ k' r, k' ≠ key_of a → sql_find k' t = Some r → ∃ r', sql_find k' t' = Some r' ∧
     r_id r' = r_id r ∧ r_value r' = r_value r ∧ r_owner r' = r_owner r ∧ r_used r' = r_used r ∧
     r_created r' = r_created r ∧ r_custodian r' = r_custodian r ∧
     (r' = r ∨ k_scope k' = "project" ∧ live r = true ∧ live r' = false)).
Proof.
  intros Hwf H Hk Hstar Hexp Hst.
  destruct (memory_set_Done sha256 now a t key created version t' Hwf H)
    as (_ & _ & _ & _ & -> & _ & t1 & Hw1 & Hoth & (r & Hr & Hval & Hmeta & _ & Hexpr & _) & ->).
  set (k := key_of a) in *.
  set (t2 := if (k_scope k == "project") && (a_if_match a != Some "")
             then collapse_twins now (a_owner a) k t1 else t1).
  assert (wf t2) as Hw2 by (unfold t2; destruct (_ && _); [by apply collapse_wf|done]).
  assert (sql_find k t2 = Some r) as Hr2.
  { unfold t2. destruct (_ && _); [|done]. by rewrite collapse_same. }
  split.
  - unfold memory_get, get_row. rewrite Hk. fold k.
    replace ((k_user k == "*") && (k_scope k == "project")) with false
      by (symmetry; apply andb_false_iff; rewrite !bool_decide_eq_false; done).
    assert (unexpired now' r = true) as Hun.
    { unfold unexpired. rewrite Hexpr. unfold new_of. cbn [n_expires].
      destruct (0 <? a_expiration_days a)%Z eqn:Ed; [|done]. apply Z.ltb_lt in Ed.
      apply Z.ltb_lt. lia. }
    assert ((or_empty (status_of r) != "deletion_requested") = true) as Hdel.
    { apply negb_true_iff, bool_decide_eq_false. unfold status_of. rewrite Hmeta. unfold new_of.
      cbn [n_meta]. destruct (a_metadata a) as [m|]; [|by vm_compute].
      destruct (size m == 0); [by vm_compute|].
      destruct (md_text (Some m) "status") as [s|]; [|by vm_compute]. simpl. congruence. }
    assert (head (sql_select (λ x, has_pk k x && unexpired now' x &&
      (or_empty (status_of x) != "deletion_requested")) t2) = Some r) as ->.
    { pose proof Hr2 as [Hin Hpk]%sql_find_Some_elem.
      destruct (head _) as [r'|] eqn:Eh.
      - apply head_Some_elem_of, elem_of_sql_select in Eh as [Hp Hin'].
        apply andb_true_iff in Hp as [Hp _]. apply andb_true_iff in Hp as [Hp _].
        apply has_pk_true in Hp. f_equal. eapply wf_row_eq; eauto. congruence.
      - apply head_None, select_nil with (x := r) in Eh; [|done].
        rewrite (proj2 (has_pk_true k r)), Hun, Hdel in Eh by done. done. }
    eexists. split; [done|]. cbn [fst i_pk i_value i_version].
    apply sql_find_Some_elem in Hr2 as [_ Hpk]. rewrite Hval. done.
  - intros k' r0 Hne Hr0. rewrite <- Hoth in Hr0 by done.
    unfold t2. destruct ((k_scope k == "project") && _) eqn:Ep.
    + rewrite collapse_find, Hr0 by done. cbn [fmap option_fmap option_map].
      destruct (same_logical k r0 && (r_user r0 != k_user k) && live r0) eqn:Ec.
      * eexists. split; [done|]. split_and!; try done. right.
        unfold same_logical in Ec. bprop. apply sql_find_Some_elem in Hr0 as [_ <-].
        destruct Ep as [Ep _]. destruct Ec as [[[[[H1 H2] H3] H4] H5] H6].
        split_and!; [congruence|done|apply collapsed_not_live].
      * eexists. split; [done|]. split_and!; first [done|by left].
    + exists r0. split; [done|]. split_and!; first [done|by left].
Qed.

(** What an ordinary write of a project key leaves: its row, live, and no
    other live row of the key. *)
Lemma collapsed_write sha256 now a t key created version t' :
  wf t → memory_set sha256 now a t = Done (key, created, version, t') →
  let k := key_of a in
  k_scope k = "project" → a_if_match a ≠ Some "" →
  (∀ s, md_text (a_metadata a) "status" = Some s → s ∉ HIDDEN_STATUSES) →
  wf t' ∧ ∃ r, sql_find k t' = Some r ∧ r_value r = a_value a ∧ live r = true ∧ r_expires r = n_expires (new_of now a k) ∧
    ∀ r', r' ∈ t_rows t' → same_logical k r' = true → live r' = true → r' = r.
Proof.
  intros Hwf H k Hs Hif Hst.
  destruct (memory_set_Done sha256 now a t key created version t' Hwf H)
    as (_ & _ & _ & _ & _ & _ & t1 & Hw1 & _ & (r & Hr & Hval & Hmeta & _ & Hexpr & _) & ->).
  fold k in Hr, Hmeta, Hexpr |- *. rewrite Hs. rewrite (bool_decide_eq_true_2 ("project" = "project")) by done.
  rewrite (bool_decide_eq_false_2 (a_if_match a = Some "")) by done. cbn [andb negb].
  set (t2 := collapse_twins now (a_owner a) k t1). split; [by apply collapse_wf|]. exists r. split_and!; [|done| |done|].
  - unfold t2. by rewrite collapse_same.
  - unfold live. apply negb_true_iff, bool_decide_eq_false. unfold status_of. rewrite Hmeta.
    unfold new_of. cbn [n_meta]. assert ("" ∉ HIDDEN_STATUSES) as H0 by (vm_compute; set_solver).
    destruct (a_metadata a) as [m|]; [|done]. destruct (size m == 0); [done|].
    destruct (md_text (Some m) "status") as [s|]; [|done]. by apply Hst.
  - intros y Hy Hsame Hl. unfold t2, collapse_twins in Hy. cbn [sql_update t_rows] in Hy.
    apply elem_of_update_where in Hy as (x & Hx & ->).
    destruct (same_logical k x && (r_user x != k_user k) && live x) eqn:Ec.
    { by rewrite collapsed_not_live in Hl. }
    rewrite Hsame, Hl, andb_true_r in Ec. bprop. apply negb_false_iff, bool_decide_eq_true in Ec || idtac.
    apply sql_find_Some_elem in Hr as [Hrin Hrpk].
    eapply wf_row_eq; [exact Hw1|done..|]. rewrite Hrpk. unfold same_logical in Hsame. bprop.
    destruct Hsame as [[[H1 H2] H3] H4].
    destruct (r_pk x), k; simpl in *. f_equal; try done. by destruct Ec.
Qed.

(** The only live row of a project key is what a read over all writers serves. *)
Lemma sole_row_read now k t r :
  wf t → k_scope k = "project" → sql_find k t = Some r → live r = true → unexpired now r = true →
  (∀ r', r' ∈ t_rows t → same_logical k r' = true → live r' = true → r' = r) →
  get_row now (PKey (k_ns k) (k_key k) "project" "*" (k_project k)) t = Some r.
Proof.
  intros Hwf Hs Hr Hlive Hexp Huniq.
  unfold get_row. cbn [k_user k_scope]. rewrite !(bool_decide_eq_true_2 (_ = _)) by done. cbn [andb].
  set (q := λ x, same_logical (PKey (k_ns k) (k_key k) "project" "*" (k_project k)) x && unexpired now x && live x).
  assert (∀ r', r' ∈ sql_select q t ↔ r' = r) as Hsel.
  { assert (∀ x, same_logical (PKey (k_ns k) (k_key k) "project" "*" (k_project k)) x = same_logical k x) as Hsl.
    { intros x. unfold same_logical. cbn [k_ns k_key k_scope k_project]. by rewrite Hs. }
    intros r'. unfold q. rewrite elem_of_sql_select, Hsl. split.
    - intros [Hp Hin]. apply andb_true_iff in Hp as [Hp Hl]. apply andb_true_iff in Hp as [Hp _]. by apply Huniq.
    - intros ->. apply sql_find_Some_elem in Hr as [Hin Hpk]. split; [|done]. rewrite Hlive, Hexp.
      unfold same_logical. rewrite Hpk. by rewrite !(bool_decide_eq_true_2 (_ = _)) by done. }
  assert (NoDup (sql_select q t)) as Hnd.
  { apply (NoDup_fmap_1 r_id). destruct Hwf as (_ & Hid & _). by apply NoDup_fmap_select. }
  destruct (sql_select q t) as [|x [|y l]].
  - exfalso. by apply (elem_of_nil r), Hsel.
  - assert (x = r) as -> by (apply Hsel; by left). done.
  - exfalso. assert (x = r) as -> by (apply Hsel; by left).
    assert (y = r) as -> by (apply Hsel; right; by left).
    apply NoDup_cons in Hnd as [Hx _]. apply Hx. by left.
Qed.

(** A row written to expire is unexpired until then. *)
Lemma written_unexpired now now' a k r : r_expires r = n_expires (new_of now a k) →
  (a_expiration_days a ≤ 0 ∨ now' < now + 86400 * a_expiration_days a)%Z → unexpired now' r = true.
Proof.
  intros Hr H. unfold unexpired. rewrite Hr. unfold new_of. cbn [n_expires].
  destruct (0 <? a_expiration_days a)%Z eqn:Ed; [|done]. apply Z.ltb_lt in Ed. apply Z.ltb_lt. lia.
Qed.

(** C15. One live row per project key: after an ordinary write of a project key
    whose own metadata is not drained, the row written is the only live row
    of that key over all writers, so a read over all writers serves exactly
    it; every other writer's row is kept, value and owner untouched. *)
Theorem project_write_collapses sha256 now a t key created version t' now' :
  wf t → memory_set sha256 now a t = Done (key, created, version, t') →
  let k := key_of a in
  k_scope k = "project" → a_if_match a ≠ Some "" →
  (a_expiration_days a ≤ 0 ∨ now' < now + 86400 * a_expiration_days a)%Z →
  (∀ s, md_text (a_metadata a) "status" = Some s → s ∉ HIDDEN_STATUSES) →
  ∃ r, sql_find k t' = Some r ∧ r_value r = a_value a ∧ live r = true ∧
    (∀ r', r' ∈ t_rows t' → same_logical k r' = true → live r' = true → r' = r) ∧
    get_row now' (PKey (k_ns k) (k_key k) "project" "*" (k_project k)) t' = Some r.
Proof.
  intros Hwf H k Hs Hif Hexp Hst.
  destruct (collapsed_write sha256 now a t key created version t' Hwf H Hs Hif Hst) as (Hw & r & Hr & Hv & Hl & He & Hu).
  exists r. split_and!; [done..|]. apply sole_row_read; try done. by eapply written_unexpired.
Qed.

(** ** Destruction *)

(** The outcomes of a forget, by the row's controller. *)
Lemma forget_outcome ns key scope user project who is_admin t :
  wf t →
  let k := _normalize_key_fields ns key scope user project in
  match memory_forget ns key scope user project (Some who) is_admin t with
  | Raise e => is_admin = false ∧ ∃ r c, sql_find k t = Some r ∧ controller r = Some c ∧ c ≠ who ∧
                 e = ForgetDenied c (Some who)
  | Done (found, t') =>
      (is_admin = true ∨ ∀ r c, sql_find k t = Some r → controller r = Some c → c = who) ∧
      found = bool_decide (is_Some (sql_find k t)) ∧ wf t' ∧ sql_find k t' = None ∧
      ∀ k', k' ≠ k → sql_find k' t' = sql_find k' t
  end.
Proof.
  intros Hwf k.
  assert (∀ b : bool, (b = true ↔ is_Some (sql_find k t)) → b = bool_decide (is_Some (sql_find k t))) as Hb.
  { intros [] Hb; symmetry; [apply bool_decide_eq_true_2|apply bool_decide_eq_false_2]; by rewrite <- Hb. }
  assert (sql_count (has_pk k) t = 1 ↔ is_Some (sql_find k t)) as Hcount.
  { unfold sql_count, sql_find. destruct Hwf as (Hpk & _).
    assert (∀ x, x ∈ sql_select (has_pk k) t → r_pk x = k) as Hall.
    { intros x [Hx _]%elem_of_sql_select. by apply has_pk_true. }
    assert (NoDup (r_pk <$> sql_select (has_pk k) t)) as Hnd by (by apply NoDup_fmap_select).
    destruct (sql_select (has_pk k) t) as [|x [|y l]]; simpl in *.
    - split; [done|by intros []].
    - split; [eauto|done].
    - exfalso. apply NoDup_cons in Hnd as [Hx _]. apply Hx. simpl.
      rewrite (Hall x), (Hall y) by (by repeat constructor). by left. }
  assert (wf (sql_delete (has_pk k) t) ∧ sql_find k (sql_delete (has_pk k) t) = None ∧
    ∀ k', k' ≠ k → sql_find k' (sql_delete (has_pk k) t) = sql_find k' t) as Hdel.
  { split; [by apply wf_delete|]. split.
    - rewrite sql_find_delete by done. destruct (sql_find k t) as [r|] eqn:E; [|done].
      apply sql_find_Some_elem in E as [_ E]. by rewrite (proj2 (has_pk_true k r)).
    - intros k' Hne. rewrite sql_find_delete by done. destruct (sql_find k' t) as [r|] eqn:E; [|done].
      apply sql_find_Some_elem in E as [_ E]. unfold has_pk. by rewrite bool_decide_eq_false_2 by congruence. }
  assert ((sql_count (has_pk k) t == 1) = bool_decide (is_Some (sql_find k t))) as Hfound
    by (apply Hb; by rewrite bool_decide_eq_true).
  unfold memory_forget. fold k. destruct is_admin.
  { split; [by left|]. by split. }
  destruct (sql_find k t) as [r|] eqn:E.
  - destruct (controller r) as [c|] eqn:Ec.
    + destruct (decide (c = who)) as [Hc|Hc];
        [rewrite (bool_decide_eq_true_2 (c = who)) by done|rewrite (bool_decide_eq_false_2 (c = who)) by done].
      * split; [right; congruence|]. by split.
      * split; [done|]. by exists r, c.
    + split; [right; congruence|]. by split.
  - split; [right; congruence|]. by split.
Qed.

(** Destruction is the controller's: an identified caller that is not an
    admin is refused exactly when the row has a controller (its custodian
    when set, else its owner) other than the caller; when not refused, the
    row is gone, whether it was there is reported, and no other row is
    touched. *)
Lemma forget_gate ns key scope user project who is_admin t :
  wf t →
  let k := _normalize_key_fields ns key scope user project in
  match memory_forget ns key scope user project (Some who) is_admin t with
  | Raise e => is_admin = false ∧ ∃ r c, sql_find k t = Some r ∧ py_or (r_custodian r) (r_owner r) = Some c ∧ c ≠ who ∧
                 e = ForgetDenied c (Some who)
  | Done (found, t') =>
      (is_admin = true ∨ ∀ r c, sql_find k t = Some r → py_or (r_custodian r) (r_owner r) = Some c → c = who) ∧
      found = bool_decide (is_Some (sql_find k t)) ∧ wf t' ∧ sql_find k t' = None ∧
      ∀ k', k' ≠ k → sql_find k' t' = sql_find k' t
  end.
Proof. apply forget_outcome. Qed.

(** ** The deletion queue *)

Lemma flag_stamp_lookup now actor reason prior :
  flag_stamp now actor reason prior !! "status" = Some (JStr "deletion_requested") ∧
  flag_stamp now actor reason prior !! "deletion_prior_status" =
    (if truthy prior then Some (jopt prior) else None).
Proof.
  unfold flag_stamp. destruct (truthy prior).
  - split; [rewrite lookup_insert_ne by done; by vm_compute|by rewrite lookup_insert_eq].
  - split; by vm_compute.
Qed.

(** The status a reader sees once a request is rejected. *)
Lemma reject_restores now actor reason m st0 :
  st0 ≠ Some "" → md_text m "status" = st0 →
  md_get m "deletion_prior_status" = None →
  ∀ now' actor' reason' m', md_merge m (flag_stamp now actor reason st0) = Some m' →
  md_text (Some (reject_meta now' actor' reason' m')) "status" = st0.
Proof.
  intros Hne Hst Hprior now' actor' reason' m' Hm.
  destruct (flag_stamp_lookup now actor reason st0) as [H1 H2].
  assert (m' !! "deletion_prior_status" = if truthy st0 then Some (jopt st0) else None) as Hp.
  { change (m' !! _) with (md_get (Some m') "deletion_prior_status"). rewrite <- Hm, md_get_merge, H2.
    by destruct (truthy st0). }
  rewrite md_text_get. unfold reject_meta, md_get. simpl.
  rewrite !(lookup_insert_ne _ _ "status") by done. rewrite Hp.
  destruct (truthy st0) eqn:Et.
  - destruct st0 as [s|]; [|done]. unfold py_flag, md_get. simpl. rewrite Hp. simpl.
    assert (nonempty s = true) as -> by (by destruct s). by rewrite lookup_insert_eq.
  - rewrite lookup_delete_eq. simpl. destruct st0 as [[|]|]; done.
Qed.

Lemma newest_acc acc l x :
  foldl (λ acc r, match acc with
                  | Some b => if (r_created b <? r_created r)%Z then Some r else acc
                  | None => Some r
                  end) acc l = Some x → acc = Some x ∨ x ∈ l.
Proof.
  revert acc. induction l as [|y l IH]; intros acc; cbn [foldl]; [by left|]. intros [Hx|Hx]%IH; [|right; by right].
  destruct acc as [b|]; [|injection Hx as ->; right; by left].
  destruct (_ <? _)%Z; injection Hx as ->; [right; by left|by left].
Qed.

Lemma newest_in l x : newest l = Some x → x ∈ l.
Proof. intros H. by apply newest_acc in H as [?|?]. Qed.

(** A read serves a row of its partition, never one awaiting deletion. *)
Lemma get_row_spec now k t r :
  get_row now k t = Some r → r ∈ t_rows t ∧ same_logical k r = true ∧ status_of r ≠ Some "deletion_requested".
Proof.
  unfold get_row. case_match.
  - intros Hn%newest_in. apply elem_of_sql_select in Hn as [Hn Hin]. bprop. destruct Hn as [[Hn _] Hl].
    split_and!; [done..|]. intros Hs. unfold live in Hl. rewrite Hs in Hl. by vm_compute in Hl.
  - intros Hn%head_Some_elem_of. apply elem_of_sql_select in Hn as [Hn Hin]. bprop. destruct Hn as [[Hn%has_pk_true _] Hs].
    split_and!; [done| |by intros E; rewrite E in Hs]. subst k. unfold same_logical. bprop. done.
Qed.

(** Flagging a row for deletion closes its exposure at once and is undone
    exactly by a rejection: from the flag on, neither an exact read nor a
    read over all writers serves that row at any time, and it is in the
    queue; rejecting the request gives the row back its earlier lifecycle
    status, whatever it was, with value and owner untouched throughout. *)
Lemma flag_then_reject now now2 now3 ns key scope user project actor reason actor2 reason2 t r t1 res :
  wf t →
  let k := _normalize_key_fields ns key scope user project in
  sql_find k t = Some r → status_of r ≠ Some "deletion_requested" → status_of r ≠ Some "" →
  md_get (r_meta r) "deletion_prior_status" = None →
  memory_flag_deletion now ns key (Some scope) user project actor reason t = Done (res, t1) →
  nonempty (strip (or_empty reason2)) = true →
  (∀ u, get_row now3 (PKey (k_ns k) (k_key k) (k_scope k) u (k_project k)) t1 ≠ sql_find k t1) ∧
  (∃ r1, sql_find k t1 = Some r1 ∧ r1 ∈ sql_select (λ x, status_of x == Some "deletion_requested") t1 ∧
         r_value r1 = r_value r) ∧
  ∃ t2 r2, deletion_queue_reject now2 ns key scope user project actor2 reason2 t1 = Done (Some k, t2) ∧
    sql_find k t2 = Some r2 ∧ status_of r2 = status_of r ∧ r_value r2 = r_value r ∧
    r_owner r2 = r_owner r ∧ ∀ k', k' ≠ k → sql_find k' t2 = sql_find k' t.
Proof.
  intros Hwf k Hr Hnot Hne Hprior H Hreason2. unfold memory_flag_deletion in H.
  destruct (negb (_ isin _)); [done|]. destruct (negb (nonempty _)); [done|].
  assert (_normalize_key_fields ns key (lower (or_empty (Some scope))) user project = k) as Hk.
  { unfold k, _normalize_key_fields. simpl. by rewrite lower_idem. }
  rewrite Hk, Hr in H. cbn [mbind option_bind] in H. injection H as _ <-.
  set (p := λ x, has_pk k x && (or_empty (status_of x) != "deletion_requested")).
  set (stamp := flag_stamp now actor (or_empty reason) (status_of r)).
  set (f := λ x, set_meta (md_merge (r_meta x) stamp) x).
  set (t1 := sql_update p f t).
  assert (wf t1) as Hw1 by (apply wf_update; [unfold f; apply _|done]).
  assert (p r = true) as Hp.
  { unfold p. pose proof Hr as [_ Hpk]%sql_find_Some_elem. rewrite (proj2 (has_pk_true k r)) by done.
    apply negb_true_iff, bool_decide_eq_false. destruct (status_of r) as [s|]; simpl; congruence. }
  assert (sql_find k t1 = Some (f r)) as Hr1.
  { unfold t1. rewrite sql_find_update, Hr by first [done|unfold f; apply _]. simpl. by rewrite Hp. }
  assert (status_of (f r) = Some "deletion_requested") as Hs1.
  { unfold status_of, f. cbn [set_meta r_meta]. rewrite md_text_merge.
    unfold stamp. by rewrite (proj1 (flag_stamp_lookup _ _ _ _)). }
  assert (∀ k', k' ≠ k → sql_find k' t1 = sql_find k' t) as Hoth1.
  { intros k' Hk'. unfold t1. rewrite sql_find_update by first [done|unfold f; apply _].
    destruct (sql_find k' t) as [x|] eqn:E; [|done]. simpl. apply sql_find_Some_elem in E as [_ E].
    unfold p, has_pk. by rewrite bool_decide_eq_false_2 by congruence. }
  split; [|split].
  - intros u Hu. rewrite Hr1 in Hu. by apply get_row_spec in Hu as (_ & _ & []).
  - exists (f r). split; [done|]. split; [|done]. apply elem_of_sql_select.
    split; [by apply bool_decide_eq_true|]. by apply sql_find_Some_elem in Hr1 as [].
  - unfold deletion_queue_reject. fold k. rewrite Hreason2. cbn [negb].
    assert (head (sql_select (λ x, has_pk k x && (status_of x == Some "deletion_requested")) t1) = Some (f r)) as ->.
    { pose proof Hr1 as [Hin Hpk]%sql_find_Some_elem.
      destruct (head _) as [r'|] eqn:Eh.
      - apply head_Some_elem_of, elem_of_sql_select in Eh as [Hp' Hin'].
        apply andb_true_iff in Hp' as [Hp' _]. apply has_pk_true in Hp'. f_equal. eapply wf_row_eq; eauto. congruence.
      - apply head_None, select_nil with (x := f r) in Eh; [|done].
        rewrite (proj2 (has_pk_true k (f r))), Hs1 in Eh by done. done. }
    cbn [f set_meta r_meta md_merge].
    eexists _, _. split; [done|]. rewrite sql_find_update by first [done|apply _]. rewrite Hr1.
    pose proof Hr1 as [_ Hpk]%sql_find_Some_elem. simpl. rewrite (proj2 (has_pk_true k (f r))) by done.
    split; [done|]. split; [|split; [done|split; [done|]]].
    + unfold status_of at 1. cbn [set_meta r_meta].
      eapply reject_restores; [exact Hne|done|exact Hprior|done].
    + intros k' Hk'. rewrite sql_find_update by first [done|apply _]. rewrite Hoth1 by done.
      destruct (sql_find k' t) as [x|] eqn:E; [|done]. simpl. apply sql_find_Some_elem in E as [_ E].
      unfold has_pk. by rewrite bool_decide_eq_false_2 by congruence.
Qed.

(** ** Estates *)

(** An estate transfer moves control and never authorship: afterwards every
    data row the departed principal controlled (in the namespace and project
    asked for) is controlled by the heir, every other row is as it was, no
    owner changes, and the count reported, in a dry run too, is the number of
    rows moved; a second transfer finds nothing. *)
Lemma estate_moves_control from_p to_p ns project t count t' :
  wf t → estate_transfer from_p to_p ns project false t = Done (count, t') →
  wf t' ∧ count = sql_count (estate_row (norm from_p) ns project) t ∧
  (∀ k r, sql_find k t = Some r → ∃ r', sql_find k t' = Some r' ∧ r_owner r' = r_owner r ∧
     (estate_row (norm from_p) ns project r = true → controller r' = Some (norm to_p)) ∧
     (estate_row (norm from_p) ns project r = false → r' = r)) ∧
  estate_transfer from_p to_p ns project true t = Done (count, t) ∧
  estate_transfer from_p to_p ns project false t' = Done (0, t').
Proof.
  intros Hwf H. unfold estate_transfer in *.
  destruct (negb (nonempty (norm from_p)) || negb (nonempty (norm to_p))) eqn:E1; [done|].
  destruct (norm from_p == norm to_p) eqn:E2; [done|]. injection H as <- <-.
  set (p := estate_row (norm from_p) ns project).
  assert (∀ x, x ∈ t_rows (sql_update p (set_custodian (Some (norm to_p))) t) → p x = false) as Hgone.
  { intros y (x & Hx & ->)%elem_of_update_where. destruct (p x) eqn:Ep; [|done].
    unfold p, estate_row. cbn [set_custodian r_custodian]. apply bool_decide_eq_false in E2.
    rewrite (bool_decide_eq_false_2 (Some (norm to_p) = Some (norm from_p))) by congruence. done. }
  split_and!; [by apply wf_update; [apply _|]|done| |done|].
  - intros k r Hr. rewrite sql_find_update, Hr by first [done|apply _].
    cbn [fmap option_fmap option_map]. eexists. split; [done|].
    fold p. destruct (p r) eqn:Ep; split_and!; try done.
    intros _. unfold controller, py_or. cbn [set_custodian r_custodian].
    apply orb_false_iff in E1 as [_ E1]. apply negb_false_iff in E1. by destruct (norm to_p).
  - f_equal. f_equal; [by apply sql_count_zero|]. by apply sql_update_nop.
Qed.

(** ** Supersede *)

Lemma supersede_meta_status now actor reason rk :
  supersede_meta now actor reason rk !! "status" = Some (JStr "superseded").
Proof.
  unfold supersede_meta. destruct (truthy rk); [rewrite lookup_insert_ne by done|]; by vm_compute.
Qed.

(** Superseding is a correction, not a deletion, and is idempotent: every row
    keeps its key, value, owner and clocks; the rows of the target writer
    under that key are stamped superseded; a second call changes nothing and
    answers that there was nothing to do, and the stamp lookup then tells
    this from a row that never existed: it finds a stamp as soon as one row
    was matched. *)
Lemma supersede_idempotent now now2 nss key project target actor reason rk scope actor2 reason2 rk2 t res t' :
  wf t →
  memory_supersede now nss key project target actor reason rk scope t = Done (res, t') →
  nonempty (strip (or_empty reason2)) = true →
  wf t' ∧
  (∀ k r, sql_find k t = Some r → ∃ r', sql_find k t' = Some r' ∧ r_value r' = r_value r ∧
     r_owner r' = r_owner r ∧ r_used r' = r_used r ∧ r_created r' = r_created r) ∧
  memory_supersede now2 nss key project target actor2 reason2 rk2 scope t' = Done (None, t') ∧
  (is_Some res → is_Some (supersede_stamp nss key project target scope t')) ∧
  (supersede_stamp nss key project target scope t' = None → t' = t).
Proof.
  intros Hwf H Hreason2. unfold memory_supersede, supersede_stamp in *.
  set (sc := lower (or_empty (py_or scope (Some "project")))) in *.
  destruct (negb (sc isin ["project"; "shared"])); [done|].
  set (pr := if sc == "shared" then None else lower <$> project) in *.
  destruct (negb (nonempty _)) eqn:Er; [done|]. rewrite Hreason2. cbn [negb].
  set (tgt := supersede_target nss key sc target pr) in *.
  set (p := λ r, tgt r && (or_empty (status_of r) != "superseded")) in *.
  set (f := λ r, set_meta (md_merge (r_meta r) (supersede_meta now actor (or_empty reason) rk)) r) in *.
  injection H as <- <-.
  assert (∀ x, status_of (f x) = Some "superseded") as Hst.
  { intros x. unfold status_of, f. cbn [set_meta r_meta]. by rewrite md_text_merge, supersede_meta_status. }
  assert (∀ x, x ∈ t_rows (sql_update p f t) → p x = false) as Hgone.
  { intros y (x & Hx & ->)%elem_of_update_where. destruct (p x) eqn:Ep; [|done].
    unfold p. rewrite Hst. by rewrite andb_false_r. }
  assert (∀ x, x ∈ t_rows t → p x = true →
    is_Some (head (sql_select (λ r, tgt r && (status_of r == Some "superseded")) (sql_update p f t)))) as Hstamp.
  { intros x Hx Hp. destruct (head _) eqn:Eh; [by eauto|]. exfalso.
    apply head_None, select_nil with (x := f x) in Eh.
    - rewrite Hst, andb_true_r in Eh. unfold p in Hp. apply andb_true_iff in Hp as [Hp _].
      change (tgt (f x)) with (tgt x) in Eh. congruence.
    - apply elem_of_update_where. exists x. by rewrite Hp. }
  split_and!.
  - apply wf_update; [unfold f; apply _|done].
  - intros k r Hr. rewrite sql_find_update, Hr by first [done|unfold f; apply _].
    cbn [fmap option_fmap option_map]. eexists. split; [done|]. by destruct (p r).
  - rewrite (sql_update_nop p _ (sql_update p f t)) by exact Hgone. f_equal. f_equal.
    replace (sql_select p (sql_update p f t)) with (@nil row); [done|].
    symmetry. by apply select_nil.
  - intros [x Hx]. destruct (head (sql_select p t)) as [r|] eqn:Eh; [|done].
    apply head_Some_elem_of, elem_of_sql_select in Eh as [Hp Hin].
    destruct (Hstamp r Hin Hp) as [y Hy]. rewrite Hy. by eexists.
  - intros Hnone. apply sql_update_nop. intros x Hx. apply not_true_is_false. intros Hp.
    destruct (Hstamp x Hx Hp) as [y Hy]. by rewrite Hy in Hnone.
Qed.

(** ** Enumeration *)

Definition like_special (c : ascii) : bool := (c == "\"%char) || (c == "%"%char) || (c == "_"%char).

Lemma like_percent s : like "%" s = true.
Proof. induction s as [|c s IH]; [done|]. simpl. exact IH. Qed.

Fixpoint escaped (p : string) : string :=
  match p with
  | EmptyString => EmptyString
  | String c p' => if like_special c then String "\" (String c (escaped p')) else String c (escaped p')
  end.

Lemma escape_char_hit c s : escape_char c (String c s) = String "\" (String c (escape_char c s)).
Proof. cbn [escape_char]. by rewrite bool_decide_eq_true_2. Qed.

Lemma escape_char_miss c d s : d ≠ c → escape_char c (String d s) = String d (escape_char c s).
Proof. intros H. cbn [escape_char]. by rewrite bool_decide_eq_false_2. Qed.

Lemma like_escape_escaped p : like_escape p = escaped p.
Proof.
  unfold like_escape. induction p as [|c p IH]; [done|]. cbn [escaped]. unfold like_special.
  destruct (decide (c = "\"%char)) as [->|H1].
  { rewrite (bool_decide_eq_true_2 ("\"%char = "\"%char)) by done. cbn [orb].
    rewrite escape_char_hit, !escape_char_miss by done. by rewrite IH. }
  rewrite (escape_char_miss "\" c) by done. rewrite (bool_decide_eq_false_2 (c = "\"%char)) by done.
  destruct (decide (c = "%"%char)) as [->|H2].
  { rewrite (bool_decide_eq_true_2 ("%"%char = "%"%char)) by done. cbn [orb].
    rewrite escape_char_hit, !escape_char_miss by done. by rewrite IH. }
  rewrite (escape_char_miss "%" c) by done. rewrite (bool_decide_eq_false_2 (c = "%"%char)) by done.
  destruct (decide (c = "_"%char)) as [->|H3].
  { rewrite (bool_decide_eq_true_2 ("_"%char = "_"%char)) by done. cbn [orb].
    rewrite escape_char_hit. by rewrite IH. }
  rewrite (escape_char_miss "_" c) by done. rewrite (bool_decide_eq_false_2 (c = "_"%char)) by done.
  cbn [orb]. by rewrite IH.
Qed.

(** The escaped pattern is a literal prefix test. *)
Lemma like_prefix p s : like (like_escape p +:+ "%") s = startswith p s.
Proof.
  rewrite like_escape_escaped. revert s. induction p as [|c p IH]; intros s.
  { unfold startswith. simpl. apply like_percent. }
  assert (startswith (String c p) s =
    match s with String e s' => (c == e) && startswith p s' | EmptyString => false end) as ->.
  { unfold startswith. destruct s as [|e s']; [done|]. simpl. by destruct (c == e). }
  cbn [escaped]. destruct (like_special c) eqn:Ec.
  - change (String "\" (String c (escaped p)) +:+ "%") with (String "\" (String c (escaped p +:+ "%"))).
    cbn [like]. rewrite (bool_decide_eq_true_2 ("\"%char = "\"%char)) by done.
    destruct s as [|e s']; [done|]. by rewrite IH.
  - unfold like_special in Ec. bprop. destruct Ec as [[H1 H2] H3].
    change (String c (escaped p) +:+ "%") with (String c (escaped p +:+ "%")). cbn [like].
    rewrite (bool_decide_eq_false_2 (c = "\"%char)), (bool_decide_eq_false_2 (c = "%"%char)) by done.
    rewrite (bool_decide_eq_false_2 (c = "_"%char)) by done. destruct s as [|e s']; [done|].
    cbn [orb]. by rewrite IH.
Qed.

Lemma order_by_key_Permutation l : order_by_key l ≡ₚ l.
Proof. apply sort_by_Permutation. Qed.

(** Enumeration is complete and literal: whatever characters the prefix
    holds, the listing (when not cut by the limit) contains exactly the
    unexpired non-mail rows of the partition whose key starts with the
    prefix, each once, hidden ones included; the total always counts all of
    them, so a cut listing shows itself; and a total of zero proves that no
    such row exists. *)
Lemma memory_keys_complete now nss prefix scope user project limit t entries total :
  wf t → 0 < limit →
  memory_keys now nss prefix scope user project limit t = (entries, total) →
  let listed r := unexpired now r = true ∧ r_ns r ∈ lower <$> nss ∧ r_scope r = lower scope ∧
    r_scope r ≠ "inbox" ∧ (lower user = "*" ∧ lower scope = "project" ∨ r_user r = lower user) ∧
    r_project r = lower <$> project ∧ ∃ rest, r_key r = prefix +:+ rest in
  (∀ e, e ∈ entries → ∃ r, r ∈ t_rows t ∧ listed r ∧ e = entry_of r) ∧
  NoDup (e_pk <$> entries) ∧ length entries = Nat.min limit total ∧
  (total ≤ limit → ∀ r, r ∈ t_rows t → listed r → entry_of r ∈ entries) ∧
  (total = 0 → ∀ r, r ∈ t_rows t → ¬ listed r).
Proof.
  intros Hwf Hlim H listed. unfold memory_keys in H.
  set (sel := sql_select _ t) in H.
  assert (∀ r, r ∈ sel ↔ r ∈ t_rows t ∧ listed r) as Hsel.
  { intros r. unfold sel. rewrite elem_of_sql_select. unfold keys_match, listed.
    rewrite like_prefix, !andb_true_iff, orb_true_iff, andb_true_iff, negb_true_iff,
      !bool_decide_eq_true, bool_decide_eq_false, startswith_true. tauto. }
  set (rows := order_by_key sel) in H.
  assert (rows ≡ₚ sel) as Hperm by apply order_by_key_Permutation.
  injection H as <- <-. rewrite length_take.
  assert ((if Nat.min limit (length rows) == 0 then 0 else length rows) = length rows) as ->.
  { case_bool_decide; lia. }
  assert (NoDup (r_pk <$> rows)) as Hnd.
  { rewrite Hperm. destruct Hwf as (Hpk & _). by apply NoDup_fmap_select. }
  split_and!.
  - intros e (r & -> & Hr)%list_elem_of_fmap. exists r. apply elem_of_take in Hr as (i & Hi & _).
    apply list_elem_of_lookup_2 in Hi. rewrite Hperm, Hsel in Hi. tauto.
  - rewrite <- list_fmap_compose. change (e_pk ∘ entry_of) with r_pk. rewrite fmap_take.
    rewrite <- (take_drop limit (r_pk <$> rows)) in Hnd. by apply NoDup_app in Hnd as [Hnd _].
  - by rewrite length_fmap, length_take.
  - intros Hle r Hr Hl. rewrite take_ge by done. apply list_elem_of_fmap_2. rewrite Hperm, Hsel. done.
  - intros Hz r Hr Hl. apply length_zero_iff_nil in Hz. assert (r ∈ rows) as Hin
      by (rewrite Hperm, Hsel; done). rewrite Hz in Hin. by apply elem_of_nil in Hin.
Qed.

(** ** Witnesses *)

Definition ex_args (user owner value : string) (if_match : option string) : set_args :=
  SetArgs "Fleet" "Startup/Next" value "project" user (Some "Tiding") "" "" 0 None (Some owner) if_match false.

Definition done_table {X} (o : outcome mem_error (X * table)) (t : table) : table :=
  match o with Done (_, t') => t' | Raise _ => t end.

(** A writer's project row, then a second writer's. *)
Definition ex_one : table := done_table (memory_set id 5 (ex_args "alice" "alice" "v1" None) empty_table) empty_table.
Definition ex_two : table := done_table (memory_set id 6 (ex_args "bob" "bob" "v2" None) ex_one) ex_one.

Lemma ex_one_wf : wf ex_one.
Proof. split_and!; [vm_compute; repeat constructor; set_solver..|]. by repeat constructor. Qed.

Lemma ex_two_wf : wf ex_two.
Proof. split_and!; [vm_compute; repeat constructor; set_solver..|]. by repeat constructor. Qed.

Lemma memory_set_gates_witness :
  ∃ r o, sql_find (key_of (ex_args "alice" "mallory" "x" None)) ex_one = Some r ∧ r_owner r = Some o ∧
    Some "mallory" ≠ Some o.
Proof.
  pose proof (memory_set_gates id 9 (ex_args "alice" "mallory" "x" None) ex_one ex_one_wf) as H.
  cbv zeta in H.
  destruct (memory_set id 9 (ex_args "alice" "mallory" "x" None) ex_one) as [[[[key c] v] t']|[]] eqn:E;
    try (vm_compute in E; discriminate).
  destruct H as (r & o & H1 & H2 & H3 & _). by exists r, o.
Defined.

Lemma project_write_collapses_witness :
  ∃ r, r_value r = "v2" ∧ get_row 7 (PKey "fleet" "startup/next" "project" "*" (Some "tiding")) ex_two = Some r.
Proof.
  destruct (memory_set id 6 (ex_args "bob" "bob" "v2" None) ex_one) as [[[[key c] v] t']|] eqn:E;
    [|by vm_compute in E].
  assert (t' = ex_two) as -> by (unfold ex_two; by rewrite E).
  destruct (project_write_collapses id 6 (ex_args "bob" "bob" "v2" None) ex_one key c v ex_two 7 ex_one_wf E)
    as (r & _ & H1 & _ & _ & H2).
  - by vm_compute.
  - done.
  - left. done.
  - done.
  - by exists r.
Defined.

(** ** Where the code departs from what it says *)

(** A create-only write of a project key returns before the collapse: two
    writers' rows of one key are then both live. *)
Definition ex_create_only : table :=
  done_table (memory_set id 6 (ex_args "bob" "bob" "v2" (Some "")) ex_one) ex_one.

Lemma create_only_leaves_twins :
  length (sql_select (λ r, same_logical (key_of (ex_args "bob" "bob" "v2" None)) r && live r) ex_create_only) = 2.
Proof. by vm_compute. Qed.

(** Superseding a row that is flagged for deletion takes it out of the queue,
    and an exact read serves it again. *)
Definition ex_flagged : table :=
  done_table (memory_flag_deletion 8 "fleet" "startup/next" (Some "project") "alice" (Some "tiding") None
                (Some "leaked secret") ex_one) ex_one.
Definition ex_unflagged : table :=
  done_table (memory_supersede 9 ["fleet"] "startup/next" (Some "tiding") "alice" None (Some "old") None None
                ex_flagged) ex_flagged.

Lemma supersede_reexposes :
  (memory_get id 10 "fleet" "startup/next" "project" "alice" (Some "tiding") ex_flagged).1 = None ∧
  length (deletion_queue_list 10 ex_flagged) = 1 ∧
  i_value <$> (memory_get id 10 "fleet" "startup/next" "project" "alice" (Some "tiding") ex_unflagged).1 = Some "v1" ∧
  deletion_queue_list 10 ex_unflagged = [].
Proof. by vm_compute. Qed.

(** A shared row can be taken over by writing it, and then destroyed by the
    new owner. *)
Definition ex_shared (owner value : string) : set_args :=
  SetArgs "fleet" "lesson" value "shared" "default" None "" "" 0 None (Some owner) None false.
Definition ex_taken : table :=
  let t1 := done_table (memory_set id 5 (ex_shared "alice" "v1") empty_table) empty_table in
  done_table (memory_set id 6 (ex_shared "mallory" "v2") t1) t1.

Lemma shared_takeover :
  match memory_forget "fleet" "lesson" "shared" "default" None (Some "mallory") false ex_taken with
  | Done (found, t) => found = true ∧ t_rows t = []
  | Raise _ => False
  end.
Proof. by vm_compute. Qed.

(** The prefix of a listing is compared as it is spelled, although keys are
    stored in lower case: "Startup/" finds nothing. *)
Lemma keys_prefix_case :
  (memory_keys 7 ["fleet"] "Startup/" "project" "*" (Some "tiding") 10 ex_two).2 = 0 ∧
  (memory_keys 7 ["fleet"] "startup/" "project" "*" (Some "tiding") 10 ex_two).2 = 2.
Proof. by vm_compute. Qed.

(** The expansion of a camel-case key is lower-cased; and a stored key has no
    capital left to split at. *)
Lemma expand_key_camel :
  _expand_key "wifeName" = "wife name" ∧ _expand_key (lower "wifeName") = "wifename".
Proof. by vm_compute. Qed.
