(* ===== verification/Inbox.v ===== *)
(** The mailbox (src/server/services/memory_service.py, inbox operations): mail
    is rows of the [memories] table, and every verb below is the SQL the
    server runs on them, in the order it runs it.

    [INBOX_NAMESPACE] is the default of the [primary_namespace] setting. The
    reader's widened addresses come from the interface [ListenExpansion],
    which the project-alias component implements. Two derived fields of a
    message, [age_hours] and [is_stale] (a rounded age), and the text of the
    banner's preview lines are presentation and are left out. *)

From stdpp Require Import base gmap list strings pretty sorting.
From Stdlib Require Import ZArith Lia Ascii.
From S2P Require Import Prelude PyString Json Store Identity ProjectAlias ProjectAliasProps AddressRoles.

Definition INBOX_NAMESPACE : string := "fleet".
Definition INBOX_SCOPE : string := "inbox".
Definition INBOX_STALE_AFTER_HOURS : Z := 72.
Definition INBOX_OPEN : string := "open".
Definition INBOX_RESOLVED : string := "resolved".
Definition INBOX_SUPERSEDED : string := "superseded".
Definition INBOX_STALE_SWEEP_ACTOR : string := "system:stale-sweep".
Definition ASK_INTENTS : list string := ["action"; "proceed"; "escalate"; "authority-directive"].

(** What the mailbox needs of the component that widens a listen set: it adds
    addresses, none of them twice and none already listened to. *)
Class ListenExpansion (expand : list string → list string) : Prop := {
  expansion_fresh l x : x ∈ expand l → x ∉ lower <$> l;
  expansion_NoDup l : NoDup (expand l)
}.

#[global] Instance alias_expansion aliases roles : ListenExpansion (expand_listen_set aliases roles).
Proof. split; intros l; [intros x Hx|]; by apply (expand_listen_elems aliases roles l). Qed.

(** ** Message text *)

Definition TRAILER_TAGS : list string := ["</body>"; "</invoke>"; "</parameter>"].

(** [s] without its suffix [t], compared without case. *)
Fixpoint chop_suffix (t s : string) : option string :=
  if lower s == t then Some ""
  else match s with
       | EmptyString => None
       | String c s' => String c <$> chop_suffix t s'
       end.

Definition chop_tag (s : string) : option string :=
  foldl (λ acc t, match acc with Some v => Some v | None => chop_suffix t s end) None TRAILER_TAGS.

(** The loop over [\s*(?:</body>|</invoke>|</parameter>)+\s*$]. *)
Fixpoint strip_trailer_loop (fuel : nat) (s : string) : string :=
  match fuel with
  | O => s
  | S fuel' => match chop_tag (rstrip s) with
               | Some v => strip_trailer_loop fuel' (rstrip v)
               | None => s
               end
  end.

Definition _strip_toolcall_trailer (s : string) : string := strip_trailer_loop (S (String.length s)) s.

(** ** Messages *)

Record inbox_message := InboxMessage {
  m_id : string;
  m_to : string;
  m_from : option string;
  m_from_principal : option string;
  m_authority : bool;
  m_relayed_from : option string;
  m_machine : option string;
  m_model : option string;
  m_model_source : option string;
  m_from_lane : option string;
  m_from_project : option string;
  m_in_reply_to : option string;
  m_intent : option string;
  m_subject : string;
  m_body : string;
  m_thread_id : option string;
  m_participants : list string;
  m_read_by : list string;
  m_archived : bool;
  m_created_at : Z;
  m_status : string;
  m_resolved_by : option string;
  m_resolved_at : option Z;
  m_supersedes : option string;
  m_superseded_by : option string;
  m_handled : option bool;
  m_handled_via : option string
}.

Definition _row_to_inbox_message (r : row) : inbox_message :=
  let md := r_meta r in
  InboxMessage (r_key r) (r_user r) (py_str md "from") (py_str md "from_principal")
    (py_flag md "authority") (py_str md "relayed_from") (py_str md "machine") (py_str md "model")
    (py_str md "model_source") (py_str md "from_lane") (py_str md "from_project")
    (py_str md "in_reply_to") (py_str md "intent") (or_empty (py_str md "subject")) (r_value r)
    (py_str md "thread_id") (py_strs md "participants") (py_strs md "read_by")
    (py_flag md "archived") (r_created r)
    (or_empty (py_or (py_str md "status") (Some INBOX_OPEN)))
    (py_str md "resolved_by") (md_time md "resolved_at") (py_str md "supersedes")
    (py_str md "superseded_by") None None.

Definition set_handled (v : option bool) (via : option string) (m : inbox_message) : inbox_message :=
  InboxMessage (m_id m) (m_to m) (m_from m) (m_from_principal m) (m_authority m) (m_relayed_from m)
    (m_machine m) (m_model m) (m_model_source m) (m_from_lane m) (m_from_project m) (m_in_reply_to m)
    (m_intent m) (m_subject m) (m_body m) (m_thread_id m) (m_participants m) (m_read_by m)
    (m_archived m) (m_created_at m) (m_status m) (m_resolved_by m) (m_resolved_at m)
    (m_supersedes m) (m_superseded_by m) v via.

(** ** SQL predicates *)

Definition is_mail (r : row) : bool := (r_ns r == INBOX_NAMESPACE) && (r_scope r == INBOX_SCOPE).

(** [COALESCE(metadata->>'status', 'open') = 'open'] *)
Definition is_open (r : row) : bool := md_text_or INBOX_OPEN (r_meta r) "status" == INBOX_OPEN.

Definition is_archived (r : row) : bool := md_bool (r_meta r) "archived".

(** [COALESCE(metadata->'read_by', '[]') ? who] *)
Definition read_by (who : string) (r : row) : bool := md_has (r_meta r) "read_by" who.

(** The message [key]. *)
Definition is_message (key : string) (r : row) : bool := is_mail r && (r_key r == key).

(** Stable order by creation. *)
Definition by_created (l : list row) : list row := sort_by (λ x r, r_created x <=? r_created r)%Z l.
Definition by_created_desc (l : list row) : list row := rev (by_created l).

(** ** Sending *)

Inductive inbox_error := KeyTaken.

Record send_args := SendArgs {
  sd_to : string;
  sd_body : string;
  sd_subject : string;
  sd_from : option string;
  sd_thread_id : option string;
  sd_supersedes : option string;
  sd_from_principal : option string;
  sd_authority : bool;
  sd_intent : option string;
  sd_participants : list string;
  sd_machine : option string;
  sd_model : option string;
  sd_model_source : option string;
  sd_from_lane : option string;
  sd_from_project : option string;
  sd_in_reply_to : option string;
  sd_huddle_lifecycle : bool;
  sd_relayed_from : option string
}.

Definition mail_meta (a : send_args) : jobj :=
  list_to_map [("kind", JStr "inbox"); ("from", jopt (sd_from a));
    ("from_principal", jopt (sd_from_principal a)); ("authority", JBool (sd_authority a));
    ("relayed_from", jopt (sd_relayed_from a)); ("machine", jopt (sd_machine a));
    ("model", jopt (sd_model a)); ("model_source", jopt (sd_model_source a));
    ("from_lane", jopt (sd_from_lane a)); ("from_project", jopt (sd_from_project a));
    ("in_reply_to", jopt (sd_in_reply_to a));
    ("huddle_lifecycle", if sd_huddle_lifecycle a then JBool true else JNull);
    ("intent", jopt (sd_intent a)); ("subject", JStr (_strip_toolcall_trailer (sd_subject a)));
    ("thread_id", jopt (sd_thread_id a)); ("read_by", JArr []); ("archived", JBool false);
    ("status", JStr INBOX_OPEN); ("supersedes", jopt (sd_supersedes a));
    ("participants", match sd_participants a with [] => JNull | ps => JArr (JStr <$> ps) end)].

Definition mail_key (uid : string) : string := "inbox/" +:+ uid.

(** [uid] is the uuid4 drawn for the message. *)
Definition inbox_send (now : Z) (uid : string) (a : send_args) (t : table)
  : outcome inbox_error (string * table) :=
  let body := _strip_toolcall_trailer (sd_body a) in
  let subject := _strip_toolcall_trailer (sd_subject a) in
  let msg_id := mail_key uid in
  let n := NewRow (PKey INBOX_NAMESPACE msg_id INBOX_SCOPE (lower (sd_to a)) None) body "" ""
             (subject +:+ " " +:+ body) None (Some (mail_meta a)) None in
  match sql_insert_nothing now n t with
  | (None, _) => Raise KeyTaken
  | (Some _, t1) =>
      Done (msg_id,
        if truthy (sd_supersedes a)
        then sql_update (is_message (or_empty (sd_supersedes a)))
               (λ r, set_meta (md_merge (r_meta r)
                  (<["status" := JStr INBOX_SUPERSEDED]> {["superseded_by" := JStr msg_id]})) r) t1
        else t1)
  end.

(** ** Verdicts on asks *)

Definition _speaker (from_lane from_ : option string) : string :=
  if nonempty (norm from_lane) then norm from_lane else norm from_.

Definition _is_meeting_thread (thread_id : option string) : bool :=
  match thread_id with Some t => startswith "huddle/" t | None => false end.

Definition is_ask (m : inbox_message) : bool :=
  (norm (m_intent m) isin ASK_INTENTS) && negb (_is_meeting_thread (m_thread_id m)).

(** An answer-class row: [lower(COALESCE(metadata->>'intent', '')) = ANY(ASK_INTENTS)]. *)
Definition answer_row (r : row) : bool :=
  is_mail r && (lower (md_text_or "" (r_meta r) "intent") isin ASK_INTENTS).

Definition other_speaker (m : inbox_message) (r : row) : bool :=
  _speaker (md_text (r_meta r) "from_lane") (md_text (r_meta r) "from")
    != _speaker (m_from_lane m) (m_from m).

Definition replied_to (t : table) (m : inbox_message) : bool :=
  existsb (λ r, answer_row r && (md_text (r_meta r) "in_reply_to" == Some (m_id m)) && other_speaker m r)
          (t_rows t).

Definition is_root (m : inbox_message) : bool :=
  negb (truthy (m_thread_id m)) || (m_thread_id m == Some (m_id m)).

Definition replied_in_thread (t : table) (m : inbox_message) : bool :=
  existsb (λ r, answer_row r && (md_text (r_meta r) "thread_id" == Some (m_id m)) &&
                (r_key r != m_id m) && other_speaker m r) (t_rows t).

(** The verdict of one message; message ids are distinct (uuid4). *)
Definition mark_handled_one (t : table) (m : inbox_message) : inbox_message :=
  if negb (is_ask m) then m
  else if m_status m isin ["resolved"; "superseded"] then set_handled (Some true) (Some (m_status m)) m
  else if replied_to t m then set_handled (Some true) (Some "replied") m
  else if is_root m then
    if replied_in_thread t m then set_handled (Some true) (Some "replied") m
    else set_handled (Some false) None m
  else m.

Definition _mark_handled (t : table) (ms : list inbox_message) : list inbox_message :=
  mark_handled_one t <$> ms.

(** [jsonb_set(.., '{delivered_to}', COALESCE(metadata->'delivered_to', '[]') || who, true)] *)
Definition _mark_delivered (ms : list inbox_message) (reader : option string) (t : table) : table :=
  if negb (truthy reader) || (length ms == 0) then t
  else sql_update (λ r, (r_key r isin (m_id <$> ms)) && negb (md_has (r_meta r) "delivered_to" (or_empty reader)))
         (λ r, set_meta (md_set (r_meta r) "delivered_to"
            (jappend (default (JArr []) (md_get (r_meta r) "delivered_to")) (JStr (or_empty reader)))) r) t.

(** ** Reading and draining *)

Section mailbox.
Context (expand : list string → list string).

Definition reader_set (listen : list string) : list string :=
  let l := lower <$> listen in
  let l := l ++ admin_listen_expansion l in
  l ++ expand l.

(** Listen sets of the verbs that do not apply the admin expansion. *)
Definition plain_set (listen : list string) : list string :=
  let l := lower <$> listen in l ++ expand l.

Definition list_match (listen : list string) (reader : option string) (unread_only include_resolved : bool)
    (r : row) : bool :=
  is_mail r && (r_user r isin listen) && negb (is_archived r) &&
  (include_resolved || is_open r) &&
  (negb unread_only || match reader with None => true | Some who => negb (read_by who r) end).

Definition inbox_rows (listen : list string) (reader : option string)
    (unread_only : bool) (limit : nat) (include_resolved newest_first : bool) (t : table) : list row :=
  let recent := take limit (by_created_desc (sql_select (list_match listen reader unread_only include_resolved) t)) in
  if newest_first then by_created_desc recent else by_created recent.

Definition inbox_list (listen_set : list string) (reader : option string) (unread_only : bool)
    (limit : nat) (include_resolved newest_first unhandled_only mark_delivered : bool) (t : table)
  : list inbox_message * table :=
  if length listen_set == 0 then ([], t)
  else
    let rows := inbox_rows (reader_set listen_set) reader unread_only limit include_resolved newest_first t in
    let messages := _mark_handled t (_row_to_inbox_message <$> rows) in
    let t' := if mark_delivered then _mark_delivered messages reader t else t in
    (if unhandled_only
     then filter (λ m, norm (m_intent m) ∈ ASK_INTENTS ∧ m_handled m ≠ Some true ∧ m_status m = INBOX_OPEN) messages
     else messages, t').

Definition inbox_unread_count (listen_set : list string) (reader : option string) (t : table) : nat :=
  let listen := plain_set listen_set in
  if length listen == 0 then 0
  else sql_count (λ r, is_mail r && (r_user r isin listen) && negb (is_archived r) && is_open r &&
         (if truthy reader then negb (read_by (lower (or_empty reader)) r) else true)) t.

(** The true total and the messages previewed. *)
Definition inbox_banner (listen_set : list string) (reader : option string) (preview_limit : nat)
    (t : table) : option (nat * list inbox_message) :=
  let listen := lower <$> listen_set in
  if length listen == 0 then None
  else
    let total := inbox_unread_count listen reader t in
    if total == 0 then None
    else Some (total, take preview_limit (inbox_list listen reader true preview_limit false true false false t).1).

(** Mail that is nobody's group traffic. *)
Definition is_direct (r : row) : bool :=
  (md_array_length (r_meta r) "participants" == 0) &&
  negb (startswith "huddle/" (md_text_or "" (r_meta r) "thread_id")).

Definition sender_of (r : row) : string := md_text_or "(unknown)" (r_meta r) "from".

Definition unread_direct (listen : list string) (reader : string) (r : row) : bool :=
  is_mail r && (r_user r isin listen) && negb (is_archived r) && is_open r &&
  negb (read_by (lower reader) r) && is_direct r.

(** [max(created_at)] of a group. *)
Definition latest_of (l : list row) : Z := foldr (λ r acc, Z.max (r_created r) acc) 0%Z l.

Fixpoint insert_latest (e : string * nat * Z) (l : list (string * nat * Z)) : list (string * nat * Z) :=
  match l with
  | [] => [e]
  | x :: l' => if (e.2 <=? x.2)%Z then x :: insert_latest e l' else e :: l
  end.

Definition inbox_unread_by_sender (listen_set : list string) (reader : string) (t : table)
  : list (string * nat * Z) :=
  let listen := plain_set listen_set in
  if (length listen == 0) || negb (nonempty reader) then []
  else
    let rows := sql_select (unread_direct listen reader) t in
    foldl (λ acc e, insert_latest e acc) []
      ((λ s, let g := select (λ r, sender_of r == s) rows in (s, length g, latest_of g))
         <$> dedup (sender_of <$> rows)).

Definition ack_meta (who : string) (m : option jobj) : option jobj :=
  md_set m "read_by"
    (match md_get m "read_by" with
     | None => JArr [JStr who]
     | Some j => if jhas j who then j else jappend j (JStr who)
     end).

Definition inbox_ack (message_id reader : string) (t : table) : bool * table :=
  (sql_count (is_message message_id) t == 1,
   sql_update (is_message message_id) (λ r, set_meta (ack_meta reader (r_meta r)) r) t).

Definition inbox_archive (message_id : string) (reader : option string) (t : table) : bool * table :=
  let found := sql_count (is_message message_id) t == 1 in
  let t1 := sql_update (is_message message_id)
              (λ r, set_meta (md_set (r_meta r) "archived" (JBool true)) r) t in
  (found, if truthy reader && found then (inbox_ack message_id (or_empty reader) t1).2 else t1).

Definition resolve_meta (now : Z) (who : option string) (m : option jobj) : option jobj :=
  let base := <["status" := JStr INBOX_RESOLVED]> {["resolved_at" := JTime now]} in
  let named := match who with Some w => <["resolved_by" := JStr w]> base | None => base end in
  let acked :=
    match who with
    | Some w => if md_has m "read_by" w then named
                else <["read_by" := jappend (default (JArr []) (md_get m "read_by")) (JStr w)]> named
    | None => named
    end in
  md_merge m acked.

Definition inbox_resolve (now : Z) (message_id : string) (who : option string) (t : table) : bool * table :=
  (sql_count (is_message message_id) t == 1,
   sql_update (is_message message_id) (λ r, set_meta (resolve_meta now who (r_meta r)) r) t).

Definition in_thread (listen : list string) (thread_id : string) (r : row) : bool :=
  is_mail r && (r_user r isin listen) && (md_text (r_meta r) "thread_id" == Some thread_id) && is_open r.

Definition inbox_resolve_thread (now : Z) (thread_id : string) (listen_set : list string)
    (who : option string) (t : table) : nat * table :=
  let listen := plain_set (filter (λ a, nonempty a = true) listen_set) in
  if negb (nonempty thread_id) || (length listen == 0) then (0, t)
  else (sql_count (in_thread listen thread_id) t,
        sql_update (in_thread listen thread_id) (λ r, set_meta (resolve_meta now who (r_meta r)) r) t).

Definition sweepable (now older_than_hours : Z) (r : row) : bool :=
  is_mail r && is_open r && negb (is_archived r) && (0 <? md_array_length (r_meta r) "read_by") &&
  (r_created r <? now - 3600 * older_than_hours)%Z.

Definition inbox_autoresolve_stale (now older_than_hours : Z) (resolver : string) (batch_size : nat)
    (t : table) : nat * table :=
  let keys := (λ r, r_key r) <$> take batch_size (by_created (sql_select (sweepable now older_than_hours) t)) in
  let p := λ r, (r_key r isin keys) && is_mail r in
  (sql_count p t,
   sql_update p (λ r, set_meta (md_merge (r_meta r)
     (list_to_map [("status", JStr INBOX_RESOLVED); ("resolved_at", JTime now); ("resolved_by", JStr resolver)])) r) t).

Record digest := Digest { d_open : nat; d_resolved : nat; d_superseded : nat; d_stale : nat }.

Definition inbox_counts (now : Z) (listen_set : list string) (t : table) : digest :=
  let listen := plain_set listen_set in
  if length listen == 0 then Digest 0 0 0 0
  else
    let rows := sql_select (λ r, is_mail r && (r_user r isin listen) && negb (is_archived r)) t in
    let with_status := λ s, select (λ r, md_text_or INBOX_OPEN (r_meta r) "status" == s) rows in
    Digest (length (with_status INBOX_OPEN)) (length (with_status INBOX_RESOLVED))
      (length (with_status INBOX_SUPERSEDED))
      (length (select (λ r, (r_created r <? now - 3600 * INBOX_STALE_AFTER_HOURS)%Z) (with_status INBOX_OPEN))).
End mailbox.

(** REPLY-THREAD-1 *)
Definition reply_thread_of (in_reply_to : option string) (t : table) : option string :=
  if negb (truthy in_reply_to) then None
  else match head (sql_select (is_message (or_empty in_reply_to)) t) with
       | None => None
       | Some r => py_or (py_str (r_meta r) "thread_id") in_reply_to
       end.

(** ASK-class mail never read and with no later message in its thread. *)
Definition unanswered (now min_age_seconds : Z) (t : table) (r : row) : bool :=
  is_mail r && negb (is_archived r) && is_open r &&
  match md_text (r_meta r) "intent" with Some i => i isin ASK_INTENTS | None => false end &&
  (md_array_length (r_meta r) "read_by" == 0) &&
  negb (existsb (λ x, (r_ns x == r_ns r) && (r_scope x == r_scope r) &&
          match md_text (r_meta x) "thread_id", md_text (r_meta r) "thread_id" with
          | Some a, Some b => a == b
          | _, _ => false
          end && (r_created r <? r_created x)%Z) (t_rows t)) &&
  (min_age_seconds <=? now - r_created r)%Z.

Definition unanswered_asks (now min_age_seconds : Z) (limit : nat) (t : table) : list row :=
  take limit (by_created (sql_select (unanswered now (Z.max 0 min_age_seconds) t) t)).
