(* ===== verification/InboxProps.v ===== *)
(** What the mailbox guarantees: which messages a listing shows, that an ack
    hides a message from its reader and nobody else, that resolving drains
    it, that the stale sweep only touches read mail, and when the banner's
    count agrees with the listing. *)

From stdpp Require Import base gmap list strings pretty sorting.
From Stdlib Require Import ZArith Lia Ascii.
From S2P Require Import Prelude PyString Json Store Identity ProjectAlias ProjectAliasProps AddressRoles Inbox.

(** ** Order *)

Section order.
Implicit Types (r : row) (l : list row).

Lemma by_created_Permutation l : by_created l ≡ₚ l.
Proof. apply sort_by_Permutation. Qed.

Definition older : row → row → Prop := λ r r', (r_created r ≤ r_created r')%Z.

Lemma by_created_sorted l : StronglySorted older (by_created l).
Proof.
  assert (StronglySorted (λ a b, (r_created a <=? r_created b)%Z = true) (by_created l)) as Hs.
  { apply sort_by_sorted; [intros a b|intros a b c]; rewrite !Z.leb_le; lia. }
  induction Hs as [|x k Hs IH Hall]; constructor; [done|].
  eapply Forall_impl; [exact Hall|]. intros y Hy. by apply Z.leb_le.
Qed.

Lemma by_created_desc_Permutation l : by_created_desc l ≡ₚ l.
Proof. unfold by_created_desc. rewrite <- (Permutation_rev (by_created l)). apply by_created_Permutation. Qed.

(** In a sorted list cut anywhere, what comes first is older. *)
Lemma sorted_app_older l k : StronglySorted older (l ++ k) → ∀ x y, x ∈ l → y ∈ k → older x y.
Proof.
  induction l as [|z l IH]; intros Hs x y Hx Hy; [by apply elem_of_nil in Hx|].
  apply StronglySorted_inv in Hs as [Hs Hall]. apply elem_of_cons in Hx as [->|Hx]; [|by apply IH].
  rewrite Forall_forall in Hall. apply Hall. apply elem_of_app. by right.
Qed.

(** The first [n] of the newest-first order are the newest ones. *)
Lemma take_newest n l x y :
  x ∈ take n (by_created_desc l) → y ∈ drop n (by_created_desc l) → older y x.
Proof.
  intros Hx Hy. unfold by_created_desc in *. set (s := by_created l) in *.
  assert (rev s = take n (rev s) ++ drop n (rev s)) as E by (by rewrite take_drop).
  apply (f_equal (@rev row)) in E. rewrite rev_involutive, rev_app_distr in E.
  assert (StronglySorted older (rev (drop n (rev s)) ++ rev (take n (rev s)))) as Hs.
  { rewrite <- E. apply by_created_sorted. }
  eapply sorted_app_older; [exact Hs| |]; by rewrite <- Permutation_rev.
Qed.
End order.

Section rows.
Context (expand : list string → list string).

Lemma elem_of_inbox_rows listen reader unread limit res newest t r :
  r ∈ inbox_rows listen reader unread limit res newest t ↔
  r ∈ take limit (by_created_desc (sql_select (list_match listen reader unread res) t)).
Proof.
  unfold inbox_rows. destruct newest; [by rewrite by_created_desc_Permutation|by rewrite by_created_Permutation].
Qed.

Lemma length_inbox_rows listen reader unread limit res newest t :
  length (inbox_rows listen reader unread limit res newest t) =
  Nat.min limit (sql_count (list_match listen reader unread res) t).
Proof.
  assert (length (inbox_rows listen reader unread limit res newest t) =
    length (take limit (by_created_desc (sql_select (list_match listen reader unread res) t)))) as ->.
  { unfold inbox_rows. destruct newest;
      apply Permutation_length; [apply by_created_desc_Permutation|apply by_created_Permutation]. }
  rewrite length_take. by rewrite by_created_desc_Permutation.
Qed.

Lemma inbox_rows_match listen reader unread limit res newest t r :
  r ∈ inbox_rows listen reader unread limit res newest t →
  r ∈ t_rows t ∧ list_match listen reader unread res r = true.
Proof.
  rewrite elem_of_inbox_rows. intros H. apply elem_of_take in H as (i & Hi & _).
  apply list_elem_of_lookup_2 in Hi. rewrite by_created_desc_Permutation in Hi.
  by apply elem_of_sql_select in Hi as [].
Qed.

Lemma inbox_rows_all listen reader unread limit res newest t r :
  sql_count (list_match listen reader unread res) t ≤ limit →
  r ∈ inbox_rows listen reader unread limit res newest t ↔
  r ∈ t_rows t ∧ list_match listen reader unread res r = true.
Proof.
  intros H. rewrite elem_of_inbox_rows, take_ge.
  - rewrite by_created_desc_Permutation, elem_of_sql_select. tauto.
  - by rewrite by_created_desc_Permutation.
Qed.
End rows.

Lemma mark_handled_id t m : m_id (mark_handled_one t m) = m_id m.
Proof. unfold mark_handled_one. by repeat case_match. Qed.

Lemma inbox_rows_newest listen reader unread limit res newest t r r' :
  r ∈ inbox_rows listen reader unread limit res newest t → r' ∈ t_rows t →
  list_match listen reader unread res r' = true →
  r' ∉ inbox_rows listen reader unread limit res newest t → (r_created r' ≤ r_created r)%Z.
Proof.
  rewrite !elem_of_inbox_rows. intros Hr Hr' Hm Hout. eapply take_newest; [exact Hr|].
  assert (r' ∈ by_created_desc (sql_select (list_match listen reader unread res) t)) as Hin.
  { rewrite by_created_desc_Permutation. by apply elem_of_sql_select. }
  rewrite <- (take_drop limit) in Hin. by apply elem_of_app in Hin as [].
Qed.

(** The row a send appends, and where it stands. *)
Lemma inbox_send_row now uid a t key t' :
  inbox_send now uid a t = Done (key, t') → sd_supersedes a ≠ Some (mail_key uid) →
  key = mail_key uid ∧
  ∃ r, r ∈ t_rows t' ∧ r_key r = key ∧ r_user r = lower (sd_to a) ∧ r_created r = now ∧
    is_mail r = true ∧ is_archived r = false ∧ is_open r = true ∧ (∀ who, read_by who r = false) ∧
    (∀ y, y ∈ t_rows t' → y = r ∨ ∃ x, x ∈ t_rows t ∧ r_created y = r_created x).
Proof.
  intros Hsend Hself. unfold inbox_send in Hsend. set (n := NewRow _ _ _ _ _ _ _ _) in Hsend.
  unfold sql_insert_nothing in Hsend. destruct (sql_find (n_pk n) t); [done|].
  injection Hsend as <- Ht'. split; [done|].
  set (r := mk_row (t_seq t) now n).
  assert (∀ y, y ∈ t_rows (sql_append now n t) ↔ y ∈ t_rows t ∨ y = r) as Happ
    by (intros y; apply elem_of_append).
  exists r. rewrite <- Ht'. destruct (truthy (sd_supersedes a)) eqn:Et.
  - assert (is_message (or_empty (sd_supersedes a)) r = false) as Hnot.
    { unfold is_message. apply andb_false_iff. right. apply bool_decide_eq_false.
      unfold r, mk_row, n. cbn [r_pk n_pk k_key].
      destruct (sd_supersedes a) as [x|]; [|done]. change (or_empty (Some x)) with x. congruence. }
    split_and!; try done.
    + apply elem_of_update_where. exists r. rewrite Hnot. split; [|done]. apply Happ. by right.
    + intros y (x & Hx & ->)%elem_of_update_where. apply Happ in Hx as [Hx| ->].
      * right. exists x. split; [done|]. by destruct (is_message _ x).
      * left. by rewrite Hnot.
  - split_and!; try done.
    + apply Happ. by right.
    + intros y [Hy| ->]%Happ; [right; eauto|by left].
Qed.

(** A listing is the newest part of the mailbox: it shows only mail to an
    address the reader listens on that passes the reader's filters, as many
    as there are up to the limit, and no message left out is newer than one
    shown; so a message just sent to one of those addresses is always
    shown to its readers, whatever the backlog. *)
Lemma inbox_list_newest expand listen reader unread limit res newest t :
  listen ≠ [] →
  let rows := inbox_rows (reader_set expand listen) reader unread limit res newest t in
  let matching := list_match (reader_set expand listen) reader unread res in
  m_id <$> (inbox_list expand listen reader unread limit res newest false false t).1 = (λ r, r_key r) <$> rows ∧
  length rows = Nat.min limit (sql_count matching t) ∧
  (∀ r, r ∈ rows → r ∈ t_rows t ∧ matching r = true) ∧
  (∀ r r', r ∈ rows → r' ∈ t_rows t → matching r' = true → r' ∉ rows → (r_created r' ≤ r_created r)%Z) ∧
  (∀ now uid a key t', 0 < limit → Forall (λ r, (r_created r < now)%Z) (t_rows t) →
     inbox_send now uid a t = Done (key, t') → sd_supersedes a ≠ Some (mail_key uid) →
     lower (sd_to a) ∈ reader_set expand listen →
     key ∈ m_id <$> (inbox_list expand listen reader unread limit res newest false false t').1).
Proof.
  intros Hne rows matching.
  assert (∀ t, m_id <$> (inbox_list expand listen reader unread limit res newest false false t).1 =
    (λ r, r_key r) <$> inbox_rows (reader_set expand listen) reader unread limit res newest t) as Hids.
  { intros t0. unfold inbox_list. rewrite bool_decide_eq_false_2 by (by destruct listen).
    cbn [fst]. unfold _mark_handled. rewrite <- !list_fmap_compose.
    apply list_fmap_ext. intros _ r _. cbn [compose]. by rewrite mark_handled_id. }
  split_and!; [apply Hids|apply length_inbox_rows|intros r Hr; by apply inbox_rows_match in Hr| |].
  - intros r r' Hr Hr' Hm Hout. by eapply inbox_rows_newest.
  - intros now uid a key t' Hlim Hold Hsend Hself Hto. rewrite Hids.
    destruct (inbox_send_row now uid a t key t' Hsend Hself)
      as (_ & r & Hr & Hkey & Huser & Hcr & Hmail & Harch & Hopen & Hread & Hother).
    apply list_elem_of_fmap. exists r. split; [done|].
    assert (matching r = true) as Hm.
    { unfold matching, list_match. rewrite Hmail, Huser, Harch, Hopen.
      rewrite (bool_decide_eq_true_2 (_ ∈ _)) by done. rewrite orb_true_r. cbn [negb andb].
      destruct unread; [|done]. destruct reader as [w|]; [|done]. by rewrite Hread. }
    set (rows' := inbox_rows (reader_set expand listen) reader unread limit res newest t').
    destruct (decide (r ∈ rows')) as [|Hout]; [done|exfalso].
    assert (0 < length rows') as Hlen.
    { unfold rows'. rewrite length_inbox_rows. apply Nat.min_glb_lt; [done|].
      apply Nat.neq_0_lt_0. intros Hz. rewrite sql_count_zero in Hz. specialize (Hz r Hr). unfold matching in Hm; congruence. }
    destruct rows' as [|x l] eqn:El; [simpl in Hlen; lia|].
    assert (x ∈ rows') as Hx by (rewrite El; by left).
    pose proof (inbox_rows_match _ _ _ _ _ _ _ _ Hx) as [Hxin _].
    assert (r_created r ≤ r_created x)%Z as Hle.
    { eapply inbox_rows_newest; [exact Hx|done|done|]. fold rows'. by rewrite El. }
    destruct (Hother x Hxin) as [->|(y & Hy & Hyc)]; [apply Hout; by left|].
    rewrite Forall_forall in Hold. specialize (Hold y Hy). simpl in Hold. lia.
Qed.

(** ** Updates that keep a row's place in a listing *)

Section mapped.
Context (f : row → row) (Hcr : ∀ r, r_created (f r) = r_created r).

Lemma by_created_fmap l : by_created (f <$> l) = f <$> by_created l.
Proof. apply sort_by_fmap. intros x y. by rewrite !Hcr. Qed.

Lemma by_created_desc_fmap l : by_created_desc (f <$> l) = f <$> by_created_desc l.
Proof. unfold by_created_desc. rewrite by_created_fmap. symmetry. apply map_rev. Qed.

Lemma select_fmap (p : row → bool) l :
  (∀ r, r ∈ l → p (f r) = p r) → select p (f <$> l) = f <$> select p l.
Proof.
  induction l as [|x l IH]; intros H; [done|]. rewrite fmap_cons, !select_cons, (H x) by left.
  rewrite IH by (intros y Hy; apply H; by right). by destruct (p x).
Qed.

Lemma inbox_rows_fmap listen reader unread limit res newest t q :
  (∀ r, r ∈ t_rows t → list_match listen reader unread res (f r) = list_match listen reader unread res r) →
  inbox_rows listen reader unread limit res newest (Table (f <$> t_rows t) q) =
  f <$> inbox_rows listen reader unread limit res newest t.
Proof.
  intros H. unfold inbox_rows, sql_select. cbn [t_rows]. rewrite select_fmap by done.
  rewrite by_created_desc_fmap, <- fmap_take.
  destruct newest; [apply by_created_desc_fmap|apply by_created_fmap].
Qed.
End mapped.

Lemma sql_update_fmap p g t :
  sql_update p g t = Table ((λ r, if p r then g r else r) <$> t_rows t) (t_seq t).
Proof. done. Qed.

(** The shape every message's reader list has. *)
Definition reader_list_ok (r : row) : Prop :=
  match md_get (r_meta r) "read_by" with Some (JArr _) | None => True | _ => False end.

Lemma md_has_set_ne m k k' v x : k ≠ k' → md_has (md_set m k v) k' x = md_has m k' x.
Proof. intros H. unfold md_has. by rewrite md_get_set_ne. Qed.

Lemma ack_meta_read who m : md_has (ack_meta who m) "read_by" who = true.
Proof.
  unfold ack_meta, md_has. rewrite md_get_set_eq. destruct (md_get m "read_by") as [j|].
  - destruct (jhas j who) eqn:E; [done|apply jhas_append].
  - simpl. by rewrite bool_decide_eq_true_2.
Qed.

Lemma ack_meta_other who who' r :
  reader_list_ok r → who ≠ who' →
  md_has (ack_meta who (r_meta r)) "read_by" who' = md_has (r_meta r) "read_by" who'.
Proof.
  unfold reader_list_ok, ack_meta, md_has. rewrite md_get_set_eq. intros Hok Hne.
  destruct (md_get (r_meta r) "read_by") as [j|].
  - destruct j; try done. destruct (jhas _ who); [done|]. by apply jhas_append_ne.
  - simpl. by rewrite bool_decide_eq_false_2.
Qed.

Lemma ack_meta_idem who m : ack_meta who (ack_meta who m) = ack_meta who m.
Proof.
  pose proof (ack_meta_read who m) as H. unfold ack_meta at 1. unfold md_has in H.
  destruct (md_get (ack_meta who m) "read_by") as [j|] eqn:E; [|done]. rewrite H.
  unfold ack_meta, md_set in *. simpl in *. f_equal. by apply insert_id.
Qed.

Lemma ack_match listen reader unread res who r :
  (∀ w, reader = Some w → unread = true → read_by w (set_meta (ack_meta who (r_meta r)) r) = read_by w r) →
  list_match listen reader unread res (set_meta (ack_meta who (r_meta r)) r) = list_match listen reader unread res r.
Proof.
  intros H. unfold list_match.
  assert (∀ k, k ≠ "read_by" → md_text (ack_meta who (r_meta r)) k = md_text (r_meta r) k) as Htext.
  { intros k Hk. unfold ack_meta. by rewrite md_text_set_ne. }
  assert (is_archived (set_meta (ack_meta who (r_meta r)) r) = is_archived r) as ->.
  { unfold is_archived. cbn [set_meta r_meta]. apply md_bool_ext. by apply Htext. }
  assert (is_open (set_meta (ack_meta who (r_meta r)) r) = is_open r) as ->.
  { unfold is_open, md_text_or. cbn [set_meta r_meta]. by rewrite Htext. }
  cbn [set_meta r_pk is_mail]. f_equal. destruct unread; [|done]. destruct reader as [w|]; [|done].
  by rewrite (H w).
Qed.

(** An ack is personal and idempotent: acking a message hides it from its
    reader's unread listing for good, leaves every other reader's listing
    (unread or not) message for message as it was, and acking it again
    changes nothing. *)
Lemma ack_is_personal expand id who t found t' :
  Forall reader_list_ok (t_rows t) →
  inbox_ack id who t = (found, t') →
  (∀ listen limit res newest, id ∉ m_id <$> (inbox_list expand listen (Some who) true limit res newest false false t').1) ∧
  (∀ listen reader unread limit res newest, reader ≠ Some who ∨ unread = false →
     (λ r, r_key r) <$> inbox_rows listen reader unread limit res newest t' =
     (λ r, r_key r) <$> inbox_rows listen reader unread limit res newest t) ∧
  (inbox_ack id who t').2 = t'.
Proof.
  intros Hok H. unfold inbox_ack in H. injection H as _ <-.
  set (g := λ r, set_meta (ack_meta who (r_meta r)) r).
  split_and!.
  - intros listen limit res newest. unfold inbox_list.
    destruct (length listen == 0); [apply not_elem_of_nil|]. cbn [fst]. unfold _mark_handled.
    rewrite <- !list_fmap_compose. intros (r & Hid & Hr)%list_elem_of_fmap. cbn [compose] in Hid.
    rewrite mark_handled_id in Hid. cbn in Hid.
    apply inbox_rows_match in Hr as [Hin Hm].
    apply elem_of_update_where in Hin as (x & Hx & ->).
    destruct (is_message id x) eqn:E.
    + unfold list_match in Hm. apply andb_true_iff in Hm as [_ Hm]. unfold read_by in Hm.
      unfold g in Hm. cbn [set_meta r_meta] in Hm. by rewrite ack_meta_read in Hm.
    + unfold list_match in Hm. rewrite !andb_true_iff in Hm. destruct Hm as [[[[Hmail _] _] _] _].
      unfold is_message in E. rewrite Hmail, Hid in E. by rewrite bool_decide_eq_true_2 in E.
  - intros listen reader unread limit res newest Hne. rewrite sql_update_fmap.
    rewrite inbox_rows_fmap.
    + rewrite <- list_fmap_compose. apply list_fmap_ext. intros _ r _. cbn [compose].
      by destruct (is_message id r).
    + intros r. by destruct (is_message id r).
    + intros r Hr. destruct (is_message id r); [|done]. unfold g. apply ack_match. intros w -> ->.
      destruct Hne as [Hne|]; [|done]. unfold read_by. cbn [set_meta r_meta].
      rewrite Forall_forall in Hok. apply ack_meta_other; [by apply Hok|congruence].
  - unfold inbox_ack. cbn [snd]. apply sql_update_id. intros y (x & Hx & ->)%elem_of_update_where Hy.
    destruct (is_message id x) eqn:E.
    + unfold g, set_meta at 1. cbn [set_meta r_meta]. by rewrite ack_meta_idem.
    + change (is_message id x = true) in Hy. congruence.
Qed.

(** ** Draining *)

Lemma resolve_meta_status now who m : md_text (resolve_meta now who m) "status" = Some INBOX_RESOLVED.
Proof.
  unfold resolve_meta. rewrite md_text_merge.
  assert ((<["status" := JStr INBOX_RESOLVED]> {["resolved_at" := JTime now]} : jobj) !! "status"
    = Some (JStr INBOX_RESOLVED)) as Hb by (by rewrite lookup_insert_eq).
  destruct who as [w|].
  - destruct (md_has m "read_by" w).
    + by rewrite (lookup_insert_ne _ "resolved_by") by done; rewrite Hb.
    + rewrite (lookup_insert_ne _ "read_by") by done. by rewrite (lookup_insert_ne _ "resolved_by") by done; rewrite Hb.
  - by rewrite Hb.
Qed.

Lemma resolve_meta_text now who m k :
  k ∉ ["status"; "resolved_at"; "resolved_by"; "read_by"] →
  md_text (resolve_meta now who m) k = md_text m k.
Proof.
  intros Hk. rewrite !not_elem_of_cons in Hk. destruct Hk as (H1 & H2 & H3 & H4 & _).
  unfold resolve_meta. rewrite md_text_merge.
  destruct who as [w|]; [destruct (md_has m "read_by" w)|]; by simplify_map_eq.
Qed.

Lemma resolved_not_open now who r : is_open (set_meta (resolve_meta now who (r_meta r)) r) = false.
Proof. unfold is_open, md_text_or. cbn [set_meta r_meta]. by rewrite resolve_meta_status. Qed.

(** Resolving a message or a thread drains it and nothing else: the
    message leaves every reader's default listing and every unread count;
    resolving a thread only ever touches mail addressed to the caller's own
    addresses, touches all of its open mail in that thread, reports how
    many, and a second call finds nothing; no body is lost. *)
Lemma resolve_drains expand now now2 id thread listen who t :
  let '(_, t1) := inbox_resolve now id who t in
  let '(n, t2) := inbox_resolve_thread expand now thread listen who t in
  (∀ l reader unread limit newest, id ∉ m_id <$> (inbox_list expand l reader unread limit false newest false false t1).1) ∧
  (∀ r, r ∈ t_rows t1 → is_message id r = true → is_open r = false) ∧
  Forall2 (λ r r', r_id r' = r_id r ∧ r_pk r' = r_pk r ∧ r_value r' = r_value r ∧ r_created r' = r_created r ∧
             (r' = r ∨ is_open r = true ∧ is_open r' = false ∧ md_text (r_meta r) "thread_id" = Some thread ∧
                r_user r ∈ plain_set expand (filter (λ a, nonempty a = true) listen)))
          (t_rows t) (t_rows t2) ∧
  (thread ≠ "" → ∀ r, r ∈ t_rows t2 → is_mail r = true →
     r_user r ∈ plain_set expand (filter (λ a, nonempty a = true) listen) →
     md_text (r_meta r) "thread_id" = Some thread → is_open r = false) ∧
  inbox_resolve_thread expand now2 thread listen who t2 = (0, t2).
Proof.
  unfold inbox_resolve, inbox_resolve_thread.
  set (L := plain_set expand (filter (λ a, nonempty a = true) listen)).
  set (f := λ r, set_meta (resolve_meta now who (r_meta r)) r).
  set (t1 := sql_update (is_message id) f t).
  assert (∀ r, r ∈ t_rows t1 → is_message id r = true → is_open r = false) as Hdrained.
  { intros y (x & Hx & ->)%elem_of_update_where Hy. destruct (is_message id x) eqn:E.
    - apply resolved_not_open.
    - congruence. }
  assert (∀ l reader unread limit newest,
    id ∉ m_id <$> (inbox_list expand l reader unread limit false newest false false t1).1) as Hgone.
  { intros l reader unread limit newest. unfold inbox_list.
    destruct (length l == 0); [apply not_elem_of_nil|]. cbn [fst]. unfold _mark_handled.
    rewrite <- !list_fmap_compose. intros (r & Hid & Hr)%list_elem_of_fmap. cbn [compose] in Hid.
    rewrite mark_handled_id in Hid. cbn in Hid. apply inbox_rows_match in Hr as [Hin Hm].
    unfold list_match in Hm. rewrite !andb_true_iff in Hm. destruct Hm as [[[[Hmail _] _] Ho] _].
    rewrite (Hdrained r) in Ho; [done|done|]. unfold is_message. rewrite Hmail, Hid.
    by rewrite bool_decide_eq_true_2. }
  assert (∀ l, Forall2 (λ r r', r_id r' = r_id r ∧ r_pk r' = r_pk r ∧ r_value r' = r_value r ∧ r_created r' = r_created r ∧
      (r' = r ∨ is_open r = true ∧ is_open r' = false ∧ md_text (r_meta r) "thread_id" = Some thread ∧ r_user r ∈ L)) l l) as Hrefl.
  { intros l. apply Forall2_same. intros r _. by split_and!; try left. }
  destruct (negb (nonempty thread) || (length L == 0)) eqn:E0.
  - cbv zeta. split_and!; [done|done|apply Hrefl| |done].
    intros Hne r _ _ Hu. apply orb_true_iff in E0 as [E0|E0].
    + destruct thread; done.
    + apply bool_decide_eq_true, length_zero_iff_nil in E0. rewrite E0 in Hu. by apply elem_of_nil in Hu.
  - set (p := in_thread L thread). cbv zeta.
    assert (∀ r, r ∈ t_rows (sql_update p f t) → p r = false) as Hno.
    { intros y (x & Hx & ->)%elem_of_update_where. destruct (p x) eqn:Ep; [|done].
      unfold p, in_thread, f. rewrite resolved_not_open. by rewrite andb_false_r. }
    split_and!; [done|done| | |].
    + cbn [sql_update t_rows]. unfold update_where. apply Forall2_fmap_r, Forall2_same.
      intros r _. cbn [compose]. destruct (p r) eqn:Ep; [|split_and!; first [done|by left]].
      split_and!; [done..|]. right. unfold p, in_thread in Ep. rewrite !andb_true_iff in Ep.
      destruct Ep as [[[_ Hu] Ht] Ho]. bprop. split_and!; [done|apply resolved_not_open|done|done].
    + intros _ r Hr Hmail Hu Ht. specialize (Hno r Hr). unfold p, in_thread in Hno.
      rewrite Hmail, Ht in Hno. rewrite (bool_decide_eq_true_2 (r_user r ∈ L)) in Hno by done.
      by rewrite bool_decide_eq_true_2 in Hno.
    + f_equal; [by apply sql_count_zero|]. by apply sql_update_nop.
Qed.

(** Message ids are distinct: each message key names one row. *)
Definition mail_keys_unique (t : table) : Prop :=
  ∀ r r', r ∈ t_rows t → r' ∈ t_rows t → is_mail r = true → is_mail r' = true → r_key r = r_key r' → r = r'.

(** The sweep, by the predicate it selects with. *)
Lemma sweep_outcome now hours who batch t n t' :
  wf t → mail_keys_unique t →
  inbox_autoresolve_stale now hours who batch t = (n, t') →
  n ≤ batch ∧ n ≤ sql_count (sweepable now hours) t ∧
  Forall2 (λ r r', r_pk r' = r_pk r ∧ r_id r' = r_id r ∧ r_value r' = r_value r ∧ r_created r' = r_created r ∧
      (r' = r ∨ sweepable now hours r = true ∧ is_open r' = false ∧ md_text (r_meta r') "resolved_by" = Some who))
    (t_rows t) (t_rows t') ∧
  (∀ r r0, r ∈ t_rows t → r0 ∈ t_rows t → sweepable now hours r = true → sweepable now hours r0 = true →
     r0 ∈ t_rows t' → r ∉ t_rows t' → (r_created r ≤ r_created r0)%Z).
Proof.
  intros Hwf Huniq H. unfold inbox_autoresolve_stale in H.
  set (sw := by_created (sql_select (sweepable now hours) t)) in H.
  set (keys := (λ r, r_key r) <$> take batch sw) in H.
  set (p := λ r, (r_key r isin keys) && is_mail r) in H.
  set (f := λ r, set_meta _ r) in H. injection H as <- <-.
  assert (∀ r, r ∈ sw ↔ sweepable now hours r = true ∧ r ∈ t_rows t) as Hsw.
  { intros r. unfold sw. by rewrite by_created_Permutation, elem_of_sql_select. }
  assert (∀ r, sweepable now hours r = true → is_mail r = true) as Hmail.
  { intros r Hr. unfold sweepable in Hr. rewrite !andb_true_iff in Hr. tauto. }
  assert (∀ r, r ∈ t_rows t → p r = true ↔ r ∈ take batch sw) as Hp.
  { intros r Hr. unfold p, keys. rewrite andb_true_iff, bool_decide_eq_true, list_elem_of_fmap. split.
    - intros [(x & Hk & Hx) Hm]. pose proof Hx as Hx0. apply elem_of_take in Hx0 as (i & Hi & _).
      apply list_elem_of_lookup_2, Hsw in Hi as [Hs Hin].
      rewrite (Huniq r x); [done|done|done|done|by apply Hmail|done].
    - intros Hx. pose proof Hx as Hx0. apply elem_of_take in Hx0 as (i & Hi & _).
      apply list_elem_of_lookup_2, Hsw in Hi as [Hs _]. split; [by exists r|by apply Hmail]. }
  assert (∀ x, is_open (f x) = false ∧ md_text (r_meta (f x)) "resolved_by" = Some who) as Hf.
  { intros x. unfold f, is_open, md_text_or. cbn [set_meta r_meta]. by rewrite !md_text_merge. }
  assert (NoDup (t_rows t)) as Hnd by (apply (NoDup_fmap_1 r_id); apply Hwf).
  assert (sql_count p t ≤ length (take batch sw)) as Hcount.
  { unfold sql_count. apply submseteq_length, NoDup_submseteq.
    - by apply NoDup_filter.
    - intros r [Hpr Hin]%elem_of_sql_select. by apply Hp. }
  split_and!.
  - etrans; [exact Hcount|]. rewrite length_take. lia.
  - etrans; [exact Hcount|]. rewrite length_take. unfold sw. rewrite by_created_Permutation. unfold sql_count. lia.
  - cbn [sql_update t_rows]. unfold update_where. apply Forall2_fmap_r, Forall2_same.
    intros r Hr. cbn [compose]. destruct (p r) eqn:Ep; [|split_and!; first [done|by left]].
    split_and!; try done. right. apply Hp in Ep; [|done]. apply elem_of_take in Ep as (i & Hi & _).
    apply list_elem_of_lookup_2, Hsw in Hi as [Hs _]. split; [done|]. apply Hf.
  - intros r r0 Hr Hr0 Hs Hs0 Hin0 Hnin.
    assert (p r = true) as Hpr.
    { apply not_false_iff_true. intros E. apply Hnin, elem_of_update_where. exists r. by rewrite E. }
    assert (p r0 = false) as Hpr0.
    { apply not_true_is_false. intros E. apply elem_of_update_where in Hin0 as (x & Hx & Heq).
      destruct (p x) eqn:Ex.
      - assert (is_open r0 = false) as Ho by (rewrite Heq; apply Hf).
        unfold sweepable in Hs0. rewrite Ho in Hs0. by rewrite andb_false_r in Hs0.
      - congruence. }
    apply Hp in Hpr; [|done].
    assert (r0 ∈ drop batch sw) as Hdrop.
    { assert (r0 ∈ sw) as Hin by (by apply Hsw). rewrite <- (take_drop batch sw) in Hin.
      apply elem_of_app in Hin as [Hin|?]; [|done]. apply Hp in Hin; [congruence|done]. }
    pose proof (by_created_sorted (sql_select (sweepable now hours) t)) as Hsort. fold sw in Hsort.
    rewrite <- (take_drop batch sw) in Hsort. by apply (sorted_app_older _ _ Hsort).
Qed.

(** The stale sweep is safe: every message it resolves was open, not
    archived, already read by somebody and older than the threshold; unread
    mail, however old, and every other row stay exactly as they are; at most
    a batch is resolved, oldest first, the count is reported, and no body is
    lost. *)
Lemma sweep_only_read now hours who batch t n t' :
  wf t → mail_keys_unique t →
  inbox_autoresolve_stale now hours who batch t = (n, t') →
  n ≤ batch ∧ n ≤ sql_count (sweepable now hours) t ∧
  Forall2 (λ r r', r_pk r' = r_pk r ∧ r_id r' = r_id r ∧ r_value r' = r_value r ∧ r_created r' = r_created r ∧
      (r' = r ∨ (is_mail r = true ∧ is_open r = true ∧ is_archived r = false ∧
                 0 < md_array_length (r_meta r) "read_by" ∧ (r_created r < now - 3600 * hours)%Z) ∧
                is_open r' = false ∧ md_text (r_meta r') "resolved_by" = Some who))
    (t_rows t) (t_rows t') ∧
  (∀ r r0, r ∈ t_rows t → r0 ∈ t_rows t → sweepable now hours r = true → sweepable now hours r0 = true →
     r0 ∈ t_rows t' → r ∉ t_rows t' → (r_created r ≤ r_created r0)%Z).
Proof.
  intros Hwf Hu H. destruct (sweep_outcome now hours who batch t n t' Hwf Hu H) as (H1 & H2 & H3 & H4).
  split_and!; [done..| |done]. eapply Forall2_impl; [exact H3|].
  intros r r' (Hpk & Hid & Hv & Hc & Hor). split_and!; try done.
  destruct Hor as [->|[Hs Hr]]; [by left|right]. split; [|done].
  unfold sweepable in Hs. rewrite !andb_true_iff, negb_true_iff, Nat.ltb_lt, Z.ltb_lt in Hs. tauto.
Qed.

(** The banner's count and the listing describe the same mail: for a
    reader named in lower case that does not listen on a bare shared admin
    role, the unread count is the number of messages the unread listing shows
    when nothing is cut. *)
Lemma unread_count_agrees expand listen reader limit newest t :
  admin_listen_expansion (lower <$> listen) = [] →
  lower reader = reader → reader ≠ "" → listen ≠ [] →
  inbox_unread_count expand listen (Some reader) t ≤ limit →
  length (inbox_list expand listen (Some reader) true limit false newest false false t).1
    = inbox_unread_count expand listen (Some reader) t.
Proof.
  intros Hadm Hlow Hne Hlis Hlim.
  assert (reader_set expand listen = plain_set expand listen) as Hset.
  { unfold reader_set, plain_set. by rewrite Hadm, app_nil_r. }
  assert (truthy (Some reader) = true) as Htr by (by destruct reader).
  assert (inbox_unread_count expand listen (Some reader) t =
    sql_count (list_match (reader_set expand listen) (Some reader) true false) t) as Hc.
  { unfold inbox_unread_count. rewrite bool_decide_eq_false_2.
    - rewrite Htr, Hset. unfold sql_count, sql_select. f_equal. apply select_ext. intros r _.
      unfold list_match. change (or_empty (Some reader)) with reader. rewrite Hlow. done.
    - unfold plain_set. destruct listen; [done|]. simpl. lia. }
  unfold inbox_list. rewrite bool_decide_eq_false_2 by (by destruct listen). cbn [fst].
  unfold _mark_handled. rewrite !length_fmap, length_inbox_rows, Hc. rewrite Hc in Hlim. lia.
Qed.

(** The verdict on an ask states facts only: a letter is marked handled
    just when it was resolved or superseded, or when an answer-class message
    by another speaker answers it (or, for a letter that started its thread,
    sits in its thread); only such a letter is ever marked unhandled, and one
    in the middle of a thread with no answer stays unknown; a sender's own
    follow-up never handles its own ask. *)
Lemma handled_verdict t m :
  m_handled m = None →
  let m' := mark_handled_one t m in
  (m_handled m' = Some true ↔
     is_ask m = true ∧
     (m_status m ∈ ["resolved"; "superseded"] ∨
      ∃ r, r ∈ t_rows t ∧ answer_row r = true ∧ other_speaker m r = true ∧
        (md_text (r_meta r) "in_reply_to" = Some (m_id m) ∨
         is_root m = true ∧ md_text (r_meta r) "thread_id" = Some (m_id m) ∧ r_key r ≠ m_id m))) ∧
  (m_handled m' = Some false → is_ask m = true ∧ is_root m = true) ∧
  (is_ask m = true → is_root m = false → m_handled m' ≠ Some false).
Proof.
  intros Hm m'. unfold m', mark_handled_one.
  assert (replied_to t m = true ↔ ∃ r, r ∈ t_rows t ∧ answer_row r = true ∧ other_speaker m r = true ∧
    md_text (r_meta r) "in_reply_to" = Some (m_id m)) as Hrep.
  { unfold replied_to. rewrite existsb_exists. split.
    - intros (r & Hr & H). exists r. rewrite list_elem_of_In. rewrite !andb_true_iff, bool_decide_eq_true in H. tauto.
    - intros (r & Hr & H). exists r. rewrite <- list_elem_of_In. rewrite !andb_true_iff, bool_decide_eq_true. tauto. }
  assert (replied_in_thread t m = true ↔ ∃ r, r ∈ t_rows t ∧ answer_row r = true ∧ other_speaker m r = true ∧
    md_text (r_meta r) "thread_id" = Some (m_id m) ∧ r_key r ≠ m_id m) as Hthr.
  { unfold replied_in_thread. rewrite existsb_exists. split.
    - intros (r & Hr & H). exists r. rewrite list_elem_of_In.
      rewrite !andb_true_iff, negb_true_iff, bool_decide_eq_true, bool_decide_eq_false in H. tauto.
    - intros (r & Hr & H). exists r. rewrite <- list_elem_of_In.
      rewrite !andb_true_iff, negb_true_iff, bool_decide_eq_true, bool_decide_eq_false. tauto. }
  destruct (is_ask m) eqn:Ea; cbn [negb].
  2:{ rewrite Hm. split_and!; [split; [done|by intros [? _]]|done|done]. }
  destruct (decide (m_status m ∈ ["resolved"; "superseded"])) as [Hs|Hs].
  { rewrite bool_decide_eq_true_2 by done. cbn [set_handled m_handled]. split_and!; [|done|done]. by split; auto. }
  rewrite bool_decide_eq_false_2 by done.
  destruct (replied_to t m) eqn:Er.
  { cbn [set_handled m_handled]. split_and!; [|done|done]. split; [|done]. intros _. split; [done|]. right.
    destruct (proj1 Hrep eq_refl) as (r & H1 & H2 & H3 & H4). exists r. tauto. }
  assert (¬ ∃ r, r ∈ t_rows t ∧ answer_row r = true ∧ other_speaker m r = true ∧
    md_text (r_meta r) "in_reply_to" = Some (m_id m)) as Hnr by (rewrite <- Hrep; done).
  destruct (is_root m) eqn:Eo.
  - destruct (replied_in_thread t m) eqn:Et; cbn [set_handled m_handled].
    + split_and!; [|done|done]. split; [|done]. intros _. split; [done|]. right.
      destruct (proj1 Hthr eq_refl) as (r & H1 & H2 & H3 & H4 & H5). exists r. tauto.
    + split_and!; [|done|done]. split; [done|]. intros [_ [?|(r & H1 & H2 & H3 & [H4|(_ & H4 & H5)])]]; [done| |].
      * destruct Hnr. by exists r.
      * assert (false = true); [|done]. apply Hthr. by exists r.
  - rewrite Hm. split_and!; [|done|done]. split; [done|].
    intros [_ [?|(r & H1 & H2 & H3 & [H4|(? & _)])]]; [done| |done]. destruct Hnr. by exists r.
Qed.

(** ** Witnesses *)

Definition ex_mail (to : string) (from : string) (intent thread reply : option string) : send_args :=
  SendArgs to "please look" "s" (Some from) thread None None false intent [] None None None None None reply false None.

Definition sent (now : Z) (uid : string) (a : send_args) (t : table) : table :=
  match inbox_send now uid a t with Done (_, t') => t' | Raise _ => t end.

Definition ex_expand : list string → list string := expand_listen_set ∅ (λ _, []).

(** An ask from "ann" to "hal", then its answer in the thread the ask started. *)
Definition ex_box : table := sent 100 "1" (ex_mail "Hal" "ann" (Some "action") None None) empty_table.
Definition ex_box2 : table :=
  sent 200 "2" (ex_mail "ann" "hal" (Some "action") (Some "inbox/1") (Some "inbox/1")) ex_box.

Lemma ex_box_wf : wf ex_box.
Proof. split_and!; [vm_compute; repeat constructor; set_solver..|]. by repeat constructor. Qed.

Lemma reader_lists_ok l :
  forallb (λ r, match md_get (r_meta r) "read_by" with Some (JArr _) | None => true | _ => false end) l = true →
  Forall reader_list_ok l.
Proof.
  intros H. apply Forall_forall. intros r Hr. rewrite forallb_forall in H.
  specialize (H r (proj1 (list_elem_of_In _ _) Hr)). unfold reader_list_ok.
  destruct (md_get (r_meta r) "read_by") as [[]|]; done.
Qed.

Definition ex_blank : row := mk_row 0 0 (NewRow (PKey "" "" "" "" None) "" "" "" "" None None None).
Definition ex_ask : inbox_message := _row_to_inbox_message (default ex_blank (t_rows ex_box2 !! 0)).
Definition ex_answer : row := default ex_blank (t_rows ex_box2 !! 1).

(** ** Where the code departs from what it says *)

(** A reader on the bare shared admin role: the listing shows mail to
    "admin@fleet", the count does not see it. *)
Definition ex_admin_box : table := sent 100 "9" (ex_mail "admin@fleet" "ann" None None None) empty_table.

Lemma admin_count_disagrees :
  inbox_unread_count ex_expand ["admin"] (Some "hal") ex_admin_box = 0 ∧
  length (inbox_list ex_expand ["admin"] (Some "hal") true 20 false true false false ex_admin_box).1 = 1.
Proof. by vm_compute. Qed.

(** A letter that starts a thread carries no thread id, so its answer is not
    seen by [unanswered_asks], and resolving the thread leaves it open. *)
Lemma root_ask_reported_unanswered :
  reply_thread_of (Some "inbox/1") ex_box = Some "inbox/1" ∧
  (λ r, r_key r) <$> unanswered_asks 100000 3600 10 ex_box2 = ["inbox/1"; "inbox/2"].
Proof. by vm_compute. Qed.

Lemma resolve_thread_leaves_root :
  (inbox_resolve_thread ex_expand 300 "inbox/1" ["hal"] (Some "hal") ex_box2).1 = 0 ∧
  length (inbox_list ex_expand ["hal"] (Some "hal") true 20 false true false false
    (inbox_resolve_thread ex_expand 300 "inbox/1" ["hal"] (Some "hal") ex_box2).2).1 = 1.
Proof. by vm_compute. Qed.
