(* ===== verification/WatchClaim.v ===== *)
(** Watch claims (src/server/services/watch_claim.py): one watcher holds the
    watch of a seat, granted by the store and kept by beats.

    A claim is a row of the [memories] table. Each operation is the SQL
    statements of the source in their order; [watch_claim] runs them without
    interruption, and [watch_step] lets the statements of several clients and
    of the rest of the server interleave one by one.

    The application's clock and the database's [NOW()] are one argument
    [now], in whole seconds. A watermark ([fetched_through]) is the instant
    its client read from a message. *)

From stdpp Require Import base gmap list strings.
From Stdlib Require Import ZArith Lia Ascii.
From S2P Require Import Prelude PyString Json Store Inbox.

Definition WATCH_NAMESPACE : string := INBOX_NAMESPACE.
Definition WATCH_SCOPE : string := "watch".
Definition WATCH_USER_ID : string := "global".
Definition WATCH_EXPIRY_SECONDS : Z := 150.
Definition MUTE_GRACE_SECONDS : Z := 600.
Definition MUTE_LOOKBACK_SECONDS : Z := 6 * 3600.
Definition SEAT_SCOPE : string := "seat".
Definition SEAT_USER_ID : string := "global".
Definition SEAT_EXEMPT_IDENTITIES : list string := ["admin"].

(** ** The box a shared-role watcher serves *)

Definition machine_host (a : string) : option string :=
  h ← drop_prefix "machine:" (norm (Some a)); if nonempty h then Some h else None.

Definition seat_host (seat a : string) : option string :=
  h ← drop_prefix (seat +:+ "@") (norm (Some a));
  if nonempty h && (h != "fleet") then Some h else None.

(** [(host or "").strip().lower().split(".", 1)[0] or None] *)
Definition short_host (host : option string) : option string :=
  let h := before "." (norm host) in if nonempty h then Some h else None.

Definition watch_host_of (seat : string) (listen_set : list string) (host : option string)
  : option string :=
  match head (omap machine_host listen_set) with
  | Some h => Some h
  | None => match head (omap (seat_host seat) listen_set) with
            | Some h => Some h
            | None => short_host host
            end
  end.

Definition is_exempt (seat : string) : bool := seat isin SEAT_EXEMPT_IDENTITIES.

Definition _claim_key (seat : string) (listen_set : list string) (host : option string) : string :=
  match (if is_exempt seat then watch_host_of seat listen_set host else None) with
  | Some h => "watch/" +:+ seat +:+ "@" +:+ h
  | None => "watch/" +:+ seat
  end.

(** ** Rows *)

Definition is_watch (r : row) : bool :=
  (r_ns r == WATCH_NAMESPACE) && (r_scope r == WATCH_SCOPE) && (r_user r == WATCH_USER_ID).

(** The claim row(s) of one key. *)
Definition at_claim (key : string) (r : row) : bool := is_watch r && (r_key r == key).

(** A seat's claim rows, whatever the box. *)
Definition _shared_key_clause (seat : string) (r : row) : bool :=
  (r_key r == "watch/" +:+ seat)
  || (is_exempt seat && startswith ("watch/" +:+ seat +:+ "@") (r_key r)).

Record claim := Claim {
  c_seat : string;
  c_nonce : string;
  c_armed_by : string;
  c_project_dir : string;
  c_listen : list string;
  c_host : option string;
  c_seat_nonce : option string
}.

Definition _row_meta (now : Z) (c : claim) : jobj := list_to_map [
  ("kind", JStr "watch");
  ("seat", JStr (c_seat c));
  ("nonce", JStr (c_nonce c));
  ("armed_by", JStr (c_armed_by c));
  ("project_dir", JStr (c_project_dir c));
  ("listen_set", JArr (JStr <$> c_listen c));
  ("host", jopt (c_host c));
  ("seat_nonce", jopt (c_seat_nonce c));
  ("claimed_at", JTime now);
  ("last_beat", JTime now)].

Definition claim_key (c : claim) : string := _claim_key (c_seat c) (c_listen c) (c_host c).

(** [[a.strip().lower() for a in l if a and a.strip()]] *)
Definition normalized (l : list string) : list string :=
  omap (λ a, if nonempty (strip a) then Some (lower (strip a)) else None) l.

(** ** Statements of a claim *)

Definition claim_row (now : Z) (c : claim) : new_row :=
  NewRow (PKey WATCH_NAMESPACE (claim_key c) WATCH_SCOPE WATCH_USER_ID (Some ""))
    "watch" "" "" "" None (Some (_row_meta now c)) None.

(** The free-slot INSERT. *)
Definition claim_insert (now : Z) (c : claim) (t : table) : bool * table :=
  match sql_insert_nothing now (claim_row now c) t with
  | (Some _, t') => (true, t')
  | (None, t') => (false, t')
  end.

(** The incumbent has not beaten for longer than the expiry. *)
Definition expired (now : Z) (w : row) : bool :=
  match md_time (r_meta w) "last_beat" with
  | Some b => (b <? now - WATCH_EXPIRY_SECONDS)%Z
  | None => false
  end.

Definition is_seat_row (seat : string) (r : row) : bool :=
  (r_ns r == WATCH_NAMESPACE) && (r_scope r == SEAT_SCOPE) && (r_user r == SEAT_USER_ID)
  && (r_key r == "seat/" +:+ seat).

(** The claimant is the register's occupant of the seat and the incumbent is not. *)
Definition follows_seat (c : claim) (t : table) (w : row) : bool :=
  match c_seat_nonce c with
  | Some n => (md_text (r_meta w) "seat_nonce" != Some n)
              && existsb (λ s, is_seat_row (c_seat c) s
                               && (md_text (r_meta s) "session_nonce" == Some n)) (t_rows t)
  | None => false
  end.

(** [GREATEST(COALESCE(fetched_through, claimed_at), NOW() - lookback)]; NULLs are ignored. *)
Definition mute_floor (now : Z) (w : row) : Z :=
  let lookback := (now - MUTE_LOOKBACK_SECONDS)%Z in
  match md_time (r_meta w) "fetched_through", md_time (r_meta w) "claimed_at" with
  | Some f, _ => Z.max f lookback
  | None, Some a => Z.max a lookback
  | None, None => lookback
  end.

(** [jsonb_array_elements_text(metadata->'k')] *)
Definition md_elements (m : option jobj) (k : string) : list string :=
  match md_get m k with
  | Some (JArr l) => omap jtext l
  | _ => []
  end.

(** Mail the incumbent should have fetched. *)
Definition waits_for (now : Z) (w m : row) : bool :=
  is_mail m && (r_user m isin md_elements (r_meta w) "listen_set") && negb (is_archived m)
  && (r_created m <? now - MUTE_GRACE_SECONDS)%Z && (mute_floor now w <? r_created m)%Z.

Definition mute (now : Z) (t : table) (w : row) : bool := existsb (waits_for now w) (t_rows t).

Definition stealable (now : Z) (c : claim) (t : table) (w : row) : bool :=
  expired now w || follows_seat c t w || mute now t w.

(** The compare-and-swap UPDATE. *)
Definition claim_steal (now : Z) (c : claim) (t : table) : bool * table :=
  let p w := at_claim (claim_key c) w && stealable now c t w in
  (negb (sql_count p t == 0),
   sql_update p (λ w, set_used now (set_meta (Some (_row_meta now c)) w)) t).

(** ** The operations *)

Inductive displaced_reason := ClaimFollowsSeat | ExpiredOrMute.

Inductive claim_verdict :=
| PartialRefused (reason : string) (listen_set : option (list string))
| Granted (seat key : string) (expiry_seconds : Z)
| Stolen (seat key : string) (reason : displaced_reason) (expiry_seconds : Z) (catch_up_after : option Z)
| Held (seat key : string) (armed_by : option string) (since last_beat : option Z) (retry_after : Z).

(** The claim's row as [fetchrow] reads it. *)
Definition fetch_claim (key : string) (t : table) : option jobj :=
  w ← head (sql_select (at_claim key) t); r_meta w.

Definition why_displaced (c : claim) (prior : option jobj) : displaced_reason :=
  match c_seat_nonce c with
  | Some n => if md_get prior "seat_nonce" == Some (JStr n) then ExpiredOrMute else ClaimFollowsSeat
  | None => ExpiredOrMute
  end.

Definition catch_up (prior : option jobj) : option Z :=
  match md_time prior "fetched_through" with
  | Some f => Some f
  | None => md_time prior "claimed_at"
  end.

Definition retry_after (now : Z) (held : option jobj) : Z :=
  match md_time held "last_beat" with
  | None => WATCH_EXPIRY_SECONDS
  | Some b => Z.max 5 (Z.min WATCH_EXPIRY_SECONDS (b + WATCH_EXPIRY_SECONDS - now + 2))
  end.

Definition run_claim (now : Z) (c : claim) (t : table) : claim_verdict * table :=
  let key := claim_key c in
  match claim_insert now c t with
  | (true, t') => (Granted (c_seat c) key WATCH_EXPIRY_SECONDS, t')
  | (false, _) =>
      let prior := fetch_claim key t in
      match claim_steal now c t with
      | (true, t') =>
          (Stolen (c_seat c) key (why_displaced c prior) WATCH_EXPIRY_SECONDS (catch_up prior), t')
      | (false, t') =>
          let held := fetch_claim key t' in
          (Held (c_seat c) key (py_str held "armed_by") (md_time held "claimed_at")
             (md_time held "last_beat") (retry_after now held), t')
      end
  end.

Definition partial_reason (seat : string) : string :=
  "listen_set does not include the seat '" +:+ seat +:+ "' — a partial watch is not a watch "
  +:+ "(F10: a seat-addressed DM would never wake this watcher while the register showed it covered)".

(** [(seat_nonce or "").strip() or None] *)
Definition stripped (v : option string) : option string :=
  let s := strip (or_empty v) in if nonempty s then Some s else None.

(** The listen set hears the seat, as itself or qualified by a host. *)
Definition hears (seat : string) (listen : list string) : bool :=
  (seat isin listen) || (seat isin (before "@" <$> listen)).

Definition watch_claim (now : Z) (seat : option string) (nonce armed_by project_dir : string)
    (listen_set : list string) (host seat_nonce : option string) (t : table) : claim_verdict * table :=
  let seat := norm seat in
  if negb (nonempty seat) then (PartialRefused "empty seat" None, t)
  else
    let listen := normalized listen_set in
    if negb (hears seat listen) then (PartialRefused (partial_reason seat) (Some listen), t)
    else run_claim now (Claim seat nonce armed_by project_dir listen host (stripped seat_nonce)) t.

(** Whether a row is the seat's claim under this nonce. *)
Definition holds (seat nonce : string) (r : row) : bool :=
  is_watch r && _shared_key_clause seat r && (md_text (r_meta r) "nonce" == Some nonce).

Definition beat_stamp (now : Z) (fetched_through : option Z) : jobj :=
  match fetched_through with
  | None => {["last_beat" := JTime now]}
  | Some f => <["fetched_through" := JTime f]> {["last_beat" := JTime now]}
  end.

Inductive beat_verdict := Holder | Displaced.

Definition watch_beat (now : Z) (seat : option string) (nonce : string) (fetched_through : option Z)
    (t : table) : beat_verdict * table :=
  let seat := norm seat in
  (if sql_count (holds seat nonce) t == 0 then Displaced else Holder,
   sql_update (holds seat nonce)
     (λ r, set_used now (set_meta (md_merge_strict (r_meta r) (beat_stamp now fetched_through)) r)) t).

Inductive release_verdict := Released | NotHolder.

Definition watch_release (seat : option string) (nonce : string) (t : table) : release_verdict * table :=
  let seat := norm seat in
  (if sql_count (holds seat nonce) t == 0 then NotHolder else Released,
   sql_delete (holds seat nonce) t).

(** ** Status *)

Inductive watch_state := Covered | Expired | Unheld.

#[global] Instance watch_state_eq_dec : EqDecision watch_state.
Proof. solve_decision. Defined.

Record status := Status {
  s_state : watch_state;
  s_seat : string;
  s_armed_by : option string;
  s_listen_set : option json;
  s_project_dir : option string;
  s_last_beat : option Z;
  s_host : option string;
  s_held_elsewhere : list string
}.

(** [(metadata->>'last_beat')::timestamptz >= NOW() - expiry] *)
Definition fresh (now : Z) (r : row) : bool :=
  match md_time (r_meta r) "last_beat" with
  | Some b => (now - WATCH_EXPIRY_SECONDS <=? b)%Z
  | None => false
  end.

Definition row_host (seat : string) (r : row) : option string :=
  match (split1 "@" (r_key r)).2 with
  | Some h => Some h
  | None => watch_host_of seat (py_strs (r_meta r) "listen_set") (py_str (r_meta r) "host")
  end.

Definition of_seat (seat : string) (r : row) : bool := is_watch r && _shared_key_clause seat r.

(** [if seat in SEAT_EXEMPT_IDENTITIES and h]: the box asked about, if the answer is per box. *)
Definition asked_box (seat : string) (host : option string) : option string :=
  if is_exempt seat then short_host host else None.

Definition on_box (seat : string) (box : option string) (r : row) : bool :=
  match box with
  | Some h => row_host seat r == Some h
  | None => true
  end.

Definition elsewhere (now : Z) (seat : string) (box : option string) (rows : list row) : list string :=
  match box with
  | Some _ => sorted (dedup ((λ r, or_empty (py_or (row_host seat r) (Some "unknown"))) <$>
                select (λ r, negb (on_box seat box r) && fresh now r) rows))
  | None => []
  end.

Definition watch_status (now : Z) (seat : option string) (host : option string) (t : table) : status :=
  let seat := norm seat in
  let box := asked_box seat host in
  let rows := sql_select (of_seat seat) t in
  let mine := select (on_box seat box) rows in
  let away := elsewhere now seat box rows in
  match select (fresh now) mine ++ select (λ r, negb (fresh now r)) mine with
  | [] => Status Unheld seat None None None None None away
  | r :: _ =>
      Status (if fresh now r then Covered else Expired) seat (py_str (r_meta r) "armed_by")
        (md_get (r_meta r) "listen_set") (py_str (r_meta r) "project_dir")
        (md_time (r_meta r) "last_beat")
        (if is_exempt seat then row_host seat r else None) away
  end.
