(* ===== verification/WatchClaimProps.v ===== *)
(** What a watch claim guarantees: one holder per key under any interleaving
    of statements, exact verdicts, a retry time that is kept, and an honest
    three-valued status. *)

From stdpp Require Import base gmap list strings.
From Stdlib Require Import ZArith Lia Ascii.
From S2P Require Import Prelude PyString Json Store Inbox WatchClaim.

(** ** Interleaved statements *)

Inductive watch_event :=
| EInsert (c : claim)
| ESteal (c : claim)
| EBeat (seat : option string) (nonce : string)
| ERelease (seat : option string) (nonce : string)
| EOther.

(** One statement of one client, or anything else the server does that leaves
    the watch rows alone (mail arriving, the register re-seating a session). *)
Inductive watch_step : table → watch_event → table → Prop :=
| step_insert now c t : watch_step t (EInsert c) (claim_insert now c t).2
| step_steal now c t : watch_step t (ESteal c) (claim_steal now c t).2
| step_beat now seat nonce ft t : watch_step t (EBeat seat nonce) (watch_beat now seat nonce ft t).2
| step_release seat nonce t : watch_step t (ERelease seat nonce) (watch_release seat nonce t).2
| step_other t t' : wf t' → sql_select is_watch t' = sql_select is_watch t → watch_step t EOther t'.

Inductive watch_trace : table → list watch_event → table → Prop :=
| trace_nil t : watch_trace t [] t
| trace_cons t e t1 es t2 : watch_step t e t1 → watch_trace t1 es t2 → watch_trace t (e :: es) t2.

(** An event by which [n] asks for a watch. *)
Definition claims_with (n : string) (e : watch_event) : bool :=
  match e with
  | EInsert c | ESteal c => c_nonce c == n
  | _ => false
  end.

(** The index keeps one claim row per key: claims are written with one project. *)
Definition watch_wf (t : table) : Prop :=
  wf t ∧ ∀ r, r ∈ t_rows t → is_watch r = true → r_project r = Some "".

(** [n] is the nonce of a watch row. *)
Definition held_by (n : string) (r : row) : bool :=
  is_watch r && (md_text (r_meta r) "nonce" == Some n).

Section rows.
Implicit Types (t : table) (r w : row) (c : claim).

Lemma is_watch_true r :
  is_watch r = true ↔ r_ns r = WATCH_NAMESPACE ∧ r_scope r = WATCH_SCOPE ∧ r_user r = WATCH_USER_ID.
Proof. unfold is_watch. bprop. tauto. Qed.

Lemma is_watch_set m u r : is_watch (set_used u (set_meta m r)) = is_watch r.
Proof. done. Qed.

Lemma at_claim_true key r : at_claim key r = true ↔ is_watch r = true ∧ r_key r = key.
Proof. unfold at_claim. by bprop. Qed.

Lemma claim_pk t r :
  watch_wf t → r ∈ t_rows t → is_watch r = true →
  r_pk r = PKey WATCH_NAMESPACE (r_key r) WATCH_SCOPE WATCH_USER_ID (Some "").
Proof.
  intros [_ Hp] Hr Hw. specialize (Hp r Hr Hw). apply is_watch_true in Hw as (H1 & H2 & H3).
  destruct r as [? [] ? ? ? ? ? ? ? ? ? ?]. simpl in *. by subst.
Qed.

(** One row per claim key. *)
Lemma claim_unique t key r r' :
  watch_wf t → r ∈ t_rows t → r' ∈ t_rows t → at_claim key r = true → at_claim key r' = true → r = r'.
Proof.
  intros Hwf Hr Hr' [Hw Hk]%at_claim_true [Hw' Hk']%at_claim_true.
  eapply wf_row_eq; [apply Hwf|done..|]. rewrite (claim_pk t r), (claim_pk t r') by done.
  congruence.
Qed.

Lemma find_claim_None t c now :
  watch_wf t → sql_find (n_pk (claim_row now c)) t = None ↔
    ∀ r, r ∈ t_rows t → at_claim (claim_key c) r = false.
Proof.
  intros Hwf. rewrite sql_find_None. split; intros H r Hr.
  - destruct (at_claim (claim_key c) r) eqn:E; [|done]. exfalso. apply (H r Hr).
    apply at_claim_true in E as [Hw Hk]. rewrite (claim_pk t r) by done. by rewrite Hk.
  - intros Hpk. specialize (H r Hr). apply not_true_iff_false in H. apply H.
    apply at_claim_true. rewrite is_watch_true. by rewrite Hpk.
Qed.

Lemma md_text_nonce now c : md_text (Some (_row_meta now c)) "nonce" = Some (c_nonce c).
Proof. done. Qed.

Lemma md_text_beat m now ft :
  md_text (md_merge_strict m (beat_stamp now ft)) "nonce" = md_text m "nonce".
Proof.
  destruct m as [m|]; [|done]. unfold md_merge_strict, md_text. cbn [mbind option_bind].
  rewrite lookup_union_r; [done|]. by destruct ft.
Qed.

Lemma watch_wf_update p f t :
  KeepsKeys f → watch_wf t → watch_wf (sql_update p f t).
Proof.
  intros Hk [Hwf Hp]. split; [by apply wf_update|].
  intros y (x & Hx & ->)%elem_of_update_where. unfold is_watch.
  destruct (p x); rewrite ?(keeps_pk (f := f)); by apply Hp.
Qed.

Lemma watch_wf_delete p t : watch_wf t → watch_wf (sql_delete p t).
Proof.
  intros [Hwf Hp]. split; [by apply wf_delete|]. intros r [_ Hr]%elem_of_select. by apply Hp.
Qed.

Lemma watch_wf_insert now c t : watch_wf t → watch_wf (claim_insert now c t).2.
Proof.
  intros [Hwf Hp]. unfold claim_insert, sql_insert_nothing.
  destruct (sql_find _ t) eqn:E; cbn [snd]; [done|]. split; [by apply wf_append|].
  intros r [Hr| ->]%elem_of_append; [by apply Hp|done].
Qed.

Lemma watch_select_elem t t' r :
  sql_select is_watch t' = sql_select is_watch t → is_watch r = true →
  r ∈ t_rows t' ↔ r ∈ t_rows t.
Proof.
  intros Heq Hw. assert (∀ u, r ∈ sql_select is_watch u ↔ r ∈ t_rows u) as H
    by (intros u; rewrite elem_of_sql_select; tauto).
  by rewrite <- !H, Heq.
Qed.

Lemma step_wf t e t' : watch_wf t → watch_step t e t' → watch_wf t'.
Proof.
  intros Hwf Hs. destruct Hs as [now c t|now c t|now seat n ft t|seat n t|t t' Hwf' Heq].
  - by apply watch_wf_insert.
  - apply watch_wf_update; [apply _|done].
  - apply watch_wf_update; [apply _|done].
  - by apply watch_wf_delete.
  - split; [done|]. intros r Hr Hw. apply Hwf; [|done]. by apply (watch_select_elem t t').
Qed.

Lemma trace_wf t es t' : watch_wf t → watch_trace t es t' → watch_wf t'.
Proof. intros Hwf Ht. induction Ht; eauto using step_wf. Qed.

Lemma held_by_true n r :
  held_by n r = true ↔ is_watch r = true ∧ md_text (r_meta r) "nonce" = Some n.
Proof. unfold held_by. by bprop. Qed.

Lemma holds_held seat n r : holds seat n r = true → held_by n r = true.
Proof. unfold holds, held_by. bprop. tauto. Qed.

(** A nonce that no row carries comes back only by a claim made with it. *)
Lemma step_no_regain n t e t' :
  watch_step t e t' → claims_with n e = false →
  (∀ r, r ∈ t_rows t → held_by n r = false) → ∀ r, r ∈ t_rows t' → held_by n r = false.
Proof.
  intros Hs He Hn r Hr. destruct (held_by n r) eqn:Hh; [exfalso|done].
  apply held_by_true in Hh as [Hw Hh].
  assert (∀ x, x ∈ t_rows t → is_watch x = true → md_text (r_meta x) "nonce" = Some n → False) as Hno.
  { intros x Hx Hwx Hnx. specialize (Hn x Hx). apply not_true_iff_false in Hn. apply Hn.
    by apply held_by_true. }
  destruct Hs as [now c t|now c t|now seat n' ft t|seat n' t|t t' Hwf' Heq]; cbn [claims_with] in He.
  - unfold claim_insert, sql_insert_nothing in Hr.
    destruct (sql_find _ t); cbn [snd] in Hr; [eauto|].
    apply elem_of_append in Hr as [Hr| ->]; [eauto|]. apply bool_decide_eq_false in He.
    cbn [r_meta mk_row claim_row n_meta] in Hh. rewrite md_text_nonce in Hh. congruence.
  - apply elem_of_update_where in Hr as (x & Hx & ->). apply bool_decide_eq_false in He.
    destruct (_ && _); [|eauto]. cbn [r_meta set_used set_meta] in Hh.
    rewrite md_text_nonce in Hh. congruence.
  - apply elem_of_update_where in Hr as (x & Hx & ->).
    destruct (holds _ _ x) eqn:E; [|eauto]. cbn [r_meta set_used set_meta] in Hh.
    rewrite md_text_beat in Hh. eauto.
  - apply elem_of_select in Hr as [_ Hr]. eauto.
  - apply (Hno r); [by apply (watch_select_elem t t')|done..].
Qed.

Lemma trace_no_regain n t es t' :
  watch_trace t es t' → Forall (λ e, claims_with n e = false) es →
  (∀ r, r ∈ t_rows t → held_by n r = false) → ∀ r, r ∈ t_rows t' → held_by n r = false.
Proof.
  intros Ht. induction Ht as [|t e t1 es t2 Hs Ht IH]; [done|].
  intros [He Hes]%Forall_cons Hn. apply IH; [done|]. by eapply step_no_regain.
Qed.

(** Without a row under its nonce, a client's beat and release change nothing. *)
Lemma not_held_displaced n t now seat ft :
  (∀ r, r ∈ t_rows t → held_by n r = false) →
  watch_beat now seat n ft t = (Displaced, t) ∧ watch_release seat n t = (NotHolder, t).
Proof.
  intros Hn. assert (∀ r, r ∈ t_rows t → holds (norm seat) n r = false) as Hh.
  { intros r Hr. destruct (holds _ _ r) eqn:E; [|done]. apply holds_held in E.
    by rewrite (Hn r Hr) in E. }
  unfold watch_beat, watch_release. rewrite (proj2 (sql_count_zero _ _) Hh).
  by rewrite sql_update_nop, sql_delete_nop.
Qed.
End rows.

(** ** Grants *)

(** A claim statement that won. *)
Definition granted (now : Z) (c : claim) (t t1 : table) : Prop :=
  claim_insert now c t = (true, t1) ∨ claim_steal now c t = (true, t1).

Section grants.
Implicit Types (t : table) (r w : row) (c : claim).

Lemma claim_insert_true now c t t1 :
  claim_insert now c t = (true, t1) ↔
    sql_find (n_pk (claim_row now c)) t = None ∧ t1 = sql_append now (claim_row now c) t.
Proof.
  unfold claim_insert, sql_insert_nothing. destruct (sql_find _ t); split; naive_solver.
Qed.

Lemma claim_insert_false now c t t1 :
  claim_insert now c t = (false, t1) ↔ sql_find (n_pk (claim_row now c)) t ≠ None ∧ t1 = t.
Proof.
  unfold claim_insert, sql_insert_nothing. destruct (sql_find _ t); split; naive_solver.
Qed.

Lemma count_pos (p : row → bool) t : sql_count p t ≠ 0 → ∃ r, r ∈ t_rows t ∧ p r = true.
Proof.
  unfold sql_count. destruct (sql_select p t) as [|r l] eqn:E; [done|]. intros _. exists r.
  assert (r ∈ sql_select p t) as H by (rewrite E; left). apply elem_of_sql_select in H. tauto.
Qed.

Lemma claim_steal_true now c t t1 :
  claim_steal now c t = (true, t1) → ∃ w, w ∈ t_rows t ∧ at_claim (claim_key c) w = true ∧
    stealable now c t w = true.
Proof.
  unfold claim_steal. intros [= Hc _]. bprop.
  destruct (count_pos _ _ Hc) as (w & Hw & Hp). exists w. bprop. tauto.
Qed.

Lemma claim_steal_false now c t t1 :
  claim_steal now c t = (false, t1) → t1 = t ∧
    ∀ w, w ∈ t_rows t → at_claim (claim_key c) w = true → stealable now c t w = false.
Proof.
  unfold claim_steal. intros [= Hc Ht]. apply negb_false_iff, bool_decide_eq_true in Hc.
  rewrite sql_count_zero in Hc. split.
  - subst t1. by apply sql_update_nop.
  - intros w Hw Ha. specialize (Hc w Hw). cbn beta in Hc. by rewrite Ha in Hc.
Qed.

(** The winner's row is the one row at the key; every other row is as it was. *)
Lemma granted_rows now c t t1 :
  watch_wf t → granted now c t t1 →
  (∀ r, r ∈ t_rows t1 → at_claim (claim_key c) r = true → r_meta r = Some (_row_meta now c)) ∧
  (∃ r, r ∈ t_rows t1 ∧ at_claim (claim_key c) r = true) ∧
  (∀ r, at_claim (claim_key c) r = false → r ∈ t_rows t1 ↔ r ∈ t_rows t).
Proof.
  intros Hwf [[Hf ->]%claim_insert_true|Hs].
  - rewrite find_claim_None in Hf by done. split_and!.
    + intros r [Hr| ->]%elem_of_append Ha; [by rewrite Hf in Ha|done].
    + eexists. rewrite elem_of_append. split; [by right|]. rewrite at_claim_true. done.
    + intros r Ha. rewrite elem_of_append. split; [|by left]. intros [?| ->]; [done|].
      apply not_true_iff_false in Ha. destruct Ha. by rewrite at_claim_true.
  - destruct (claim_steal_true _ _ _ _ Hs) as (w & Hw & Ha & Hst).
    unfold claim_steal in Hs. injection Hs as _ <-. set (p := λ _, _ && _).
    assert (∀ x, x ∈ t_rows t → at_claim (claim_key c) x = true → p x = true) as Hp.
    { intros x Hx Hax. assert (x = w) as -> by (by eapply claim_unique).
      unfold p. by rewrite Ha, Hst. }
    split_and!.
    + intros r (x & Hx & ->)%elem_of_update_where Har. destruct (p x) eqn:E; [done|].
      by rewrite (Hp x Hx Har) in E.
    + exists (set_used now (set_meta (Some (_row_meta now c)) w)). split; [|done].
      apply elem_of_update_where. exists w. by rewrite (Hp w Hw Ha).
    + intros r Har. cbn [sql_update t_rows]. rewrite elem_of_update_where. split.
      * intros (x & Hx & ->). destruct (p x) eqn:E; [|done].
        unfold p in E. apply andb_true_iff in E as [E _].
        unfold at_claim in E, Har. rewrite is_watch_set in Har. cbn in Har. congruence.
      * intros Hr. exists r. split; [done|]. destruct (p r) eqn:E; [|done].
        unfold p in E. rewrite Har in E. done.
Qed.

Lemma granted_wf now c t t1 : watch_wf t → granted now c t t1 → watch_wf t1.
Proof.
  intros Hwf [H|H].
  - eapply step_wf; [exact Hwf|]. rewrite <- (f_equal snd H : _ = t1). constructor.
  - eapply step_wf; [exact Hwf|]. rewrite <- (f_equal snd H : _ = t1). constructor.
Qed.

(** Who held only the key that was granted to another holds nothing. *)
Lemma granted_displaces now c t t1 n :
  watch_wf t → granted now c t t1 → n ≠ c_nonce c →
  (∀ r, r ∈ t_rows t → held_by n r = true → r_key r = claim_key c) →
  ∀ r, r ∈ t_rows t1 → held_by n r = false.
Proof.
  intros Hwf Hg Hne Honly r Hr. destruct (held_by n r) eqn:E; [exfalso|done].
  destruct (granted_rows now c t t1 Hwf Hg) as (Hmine & _ & Hkeep).
  destruct (at_claim (claim_key c) r) eqn:Ha.
  - specialize (Hmine r Hr Ha). apply held_by_true in E as [_ E].
    rewrite Hmine, md_text_nonce in E. congruence.
  - apply Hkeep in Hr; [|done]. specialize (Honly r Hr E).
    apply not_true_iff_false in Ha. destruct Ha. apply at_claim_true.
    apply held_by_true in E. tauto.
Qed.
End grants.

(** C2. No dual holder. Whatever the order of the clients' SQL statements and
    of everything else the server does: when a claim has won a key, that key
    has one row, under the winner's nonce; at every later moment a key has at
    most one row; and a holder that was displaced there can neither beat nor
    release until it claims again, its statements changing nothing. *)
Theorem no_dual_holder now c t t1 es t2 :
  watch_wf t → granted now c t t1 → watch_trace t1 es t2 →
  (∃ w, w ∈ t_rows t1 ∧ at_claim (claim_key c) w = true ∧
     md_text (r_meta w) "nonce" = Some (c_nonce c)) ∧
  (∀ key w w', w ∈ t_rows t2 → w' ∈ t_rows t2 → at_claim key w = true → at_claim key w' = true → w = w') ∧
  (∀ n, n ≠ c_nonce c →
     (∀ r, r ∈ t_rows t → held_by n r = true → r_key r = claim_key c) →
     Forall (λ e, claims_with n e = false) es →
     ∀ later seat ft, watch_beat later seat n ft t2 = (Displaced, t2) ∧
       watch_release seat n t2 = (NotHolder, t2)).
Proof.
  intros Hwf Hg Htr. pose proof (granted_wf _ _ _ _ Hwf Hg) as Hwf1.
  split_and!.
  - destruct (granted_rows now c t t1 Hwf Hg) as (Hmine & (w & Hw & Ha) & _).
    exists w. by rewrite (Hmine w Hw Ha), md_text_nonce.
  - intros key w w' Hw Hw' Ha Ha'. exact (claim_unique t2 key w w' (trace_wf _ _ _ Hwf1 Htr) Hw Hw' Ha Ha').
  - intros n Hne Honly Hes later seat ft. apply not_held_displaced.
    exact (trace_no_regain n t1 es t2 Htr Hes (granted_displaces now c t t1 n Hwf Hg Hne Honly)).
Qed.

(** ** Verdicts *)

(** The claim [watch_claim] makes of its arguments. *)
Definition claim_of (seat : option string) (nonce armed_by dir : string) (listen : list string)
    (host seat_nonce : option string) : claim :=
  Claim (norm seat) nonce armed_by dir (normalized listen) host (stripped seat_nonce).

Section verdicts.
Implicit Types (t : table) (r w : row) (c : claim).

Lemma fetch_claim_row t key w :
  watch_wf t → w ∈ t_rows t → at_claim key w = true → fetch_claim key t = r_meta w.
Proof.
  intros Hwf Hw Ha. unfold fetch_claim.
  destruct (sql_select (at_claim key) t) as [|x l] eqn:E.
  - exfalso. assert (w ∈ sql_select (at_claim key) t) as H by (by apply elem_of_sql_select).
    rewrite E in H. by apply elem_of_nil in H.
  - assert (x ∈ sql_select (at_claim key) t) as H by (rewrite E; left).
    apply elem_of_sql_select in H as [Hax Hx]. cbn.
    by rewrite (claim_unique t key x w Hwf Hx Hw Hax Ha).
Qed.

Lemma retry_bounds now m : (5 <= retry_after now m <= WATCH_EXPIRY_SECONDS)%Z.
Proof. unfold retry_after, WATCH_EXPIRY_SECONDS. destruct (md_time m "last_beat"); lia. Qed.

(** The three outcomes of a claim that is let through. *)
Lemma run_claim_cases now c t :
  watch_wf t →
  (∃ t1, claim_insert now c t = (true, t1) ∧
     (∀ r, r ∈ t_rows t → at_claim (claim_key c) r = false) ∧
     run_claim now c t = (Granted (c_seat c) (claim_key c) WATCH_EXPIRY_SECONDS, t1)) ∨
  (∃ t1 w, claim_steal now c t = (true, t1) ∧ w ∈ t_rows t ∧ at_claim (claim_key c) w = true ∧
     stealable now c t w = true ∧
     run_claim now c t = (Stolen (c_seat c) (claim_key c) (why_displaced c (r_meta w))
       WATCH_EXPIRY_SECONDS (catch_up (r_meta w)), t1)) ∨
  (∃ w, w ∈ t_rows t ∧ at_claim (claim_key c) w = true ∧ stealable now c t w = false ∧
     run_claim now c t = (Held (c_seat c) (claim_key c) (py_str (r_meta w) "armed_by")
       (md_time (r_meta w) "claimed_at") (md_time (r_meta w) "last_beat")
       (retry_after now (r_meta w)), t)).
Proof.
  intros Hwf. unfold run_claim. destruct (claim_insert now c t) as [[] t1] eqn:Ei.
  - left. exists t1. split_and!; [done| |done].
    apply claim_insert_true in Ei as [Hf _]. by apply (find_claim_None t c now).
  - right. apply claim_insert_false in Ei as [Hf ->].
    destruct (claim_steal now c t) as [[] t2] eqn:Es.
    + left. destruct (claim_steal_true _ _ _ _ Es) as (w & Hw & Ha & Hst).
      exists t2, w. by rewrite (fetch_claim_row t _ w).
    + right. destruct (claim_steal_false _ _ _ _ Es) as [-> Hno].
      rewrite (find_claim_None t c now Hwf) in Hf.
      destruct (decide (Exists (λ r, at_claim (claim_key c) r = true) (t_rows t))) as [Hex|Hex].
      * apply Exists_exists in Hex as (w & Hw & Ha). exists w.
        rewrite (fetch_claim_row t _ w) by done. split_and!; auto.
      * exfalso. apply Hf. intros r Hr. apply not_true_iff_false. intros Ha. apply Hex.
        apply Exists_exists. eauto.
Qed.
End verdicts.

(** The verdict of a claim is exact. It is refused as partial, changing
    nothing, when the seat is empty or not in the listen set; otherwise it is
    granted when no row holds the key, stolen when the one row there is
    expired, unseated or mute, and held, changing nothing and with a retry
    time between 5 seconds and the expiry, in every other case. *)
Lemma watch_claim_exact now seat nonce armed_by dir listen host seat_nonce t :
  watch_wf t →
  let c := claim_of seat nonce armed_by dir listen host seat_nonce in
  let (v, t') := watch_claim now seat nonce armed_by dir listen host seat_nonce t in
  match v with
  | PartialRefused _ _ => t' = t ∧ (c_seat c = "" ∨ hears (c_seat c) (c_listen c) = false)
  | Granted s key _ =>
      s = c_seat c ∧ key = claim_key c ∧ hears s (c_listen c) = true ∧ granted now c t t' ∧
      ∀ r, r ∈ t_rows t → at_claim key r = false
  | Stolen s key _ _ catch =>
      s = c_seat c ∧ key = claim_key c ∧ hears s (c_listen c) = true ∧ granted now c t t' ∧
      ∃ w, w ∈ t_rows t ∧ at_claim key w = true ∧ catch = catch_up (r_meta w) ∧
        (expired now w = true ∨ follows_seat c t w = true ∨ mute now t w = true)
  | Held s key _ _ last retry =>
      s = c_seat c ∧ key = claim_key c ∧ t' = t ∧ (5 <= retry <= WATCH_EXPIRY_SECONDS)%Z ∧
      ∃ w, w ∈ t_rows t ∧ at_claim key w = true ∧ last = md_time (r_meta w) "last_beat" ∧
        expired now w = false ∧ follows_seat c t w = false ∧ mute now t w = false
  end.
Proof.
  intros Hwf c. unfold watch_claim. destruct (nonempty (norm seat)) eqn:Hs; cbn [negb].
  2:{ split; [done|]. left. cbn. by destruct (norm seat). }
  destruct (hears (norm seat) (normalized listen)) eqn:Hh; cbn [negb].
  2:{ split; [done|]. by right. }
  change (Claim _ _ _ _ _ _ _) with c.
  destruct (run_claim_cases now c t Hwf)
    as [(t1 & Hi & Hno & ->)|[(t1 & w & Hst & Hw & Ha & Hs' & ->)|(w & Hw & Ha & Hs' & ->)]].
  - split_and!; try done. by left.
  - split_and!; try done; [by right|]. exists w. unfold stealable in Hs'. bprop. tauto.
  - split_and!; try apply retry_bounds; try done. exists w. unfold stealable in Hs'. bprop. tauto.
Qed.

(** The retry time is kept: a claimant told to wait gets the watch at any
    moment after that time, if the holder has stayed silent meanwhile,
    whatever mail and seats have done; a beat dated in the future is the one
    exception. *)
Lemma retry_succeeds now c t s key by_ since b retry t2 later :
  watch_wf t → watch_wf t2 → sql_select is_watch t2 = sql_select is_watch t →
  run_claim now c t = (Held s key by_ since (Some b) retry, t) →
  (b <= now)%Z → (now + retry < later)%Z →
  ∃ why catch, (run_claim later c t2).1 = Stolen s key why WATCH_EXPIRY_SECONDS catch.
Proof.
  intros Hwf Hwf2 Hsel Hrun Hb Hlater.
  destruct (run_claim_cases now c t Hwf)
    as [(t1 & _ & _ & Hr)|[(t1 & w & _ & _ & _ & _ & Hr)|(w & Hw & Ha & Hs & Hr)]];
    rewrite Hr in Hrun; [discriminate Hrun..|].
  injection Hrun as <- <- <- <- Hlast Hretry.
  assert (expired later w = true) as He.
  { unfold expired. rewrite Hlast. unfold retry_after in Hretry. rewrite Hlast in Hretry.
    unfold WATCH_EXPIRY_SECONDS in *. lia. }
  assert (w ∈ t_rows t2) as Hw2.
  { apply (watch_select_elem t t2 w Hsel); [|done]. apply at_claim_true in Ha. tauto. }
  destruct (run_claim_cases later c t2 Hwf2)
    as [(t1 & _ & Hno & _)|[(t1 & w' & _ & _ & _ & _ & Hr2)|(w' & Hw' & Ha' & Hs' & _)]].
  - by rewrite (Hno w Hw2) in Ha.
  - rewrite Hr2. eauto.
  - assert (w' = w) as -> by exact (claim_unique t2 _ w' w Hwf2 Hw' Hw2 Ha' Ha).
    unfold stealable in Hs'. by rewrite He in Hs'.
Qed.

(** ** Holding, releasing, reporting *)

Section holding.
Implicit Types (t : table) (r w : row) (c : claim).

Lemma claim_key_clause c r : r_key r = claim_key c → _shared_key_clause (c_seat c) r = true.
Proof.
  intros Hk. unfold _shared_key_clause. rewrite Hk. unfold claim_key, _claim_key.
  destruct (is_exempt (c_seat c)) eqn:E; [|by rewrite bool_decide_eq_true_2].
  destruct (watch_host_of _ _ _) as [h|]; [|by rewrite bool_decide_eq_true_2].
  cbn [andb]. apply orb_true_iff. right. apply startswith_true. exists h.
  by rewrite !string_app_assoc.
Qed.

(** The winner's row: its nonce, its beat, its seat. *)
Lemma granted_holds now c t t1 :
  watch_wf t → granted now c t t1 →
  ∃ w, w ∈ t_rows t1 ∧ r_key w = claim_key c ∧ r_meta w = Some (_row_meta now c) ∧
    of_seat (c_seat c) w = true ∧ holds (c_seat c) (c_nonce c) w = true.
Proof.
  intros Hwf Hg. destruct (granted_rows now c t t1 Hwf Hg) as (Hm & (w & Hw & Ha) & _).
  specialize (Hm w Hw Ha). apply at_claim_true in Ha as [Hiw Hk]. exists w.
  unfold of_seat, holds. rewrite Hiw, (claim_key_clause c w Hk), Hm, md_text_nonce.
  by rewrite bool_decide_eq_true_2.
Qed.

Lemma count_holds (p : row → bool) t w : w ∈ t_rows t → p w = true → (sql_count p t == 0) = false.
Proof.
  intros Hw Hp. apply bool_decide_eq_false. rewrite sql_count_zero. intros H.
  by rewrite (H w Hw) in Hp.
Qed.

Lemma exempt_no_at seat : is_exempt seat = true → has_char "@" ("watch/" +:+ seat) = false.
Proof.
  unfold is_exempt, SEAT_EXEMPT_IDENTITIES. rewrite bool_decide_eq_true, list_elem_of_singleton.
  by intros ->.
Qed.

Lemma py_strs_listen now c : py_strs (Some (_row_meta now c)) "listen_set" = c_listen c.
Proof.
  change (omap (λ e, match e with JStr s => Some s | _ => None end) (JStr <$> c_listen c) = c_listen c).
  induction (c_listen c) as [|x l IH]; [done|]. cbn. f_equal. exact IH.
Qed.

(** A shared role's claim row answers for the box its claimant listens on. *)
Lemma claim_row_host now c w :
  is_exempt (c_seat c) = true → r_key w = claim_key c → r_meta w = Some (_row_meta now c) →
  row_host (c_seat c) w = watch_host_of (c_seat c) (c_listen c) (c_host c).
Proof.
  intros He Hk Hm. unfold row_host. rewrite Hk, Hm. unfold claim_key, _claim_key. rewrite He.
  pose proof (exempt_no_at _ He) as Hno.
  destruct (watch_host_of (c_seat c) (c_listen c) (c_host c)) as [h|] eqn:E.
  - replace ("watch/" +:+ c_seat c +:+ "@" +:+ h)
      with (("watch/" +:+ c_seat c) +:+ String "@" h) by (by rewrite string_app_assoc).
    by rewrite split1_app.
  - rewrite split1_None by done. cbn [snd]. rewrite py_strs_listen.
    change (py_str (Some (_row_meta now c)) "host") with
      (match jopt (c_host c) with JStr s => Some s | _ => None end).
    replace (match jopt (c_host c) with JStr s => Some s | _ => None end) with (c_host c)
      by (by destruct (c_host c)).
    done.
Qed.

(** The first of the fresh, then of the others. *)
Lemma status_state now seat host t :
  s_state (watch_status now seat host t) =
    match select (fresh now) (select (on_box (norm seat) (asked_box (norm seat) host))
                                 (sql_select (of_seat (norm seat)) t)),
          select (on_box (norm seat) (asked_box (norm seat) host)) (sql_select (of_seat (norm seat)) t) with
    | _ :: _, _ => Covered
    | [], [] => Unheld
    | [], _ :: _ => Expired
    end.
Proof.
  unfold watch_status. set (mine := select (on_box _ _) _).
  destruct (select (fresh now) mine) as [|r l] eqn:E; cbn [app].
  - assert (∀ x, x ∈ mine → fresh now x = false) as Hf by (by apply select_nil).
    rewrite select_all by (intros x Hx; by rewrite Hf). destruct mine as [|r l]; [done|].
    cbn [s_state]. by rewrite Hf by left.
  - cbn [s_state]. assert (r ∈ select (fresh now) mine) as Hr by (rewrite E; left).
    apply elem_of_select in Hr as [-> _]. done.
Qed.

(** The rows a status answer is about. *)
Definition answers (seat host : option string) (r : row) : bool :=
  of_seat (norm seat) r && on_box (norm seat) (asked_box (norm seat) host) r.

Lemma elem_of_answers seat host t r :
  r ∈ select (on_box (norm seat) (asked_box (norm seat) host)) (sql_select (of_seat (norm seat)) t)
  ↔ r ∈ t_rows t ∧ answers seat host r = true.
Proof. unfold answers. rewrite elem_of_select, elem_of_sql_select. bprop. tauto. Qed.

Lemma status_covered now seat host t :
  s_state (watch_status now seat host t) = Covered ↔
    ∃ r, r ∈ t_rows t ∧ answers seat host r = true ∧ fresh now r = true.
Proof.
  rewrite status_state. set (mine := select (on_box _ _) _).
  transitivity (∃ r, r ∈ select (fresh now) mine).
  - destruct (select (fresh now) mine) as [|r l]; [destruct mine|]; split; try done.
    + by intros [? ?%elem_of_nil].
    + by intros [? ?%elem_of_nil].
    + intros _. exists r. left.
  - split; intros (r & Hr); exists r.
    + apply elem_of_select in Hr as [Hf Hr]. apply elem_of_answers in Hr. tauto.
    + apply elem_of_select. split; [tauto|]. apply elem_of_answers. tauto.
Qed.

Lemma status_unheld now seat host t :
  s_state (watch_status now seat host t) = Unheld ↔
    ∀ r, r ∈ t_rows t → answers seat host r = false.
Proof.
  rewrite status_state. set (mine := select (on_box _ _) _).
  transitivity (mine = []).
  - destruct mine as [|r l]; [done|]. destruct (select _ _); by split.
  - split.
    + intros H r Hr. destruct (answers seat host r) eqn:E; [|done].
      assert (r ∈ mine) as Hm by (by apply elem_of_answers). rewrite H in Hm. by apply elem_of_nil in Hm.
    + intros H. destruct mine as [|r l] eqn:E; [done|].
      assert (r ∈ mine) as Hm by (rewrite E; left). apply elem_of_answers in Hm as [Hr Ha].
      by rewrite (H r Hr) in Ha.
Qed.
End holding.

(** A watch that was granted is held: its holder's beats are accepted, the
    seat reads covered for its box until the expiry has passed without a
    beat, and releasing it frees the key, so that the next claim for it is
    granted at once. *)
Lemma claim_then_hold now c t t1 :
  watch_wf t → norm (Some (c_seat c)) = c_seat c → granted now c t t1 →
  (∀ later ft, (watch_beat later (Some (c_seat c)) (c_nonce c) ft t1).1 = Holder) ∧
  (∀ later host, (later <= now + WATCH_EXPIRY_SECONDS)%Z →
     (∀ h, asked_box (c_seat c) host = Some h →
        watch_host_of (c_seat c) (c_listen c) (c_host c) = Some h) →
     s_state (watch_status later (Some (c_seat c)) host t1) = Covered) ∧
  (watch_release (Some (c_seat c)) (c_nonce c) t1).1 = Released ∧
  (∀ later c', claim_key c' = claim_key c →
     (run_claim later c' (watch_release (Some (c_seat c)) (c_nonce c) t1).2).1 =
       Granted (c_seat c') (claim_key c) WATCH_EXPIRY_SECONDS).
Proof.
  intros Hwf Hn Hg. pose proof (granted_wf _ _ _ _ Hwf Hg) as Hwf1.
  destruct (granted_holds now c t t1 Hwf Hg) as (w & Hw & Hk & Hm & Hof & Hh).
  unfold watch_beat, watch_release. rewrite !Hn. split_and!.
  - intros later ft. cbn [fst]. by rewrite (count_holds _ _ w Hw Hh).
  - intros later host Hle Hbox. apply status_covered. exists w. split; [done|].
    unfold answers, fresh. rewrite Hn, Hof, Hm. change (md_time _ "last_beat") with (Some now).
    split; [|lia]. cbn [andb]. unfold on_box.
    destruct (asked_box (c_seat c) host) as [h|] eqn:Eb; [|done].
    apply bool_decide_eq_true. rewrite (claim_row_host now c w); [by apply Hbox| |done..].
    unfold asked_box in Eb. by destruct (is_exempt (c_seat c)).
  - cbn [fst]. by rewrite (count_holds _ _ w Hw Hh).
  - intros later c' Hc'. cbn [snd]. set (t2 := sql_delete _ _).
    assert (watch_wf t2) as Hwf2 by (by apply watch_wf_delete).
    assert (∀ r, r ∈ t_rows t2 → at_claim (claim_key c') r = false) as Hfree.
    { intros r [Hnh Hr]%elem_of_select. apply not_true_iff_false. rewrite Hc'. intros Ha.
      assert (at_claim (claim_key c) w = true) as Haw
        by (apply at_claim_true; split; [by apply andb_true_iff in Hof as [? _]|done]).
      rewrite (claim_unique t1 _ r w Hwf1 Hr Hw Ha Haw), Hh in Hnh. done. }
    destruct (run_claim_cases later c' t2 Hwf2)
      as [(t3 & _ & _ & ->)|[(t3 & x & _ & Hx & Ha & _)|(x & Hx & Ha & _)]];
      [by rewrite Hc'|by rewrite (Hfree x Hx) in Ha..].
Qed.

(** The status of a watch is three-valued and exact: covered when a claim
    row of the seat, on the box asked about for a shared role, is fresh;
    unheld when there is none; expired when there are such rows and all are
    silent. Coverage on other boxes never counts and is reported, by name,
    each once, in order. *)
Lemma watch_status_exact now seat host t :
  let s := watch_status now seat host t in
  (s_state s = Covered ↔ ∃ r, r ∈ t_rows t ∧ answers seat host r = true ∧ fresh now r = true) ∧
  (s_state s = Unheld ↔ ∀ r, r ∈ t_rows t → answers seat host r = false) ∧
  (s_state s = Expired ↔ (∃ r, r ∈ t_rows t ∧ answers seat host r = true) ∧
     ∀ r, r ∈ t_rows t → answers seat host r = true → fresh now r = false) ∧
  (∀ x, x ∈ s_held_elsewhere s ↔ asked_box (norm seat) host ≠ None ∧
     ∃ r, r ∈ t_rows t ∧ of_seat (norm seat) r = true ∧ answers seat host r = false ∧
       fresh now r = true ∧ x = or_empty (py_or (row_host (norm seat) r) (Some "unknown"))) ∧
  NoDup (s_held_elsewhere s).
Proof.
  cbv zeta. split_and!.
  - apply status_covered.
  - apply status_unheld.
  - pose proof (status_covered now seat host t) as Hc. pose proof (status_unheld now seat host t) as Hu.
    destruct (s_state _); split; intros H; try discriminate H.
    + destruct H as [_ H]. destruct (proj1 Hc eq_refl) as (r & Hr & Ha & Hf).
      by rewrite (H r Hr Ha) in Hf.
    + split.
      * destruct (decide (Exists (λ r, answers seat host r = true) (t_rows t))) as [Hex|Hex];
          [by apply Exists_exists in Hex|].
        discriminate (proj2 Hu (λ r Hr, not_true_is_false _
          (λ Ha, Hex (proj2 (Exists_exists _ _) (ex_intro _ r (conj Hr Ha)))))).
      * intros r Hr Ha. apply not_true_is_false. intros Hf.
        discriminate (proj2 Hc (ex_intro _ r (conj Hr (conj Ha Hf)))).
    + done.
    + destruct H as [(r & Hr & Ha) _]. by rewrite (proj1 Hu eq_refl r Hr) in Ha.
  - intros x. unfold answers.
    replace (s_held_elsewhere _) with (elsewhere now (norm seat) (asked_box (norm seat) host)
      (sql_select (of_seat (norm seat)) t)) by (unfold watch_status; by destruct (_ ++ _)).
    unfold elsewhere. destruct (asked_box (norm seat) host) as [h|].
    2:{ split; [by intros ?%elem_of_nil|by intros [? _]]. }
    rewrite elem_of_sorted, elem_of_dedup, list_elem_of_fmap. split.
    + intros (r & -> & Hr). apply elem_of_select in Hr as [Hr Hs].
      apply elem_of_sql_select in Hs as [Hs Hin]. apply andb_true_iff in Hr as [Hb Hf].
      apply negb_true_iff in Hb. split; [done|]. exists r. by rewrite Hs, Hb.
    + intros (_ & r & Hin & Hs & Hb & Hf & ->). exists r. split; [done|].
      apply elem_of_select. rewrite Hs in Hb. cbn [andb] in Hb. rewrite Hb, Hf.
      split; [done|]. by apply elem_of_sql_select.
  - replace (s_held_elsewhere _) with (elsewhere now (norm seat) (asked_box (norm seat) host)
      (sql_select (of_seat (norm seat)) t)) by (unfold watch_status; by destruct (_ ++ _)).
    unfold elsewhere. destruct (asked_box _ _); [|constructor].
    apply NoDup_sorted, NoDup_dedup.
Qed.

(** ** Concrete runs *)

Definition ex_first : claim := Claim "tide-claude-2" "n1" "bridge" "/tide" ["tide-claude-2"] None None.
Definition ex_second : claim := Claim "tide-claude-2" "n2" "agent" "/tide" ["tide-claude-2"] None (Some "p7").
Definition ex_held : table := (claim_insert 0 ex_first empty_table).2.
Definition ex_stolen : table := (claim_steal 200 ex_second ex_held).2.

Lemma ex_empty_wf : watch_wf empty_table.
Proof. split; [apply wf_empty|]. by intros r ?%elem_of_nil. Qed.

Lemma ex_held_wf : watch_wf ex_held.
Proof. apply watch_wf_insert, ex_empty_wf. Qed.

Lemma no_dual_holder_witness :
  let t2 := (watch_release (Some "tide-claude-2") "n1" ex_stolen).2 in
  watch_beat 300 (Some "tide-claude-2") "n1" None t2 = (Displaced, t2).
Proof.
  intros t2. refine (proj1 (proj2 (proj2 (no_dual_holder 200 ex_second ex_held ex_stolen
    [ERelease (Some "tide-claude-2") "n1"] t2 ex_held_wf _ _)) "n1" _ _ _ 300%Z _ None)).
  - right. vm_compute. reflexivity.
  - econstructor; [apply step_release|constructor].
  - discriminate.
  - intros r Hr _. apply list_elem_of_singleton in Hr as ->. reflexivity.
  - repeat constructor.
Defined.

(** A steal by expiry is reported as "claim follows seat" whenever the
    claimant sent some seat nonce, also one the register does not know. *)
Lemma reason_without_seat :
  (∀ w, follows_seat ex_second ex_held w = false) ∧
  (run_claim 200 ex_second ex_held).1 =
    Stolen "tide-claude-2" "watch/tide-claude-2" ClaimFollowsSeat 150 (Some 0%Z).
Proof.
  split; [|vm_compute; reflexivity]. intros w. unfold follows_seat. cbn [c_seat_nonce ex_second].
  replace (existsb _ _) with false by (vm_compute; reflexivity). apply andb_false_r.
Qed.
