(* ===== verification/Seats.v ===== *)
(** The seat register (src/server/services/session_registry.py): which session
    holds which address. The allocation ladder, claims (continuity, the
    one-way door, runtime re-seats, allocation, takeover, inheritance of a
    lane's read cursor) and releases.

    Each operation runs its SQL statements in the source's order without
    interruption. The advice attached to a grant is kept as the list of its
    kinds. [lane_reservation] is the setting [lane_reservation_enabled]. *)

From stdpp Require Import base gmap list strings pretty sorting.
From Stdlib Require Import ZArith Lia Ascii.
From S2P Require Import Prelude PyString Json Store Inbox WatchClaim.

Definition SEAT_NAMESPACE : string := INBOX_NAMESPACE.
Definition PROJECT_REGISTRY_SCOPE : string := "project-root".
Definition PRESENCE_SCOPE : string := "presence".
Definition DEATH_SCOPE : string := "death".
Definition LANE_CURSOR_SCOPE : string := "lane_cursor".
Definition SEAT_LIVE_SECONDS : Z := 600.
Definition SEAT_GRACE_SECONDS : Z := 604800.
Definition MAX_SEAT_ORDINAL : nat := 64.
Definition MAX_SUPERSEDED_NONCES : nat := 8.
Definition LANE_PROVIDERS : list string := ["claude"; "grok"; "codex"; "cursor"; "gpt"].
Definition RELEASE_EVIDENCE : list string := ["performed"; "observed"; "inferred"].

(** ** The ladder *)

Inductive skip_reason :=
| ReservedRoot | ReservedLane | MailParked | LiveNoRow | LiveHolder | GraceWindow | PresenceFresh.

#[global] Instance skip_reason_eq_dec : EqDecision skip_reason.
Proof. solve_decision. Defined.

(** [would_skip] is the presence of a reason. *)
Record decision := Decide {
  d_reason : option skip_reason;
  d_grace_expires_at : option Z
}.

Definition free_to_grant : decision := Decide None None.
Definition skip (r : skip_reason) : decision := Decide (Some r) None.
Definition would_skip (d : decision) : bool := is_some (d_reason d).

(** What the ladder looks at. *)
Record facts := Facts {
  f_root : bool;
  f_lane : bool;
  f_age : option Z;
  f_holds_mail : bool;
  f_presence_fresh : bool;
  f_last_used_at : option Z;
  f_live_at_address : bool;
  f_certified_dead : bool
}.

Definition allocation_decision (f : facts) : decision :=
  if f_root f then skip ReservedRoot
  else if f_lane f then skip ReservedLane
  else if f_certified_dead f && negb (f_holds_mail f) then free_to_grant
  else match f_age f with
  | None =>
      if f_holds_mail f then skip MailParked
      else if f_live_at_address f then skip LiveNoRow
      else free_to_grant
  | Some age =>
      if (age <? SEAT_LIVE_SECONDS)%Z then skip LiveHolder
      else if (age <? SEAT_GRACE_SECONDS)%Z
      then Decide (Some GraceWindow) ((λ u, u + SEAT_GRACE_SECONDS)%Z <$> f_last_used_at f)
      else if f_holds_mail f then skip MailParked
      else if f_presence_fresh f then skip PresenceFresh
      else free_to_grant
  end.

(** ** Names *)

Definition lane_of (project provider : string) : string := project +:+ "-" +:+ provider.

(** [seat_candidates], as the list it yields. *)
Definition seat_candidates (project provider : string) (preferred : option string) : list string :=
  let base := lane_of project provider in
  (match preferred with
   | Some p => if nonempty p && (p != base) then [p] else []
   | None => []
   end) ++ base :: ((λ n, base +:+ "-" +:+ pretty (N.of_nat n)) <$> seq 2 (MAX_SEAT_ORDINAL - 1)).

Definition _seat_ordinal (seat base : string) : N :=
  if seat == base then 1
  else match drop_prefix (base +:+ "-") seat with
       | Some suffix => if isdigit suffix then digits 0 suffix else N.of_nat (MAX_SEAT_ORDINAL + 1)
       | None => N.of_nat (MAX_SEAT_ORDINAL + 1)
       end.

Section settings.
Context (lane_reservation : bool).

Definition is_reserved_root (seat project : string) : bool :=
  lane_reservation && negb (is_exempt project) && (seat == project).

Definition is_reserved_lane (seat project : string) : bool :=
  lane_reservation && negb (is_exempt project)
  && existsb (λ p, seat == lane_of project p) LANE_PROVIDERS.
End settings.

(** ** Rows *)

Definition seat_pk (seat project : string) : pkey :=
  PKey SEAT_NAMESPACE ("seat/" +:+ seat) SEAT_SCOPE SEAT_USER_ID (Some project).

(** [namespace, scope, user_id, project] of the project's seat rows. *)
Definition in_registry (project : string) (r : row) : bool :=
  (r_ns r == SEAT_NAMESPACE) && (r_scope r == SEAT_SCOPE) && (r_user r == SEAT_USER_ID)
  && (r_project r == Some project).

Definition seat_of (r : row) : string := removeprefix "seat/" (r_key r).

Definition seat_key_of (r : row) : option string := py_str (r_meta r) "session_key".
Definition seat_nonce_of (r : row) : option string := py_str (r_meta r) "session_nonce".

(** The last [n] of a list ([l[-n:]]). *)
Definition last_n {A} (n : nat) (l : list A) : list A := drop (length l - n) l.

Record claimant := Claimant {
  q_key : string;
  q_project : string;
  q_provider : string;
  q_nonce : option string;
  q_host : option string;
  q_preferred : option string;
  q_runtime : bool
}.

Definition _meta (now : Z) (q : claimant) (superseded : list string) (runtime : bool)
    (preferred : option string) : jobj := list_to_map [
  ("kind", JStr "seat");
  ("session_key", JStr (q_key q));
  ("session_nonce", jopt (q_nonce q));
  ("provider", JStr (q_provider q));
  ("host", jopt (q_host q));
  ("preferred_seat", jopt preferred);
  ("claimed_at", JTime now);
  ("superseded_nonces", JArr (JStr <$> last_n MAX_SUPERSEDED_NONCES superseded));
  ("runtime", JBool runtime)].

(** ** Facts about an address *)

Definition _fetch_known_roots (t : table) : list string :=
  filter (λ p, is_exempt p = false)
    (dedup (omap (λ r, r_project r)
      (sql_select (λ r, (r_ns r == SEAT_NAMESPACE)
         && ((r_scope r == PROJECT_REGISTRY_SCOPE) || (r_scope r == SEAT_SCOPE))) t))).

Definition _address_holds_mail (t : table) (seat : string) : bool :=
  existsb (λ r, is_mail r && (r_user r == seat) && negb (is_archived r) && is_open r) (t_rows t).

Definition is_presence (seat project : string) (r : row) : bool :=
  (r_ns r == SEAT_NAMESPACE) && (r_scope r == PRESENCE_SCOPE) && (r_user r == project)
  && (r_key r == "presence/" +:+ seat).

Definition _presence_is_fresh (now : Z) (t : table) (seat project : string) : bool :=
  match head (sql_select (is_presence seat project) t) with
  | Some r => (now - r_used r <? SEAT_LIVE_SECONDS)%Z
  | None => false
  end.

Definition _cert_is_for_this_occupant (row : option row) : bool :=
  match row with
  | None => false
  | Some r =>
      let md := r_meta r in
      if negb (py_flag md "death_certified") then false
      else
        let cert_nonce := strip (or_empty (py_str md "death_certified_nonce")) in
        let row_nonce := strip (or_empty (py_str md "session_nonce")) in
        if nonempty cert_nonce && nonempty row_nonce && (cert_nonce != row_nonce) then false
        else match md_time md "death_certified_at" with
             | Some died => (r_created r <=? died)%Z
             | None => false
             end
  end.

(** One entry of a presence row's nonce map, seen within the live window. *)
Definition beats (now : Z) (exclude_nonce : option string) (e : string * json) : bool :=
  (exclude_nonce != Some e.1)
  && match e.2 with
     | JObj info => match md_time (Some (list_to_map info)) "last_seen" with
                    | Some seen => (now - seen <? SEAT_LIVE_SECONDS)%Z
                    | None => false
                    end
     | _ => false
     end.

Definition breathing_row (now : Z) (exclude_nonce : option string) (r : row) : bool :=
  (now - SEAT_LIVE_SECONDS <=? r_used r)%Z
  && match md_time (r_meta r) "released_at" with
     | Some rel => negb (r_used r <=? rel)%Z
     | None => true
     end
  && match py_items (r_meta r) "sessions" with
     | [] => negb (is_some exclude_nonce)
     | sessions => existsb (beats now exclude_nonce) sessions
     end.

(** Membership of [seat] in [_breathing_at]'s answer. *)
Definition _breathing_at (now : Z) (t : table) (seat project : string) (exclude_nonce : option string) : bool :=
  existsb (λ r, is_presence seat project r && breathing_row now exclude_nonce r) (t_rows t).

(** ** Statements *)

Definition seat_row (q : claimant) (seat : string) (meta : jobj) : new_row :=
  NewRow (seat_pk seat (q_project q)) seat "" "" seat None (Some meta) None.

Definition _try_insert (now : Z) (q : claimant) (seat : string) (meta : jobj) (t : table) : bool * table :=
  match sql_insert_nothing now (seat_row q seat meta) t with
  | (Some _, t') => (true, t')
  | (None, t') => (false, t')
  end.

Definition _try_takeover (now : Z) (q : claimant) (seat : string) (meta : jobj) (older_than : Z)
    (t : table) : bool * table :=
  let p r := has_pk (seat_pk seat (q_project q)) r && (r_used r <? older_than)%Z in
  (negb (sql_count p t == 0), sql_update p (λ r, set_used now (set_meta (Some meta) r)) t).

(** [UPDATE ... SET metadata, last_used_at] of one seat row. *)
Definition refresh_seat (now : Z) (q : claimant) (seat : string) (meta : jobj) (t : table) : table :=
  sql_update (has_pk (seat_pk seat (q_project q))) (λ r, set_used now (set_meta (Some meta) r)) t.

Definition free_seat (q : claimant) (seat : string) (t : table) : table :=
  sql_delete (has_pk (seat_pk seat (q_project q))) t.

(** The project registers itself on first contact. *)
Definition register_project (now : Z) (q : claimant) (t : table) : table :=
  (sql_upsert now
     (NewRow (PKey SEAT_NAMESPACE ("project/" +:+ q_project q) PROJECT_REGISTRY_SCOPE SEAT_USER_ID
                (Some (q_project q)))
        "project-root" "" "" "" None (Some {["kind" := JStr "project-root"]}) None)
     (set_used now) t).2.

(** ** Inheriting a lane's read cursor *)

Definition cursor_pk (lane project : string) : pkey :=
  PKey SEAT_NAMESPACE ("cursor/" +:+ lane) LANE_CURSOR_SCOPE SEAT_USER_ID (Some project).

(** A death certificate filed under the claimant's session key. *)
Definition is_cert_of (q : claimant) (r : row) : bool :=
  (r_ns r == SEAT_NAMESPACE) && (r_scope r == DEATH_SCOPE) && (r_user r == SEAT_USER_ID)
  && (r_project r == Some (q_project q)) && (md_text (r_meta r) "session_key" == Some (q_key q)).

(** Another occupant of the lane with fresh presence. *)
Definition live_colleague (now : Z) (q : claimant) (seat : string) (t : table) : bool :=
  existsb (λ r, in_registry (q_project q) r && (md_text (r_meta r) "provider" == Some (q_provider q))
                && (r_key r != "seat/" +:+ seat)
                && _presence_is_fresh now t (seat_of r) (q_project q)) (t_rows t).

(** [jsonb_set(metadata, '{read_by}', COALESCE(metadata->'read_by', '[]') || reader)] *)
Definition inherit_read (reader : string) (m : option jobj) : option jobj :=
  md ← m; Some (<["read_by" := jappend (default (JArr []) (md !! "read_by")) (JStr reader)]> md).

Definition inherit_mail (reader : string) (ids : list string) (t : table) : table :=
  sql_update (λ r, (r_scope r == INBOX_SCOPE) && (r_key r isin ids)
                   && negb (md_has (r_meta r) "read_by" reader))
    (λ r, set_meta (inherit_read reader (r_meta r)) r) t.

(** The cursor's record of who inherited, the last sixteen. *)
Definition applied_log (now : Z) (reader : string) (md : jobj) : jobj :=
  let entry := JObj [("reader", JStr reader); ("cert", default JNull (md !! "last_cert")); ("at", JTime now)] in
  let old := match md !! "applied" with Some (JArr l) => l | _ => [] end in
  <["applied" := JArr (last_n 16 (old ++ [entry]))]> md.

Definition _apply_lane_inheritance (now : Z) (q : claimant) (seat : string) (t : table) : table :=
  match q_host q with
  | None | Some "" => t
  | Some host =>
      let pk := cursor_pk (lane_of (q_project q) (q_provider q)) (q_project q) in
      match sql_find pk t with
      | None => t
      | Some cur =>
          let md := default ∅ (r_meta cur) in
          let ids := py_strs (Some md) "ids" in
          let same_session := nonempty (q_key q) && negb (sql_count (is_cert_of q) t == 0) in
          if (length ids == 0) || (negb same_session && live_colleague now q seat t) then t
          else
            let reader := seat +:+ "@" +:+ host in
            sql_update (has_pk pk) (λ r, set_meta (Some (applied_log now reader md)) r)
              (inherit_mail reader ids t)
      end
  end.

(** ** Claims *)

(** The advice a grant may carry. *)
Inductive notice :=
| LaneReserved (name : string)
| RootReserved (name : string)
| DoorClosed (seat : string)
| RuntimeUnavailable (name seat : string)
| InheritedParkedMail (seat : string)
| PreferredSeatParked (name : string) (reason : skip_reason) (granted : string).

Record grant := Grant {
  g_seat : string;
  g_is_new : bool;
  g_reclaimed_from : option string;
  g_warning : list notice;
  g_renamed_from : option string
}.

Inductive seat_error := NoFreeSeat (project provider : string).

Definition _with_park_warning (warning : list notice) (preferred : option string) (granted : string)
    (parked_reason : option skip_reason) : list notice :=
  match preferred, parked_reason with
  | Some p, Some r =>
      if nonempty p && (granted != p) then warning ++ [PreferredSeatParked p r granted] else warning
  | _, _ => warning
  end.

(** The order of the continuity lookup: runtime seats, then ordinals, then names. *)
Definition before_in (base : string) (a b : row) : bool :=
  let ra := py_flag (r_meta a) "runtime" in
  let rb := py_flag (r_meta b) "runtime" in
  if negb (Bool.eqb ra rb) then ra
  else
    let oa := _seat_ordinal (seat_of a) base in
    let ob := _seat_ordinal (seat_of b) base in
    if negb (oa == ob) then (oa <? ob)%N else bool_decide (String.le (r_key a) (r_key b)).

Definition order_held (base : string) (l : list row) : list row := sort_by (before_in base) l.

Definition held_rows (q : claimant) (t : table) : list row :=
  order_held (lane_of (q_project q) (q_provider q))
    (sql_select (λ r, in_registry (q_project q) r
                      && (md_text (r_meta r) "session_key" == Some (q_key q))) t).

(** The rows of this very process. *)
Definition own_rows (q : claimant) (held : list row) : list row :=
  if truthy (q_nonce q) then select (λ r, seat_nonce_of r == q_nonce q) held else [].

Definition superseded_of (r : row) : list string := py_strs (r_meta r) "superseded_nonces".

Definition same_process (q : claimant) (mine : list row) (held : row) : bool :=
  negb (length mine == 0) || negb (truthy (q_nonce q)) || negb (truthy (seat_nonce_of held))
  || (seat_nonce_of held == q_nonce q).

Definition door_closed (q : claimant) (mine : list row) (held : row) : bool :=
  truthy (q_nonce q) && (length mine == 0) && (or_empty (q_nonce q) isin superseded_of held).

(** The displaced nonces after this claim. *)
Definition superseded_after (q : claimant) (mine : list row) (held : row) : list string :=
  if negb (same_process q mine held) && truthy (seat_nonce_of held)
  then superseded_of held ++ [or_empty (seat_nonce_of held)]
  else superseded_of held.

(** Duplicates of this process are freed unless they hold mail. *)
Definition collapse_dupes (q : claimant) (held : row) (ordered : list row) (t : table) : table :=
  foldl (λ t r,
    if (r_key r != r_key held) && (seat_nonce_of r == q_nonce q)
       && negb (_address_holds_mail t (seat_of r))
    then free_seat q (seat_of r) t else t) t ordered.

Section claims.
Context (lane_reservation : bool).

Definition reserved (t : table) (q : claimant) (seat : string) : bool :=
  is_reserved_lane lane_reservation seat (q_project q)
  || is_reserved_root lane_reservation seat (q_project q)
  || (seat isin _fetch_known_roots t).

(** A runtime re-seat onto [preferred] from the seat of [held]. *)
Definition re_seat (now : Z) (q : claimant) (preferred : string) (superseded : list string)
    (held : row) (t : table) : option table :=
  let meta := _meta now q superseded true (Some preferred) in
  let '(inserted, t1) := _try_insert now q preferred meta t in
  let moved :=
    if inserted then Some t1
    else match sql_find (seat_pk preferred (q_project q)) t1 with
         | Some other => if seat_key_of other == Some (q_key q)
                         then Some (refresh_seat now q preferred meta t1) else None
         | None => None
         end in
  t2 ← moved;
  Some (if _address_holds_mail t2 (seat_of held) then t2 else free_seat q (seat_of held) t2).

(** The ordinary refresh of the held seat, then the collapse of duplicates. *)
Definition keep_seat (now : Z) (q : claimant) (mine : list row) (held : row) (ordered : list row)
    (t : table) : table :=
  let base := lane_of (q_project q) (q_provider q) in
  let preferred := py_or (py_str (r_meta held) "preferred_seat")
    (match q_preferred q with Some p => if p != base then Some p else None | None => None end) in
  let runtime := py_flag (r_meta held) "runtime"
                 || (q_runtime q && (q_preferred q == Some (seat_of held))) in
  collapse_dupes q held ordered
    (refresh_seat now q (seat_of held) (_meta now q (superseded_after q mine held) runtime preferred) t).

(** Continuity: the claimant's session key already holds a seat. [None]: the
    claim goes on to allocation. *)
Definition continue_seat (now : Z) (q : claimant) (warning : list notice) (t : table)
  : (grant * table) + list notice :=
  match held_rows q t with
  | [] => inr warning
  | (first :: _) as ordered =>
      let mine := own_rows q ordered in
      let held := default first (head mine) in
      let seat := seat_of held in
      if door_closed q mine held then inr [DoorClosed seat]
      else
        let wants := match q_preferred q with
                     | Some p => if q_runtime q && (p != seat) && same_process q mine held
                                 then Some p else None
                     | None => None
                     end in
        match wants with
        | Some p =>
            if reserved t q p
            then inl (Grant seat false None
                        [if is_reserved_lane lane_reservation p (q_project q)
                         then LaneReserved p else RootReserved p] None, t)
            else match re_seat now q p (superseded_after q mine held) held t with
                 | Some t' => inl (Grant p false None [] (Some seat), t')
                 | None => inl (Grant seat false None [RuntimeUnavailable p seat] None,
                                keep_seat now q mine held ordered t)
                 end
        | None => inl (Grant seat false None warning None, keep_seat now q mine held ordered t)
        end
  end.

(** The launch-declared successor of a chair whose holder is gone. *)
Definition holder_gone (now : Z) (q : claimant) (t : table) (seat : string) (r : option row)
    (age : option Z) (breathing : bool) (reason : skip_reason) : bool :=
  if _cert_is_for_this_occupant r then true
  else if breathing || (reason == LiveHolder) then false
  else match r, age with
       | None, _ => true
       | Some _, Some a => (SEAT_GRACE_SECONDS <=? a)%Z && negb (_presence_is_fresh now t seat (q_project q))
       | Some _, None => false
       end.

(** The facts gathered for one candidate, and the ladder's decision. *)
Definition facts_of (now : Z) (q : claimant) (t : table) (seat : string) (r : option row) (breathing : bool)
  : facts :=
  let age := (λ x, now - r_used x)%Z <$> r in
  let mail := _address_holds_mail t seat in
  Facts false false age mail
    (match age with
     | Some a => (SEAT_GRACE_SECONDS <=? a)%Z && negb mail && _presence_is_fresh now t seat (q_project q)
     | None => false
     end)
    (r_used <$> r) breathing (_cert_is_for_this_occupant r).

(** One candidate: granted, or passed over with the reason and the advice so far. *)
Definition try_candidate (now : Z) (q : claimant) (distinct : option string) (known_roots : list string)
    (breathing : bool) (warning : list notice) (parked : option skip_reason) (seat : string) (t : table)
  : (grant * table) + (list notice * option skip_reason) :=
  let prefers := distinct == Some seat in
  let lane := is_reserved_lane lane_reservation seat (q_project q) in
  if lane || is_reserved_root lane_reservation seat (q_project q) || (seat isin known_roots)
  then inr (warning, if prefers then Some (if lane then ReservedLane else ReservedRoot) else parked)
  else
    let meta := _meta now q [] (q_runtime q && (q_preferred q == Some seat)) distinct in
    let r := sql_find (seat_pk seat (q_project q)) t in
    let d0 := allocation_decision (facts_of now q t seat r breathing) in
    let age := (λ x, now - r_used x)%Z <$> r in
    let inherits :=
      match d_reason d0 with
      | Some reason =>
          prefers && negb (q_runtime q) && (reason isin [MailParked; GraceWindow; LiveHolder])
          && holder_gone now q t seat r age breathing reason
      | None => false
      end in
    let d := if inherits then free_to_grant else d0 in
    let warning := if inherits then warning ++ [InheritedParkedMail seat] else warning in
    match d_reason d with
    | Some reason => inr (warning, if prefers then Some reason else parked)
    | None =>
        match r with
        | None =>
            match _try_insert now q seat meta t with
            | (true, t') => inl (Grant seat true None (_with_park_warning warning distinct seat parked) None,
                                 _apply_lane_inheritance now q seat t')
            | (false, _) => inr (warning, parked)
            end
        | Some prior =>
            let cutoff := if _cert_is_for_this_occupant r then now else (now - SEAT_LIVE_SECONDS)%Z in
            match _try_takeover now q seat meta cutoff t with
            | (true, t') => inl (Grant seat true (seat_key_of prior)
                                   (_with_park_warning warning distinct seat parked) None,
                                 _apply_lane_inheritance now q seat t')
            | (false, _) => inr (warning, parked)
            end
        end
    end.

Fixpoint allocate (now : Z) (q : claimant) (distinct : option string) (known_roots : list string)
    (warning : list notice) (parked : option skip_reason) (candidates : list string) (t : table)
  : outcome seat_error (grant * table) :=
  match candidates with
  | [] => Raise (NoFreeSeat (q_project q) (q_provider q))
  | seat :: rest =>
      let breathing := _breathing_at now t seat (q_project q) (q_nonce q) in
      match try_candidate now q distinct known_roots breathing warning parked seat t with
      | inl g => Done g
      | inr (warning', parked') => allocate now q distinct known_roots warning' parked' rest t
      end
  end.

(** [(v or d).strip().lower()] of the provider. *)
Definition norm_provider (provider : option string) : string :=
  lower (strip (or_empty (py_or provider (Some "claude")))).

Definition norm_preferred (preferred : option string) : option string :=
  let p := norm preferred in if nonempty p then Some p else None.

(** A launch preference that is a reserved name is dropped, loudly. *)
Definition launch_notice (q : claimant) : option notice :=
  match q_preferred q with
  | Some p =>
      if q_runtime q then None
      else if is_reserved_lane lane_reservation p (q_project q) then Some (LaneReserved p)
      else if is_reserved_root lane_reservation p (q_project q) then Some (RootReserved p)
      else None
  | None => None
  end.

Definition drop_preferred (q : claimant) : claimant :=
  Claimant (q_key q) (q_project q) (q_provider q) (q_nonce q) (q_host q) None (q_runtime q).

(** The claim of normalized arguments. *)
Definition claim_as (now : Z) (q0 : claimant) (t : table) : outcome seat_error (grant * table) :=
  let exempt_preferred := match q_preferred q0 with Some p => is_exempt p | None => false end in
  if exempt_preferred || is_exempt (q_project q0)
  then Done (Grant (default (q_project q0) (q_preferred q0)) false None [] None, t)
  else
    let n := launch_notice q0 in
    let q := if is_some n then drop_preferred q0 else q0 in
    let warning := match n with Some x => [x] | None => [] end in
    let t1 := register_project now q t in
    match continue_seat now q warning t1 with
    | inl g => Done g
    | inr warning' =>
        let base := lane_of (q_project q) (q_provider q) in
        let distinct := match q_preferred q with
                        | Some p => if p != base then Some p else None
                        | None => None
                        end in
        allocate now q distinct (_fetch_known_roots t1) warning' None
          (seat_candidates (q_project q) (q_provider q) (q_preferred q)) t1
    end.

Definition seat_claim (now : Z) (session_key project : string) (provider nonce host preferred : option string)
    (runtime_seat : bool) (t : table) : outcome seat_error (grant * table) :=
  claim_as now (Claimant session_key (norm (Some project)) (norm_provider provider) nonce host
                  (norm_preferred preferred) runtime_seat) t.
End claims.

(** ** Releases *)

(** The release is certain: declared as performed or observed, or undeclared. *)
Definition certain (evidence : option string) : bool :=
  let declared := norm evidence in
  negb (nonempty declared)
  || ((declared isin RELEASE_EVIDENCE) && (declared != "inferred")).

(** The rows a release deletes. *)
Definition releases (session_key project : string) (nonce : option string) (r : row) : bool :=
  in_registry project r && (md_text (r_meta r) "session_key" == Some session_key)
  && match nonce with
     | Some n => md_text (r_meta r) "session_nonce" == Some n
     | None => true
     end.

(** Presence names this incarnation, and no other. *)
Definition attributable (nonce : string) (m : option jobj) : bool :=
  (md_has m "sessions" nonce || (md_text m "session_nonce" == Some nonce))
  && match md_text m "session_nonce" with None => true | Some n => n == nonce end
  && forallb (λ e, e.1 == nonce) (py_items m "sessions").

Definition _stamp_presence_released (now : Z) (seat project : string) (nonce : option string)
    (t : table) : table :=
  let p r := is_presence seat project r
             && negb (existsb (has_pk (seat_pk seat project)) (t_rows t))
             && match nonce with Some n => attributable n (r_meta r) | None => true end in
  sql_update p (λ r, set_meta (md_set (r_meta r) "released_at" (JTime now)) r) t.

(** [DELETE ... RETURNING key] reads the first row it deleted. *)
Definition seat_release (now : Z) (session_key project : string) (evidence nonce : option string)
    (t : table) : option string * table :=
  let project := norm (Some project) in
  let nonce := stripped nonce in
  let p := releases session_key project nonce in
  match sql_select p t with
  | [] => (None, t)
  | r :: _ =>
      let t1 := sql_delete p t in
      (Some (seat_of r),
       if certain evidence then _stamp_presence_released now (seat_of r) project nonce t1 else t1)
  end.
