(* ===== verification/SeatsProps.v ===== *)
(** What the seat register guarantees: an exact allocation ladder, grants that
    never evict a session that may be alive nor show a stranger's mail,
    stable addresses, the one-way door, and fenced releases. *)

From stdpp Require Import base gmap list strings pretty sorting.
From Stdlib Require Import ZArith Lia Ascii.
From S2P Require Import Prelude PyString Json Store Inbox WatchClaim Seats.

(** ** The ladder *)

(** The allocation ladder is exact: each verdict names the first rung
    that holds, a name is free only when it is not reserved, holds no open
    mail, and its holder is certified dead, or has no row and nobody breathes
    there, or has been silent past the grace window without fresh presence;
    only the grace window carries an expiry. *)
Lemma allocation_decision_exact f :
  match d_reason (allocation_decision f) with
  | Some ReservedRoot => f_root f = true
  | Some ReservedLane => f_lane f = true
  | Some MailParked => f_holds_mail f = true ∧
      match f_age f with Some a => (SEAT_GRACE_SECONDS <= a)%Z | None => True end
  | Some LiveNoRow => f_age f = None ∧ f_holds_mail f = false ∧ f_live_at_address f = true
  | Some LiveHolder => ∃ a, f_age f = Some a ∧ (a < SEAT_LIVE_SECONDS)%Z
  | Some GraceWindow => ∃ a, f_age f = Some a ∧ (SEAT_LIVE_SECONDS <= a < SEAT_GRACE_SECONDS)%Z
  | Some PresenceFresh => f_presence_fresh f = true ∧ f_holds_mail f = false
  | None => f_root f = false ∧ f_lane f = false ∧ f_holds_mail f = false ∧
      (f_certified_dead f = true ∨ (f_age f = None ∧ f_live_at_address f = false) ∨
       ∃ a, f_age f = Some a ∧ (SEAT_GRACE_SECONDS <= a)%Z ∧ f_presence_fresh f = false)
  end ∧
  (f_certified_dead f = true → f_holds_mail f = false → f_root f = false → f_lane f = false →
     d_reason (allocation_decision f) = None) ∧
  (is_Some (d_grace_expires_at (allocation_decision f)) → d_reason (allocation_decision f) = Some GraceWindow).
Proof.
  destruct f as [root lane age mail pres used live cert]. unfold allocation_decision, skip, free_to_grant.
  cbn [f_root f_lane f_age f_holds_mail f_presence_fresh f_last_used_at f_live_at_address f_certified_dead].
  destruct root; [split_and!; [done|intros; discriminate|by intros [? [=]]]|].
  destruct lane; [split_and!; [done|intros; discriminate|by intros [? [=]]]|].
  destruct cert, mail; cbn [andb negb];
    [|cbn [d_reason d_grace_expires_at]; split_and!; auto; by intros [? [=]]|..];
    (destruct age as [a|];
      [destruct (Z.ltb_spec a SEAT_LIVE_SECONDS) as [Hl|Hl];
       [split_and!; [by exists a|intros; discriminate|by intros [? [=]]]|];
       destruct (Z.ltb_spec a SEAT_GRACE_SECONDS) as [Hg|Hg];
       [split_and!; [by exists a|intros; discriminate|done]|]|]).
  - split_and!; [done..|intros; discriminate|by intros [? [=]]].
  - split_and!; [done..|intros; discriminate|by intros [? [=]]].
  - split_and!; [done..|intros; discriminate|by intros [? [=]]].
  - split_and!; [done..|intros; discriminate|by intros [? [=]]].
  - destruct pres; (split_and!; [cbn|intros; discriminate|by intros [? [=]]]); [done|].
    split_and!; [done..|]. right; right. by exists a.
  - destruct live; (split_and!; [cbn|intros; discriminate|by intros [? [=]]]); [done|].
    split_and!; [done..|]. right; left. done.
Qed.

(** ** Seat rows *)

Definition is_seat (r : row) : bool :=
  (r_ns r == SEAT_NAMESPACE) && (r_scope r == SEAT_SCOPE) && (r_user r == SEAT_USER_ID).

(** Every seat row is keyed [seat/<name>]. *)
Definition seats_wf (t : table) : Prop :=
  wf t ∧ ∀ r, r ∈ t_rows t → is_seat r = true → ∃ s, r_key r = "seat/" +:+ s.

Section rows.
Implicit Types (t : table) (r : row) (q : claimant).

Lemma in_registry_true p r :
  in_registry p r = true ↔ is_seat r = true ∧ r_project r = Some p.
Proof. unfold in_registry, is_seat. rewrite !andb_true_iff, !bool_decide_eq_true. tauto. Qed.

Lemma is_seat_true r :
  is_seat r = true ↔ r_ns r = SEAT_NAMESPACE ∧ r_scope r = SEAT_SCOPE ∧ r_user r = SEAT_USER_ID.
Proof. unfold is_seat. rewrite !andb_true_iff, !bool_decide_eq_true. tauto. Qed.

(** A seat row's key, from its name and project. *)
Lemma seat_row_pk t p r :
  seats_wf t → r ∈ t_rows t → in_registry p r = true → r_pk r = seat_pk (seat_of r) p.
Proof.
  intros [_ Hk] Hr [Hs Hp]%in_registry_true. destruct (Hk r Hr Hs) as [s Hs'].
  apply is_seat_true in Hs as (H1 & H2 & H3). unfold seat_of, seat_pk. rewrite Hs', removeprefix_app.
  destruct (r_pk r); simpl in *; congruence.
Qed.

Lemma seat_pk_inj s s' p : seat_pk s p = seat_pk s' p → s = s'.
Proof. intros [= H]. exact H. Qed.

Lemma seat_of_pk r s p : r_pk r = seat_pk s p → seat_of r = s.
Proof. intros H. unfold seat_of. rewrite H. apply (removeprefix_app "seat/"). Qed.

Lemma pk_in_registry r s p : r_pk r = seat_pk s p → in_registry p r = true ∧ is_seat r = true.
Proof. intros H. unfold in_registry, is_seat. rewrite H. cbn. by rewrite !bool_decide_eq_true_2. Qed.

Lemma seats_wf_frame t t' :
  wf t' → seats_wf t → (∀ r, r ∈ t_rows t' → is_seat r = true → ∃ x, x ∈ t_rows t ∧ r_pk x = r_pk r ∨ ∃ s p, r_pk r = seat_pk s p) →
  seats_wf t'.
Proof.
  intros Hwf [_ Hk] H. split; [done|]. intros r Hr Hs.
  destruct (H r Hr Hs) as (x & [[Hx Hpk]|(s & p & Hpk)]).
  - rewrite <- Hpk. apply Hk; [done|]. unfold is_seat in *. by rewrite Hpk.
  - exists s. by rewrite Hpk.
Qed.

Lemma seats_wf_update p f t : KeepsKeys f → seats_wf t → seats_wf (sql_update p f t).
Proof.
  intros Hf Hwf. eapply seats_wf_frame; [apply wf_update; [done|apply Hwf]|exact Hwf|].
  intros r (x & Hx & ->)%elem_of_update_where _. exists x. left. split; [done|].
  destruct (p x); [by rewrite (keeps_pk (f := f))|done].
Qed.

Lemma seats_wf_delete p t : seats_wf t → seats_wf (sql_delete p t).
Proof.
  intros Hwf. eapply seats_wf_frame; [apply wf_delete, Hwf|exact Hwf|].
  intros r [_ Hr]%elem_of_select _. exists r. by left.
Qed.

Lemma seats_wf_append now n t :
  seats_wf t → sql_find (n_pk n) t = None → (∃ s p, n_pk n = seat_pk s p) ∨ k_scope (n_pk n) ≠ SEAT_SCOPE →
  seats_wf (sql_append now n t).
Proof.
  intros Hwf Hf Hn. eapply seats_wf_frame; [by apply wf_append; [apply Hwf|]|exact Hwf|].
  intros r [Hr| ->]%elem_of_append Hs; [exists r; by left|].
  exists (mk_row (t_seq t) now n). right. destruct Hn as [Hn|Hn]; [done|].
  apply is_seat_true in Hs as (_ & Hs & _). done.
Qed.

(** The census row is not a seat, and nothing else changes. *)
Lemma register_select now q t (p : row → bool) :
  (∀ r, r_scope r = PROJECT_REGISTRY_SCOPE → p r = false) →
  sql_select p (register_project now q t) = sql_select p t.
Proof.
  intros Hp. unfold register_project, sql_upsert. destruct (sql_find _ t); cbn [snd].
  - apply sql_select_update. intros x Hr. apply has_pk_true in Hr.
    split; apply Hp; cbn [set_used r_pk]; by rewrite Hr.
  - apply sql_select_append. by apply Hp.
Qed.

Lemma register_wf now q t : seats_wf t → seats_wf (register_project now q t).
Proof.
  intros Hwf. unfold register_project, sql_upsert. destruct (sql_find _ t) eqn:E; cbn [snd].
  - apply seats_wf_update; [apply _|done].
  - apply seats_wf_append; [done|done|]. by right.
Qed.

Lemma existsb_frame (p : row → bool) t t' :
  sql_select p t' = sql_select p t → existsb p (t_rows t') = existsb p (t_rows t).
Proof. intros H. by rewrite !existsb_select, H. Qed.

Lemma find_frame k t t' :
  sql_select (has_pk k) t' = sql_select (has_pk k) t → sql_find k t' = sql_find k t.
Proof. unfold sql_find. by intros ->. Qed.
End rows.

(** Inheriting a read cursor touches mail and the cursor only. *)
Lemma inheritance_select now q s t (p : row → bool) :
  (∀ r, r_scope r = INBOX_SCOPE → p r = false) →
  (∀ r, r_scope r = LANE_CURSOR_SCOPE → p r = false) →
  sql_select p (_apply_lane_inheritance now q s t) = sql_select p t.
Proof.
  intros Hm Hc. unfold _apply_lane_inheritance.
  destruct (q_host q) as [[|c host]|]; [done| |done].
  destruct (sql_find _ t) as [cur|]; [|done]. cbv zeta.
  destruct (_ || _); [done|]. unfold inherit_mail. rewrite !sql_select_update; [done|..].
  - intros r Hr. rewrite !andb_true_iff, bool_decide_eq_true in Hr. destruct Hr as [[Hr _] _].
    split; by apply Hm.
  - intros r Hr. apply has_pk_true in Hr. split; apply Hc; cbn [set_meta r_pk]; by rewrite Hr.
Qed.

Lemma inheritance_wf now q s t : seats_wf t → seats_wf (_apply_lane_inheritance now q s t).
Proof.
  intros Hwf. unfold _apply_lane_inheritance.
  destruct (q_host q) as [[|c host]|]; [done| |done].
  destruct (sql_find _ t) as [cur|]; [|done]. cbv zeta.
  destruct (_ || _); [done|]. apply seats_wf_update; [apply _|]. apply seats_wf_update; [apply _|done].
Qed.

(** What a seat row says of its holder. *)
Lemma meta_holder now q superseded rt pref r :
  r_meta r = Some (_meta now q superseded rt pref) →
  seat_key_of r = Some (q_key q) ∧ md_text (r_meta r) "session_key" = Some (q_key q) ∧
  seat_nonce_of r = q_nonce q ∧ superseded_of r = last_n MAX_SUPERSEDED_NONCES superseded ∧
  py_flag (r_meta r) "runtime" = rt.
Proof.
  intros Hm. unfold seat_key_of, seat_nonce_of, superseded_of. rewrite Hm. split_and!; [done|done| | |done].
  - change (match jopt (q_nonce q) with JStr s => Some s | _ => None end = q_nonce q). by destruct (q_nonce q).
  - change (omap (λ e, match e with JStr s => Some s | _ => None end)
      (JStr <$> last_n MAX_SUPERSEDED_NONCES superseded) = last_n MAX_SUPERSEDED_NONCES superseded).
    induction (last_n _ _) as [|x l IH]; [done|]. cbn. f_equal. exact IH.
Qed.

(** ** Taking a seat *)

Section taking.
Implicit Types (t : table) (r : row) (q : claimant).

(** A statement that took a seat: the row carries the new metadata, and no
    other row changed. *)
Definition took q seat (meta : jobj) t t' : Prop :=
  seats_wf t' ∧ (∃ r, sql_find (seat_pk seat (q_project q)) t' = Some r ∧ r_meta r = Some meta) ∧
  ∀ p, (∀ r, r_pk r = seat_pk seat (q_project q) → p r = false) → sql_select p t' = sql_select p t.

Lemma insert_took now q seat meta t t' :
  seats_wf t → _try_insert now q seat meta t = (true, t') → took q seat meta t t'.
Proof.
  intros Hwf. unfold _try_insert, sql_insert_nothing.
  destruct (sql_find _ t) eqn:E; [done|]. intros [= <-]. split_and!.
  - apply seats_wf_append; [done|done|]. left. by exists seat, (q_project q).
  - eexists. split; [apply (sql_find_append_eq now (seat_row q seat meta)); [apply Hwf|done]|done].
  - intros p Hp. apply sql_select_append. by apply Hp.
Qed.

Lemma insert_free now q seat meta t :
  sql_find (seat_pk seat (q_project q)) t = None → (_try_insert now q seat meta t).1 = true.
Proof. intros H. unfold _try_insert, sql_insert_nothing. cbn [n_pk seat_row]. by rewrite H. Qed.

Lemma insert_held now q seat meta t t' :
  _try_insert now q seat meta t = (false, t') →
  t' = t ∧ ∃ r, sql_find (seat_pk seat (q_project q)) t = Some r.
Proof.
  unfold _try_insert, sql_insert_nothing. cbn [n_pk seat_row].
  destruct (sql_find _ t) eqn:E; intros [= <-]. eauto.
Qed.

Lemma refresh_took now q seat meta t :
  seats_wf t → is_Some (sql_find (seat_pk seat (q_project q)) t) →
  took q seat meta t (refresh_seat now q seat meta t).
Proof.
  intros Hwf [r Hr]. split_and!.
  - apply seats_wf_update; [apply _|done].
  - unfold refresh_seat. rewrite sql_find_update by first [apply _|apply Hwf]. rewrite Hr. eexists. split; [done|].
    apply sql_find_Some_elem in Hr as [_ Hr]. by rewrite (proj2 (has_pk_true _ r) Hr).
  - intros p Hp. apply sql_select_update. intros x Hx. apply has_pk_true in Hx. split; by apply Hp.
Qed.

Lemma takeover_took now q seat meta cutoff t t' :
  seats_wf t → _try_takeover now q seat meta cutoff t = (true, t') → took q seat meta t t'.
Proof.
  intros Hwf. unfold _try_takeover. intros [= Hc <-].
  assert (∃ r, r ∈ t_rows t ∧ has_pk (seat_pk seat (q_project q)) r && (r_used r <? cutoff)%Z = true) as (r & Hr & Hp).
  { apply negb_true_iff, bool_decide_eq_false in Hc. rewrite sql_count_zero in Hc.
    destruct (decide (Exists (λ r, has_pk (seat_pk seat (q_project q)) r && (r_used r <? cutoff)%Z = true) (t_rows t)))
      as [Hex|Hex]; [by apply Exists_exists in Hex|].
    exfalso. apply Hc. intros r Hr. apply not_true_is_false. intros H. apply Hex, Exists_exists. eauto. }
  pose proof Hp as Hp'. apply andb_true_iff in Hp' as [Hpk _]. apply has_pk_true in Hpk. split_and!.
  - apply seats_wf_update; [apply _|done].
  - rewrite sql_find_update by first [apply _|apply Hwf].
    rewrite (proj2 (sql_find_Some (seat_pk seat (q_project q)) t r (proj1 Hwf)) (conj Hr Hpk)).
    cbn [fmap option_fmap option_map]. rewrite Hp. eauto.
  - intros p Hq. apply sql_select_update. intros x Hx. apply andb_true_iff in Hx as [Hx _].
    apply has_pk_true in Hx. split; by apply Hq.
Qed.

(** The same, after the lane's cursor was inherited. *)
Lemma took_inheritance now q seat meta t t' :
  took q seat meta t t' → ∃ r, sql_find (seat_pk seat (q_project q)) (_apply_lane_inheritance now q seat t') = Some r ∧
    r_meta r = Some meta ∧ seats_wf (_apply_lane_inheritance now q seat t') ∧
    ∀ p, (∀ r, p r = true → is_seat r = true ∧ r_pk r ≠ seat_pk seat (q_project q)) →
      sql_select p (_apply_lane_inheritance now q seat t') = sql_select p t.
Proof.
  intros (Hwf & (r & Hr & Hm) & Hsel).
  assert (∀ x (p : row → bool), (∀ r, p r = true → is_seat r = true) → r_scope x ≠ SEAT_SCOPE → p x = false) as Hsc.
  { intros x p Hp Hx. apply not_true_is_false. intros H. apply Hp, is_seat_true in H. tauto. }
  exists r. split_and!; [|done|by apply inheritance_wf|].
  - rewrite <- Hr. apply find_frame. apply inheritance_select; intros x Hx;
      (apply (Hsc x); [intros y Hy; apply has_pk_true in Hy; exact (proj2 (pk_in_registry y _ _ Hy))|by rewrite Hx]).
  - intros p Hp. rewrite inheritance_select.
    + apply Hsel. intros x Hx. apply not_true_is_false. intros H. by apply Hp in H as [_ H].
    + intros x Hx. apply (Hsc x); [|by rewrite Hx]. intros y Hy. by apply Hp in Hy as [Hy _].
    + intros x Hx. apply (Hsc x); [|by rewrite Hx]. intros y Hy. by apply Hp in Hy as [Hy _].
Qed.
End taking.

(** ** Allocation *)

(** When the ladder or the launcher's declaration may hand out a seat. *)
Definition may_take (now : Z) (q : claimant) (t : table) (seat : string) : Prop :=
  match sql_find (seat_pk seat (q_project q)) t with
  | None => _breathing_at now t seat (q_project q) (q_nonce q) = false
  | Some r => _cert_is_for_this_occupant (Some r) = true ∨
              ((SEAT_GRACE_SECONDS <= now - r_used r)%Z ∧ _presence_is_fresh now t seat (q_project q) = false)
  end.

(** What an allocation that granted [seat] has done. *)
Record allocated (now : Z) (q : claimant) (distinct : option string) (roots : list string)
    (lane_reservation : bool) (g : grant) (t t' : table) : Prop := {
  al_new : g_is_new g = true;
  al_open : is_reserved_lane lane_reservation (g_seat g) (q_project q) = false ∧
            is_reserved_root lane_reservation (g_seat g) (q_project q) = false ∧ g_seat g ∉ roots;
  al_may : may_take now q t (g_seat g);
  al_mail : _address_holds_mail t (g_seat g) = true → distinct = Some (g_seat g) ∧ q_runtime q = false;
  al_row : ∃ r rt, sql_find (seat_pk (g_seat g) (q_project q)) t' = Some r ∧
             r_meta r = Some (_meta now q [] rt distinct) ∧ (q_runtime q = false → rt = false);
  al_wf : seats_wf t';
  al_rest : ∀ p, (∀ r, p r = true → is_seat r = true ∧ r_pk r ≠ seat_pk (g_seat g) (q_project q)) →
              sql_select p t' = sql_select p t
}.

Section allocation.
Context (lane_reservation : bool).
Implicit Types (t : table) (r : row) (q : claimant).

(** The decision to grant, opened up: by the ladder or by inheritance. *)
Lemma granted_facts now q t seat breathing d0 (inherits : bool) (prefers : bool) :
  let r := sql_find (seat_pk seat (q_project q)) t in
  let age := (λ x, now - r_used x)%Z <$> r in
  breathing = _breathing_at now t seat (q_project q) (q_nonce q) →
  d0 = allocation_decision (facts_of now q t seat r breathing) →
  inherits = match d_reason d0 with
      | Some reason =>
          prefers && negb (q_runtime q) && (reason isin [MailParked; GraceWindow; LiveHolder])
          && holder_gone now q t seat r age breathing reason
      | None => false
      end →
  d_reason (if inherits then free_to_grant else d0) = None →
  may_take now q t seat ∧
  (_address_holds_mail t seat = true → prefers = true ∧ q_runtime q = false).
Proof.
  intros r age Hb Hd Hi Hfree. unfold may_take. fold r.
  pose proof (allocation_decision_exact (facts_of now q t seat r breathing)) as (Hex & _).
  rewrite <- Hd in Hex. destruct inherits.
  - destruct (d_reason d0) as [reason|]; [|done]. symmetry in Hi.
    rewrite !andb_true_iff in Hi. destruct Hi as [[[Hp Hrt] Hin] Hg].
    apply negb_true_iff in Hrt. split; [|done]. unfold holder_gone in Hg.
    destruct (_cert_is_for_this_occupant r) eqn:Ec.
    { destruct r; [by left|done]. }
    destruct (breathing || (reason == LiveHolder)) eqn:El; [done|].
    apply orb_false_iff in El as [Hnb _]. destruct r as [x|]; [right|by rewrite <- Hb].
    cbn [age fmap option_fmap option_map] in Hg. apply andb_true_iff in Hg as [Hg Hpf].
    apply negb_true_iff in Hpf. apply Z.leb_le in Hg. done.
  - rewrite Hfree in Hex. destruct Hex as (_ & _ & Hm & Hc). cbn in Hm. split; [|by rewrite Hm].
    destruct Hc as [Hc|[[Ha Hl]|(a & Ha & Hg & Hpf)]]; cbn in *.
    + destruct r; [by left|done].
    + destruct r; [done|]. by rewrite <- Hb.
    + destruct r as [x|]; [|done]. cbn in *. injection Ha as <-. right. split; [done|].
      apply Z.leb_le in Hg as Hg'. rewrite Hg', Hm in Hpf. done.
Qed.

Lemma try_candidate_grant now q distinct roots warning parked seat t g t' :
  seats_wf t →
  try_candidate lane_reservation now q distinct roots (_breathing_at now t seat (q_project q) (q_nonce q))
    warning parked seat t = inl (g, t') →
  allocated now q distinct roots lane_reservation g t t'.
Proof.
  intros Hwf. unfold try_candidate. cbv zeta.
  destruct (is_reserved_lane _ _ _ || _ || _) eqn:Eres; [done|].
  rewrite !orb_false_iff, bool_decide_eq_false in Eres.
  set (breathing := _breathing_at _ _ _ _ _). set (r := sql_find _ t).
  set (d0 := allocation_decision _). set (inherits := match d_reason d0 with Some _ => _ | None => _ end).
  destruct (d_reason (if inherits then free_to_grant else d0)) eqn:Ed; [done|].
  pose proof (granted_facts now q t seat breathing d0 inherits (distinct == Some seat)
    eq_refl eq_refl eq_refl Ed) as [Hmay Hmail].
  rewrite bool_decide_eq_true in Hmail.
  set (meta := _meta _ _ _ _ _). set (w := if inherits then _ else _).
  assert (∀ t1 prior, took q seat meta t t1 →
    allocated now q distinct roots lane_reservation
      (Grant seat true prior (_with_park_warning w distinct seat parked) None) t
      (_apply_lane_inheritance now q seat t1)) as Hdone.
  { intros t1 prior Ht. destruct (took_inheritance now q seat meta t t1 Ht) as (x & Hx & Hm & Hwf' & Hsel).
    split; cbn [g_is_new g_seat]; try done; [tauto|].
    exists x, (q_runtime q && (q_preferred q == Some seat)). split_and!; [done..|]. by intros ->. }
  destruct r as [prior|] eqn:Er.
  - destruct (_try_takeover _ _ _ _ _ _) as [[] t1] eqn:Et; [|done]. intros [= <- <-].
    eapply Hdone, takeover_took; done.
  - destruct (_try_insert _ _ _ _ _) as [[] t1] eqn:Et; [|done]. intros [= <- <-].
    eapply Hdone, insert_took; done.
Qed.

Lemma allocate_grant now q distinct roots warning parked candidates t g t' :
  seats_wf t → allocate lane_reservation now q distinct roots warning parked candidates t = Done (g, t') →
  g_seat g ∈ candidates ∧ allocated now q distinct roots lane_reservation g t t'.
Proof.
  intros Hwf. revert warning parked. induction candidates as [|seat rest IH]; intros warning parked; [done|].
  cbn [allocate]. cbv zeta.
  destruct (try_candidate _ _ _ _ _ _ _ _ _ _) as [[g1 t1]|[w p]] eqn:E.
  - intros [= <- <-]. pose proof (try_candidate_grant _ _ _ _ _ _ _ _ _ _ Hwf E) as Ha.
    split; [|done]. unfold try_candidate in E.
    assert (g_seat g1 = seat) as ->; [|by left].
    cbv zeta in E. repeat (case_match; try done); by injection E as <- _.
  - intros H. destruct (IH _ _ H) as [Hin Ha]. split; [by right|done].
Qed.
End allocation.

(** ** The census *)

Section census.
Implicit Types (t : table) (r : row) (q : claimant).

Lemma elem_of_roots t x :
  x ∈ _fetch_known_roots t ↔ is_exempt x = false ∧ ∃ r, r ∈ t_rows t ∧ r_ns r = SEAT_NAMESPACE ∧
    (r_scope r = PROJECT_REGISTRY_SCOPE ∨ r_scope r = SEAT_SCOPE) ∧ r_project r = Some x.
Proof.
  unfold _fetch_known_roots. rewrite list_elem_of_filter, elem_of_dedup, list_elem_of_omap.
  split; intros [He (r & H1 & H2)]; (split; [done|]); exists r.
  - apply elem_of_sql_select in H1 as [H1 Hr].
    rewrite andb_true_iff, orb_true_iff, !bool_decide_eq_true in H1. tauto.
  - split; [|tauto]. apply elem_of_sql_select.
    rewrite andb_true_iff, orb_true_iff, !bool_decide_eq_true. tauto.
Qed.

Lemma register_keeps now q t r :
  r ∈ t_rows t → ∃ r', r' ∈ t_rows (register_project now q t) ∧ r_pk r' = r_pk r.
Proof.
  intros Hr. unfold register_project, sql_upsert. destruct (sql_find _ t); cbn [snd].
  - exists (if has_pk (PKey SEAT_NAMESPACE ("project/" +:+ q_project q) PROJECT_REGISTRY_SCOPE SEAT_USER_ID
      (Some (q_project q))) r then set_used now r else r). split; [|by destruct (has_pk _ r)].
    apply elem_of_update_where. by exists r.
  - exists r. split; [|done]. apply elem_of_append. by left.
Qed.

Lemma register_present now q t :
  ∃ r, r ∈ t_rows (register_project now q t) ∧
    r_pk r = PKey SEAT_NAMESPACE ("project/" +:+ q_project q) PROJECT_REGISTRY_SCOPE SEAT_USER_ID (Some (q_project q)).
Proof.
  unfold register_project, sql_upsert. destruct (sql_find _ t) as [r|] eqn:E; cbn [snd].
  - apply sql_find_Some_elem in E as [Hr Hpk]. exists (set_used now r). split; [|exact Hpk].
    apply elem_of_update_where. exists r. split; [done|]. by rewrite (proj2 (has_pk_true _ r) Hpk).
  - eexists. split; [apply elem_of_append; by right|done].
Qed.

(** A name outside the roots seen after registration was no root before, and
    is not the project itself. *)
Lemma not_root_after now q t x :
  is_exempt (q_project q) = false → x ∉ _fetch_known_roots (register_project now q t) →
  x ∉ _fetch_known_roots t ∧ x ≠ q_project q.
Proof.
  intros He Hx. split; intros Hin; apply Hx.
  - apply elem_of_roots in Hin as (Hxe & r & Hr & Hns & Hsc & Hp).
    destruct (register_keeps now q t r Hr) as (r' & Hr' & Hpk).
    apply elem_of_roots. split; [done|]. exists r'. by rewrite Hpk.
  - subst x. apply elem_of_roots. split; [done|].
    destruct (register_present now q t) as (r & Hr & Hpk). exists r. rewrite Hpk. cbn. auto.
Qed.

(** What a claim decides on does not depend on the census row. *)
Lemma register_find now q t s p : sql_find (seat_pk s p) (register_project now q t) = sql_find (seat_pk s p) t.
Proof.
  apply find_frame, register_select. intros r Hr. apply not_true_is_false. intros H.
  apply has_pk_true in H. rewrite H in Hr. discriminate Hr.
Qed.

Lemma register_mail now q t s :
  _address_holds_mail (register_project now q t) s = _address_holds_mail t s.
Proof.
  apply existsb_frame, register_select. intros r Hr. unfold is_mail. rewrite Hr. by rewrite andb_false_r.
Qed.

Lemma register_presence now' now q t s p :
  _presence_is_fresh now' (register_project now q t) s p = _presence_is_fresh now' t s p.
Proof.
  unfold _presence_is_fresh. rewrite register_select; [done|]. intros r Hr.
  unfold is_presence. rewrite Hr. by rewrite andb_false_r.
Qed.

Lemma register_breathing now' now q t s p n :
  _breathing_at now' (register_project now q t) s p n = _breathing_at now' t s p n.
Proof.
  apply existsb_frame, register_select. intros r Hr.
  unfold is_presence. rewrite Hr. by rewrite andb_false_r.
Qed.

Lemma register_may_take now q t s : may_take now q (register_project now q t) s ↔ may_take now q t s.
Proof.
  unfold may_take. rewrite register_find. destruct (sql_find _ t).
  - by rewrite register_presence.
  - by rewrite register_breathing.
Qed.
End census.

(** ** New grants *)

Lemma continue_not_new lane now q w t g t' :
  continue_seat lane now q w t = inl (g, t') → g_is_new g = false ∧ g_reclaimed_from g = None.
Proof.
  unfold continue_seat. destruct (held_rows q t) as [|first rest]; [done|]. cbv zeta.
  repeat (case_match; try done); by intros [= <- _].
Qed.

(** The holder of a newly granted seat, as it was before the claim, had left it. *)
Lemma new_claim_may_take lane now q t g t' :
  seats_wf t → claim_as lane now q t = Done (g, t') → g_is_new g = true → may_take now q t (g_seat g).
Proof.
  intros Hwf H Hnew. unfold claim_as in H. cbv zeta in H.
  destruct (_ || is_exempt (q_project q)) eqn:Eex; [by injection H as <- _|].
  set (q1 := if is_some (launch_notice lane q) then drop_preferred q else q) in H.
  assert (q_project q1 = q_project q ∧ q_nonce q1 = q_nonce q) as [Hp Hn].
  { unfold q1. by destruct (is_some _). }
  destruct (continue_seat _ _ _ _ _) as [[g1 t2]|w] eqn:Ec.
  { injection H as <- <-. apply continue_not_new in Ec as [Hc _]. congruence. }
  apply allocate_grant in H as [_ [_ _ Hmay _ _ _ _]]; [|by apply register_wf].
  apply (proj1 (register_may_take now q1 t (g_seat g))) in Hmay. unfold may_take in *.
  by rewrite Hp, Hn in Hmay.
Qed.

(** C5. A new grant is safe. The seat it hands out is no lane, channel or known
    project root when those are reserved; its previous holder, if it has a
    row, is certified dead or has been silent past the seven-day window
    without fresh presence, and if it has none nobody else breathes there; a
    seat that holds open mail goes only to the launch that named it; the
    claimant's session owns the row; and every other seat row is untouched. *)
Theorem new_grant_safe lane now q t g t' :
  seats_wf t → claim_as lane now q t = Done (g, t') → g_is_new g = true →
  (is_reserved_lane lane (g_seat g) (q_project q) = false ∧ g_seat g ∉ _fetch_known_roots t ∧
     g_seat g ≠ q_project q) ∧
  match sql_find (seat_pk (g_seat g) (q_project q)) t with
  | None => _breathing_at now t (g_seat g) (q_project q) (q_nonce q) = false
  | Some r => _cert_is_for_this_occupant (Some r) = true ∨
      ((604800 <= now - r_used r)%Z ∧ _presence_is_fresh now t (g_seat g) (q_project q) = false)
  end ∧
  (_address_holds_mail t (g_seat g) = true →
     q_preferred q = Some (g_seat g) ∧ q_runtime q = false ∧ g_seat g ≠ lane_of (q_project q) (q_provider q)) ∧
  (∃ r, sql_find (seat_pk (g_seat g) (q_project q)) t' = Some r ∧
     seat_key_of r = Some (q_key q) ∧ seat_nonce_of r = q_nonce q ∧ superseded_of r = []) ∧
  (∀ r, r ∈ t_rows t → is_seat r = true → r_pk r ≠ seat_pk (g_seat g) (q_project q) → r ∈ t_rows t') ∧
  seats_wf t'.
Proof.
  intros Hwf H Hnew. unfold claim_as in H. cbv zeta in H.
  destruct (_ || is_exempt (q_project q)) eqn:Eex; [by injection H as <- _|].
  apply orb_false_iff in Eex as [_ Hex].
  set (q1 := if is_some (launch_notice lane q) then drop_preferred q else q) in H.
  assert (q_project q1 = q_project q ∧ q_nonce q1 = q_nonce q ∧ q_key q1 = q_key q ∧
          q_provider q1 = q_provider q ∧ q_runtime q1 = q_runtime q ∧
          (∀ s, q_preferred q1 = Some s → q_preferred q = Some s)) as (Hp & Hn & Hk & Hpr & Hrt & Hpref).
  { unfold q1. by destruct (is_some _). }
  set (t1 := register_project now q1 t) in H.
  destruct (continue_seat _ _ _ _ _) as [[g1 t2]|w] eqn:Ec.
  { injection H as <- <-. apply continue_not_new in Ec as [Hc _]. congruence. }
  assert (seats_wf t1) as Hwf1 by (by apply register_wf).
  apply allocate_grant in H as [_ [_ [Hl [_ Hroot]] Hmay Hmail (r & rt & Hr & Hm & Hrt0) Hwf' Hrest]]; [|done].
  rewrite <- Hp in Hex. apply (not_root_after now q1 t) in Hroot as [Hroot Hself]; [|done].
  apply (proj1 (register_may_take now q1 t (g_seat g))) in Hmay. unfold may_take in Hmay.
  unfold t1 in Hmail. rewrite register_mail in Hmail. rewrite Hp in *. rewrite Hn in *.
  split_and!; try done.
  - intros Hh. destruct (Hmail Hh) as [Hd Hr0]. rewrite Hrt in Hr0.
    destruct (q_preferred q1) as [s|] eqn:Es; [|done].
    case_bool_decide as Hb; cbn [negb] in Hd; [done|]. injection Hd as ->.
    rewrite Hpr in Hb. by split_and!; [apply Hpref| |].
  - exists r. apply meta_holder in Hm as (Hm1 & _ & Hm2 & Hm3 & _).
    rewrite Hm1, Hm2, Hm3, Hk, Hn. done.
  - intros x Hx Hs Hpk.
    set (p := λ y, (y == x) : bool).
    assert (x ∈ sql_select p t') as Hin; [|apply elem_of_sql_select in Hin; tauto].
    rewrite Hrest.
    + unfold t1. rewrite register_select.
      * apply elem_of_sql_select. unfold p. by rewrite bool_decide_eq_true_2.
      * intros y Hy. unfold p. apply bool_decide_eq_false. intros ->.
        apply is_seat_true in Hs as (_ & Hs & _). rewrite Hs in Hy. discriminate Hy.
    + intros y Hy. unfold p in Hy. by apply bool_decide_eq_true in Hy as ->.
Qed.

(** ** The order of continuity *)

Section order.
Context (base : string).
Implicit Types (a b c : row).

(** The order of two rows with the same runtime flag and key is that of the rows. *)
Lemma before_in_ext a a' b :
  r_key a' = r_key a → py_flag (r_meta a') "runtime" = py_flag (r_meta a) "runtime" →
  before_in base a' b = before_in base a b ∧ before_in base b a' = before_in base b a.
Proof. intros Hk Hf. unfold before_in, seat_of. by rewrite Hk, Hf. Qed.

Lemma before_in_cases a b :
  before_in base a b = true ↔
  (py_flag (r_meta a) "runtime" = true ∧ py_flag (r_meta b) "runtime" = false) ∨
  (py_flag (r_meta a) "runtime" = py_flag (r_meta b) "runtime" ∧
   ((_seat_ordinal (seat_of a) base < _seat_ordinal (seat_of b) base)%N ∨
    (_seat_ordinal (seat_of a) base = _seat_ordinal (seat_of b) base ∧ String.le (r_key a) (r_key b)))).
Proof.
  unfold before_in. cbv zeta.
  destruct (py_flag (r_meta a) "runtime"), (py_flag (r_meta b) "runtime"); cbn [Bool.eqb negb];
    try (split; [|intros [[? ?]|[? _]]]; naive_solver).
  all: case_bool_decide as Ho; cbn [negb]; rewrite ?bool_decide_eq_true, ?N.ltb_lt.
  all: split; [intros H|intros [[? ?]|[_ [H|[H1 H2]]]]]; try done; try lia; auto.
Qed.

Lemma before_in_total a b : before_in base a b = true ∨ before_in base b a = true.
Proof.
  rewrite !before_in_cases. destruct (String.le_total (r_key a) (r_key b)) as [H|H];
    destruct (N.lt_total (_seat_ordinal (seat_of a) base) (_seat_ordinal (seat_of b) base)) as [Hn|[Hn|Hn]];
    destruct (py_flag (r_meta a) "runtime"), (py_flag (r_meta b) "runtime"); auto 7.
Qed.

Lemma before_in_trans a b c :
  before_in base a b = true → before_in base b c = true → before_in base a c = true.
Proof.
  rewrite !before_in_cases.
  intros [[H1 H2]|[H1 [H2|[H2 H3]]]] [[H4 H5]|[H4 [H5|[H5 H6]]]];
    try (left; split; congruence); right; (split; [congruence|]).
  - left; lia.
  - left; lia.
  - left; lia.
  - right. split; [congruence|]. by transitivity (r_key b).
Qed.

Lemma before_in_antisym a b :
  before_in base a b = true → before_in base b a = true → r_key a = r_key b.
Proof.
  rewrite !before_in_cases. intros [[H1 H2]|[H1 [H2|[H2 H3]]]] [[H4 H5]|[H4 [H5|[H5 H6]]]];
    try congruence; try lia. by apply (anti_symm String.le).
Qed.
End order.

(** The rows of one session key in a project. *)
Definition holds_key (q : claimant) (r : row) : bool :=
  in_registry (q_project q) r && (md_text (r_meta r) "session_key" == Some (q_key q)).

(** The row a continuing claim picks among those of its key: its own when the
    process has one. *)
Definition is_own (q : claimant) (r : row) : bool := truthy (q_nonce q) && (seat_nonce_of r == q_nonce q).

Section continuity.
Implicit Types (t : table) (r : row) (q : claimant).

Lemma elem_of_held q t r : r ∈ held_rows q t ↔ r ∈ t_rows t ∧ holds_key q r = true.
Proof. unfold held_rows, order_held. rewrite elem_of_sort_by, elem_of_sql_select. unfold holds_key. tauto. Qed.

Lemma held_key_eq q t r r' :
  seats_wf t → r ∈ held_rows q t → r' ∈ held_rows q t → r_key r = r_key r' → r = r'.
Proof.
  intros Hwf [Hr Hh]%elem_of_held [Hr' Hh']%elem_of_held Hk.
  apply andb_true_iff in Hh as [Hh _], Hh' as [Hh' _].
  eapply wf_row_eq; [apply Hwf|done..|].
  rewrite (seat_row_pk t (q_project q) r), (seat_row_pk t (q_project q) r') by done.
  unfold seat_of. by rewrite Hk.
Qed.

Lemma own_rows_select q t : truthy (q_nonce q) = true → own_rows q (held_rows q t) = select (is_own q) (held_rows q t).
Proof.
  intros Hn. unfold own_rows. rewrite Hn. apply select_ext. intros r _. unfold is_own. by rewrite Hn.
Qed.

Lemma own_rows_none q t : truthy (q_nonce q) = false → own_rows q (held_rows q t) = [].
Proof. intros Hn. unfold own_rows. by rewrite Hn. Qed.

(** The picked row is the first of the process's own rows, else of all. *)
Definition picks q t held : Prop :=
  held ∈ held_rows q t ∧
  (is_own q held = true ∨ ∀ r, r ∈ held_rows q t → is_own q r = false) ∧
  (∀ r, r ∈ held_rows q t → is_own q r = is_own q held →
     before_in (lane_of (q_project q) (q_provider q)) held r = true).

Lemma head_default_select (p : row → bool) l x :
  default x (head (select p (x :: l))) =
    match head (select p (x :: l)) with Some y => y | None => x end.
Proof. by destruct (head _). Qed.

Lemma before_in_refl base r : before_in base r r = true.
Proof. by destruct (before_in_total base r r). Qed.

Lemma default_picks q t first rest :
  held_rows q t = first :: rest → picks q t (default first (head (own_rows q (held_rows q t)))).
Proof.
  intros E. set (base := lane_of (q_project q) (q_provider q)).
  assert (∀ (p : row → bool) x, head (select p (held_rows q t)) = Some x →
    x ∈ held_rows q t ∧ p x = true ∧ ∀ y, y ∈ held_rows q t → p y = true → before_in base x y = true) as Hhead.
  { intros p x Hx. unfold held_rows, order_held in Hx.
    apply sort_by_head in Hx as (Hin & Hp & Hmin); [|apply before_in_total|apply before_in_trans].
    assert (∀ y, y ∈ held_rows q t ↔ y ∈ sql_select (λ r, in_registry (q_project q) r
      && (md_text (r_meta r) "session_key" == Some (q_key q))) t) as Hel
      by (intros y; unfold held_rows, order_held; apply elem_of_sort_by).
    split_and!; [by apply Hel|done|]. intros y Hy Hpy. apply Hel in Hy.
    destruct (Hmin y Hy Hpy) as [->|H]; [apply before_in_refl|done]. }
  assert (first ∈ held_rows q t ∧ ∀ y, y ∈ held_rows q t → before_in base first y = true) as [Hfin Hfmin].
  { destruct (Hhead (λ _, true) first) as (H1 & _ & H2); [|by auto].
    rewrite select_all by done. by rewrite E. }
  destruct (truthy (q_nonce q)) eqn:Hn.
  - rewrite own_rows_select by done.
    destruct (head (select (is_own q) (held_rows q t))) as [x|] eqn:Ex; cbn [default from_option].
    + destruct (Hhead _ _ Ex) as (Hin & Hown & Hmin). split_and!; [done|by left|].
      intros r Hr Heq. apply Hmin; [done|]. by rewrite Heq.
    + apply head_None in Ex. rewrite select_nil in Ex. split_and!; [done|by right|]. auto.
  - rewrite own_rows_none by done. cbn. split_and!; [done| |auto].
    right. intros r _. unfold is_own. by rewrite Hn.
Qed.

(** At most one row fits. *)
Lemma picks_unique q t r r' : seats_wf t → picks q t r → picks q t r' → r = r'.
Proof.
  intros Hwf (Hin & Hown & Hmin) (Hin' & Hown' & Hmin').
  assert (is_own q r = is_own q r') as Heq.
  { destruct Hown as [H|H], Hown' as [H'|H'].
    - congruence.
    - by rewrite (H' r Hin) in H.
    - by rewrite (H r' Hin') in H'.
    - by rewrite (H r Hin), (H r' Hin'). }
  eapply held_key_eq; [done..|].
  eapply (before_in_antisym (lane_of (q_project q) (q_provider q))); auto.
Qed.
End continuity.

(** ** Keeping a seat *)

Section keeping.
Implicit Types (t : table) (r : row) (q : claimant).

Lemma registry_key t p r : seats_wf t → r ∈ t_rows t → in_registry p r = true → r_key r = "seat/" +:+ seat_of r.
Proof. intros Hwf Hr Hp. by rewrite (seat_row_pk t p r) at 1. Qed.

Lemma collapse_dupes_spec q held ordered t h :
  seats_wf t → h ∈ t_rows t → r_pk h = seat_pk (seat_of held) (q_project q) →
  r_key held = "seat/" +:+ seat_of held → (∀ r, r ∈ ordered → r_key r = "seat/" +:+ seat_of r) →
  seats_wf (collapse_dupes q held ordered t) ∧ h ∈ t_rows (collapse_dupes q held ordered t) ∧
  ∀ r, r ∈ t_rows (collapse_dupes q held ordered t) → r ∈ t_rows t.
Proof.
  intros Hwf Hh Hpk Hkey. unfold collapse_dupes. revert t Hwf Hh.
  induction ordered as [|r l IH]; intros t Hwf Hh Hall; [done|]. cbn [foldl].
  assert (∀ x, x ∈ l → r_key x = "seat/" +:+ seat_of x) as Hl by (intros; apply Hall; by right).
  destruct (_ && _) eqn:E; [|by apply IH].
  apply andb_true_iff in E as [E _]. apply andb_true_iff in E as [E _].
  apply negb_true_iff, bool_decide_eq_false in E.
  destruct (IH (free_seat q (seat_of r) t)) as (H1 & H2 & H3).
  - by apply seats_wf_delete.
  - apply elem_of_select. split; [|done]. apply negb_true_iff, not_true_is_false.
    intros Heq%has_pk_true. rewrite Hpk in Heq. apply seat_pk_inj in Heq.
    apply E. rewrite Hkey, (Hall r) by (by left). by rewrite Heq.
  - done.
  - split_and!; [done..|]. intros x Hx. apply H3 in Hx. apply elem_of_select in Hx. tauto.
Qed.

(** A refresh keeps the row, rewrites its metadata, and only frees others. *)
Lemma keep_seat_spec now q mine held t :
  seats_wf t → held ∈ held_rows q t →
  let t' := keep_seat now q mine held (held_rows q t) t in
  seats_wf t' ∧ (∃ held' rt pref, held' ∈ t_rows t' ∧ r_pk held' = r_pk held ∧
     r_meta held' = Some (_meta now q (superseded_after q mine held) rt pref) ∧
     (q_runtime q = false → rt = py_flag (r_meta held) "runtime")) ∧
  (∀ r, r ∈ t_rows t' → r_pk r ≠ r_pk held → r ∈ t_rows t).
Proof.
  intros Hwf Hheld t'. pose proof Hheld as [Hin Hh]%elem_of_held. apply andb_true_iff in Hh as [Hreg _].
  pose proof (seat_row_pk t _ _ Hwf Hin Hreg) as Hpk.
  unfold t', keep_seat. cbv zeta. set (meta := _meta _ _ _ _ _).
  set (t1 := refresh_seat now q (seat_of held) meta t).
  set (h := set_used now (set_meta (Some meta) held)).
  assert (seats_wf t1) as Hwf1 by (apply seats_wf_update; [apply _|done]).
  assert (h ∈ t_rows t1) as Hh1.
  { apply elem_of_update_where. exists held. split; [done|]. by rewrite (proj2 (has_pk_true _ held) Hpk). }
  destruct (collapse_dupes_spec q held (held_rows q t) t1 h) as (H1 & H2 & H3); try done.
  - by apply (registry_key t (q_project q)).
  - intros r [Hr Hk]%elem_of_held. apply andb_true_iff in Hk as [Hk _].
    by apply (registry_key t (q_project q)).
  - split_and!; [done| |].
    + eexists h, _, _. split_and!; [done|done|done|]. intros ->. cbn [andb]. by rewrite orb_false_r.
    + intros r Hr Hne. apply H3 in Hr. apply elem_of_update_where in Hr as (x & Hx & ->).
      destruct (has_pk _ x) eqn:E; [|done]. apply has_pk_true in E. exfalso. apply Hne.
      cbn [set_used set_meta r_pk]. congruence.
Qed.
End keeping.

(** A continuing claim without a runtime request: it keeps the row it picks. *)
Lemma continue_kept lane now q w t g t' :
  seats_wf t → q_runtime q = false → continue_seat lane now q w t = inl (g, t') →
  ∃ held held', picks q t held ∧ g_seat g = seat_of held ∧ seats_wf t' ∧
    held' ∈ t_rows t' ∧ r_pk held' = r_pk held ∧
    py_flag (r_meta held') "runtime" = py_flag (r_meta held) "runtime" ∧
    seat_nonce_of held' = q_nonce q ∧ md_text (r_meta held') "session_key" = Some (q_key q) ∧
    (∀ r, r ∈ t_rows t' → r_pk r ≠ r_pk held → r ∈ t_rows t) ∧
    superseded_of held' = last_n MAX_SUPERSEDED_NONCES
      (superseded_after q (own_rows q (held_rows q t)) held) ∧
    door_closed q (own_rows q (held_rows q t)) held = false.
Proof.
  intros Hwf Hrt. unfold continue_seat.
  destruct (held_rows q t) as [|first rest] eqn:E; [done|]. rewrite <- E. cbv zeta.
  pose proof (default_picks q t first rest E) as Hp.
  set (held := default first _) in *.
  destruct (door_closed q (own_rows q (held_rows q t)) held) eqn:Ed; [done|].
  rewrite Hrt. cbn [andb].
  assert (match q_preferred q with Some _ => None | None => @None string end = None) as ->
    by (by destruct (q_preferred q)).
  intros [= <- <-]. cbn [g_seat].
  destruct (keep_seat_spec now q (own_rows q (held_rows q t)) held t Hwf (proj1 Hp))
    as (Hwf' & (held' & rt & pref & Hh' & Hpk & Hm & Hrt') & Hrest).
  apply meta_holder in Hm as (_ & Hk & Hn & Hs & Hf).
  exists held, held'. split_and!; try done. by rewrite Hf, Hrt'.
Qed.

(** ** Stability *)

Section stability.
Context (lane_reservation : bool).
Implicit Types (t : table) (r h : row) (q : claimant).

Lemma held_rows_register now q q' t : held_rows q (register_project now q' t) = held_rows q t.
Proof.
  unfold held_rows. rewrite register_select; [done|]. intros r Hr.
  unfold in_registry. rewrite Hr. by rewrite andb_false_r.
Qed.

Lemma picks_register now q q' t h : picks q t h → picks q (register_project now q' t) h.
Proof. unfold picks. by rewrite held_rows_register. Qed.

(** A claim continues on the row it picks, unless the door is closed. *)
Lemma continue_picks now q w t h :
  seats_wf t → q_runtime q = false → picks q t h → door_closed q (own_rows q (held_rows q t)) h = false →
  ∃ g t', continue_seat lane_reservation now q w t = inl (g, t') ∧
    g_seat g = seat_of h ∧ g_is_new g = false ∧ g_reclaimed_from g = None.
Proof.
  intros Hwf Hrt Hp Hd. unfold continue_seat. destruct (held_rows q t) as [|first rest] eqn:E.
  { destruct Hp as [Hp _]. rewrite E in Hp. by apply elem_of_nil in Hp. }
  rewrite <- E in *. cbv zeta.
  assert (default first (head (own_rows q (held_rows q t))) = h) as ->
    by exact (picks_unique q t _ h Hwf (default_picks q t first rest E) Hp).
  rewrite Hd, Hrt. cbn [andb].
  assert (match q_preferred q with Some _ => None | None => @None string end = None) as ->
    by (by destruct (q_preferred q)).
  eexists _, _. split; [reflexivity|]. done.
Qed.

Lemma own_door_open q t h :
  h ∈ held_rows q t → seat_nonce_of h = q_nonce q → door_closed q (own_rows q (held_rows q t)) h = false.
Proof.
  intros Hin Hn. unfold door_closed. destruct (truthy (q_nonce q)) eqn:Ht; [|done].
  rewrite own_rows_select by done.
  destruct (select (is_own q) (held_rows q t)) as [|x l] eqn:E; [|done]. exfalso.
  assert (h ∈ select (is_own q) (held_rows q t)) as H.
  { apply elem_of_select. unfold is_own. by rewrite Ht, Hn, bool_decide_eq_true_2. }
  rewrite E in H. by apply elem_of_nil in H.
Qed.

(** Going on to allocation means that the process holds no row of its own. *)
Lemma continue_none now q w t w' :
  continue_seat lane_reservation now q w t = inr w' →
  ∀ r, r ∈ held_rows q t → truthy (q_nonce q) = true ∧ is_own q r = false.
Proof.
  unfold continue_seat. destruct (held_rows q t) as [|first rest] eqn:E; [by intros _ r ?%elem_of_nil|].
  rewrite <- E. cbv zeta. destruct (door_closed _ _ _) eqn:Ed.
  2:{ intros H. repeat (case_match; try done). }
  intros _ r Hr. unfold door_closed in Ed. rewrite !andb_true_iff in Ed. destruct Ed as [[Ht Hl] _].
  split; [done|]. rewrite own_rows_select in Hl by done. apply bool_decide_eq_true, length_zero_iff_nil in Hl.
  rewrite select_nil in Hl. auto.
Qed.

Lemma continue_stays now q w t g t' :
  seats_wf t → q_runtime q = false → continue_seat lane_reservation now q w t = inl (g, t') →
  ∃ h, seats_wf t' ∧ picks q t' h ∧ seat_nonce_of h = q_nonce q ∧ g_seat g = seat_of h.
Proof.
  intros Hwf Hrt H.
  destruct (continue_kept lane_reservation now q w t g t' Hwf Hrt H)
    as (held & h & Hp & Hs & Hwf' & Hh & Hpk & Hf & Hn & Hk & Hrest & _ & _).
  destruct Hp as (Hin & Hown & Hmin). pose proof Hin as [Hint Hkey]%elem_of_held.
  apply andb_true_iff in Hkey as [Hreg _].
  assert (h ∈ held_rows q t') as Hhin.
  { apply elem_of_held. split; [done|]. unfold holds_key. rewrite Hk, bool_decide_eq_true_2 by done.
    unfold in_registry in *. by rewrite Hpk, Hreg. }
  assert (truthy (q_nonce q) = true → is_own q h = true) as Hho.
  { intros Ht. unfold is_own. by rewrite Ht, Hn, bool_decide_eq_true_2. }
  exists h. split_and!; [done| |done|by rewrite Hs; unfold seat_of; rewrite Hpk].
  split_and!; [done| |].
  - destruct (truthy (q_nonce q)) eqn:Ht; [left; auto|right]. intros r _. unfold is_own. by rewrite Ht.
  - intros r [Hr Hrk]%elem_of_held Heq.
    destruct (before_in_ext (lane_of (q_project q) (q_provider q)) held h r) as [-> _]; [by rewrite Hpk|done|].
    destruct (decide (r_pk r = r_pk held)) as [Hpr|Hpr].
    + assert (r = h) as -> by (eapply wf_row_eq; [apply Hwf'|done..|congruence]).
      rewrite <- (proj1 (before_in_ext (lane_of (q_project q) (q_provider q)) held h h
        ltac:(by rewrite Hpk) Hf)). apply before_in_refl.
    + assert (r ∈ held_rows q t) as Hr0 by (apply elem_of_held; auto).
      apply Hmin; [done|]. destruct (truthy (q_nonce q)) eqn:Ht.
      * rewrite Hho in Heq by done. destruct Hown as [Ho|Ho]; [congruence|].
        by rewrite (Ho r Hr0) in Heq.
      * unfold is_own. by rewrite Ht.
Qed.

Lemma allocated_stays now q distinct roots g t t' w w' :
  seats_wf t → continue_seat lane_reservation now q w t = inr w' →
  allocated now q distinct roots lane_reservation g t t' →
  ∃ h, seats_wf t' ∧ picks q t' h ∧ seat_nonce_of h = q_nonce q ∧ g_seat g = seat_of h.
Proof.
  intros Hwf Hc [_ _ _ _ (h & rt & Hf & Hm & _) Hwf' Hrest].
  apply meta_holder in Hm as (_ & Hk & Hn & _ & _).
  apply sql_find_Some_elem in Hf as [Hh Hpk]. exists h.
  assert (h ∈ held_rows q t') as Hhin.
  { apply elem_of_held. split; [done|]. unfold holds_key.
    by rewrite (proj1 (pk_in_registry _ _ _ Hpk)), Hk, bool_decide_eq_true_2. }
  assert (∀ r, r ∈ held_rows q t' → r = h ∨ r ∈ held_rows q t) as Hold.
  { intros r [Hr Hrk]%elem_of_held. destruct (decide (r_pk r = r_pk h)) as [Hp|Hp].
    - left. by eapply wf_row_eq; [apply Hwf'|..].
    - right. apply elem_of_held. split; [|done].
      assert (r ∈ sql_select (λ y, y == r) t') as Hsel.
      { apply elem_of_sql_select. by rewrite bool_decide_eq_true_2. }
      rewrite Hrest in Hsel; [apply elem_of_sql_select in Hsel; tauto|].
      intros y ->%bool_decide_eq_true. apply andb_true_iff in Hrk as [Hrk _].
      apply in_registry_true in Hrk as [Hrk _]. split; [done|]. by rewrite <- Hpk. }
  split_and!; [done| |done|symmetry; by apply (seat_of_pk h _ (q_project q))].
  split_and!; [done| |].
  - destruct (truthy (q_nonce q)) eqn:Ht.
    + left. unfold is_own. by rewrite Ht, Hn, bool_decide_eq_true_2.
    + right. intros r _. unfold is_own. by rewrite Ht.
  - intros r Hr Heq. destruct (Hold r Hr) as [->|Hr0]; [apply before_in_refl|].
    destruct (continue_none now q w t w' Hc r Hr0) as [Ht Hno].
    rewrite Hno in Heq. unfold is_own in Heq. by rewrite Ht, Hn, bool_decide_eq_true_2 in Heq.
Qed.

Lemma claim_stays now now2 q w w2 t g t' t'' :
  seats_wf t → q_runtime q = false →
  match continue_seat lane_reservation now q w t with
  | inl (g1, t1) => g = g1 ∧ t' = t1
  | inr _ => ∃ distinct roots, allocated now q distinct roots lane_reservation g t t'
  end →
  seats_wf t'' → held_rows q t'' = held_rows q t' →
  ∃ g2 t2, continue_seat lane_reservation now2 q w2 (register_project now2 q t'') = inl (g2, t2) ∧
    g_seat g2 = g_seat g ∧ g_is_new g2 = false ∧ g_reclaimed_from g2 = None.
Proof.
  intros Hwf Hrt H Hwf'' Hheld.
  assert (∃ h, seats_wf t' ∧ picks q t' h ∧ seat_nonce_of h = q_nonce q ∧ g_seat g = seat_of h)
    as (h & Hwf' & Hp & Hn & ->).
  { destruct (continue_seat _ _ _ _ _) as [[g1 t1]|w'] eqn:E.
    - destruct H as [-> ->]. by apply (continue_stays now q w t g1 t1).
    - destruct H as (d & roots & Ha). by apply (allocated_stays now q d roots g t t' w w'). }
  assert (picks q t'' h) as Hp'' by (unfold picks in *; by rewrite Hheld).
  apply continue_picks; [by apply register_wf|done|by apply picks_register|].
  apply own_door_open; [|done]. rewrite held_rows_register. apply Hp''.
Qed.
End stability.

(** C20. Addresses are stable. Whatever seat an ordinary claim was given, newly
    allocated, taken over or continued, the same claim made again by the same
    process gets the same seat, and never a new one, at any later time and
    whatever happened in between to everything but the seat rows of its session
    key: mail, presence, other sessions' claims and releases. Ordinary means not
    a runtime request for a name: such a claim can be undone by the next one
    ([rename_reverts]). *)
Theorem claim_stable lane now now2 q t g t' t'' :
  seats_wf t → q_runtime q = false → claim_as lane now q t = Done (g, t') →
  seats_wf t'' → held_rows q t'' = held_rows q t' →
  ∃ g2 t2, claim_as lane now2 q t'' = Done (g2, t2) ∧
    g_seat g2 = g_seat g ∧ g_is_new g2 = false ∧ g_reclaimed_from g2 = None.
Proof.
  intros Hwf Hrt. unfold claim_as. cbv zeta. destruct (_ || _); [intros [= <- <-] _ _; eexists _, _; done|].
  set (q1 := if is_some (launch_notice lane q) then drop_preferred q else q).
  set (w := match launch_notice lane q with Some x => [x] | None => [] end).
  assert (q_runtime q1 = false) as Hrt1 by (unfold q1; by destruct (is_some _)).
  assert (∀ t, held_rows q1 t = held_rows q t) as Hq1 by (intros ?; unfold q1; by destruct (is_some _)).
  set (d := match q_preferred q1 with Some _ => _ | None => None end).
  intros H Hwf'' Hheld. destruct (claim_stays lane now now2 q1 w w (register_project now q1 t) g t' t'')
    as (g2 & t2 & -> & Hg); [by apply register_wf|done| |done|by rewrite !Hq1|by exists g2, t2].
  destruct (continue_seat _ _ _ _ _) as [[g1 t1]|w'] eqn:E; [by injection H as -> ->|].
  apply allocate_grant in H as [_ Ha]; [by eexists _, _|by apply register_wf].
Qed.

(** ** The one-way door *)

Lemma last_n_snoc {A} n (l : list A) x : 0 < n → x ∈ last_n n (l ++ [x]).
Proof.
  intros Hn. unfold last_n. rewrite length_app. cbn [length].
  rewrite drop_app_le by lia. apply elem_of_app. right. by left.
Qed.

(** A claim outside the exempt roles, in two parts. *)
Lemma claim_as_split lane now q t :
  match q_preferred q with Some p => is_exempt p | None => false end || is_exempt (q_project q) = false →
  let q1 := if is_some (launch_notice lane q) then drop_preferred q else q in
  ∃ w distinct, claim_as lane now q t =
    match continue_seat lane now q1 w (register_project now q1 t) with
    | inl g => Done g
    | inr w' => allocate lane now q1 distinct (_fetch_known_roots (register_project now q1 t)) w' None
                  (seat_candidates (q_project q1) (q_provider q1) (q_preferred q1)) (register_project now q1 t)
    end.
Proof. intros He q1. unfold claim_as. rewrite He. eauto. Qed.

Lemma drop_same lane q :
  let q1 := if is_some (launch_notice lane q) then drop_preferred q else q in
  q_nonce q1 = q_nonce q ∧ q_runtime q1 = q_runtime q ∧ (∀ t, held_rows q1 t = held_rows q t) ∧
  (∀ r, is_own q1 r = is_own q r) ∧ (∀ r, holds_key q1 r = holds_key q r).
Proof. intros q1. unfold q1. by destruct (is_some _). Qed.

(** Without own rows, a displaced nonce finds the door closed. *)
Lemma door_shut lane now q w t h :
  held_rows q t = [h] → truthy (q_nonce q) = true → seat_nonce_of h ≠ q_nonce q →
  or_empty (q_nonce q) ∈ superseded_of h → continue_seat lane now q w t = inr [DoorClosed (seat_of h)].
Proof.
  intros Hh Ht Hn Hs. unfold continue_seat. rewrite Hh. cbv zeta.
  assert (own_rows q [h] = []) as ->.
  { unfold own_rows. rewrite Ht, select_cons, bool_decide_eq_false_2 by done. done. }
  cbn [head default from_option]. unfold door_closed. by rewrite Ht, (bool_decide_eq_true_2 (_ ∈ _)) by done.
Qed.

(** A process that returns under its session key, to the one seat of that key. *)
Record returns (q : claimant) (t : table) (h : row) (n : string) : Prop := {
  rt_wf : seats_wf t;
  rt_one : ∀ r, r ∈ held_rows q t ↔ r = h;
  rt_nonce : q_nonce q = Some n;
  rt_text : n ≠ "";
  rt_plain : q_runtime q = false
}.

Lemma singleton_held q t h : seats_wf t → (∀ r, r ∈ held_rows q t ↔ r = h) → held_rows q t = [h].
Proof.
  intros Hwf Hone. assert (NoDup (held_rows q t)) as Hnd.
  { unfold held_rows, order_held. rewrite sort_by_Permutation. apply NoDup_filter, (NoDup_fmap_1 r_pk), Hwf. }
  destruct (held_rows q t) as [|x [|y l]].
  - exfalso. eapply not_elem_of_nil. by apply Hone.
  - f_equal. apply Hone. by left.
  - exfalso. assert (x = h) as -> by (apply Hone; by left).
    assert (y = h) as -> by (apply Hone; right; by left).
    apply NoDup_cons in Hnd as [Hx _]. apply Hx. by left.
Qed.

(** Newest wins: the seat is kept, its only row, and the other process's nonce
    is recorded as displaced. *)
Lemma newest_wins lane now q w t h m n :
  returns q t h n → seat_nonce_of h = Some m → m ≠ "" → m ≠ n → n ∉ superseded_of h →
  ∃ g t' h', continue_seat lane now q w t = inl (g, t') ∧ g_seat g = seat_of h ∧ g_is_new g = false ∧
    seats_wf t' ∧ (∀ r, r ∈ held_rows q t' ↔ r = h') ∧ seat_nonce_of h' = Some n ∧ m ∈ superseded_of h'.
Proof.
  intros [Hwf Hone Hq Hn Hrt] Hm Hmne Hne Hsup.
  assert (own_rows q (held_rows q t) = []) as Hown.
  { rewrite own_rows_select by (rewrite Hq; by destruct n). apply select_nil. intros r ->%Hone.
    unfold is_own. rewrite Hq, Hm, (bool_decide_eq_false_2 (Some m = Some n)) by congruence. apply andb_false_r. }
  assert (is_own q h = false) as Hno.
  { rewrite own_rows_select, select_nil in Hown by (rewrite Hq; by destruct n). by apply Hown, Hone. }
  assert (picks q t h) as Hp.
  { split_and!; [by apply Hone|right; by intros r ->%Hone|]. intros r ->%Hone _. apply before_in_refl. }
  assert (door_closed q (own_rows q (held_rows q t)) h = false) as Hd.
  { unfold door_closed. rewrite Hq. cbn [or_empty default from_option].
    rewrite (bool_decide_eq_false_2 (n ∈ _)) by done. apply andb_false_r. }
  destruct (continue_picks lane now q w t h Hwf Hrt Hp Hd) as (g & t' & Hg & Hs & Hnew & _).
  destruct (continue_kept lane now q w t g t' Hwf Hrt Hg)
    as (held & h' & Hp' & _ & Hwf' & Hh' & Hpk & _ & Hn' & Hk' & Hrest & Hsup' & _).
  assert (held = h) as -> by exact (picks_unique q t held h Hwf Hp' Hp).
  exists g, t', h'. split_and!; [done..| |congruence|].
  - pose proof (proj2 (Hone h) eq_refl) as [Hin Hhk]%elem_of_held. apply andb_true_iff in Hhk as [Hhk _].
    intros r. rewrite elem_of_held. split.
    + intros [Hr Hrk]. destruct (decide (r_pk r = r_pk h)) as [Hpr|Hpr].
      * eapply wf_row_eq; [apply Hwf'|done..|congruence].
      * assert (r ∈ held_rows q t) as Hr1 by (apply elem_of_held; auto). by apply Hone in Hr1 as ->.
    + intros ->. split; [done|]. unfold holds_key, in_registry in *. by rewrite Hpk, Hhk, Hk', bool_decide_eq_true_2.
  - rewrite Hsup'. assert (superseded_after q (own_rows q (held_rows q t)) h = superseded_of h ++ [m]) as ->;
      [|apply last_n_snoc; unfold MAX_SUPERSEDED_NONCES; lia].
    unfold superseded_after, same_process. rewrite Hown, Hq, Hm.
    rewrite (bool_decide_eq_false_2 (Some m = Some n)) by congruence. by destruct m, n.
Qed.

(** Newest wins, one way. When a session returns in a new process, under
    the same session key, it gets its own seat back whatever the row's age;
    and the process it displaced cannot take it back by continuity: its next
    claim, at any later time, can only be a new grant, under the allocation
    rules. *)
Lemma newest_wins_one_way lane now now2 q q' t h n n' :
  seats_wf t → held_rows q t = [h] → seat_nonce_of h = Some n → n ≠ "" → n' ≠ "" → n ≠ n' →
  q_nonce q = Some n → q_nonce q' = Some n' → n' ∉ superseded_of h →
  q_key q' = q_key q → q_project q' = q_project q → q_runtime q' = false →
  match q_preferred q with Some p => is_exempt p | None => false end || is_exempt (q_project q) = false →
  match q_preferred q' with Some p => is_exempt p | None => false end || is_exempt (q_project q') = false →
  ∃ g' t', claim_as lane now q' t = Done (g', t') ∧ g_seat g' = seat_of h ∧ g_is_new g' = false ∧
    match claim_as lane now2 q t' with
    | Done (g, _) => g_is_new g = true
    | Raise _ => True
    end.
Proof.
  intros Hwf Hheld Hn Hnn Hnn' Hne Hq Hq' Hsup Hkey Hproj Hrt He He'.
  destruct (claim_as_split lane now q' t He') as (w & d & ->).
  destruct (drop_same lane q') as (Hn1 & Hrt1 & Hheld1 & _ & Hkey1).
  set (q1 := if is_some (launch_notice lane q') then drop_preferred q' else q') in *.
  assert (∀ r u, r ∈ held_rows q1 u ↔ r ∈ held_rows q u) as Hsame.
  { intros r u. rewrite Hheld1, !elem_of_held. unfold holds_key. by rewrite Hkey, Hproj. }
  assert (returns q1 (register_project now q1 t) h n') as Hret.
  { split; [by apply register_wf| |congruence|done|congruence]. intros r.
    rewrite held_rows_register, Hsame, Hheld. apply list_elem_of_singleton. }
  destruct (newest_wins lane now q1 w _ h n n' Hret Hn Hnn Hne Hsup)
    as (g' & t' & h' & -> & Hs & Hnew & Hwf' & Hone' & Hn' & Hin).
  exists g', t'. split_and!; [done..|].
  destruct (claim_as_split lane now2 q t' He) as (w2 & d2 & ->).
  destruct (drop_same lane q) as (Hn2 & _ & Hheld2 & _ & _).
  set (q2 := if is_some (launch_notice lane q) then drop_preferred q else q) in *.
  rewrite (door_shut lane now2 q2 w2 _ h').
  - destruct (allocate _ _ _ _ _ _ _ _ _) as [[g t2]|e] eqn:E; [|done].
    apply allocate_grant in E as [_ [Hnw _ _ _ _ _ _]]; [done|by apply register_wf].
  - rewrite held_rows_register, Hheld2. apply singleton_held; [done|]. intros r. by rewrite <- Hsame.
  - rewrite Hn2, Hq. by destruct n.
  - rewrite Hn2, Hq, Hn'. congruence.
  - by rewrite Hn2, Hq.
Qed.

(** ** Releases *)

Section releases.
Implicit Types (t : table) (r : row).

Lemma release_cases now key project ev nonce t :
  let p := releases key (norm (Some project)) (stripped nonce) in
  (seat_release now key project ev nonce t = (None, t) ∧ ∀ r, r ∈ t_rows t → p r = false) ∨
  ∃ r0, r0 ∈ t_rows t ∧ p r0 = true ∧
    seat_release now key project ev nonce t =
      (Some (seat_of r0),
       if certain ev then _stamp_presence_released now (seat_of r0) (norm (Some project)) (stripped nonce) (sql_delete p t)
       else sql_delete p t).
Proof.
  intros p. unfold seat_release. fold p. destruct (sql_select p t) as [|r0 l] eqn:E.
  - left. split; [done|]. by apply select_nil.
  - right. exists r0. assert (r0 ∈ sql_select p t) as H by (rewrite E; left).
    apply elem_of_sql_select in H as [Hp Hin]. done.
Qed.

Lemma releases_true key project nonce r :
  releases key project nonce r = true ↔ in_registry project r = true ∧
    md_text (r_meta r) "session_key" = Some key ∧
    match nonce with Some n => md_text (r_meta r) "session_nonce" = Some n | None => True end.
Proof.
  unfold releases. rewrite !andb_true_iff, bool_decide_eq_true. destruct nonce; rewrite ?bool_decide_eq_true; tauto.
Qed.

(** The released seat has no row left. *)
Lemma released_gone t key project nonce r0 :
  seats_wf t → r0 ∈ t_rows t → releases key project nonce r0 = true →
  sql_find (seat_pk (seat_of r0) project) (sql_delete (releases key project nonce) t) = None.
Proof.
  intros Hwf Hr0 Hrel. pose proof Hrel as (Hreg & _)%releases_true.
  pose proof (seat_row_pk t project r0 Hwf Hr0 Hreg) as Hpk.
  rewrite sql_find_delete by apply Hwf.
  rewrite (proj2 (sql_find_Some (seat_pk (seat_of r0) project) t r0 (proj1 Hwf)) (conj Hr0 Hpk)).
  by rewrite Hrel.
Qed.

Lemma stamp_find now seat project nonce t k :
  wf t → sql_find k t = None → sql_find k (_stamp_presence_released now seat project nonce t) = None.
Proof.
  intros Hwf Hf. unfold _stamp_presence_released. cbv zeta.
  rewrite sql_find_update by first [apply _|done]. by rewrite Hf.
Qed.
End releases.

(** A fenced release frees its own incarnation only. With a nonce, the rows
    deleted are those of the session key under that very nonce, so a
    successor's row survives; and the only other change is a [released_at]
    stamp, under certain evidence, on the presence of the freed seat, when
    that presence names this incarnation and nobody else and no seat row has
    the name again. *)
Lemma release_fenced now key project ev nonce n t res t' :
  stripped nonce = Some n → seat_release now key project ev nonce t = (res, t') →
  (res = None ∧ t' = t) ∨
  ∃ s, res = Some s ∧ Forall2 (λ r r', r' = r ∨
      (r' = set_meta (md_set (r_meta r) "released_at" (JTime now)) r ∧ certain ev = true ∧
       is_presence s (norm (Some project)) r = true ∧ attributable n (r_meta r) = true ∧
       ∀ x, x ∈ t_rows t' → r_pk x ≠ seat_pk s (norm (Some project))))
    (select (λ r, negb (in_registry (norm (Some project)) r &&
        (md_text (r_meta r) "session_key" == Some key) && (md_text (r_meta r) "session_nonce" == Some n))) (t_rows t))
    (t_rows t').
Proof.
  intros Hn H. destruct (release_cases now key project ev nonce t) as [[E _]|(r0 & Hr0 & Hrel & E)];
    rewrite E in H; injection H as <- <-; [by left|right].
  exists (seat_of r0). split; [done|]. rewrite Hn in *.
  set (p := releases key (norm (Some project)) (Some n)) in *.
  change (select (λ r, negb _) (t_rows t)) with (t_rows (sql_delete p t)).
  destruct (certain ev); [|by apply Forall2_same; left].
  unfold _stamp_presence_released. cbv zeta. set (t1 := sql_delete p t). set (st := λ r, is_presence _ _ r && _ && _).
  cbn [sql_update t_rows]. unfold update_where. apply Forall2_fmap_r, Forall2_same.
  intros r _. cbn [compose]. destruct (st r) eqn:Est; [right|by left].
  unfold st in Est. rewrite !andb_true_iff, negb_true_iff in Est. destruct Est as [[Hp Hno] Hat].
  split_and!; [done..|]. intros x Hx Heq. apply elem_of_update_where in Hx as (y & Hy & ->).
  apply not_true_iff_false in Hno. apply Hno. apply existsb_exists. exists y.
  split; [by apply list_elem_of_In|]. apply has_pk_true. by destruct (st y).
Qed.

(** A release frees a name as surely as its evidence. Declared as inferred,
    it never hands the name to a newcomer while some other session still
    breathes there; declared as certain, without a nonce, the name reads
    free to everybody, until a presence beat later than the release. *)
Lemma release_evidence lane now now2 key project ev t s t' :
  seats_wf t → seat_release now key project ev None t = (Some s, t') →
  (certain ev = false → ∀ q g t2, q_project q = norm (Some project) →
     _breathing_at now2 t' s (norm (Some project)) (q_nonce q) = true →
     claim_as lane now2 q t' = Done (g, t2) → g_is_new g = true → g_seat g ≠ s) ∧
  (certain ev = true → (∀ r, r ∈ t_rows t → is_presence s (norm (Some project)) r = true → (r_used r <= now)%Z) →
     ∀ who, _breathing_at now2 t' s (norm (Some project)) who = false).
Proof.
  intros Hwf H. destruct (release_cases now key project ev None t) as [[E _]|(r0 & Hr0 & Hrel & E)];
    rewrite E in H; [discriminate H|]. injection H as <- <-.
  change (stripped None) with (@None string) in *.
  set (p := releases key (norm (Some project)) None) in *.
  pose proof (released_gone t key (norm (Some project)) None r0 Hwf Hr0 Hrel) as Hgone. fold p in Hgone.
  split; intros Hc; rewrite Hc.
  - intros q g t2 Hq Hbr Hcl Hnew Hs.
    apply new_claim_may_take in Hcl as Hmay; [|by apply seats_wf_delete|done].
    unfold may_take in Hmay. rewrite Hs, Hq, Hgone, Hbr in Hmay. discriminate Hmay.
  - intros Hused who. unfold _breathing_at. apply not_true_is_false. intros Hex.
    apply existsb_exists in Hex as (r & Hr & Hb). apply list_elem_of_In in Hr.
    apply elem_of_update_where in Hr as (x & Hx & ->).
    assert (x ∈ t_rows t) as Hxt by (apply elem_of_select in Hx; tauto).
    destruct (is_presence (seat_of r0) (norm (Some project)) x) eqn:Epr.
    + assert (existsb (has_pk (seat_pk (seat_of r0) (norm (Some project)))) (t_rows (sql_delete p t)) = false) as Hno.
      { apply not_true_is_false. intros Hin. apply existsb_exists in Hin as (y & Hy & Hpk).
        apply list_elem_of_In in Hy. apply has_pk_true in Hpk.
        rewrite sql_find_None in Hgone. by apply (Hgone y). }
      rewrite Hno in Hb. cbn [negb andb] in Hb. unfold breathing_row in Hb. cbn [set_meta r_meta r_used] in Hb.
      unfold md_time at 1 in Hb. rewrite md_get_set_eq in Hb.
      rewrite (proj2 (Z.leb_le _ _) (Hused x Hxt Epr)) in Hb. cbn [negb] in Hb.
      by rewrite !andb_false_r in Hb.
    + cbn [andb] in Hb. by rewrite Epr in Hb.
Qed.

(** ** Concrete runs *)

Definition ex_q (nonce : string) : claimant :=
  Claimant "k1" "tide" "claude" (Some nonce) (Some "hosta") None false.

(** The table after a claim. *)
Definition after_claim (lane : bool) (now : Z) (q : claimant) (t : table) : table :=
  match claim_as lane now q t with Done (_, t') => t' | Raise _ => t end.

Definition granted_seat (lane : bool) (now : Z) (q : claimant) (t : table) : option (string * bool) :=
  match claim_as lane now q t with Done (g, _) => Some (g_seat g, g_is_new g) | Raise _ => None end.

Definition ex_seated : table := after_claim false 1000 (ex_q "n1") empty_table.

Lemma ex_empty_seats_wf : seats_wf empty_table.
Proof. split; [apply wf_empty|]. by intros r ?%elem_of_nil. Qed.

Lemma ex_first_claim : ∃ g, claim_as false 1000 (ex_q "n1") empty_table = Done (g, ex_seated) ∧
  g_seat g = "tide-claude" ∧ g_is_new g = true.
Proof. eexists. split; [vm_compute; reflexivity|]. split; reflexivity. Qed.

Lemma new_grant_wf lane now q t g t' :
  seats_wf t → claim_as lane now q t = Done (g, t') → g_is_new g = true → seats_wf t'.
Proof.
  intros Hwf Hg Hnew. unfold claim_as in Hg. cbv zeta in Hg. revert Hg.
  destruct (_ || _); [intros [= <- _]; discriminate Hnew|].
  destruct (continue_seat _ _ _ _ _) as [[g1 t1]|w] eqn:E.
  - intros [= -> ->]. apply continue_not_new in E as [E _]. congruence.
  - intros Hg. apply allocate_grant in Hg as [_ [_ _ _ _ _ Hwf' _]]; [exact Hwf'|].
    by apply register_wf.
Qed.

Lemma ex_seated_wf : seats_wf ex_seated.
Proof. destruct ex_first_claim as (g & Hg & _ & Hnew). exact (new_grant_wf _ _ _ _ _ _ ex_empty_seats_wf Hg Hnew). Qed.

Lemma new_grant_safe_witness :
  ∃ r, sql_find (seat_pk "tide-claude" "tide") ex_seated = Some r ∧ seat_nonce_of r = Some "n1".
Proof.
  destruct ex_first_claim as (g & Hg & Hs & Hnew).
  destruct (new_grant_safe false 1000 (ex_q "n1") empty_table g ex_seated ex_empty_seats_wf Hg Hnew)
    as (_ & _ & _ & (r & Hr & _ & Hn & _) & _).
  exists r. rewrite Hs in Hr. done.
Defined.

(** Another session of the project takes its seat in between. *)
Definition ex_other : claimant := Claimant "k2" "tide" "claude" (Some "m1") (Some "hostb") None false.

Lemma ex_other_claim : ∃ g, claim_as false 1500 ex_other ex_seated = Done (g, after_claim false 1500 ex_other ex_seated) ∧
  g_seat g = "tide-claude-2" ∧ g_is_new g = true.
Proof. eexists. split; [vm_compute; reflexivity|]. split; reflexivity. Qed.

Lemma claim_stable_witness :
  ∃ g2 t2, claim_as false 999999999 (ex_q "n1") (after_claim false 1500 ex_other ex_seated) = Done (g2, t2) ∧
    g_seat g2 = "tide-claude".
Proof.
  destruct ex_first_claim as (g & Hg & Hs & _). destruct ex_other_claim as (g' & Hg' & _ & Hn').
  destruct (claim_stable false 1000 999999999 (ex_q "n1") empty_table g ex_seated _ ex_empty_seats_wf eq_refl Hg
    (new_grant_wf _ _ _ _ _ _ ex_seated_wf Hg' Hn'))
    as (g2 & t2 & H1 & H2 & _); [vm_compute; reflexivity|].
  exists g2, t2. rewrite <- Hs. done.
Defined.

(** A nonce displaced nine times ago has been forgotten: the door is open again. *)
Lemma door_reopens :
  let t := foldl (λ t n, after_claim false 2000 (ex_q n) t) ex_seated
             ["n2"; "n3"; "n4"; "n5"; "n6"; "n7"; "n8"; "n9"; "m1"; "m2"] in
  granted_seat false 2001 (ex_q "n1") t = Some ("tide-claude", false).
Proof. vm_compute. reflexivity. Qed.

Definition ex_mail (to : string) (t : table) : table :=
  sql_append 2500 (NewRow (PKey INBOX_NAMESPACE ("inbox/" +:+ to) INBOX_SCOPE to None) "hello" "" "" "" None
    (Some ∅) None) t.

Definition ex_rename (name : string) : claimant :=
  Claimant "k1" "tide" "claude" (Some "n1") (Some "hosta") (Some name) true.

(** Renamed from one runtime name that still holds mail to another, a session
    finds itself back on the first at its next ordinary claim. *)
Lemma rename_reverts :
  let t1 := ex_mail "alpha" (after_claim false 2000 (ex_rename "alpha") ex_seated) in
  let t2 := after_claim false 3000 (ex_rename "beta") t1 in
  granted_seat false 3000 (ex_rename "beta") t1 = Some ("beta", false) ∧
  granted_seat false 3001 (ex_q "n1") t2 = Some ("alpha", false).
Proof. split; vm_compute; reflexivity. Qed.

(** A release by key alone frees every seat of the key and reports one. *)
Lemma release_reports_one :
  let t := after_claim false 3000 (ex_rename "beta")
             (ex_mail "alpha" (after_claim false 2000 (ex_rename "alpha") ex_seated)) in
  (seat_of <$> held_rows (ex_q "n1") t) = ["alpha"; "beta"] ∧
  (seat_release 4000 "k1" "tide" None None t).1 = Some "alpha" ∧
  held_rows (ex_q "n1") (seat_release 4000 "k1" "tide" None None t).2 = [].
Proof. split_and!; vm_compute; reflexivity. Qed.
