(* ===== verification/Presence.v ===== *)
(** Presence (src/server/services/memory_service.py): the heartbeat of a
    session, the beat of its watcher, the farewell a watcher records, and the
    two readers of those rows, the roster and the liveness a send reports.

    A presence row is a row of the [memories] table; each operation is the SQL
    statements of the source in their order. Instants are whole seconds, and
    the application's clock and the database's are one argument [now]. [iso]
    is [datetime.isoformat], for the one place that compares two stored
    instants as texts (the choice among death certificates). An entry of the
    nonce map that is not an object, which no writer stores, counts as not
    fresh. *)

From stdpp Require Import base gmap list strings pretty sorting.
From Stdlib Require Import ZArith Lia Ascii.
From S2P Require Import Prelude PyString Json Store Inbox WatchClaim Seats.

Definition PRESENCE_NAMESPACE : string := INBOX_NAMESPACE.
Definition PRESENCE_STALE_AFTER_SECONDS : Z := 600.
Definition PRESENCE_RETENTION_SECONDS : Z := 172800.
Definition SEAT_COLLISION_WINDOW_SECONDS : Z := 300.
Definition WATCHER_STALE_AFTER_SECONDS : Z := 300.

(** ** Dictionaries, as their items in insertion order *)

Fixpoint dict_set {A} (k : string) (v : A) (d : list (string * A)) : list (string * A) :=
  match d with
  | [] => [(k, v)]
  | (k', v') :: d' => if k' == k then (k, v) :: d' else (k', v') :: dict_set k v d'
  end.

Fixpoint dict_get {A} (k : string) (d : list (string * A)) : option A :=
  match d with
  | [] => None
  | (k', v') :: d' => if k' == k then Some v' else dict_get k d'
  end.

(** [md.get(k)], [None] being [null]. *)
Definition jget (m : option jobj) (k : string) : json := default JNull (md_get m k).

(** [bool(j)] *)
Definition jtruthy (j : json) : bool := py_flag (Some {["v" := j]}) "v".

(** [a or b] of two JSON values. *)
Definition jor (a b : json) : json := if jtruthy a then a else b.

(** ** The nonce map *)

Definition info_meta (j : json) : option jobj :=
  match j with
  | JObj info => Some (list_to_map info)
  | _ => None
  end.

Definition fresh_entry (now : Z) (superseded : list string) (e : string * json) : bool :=
  negb (e.1 isin superseded)
  && match md_time (info_meta e.2) "last_seen" with
     | Some seen => (now - seen <? SEAT_COLLISION_WINDOW_SECONDS)%Z
     | None => false
     end.

Definition _fresh_sessions (md : option jobj) (now : Z) (superseded : list string)
  : list (string * json) :=
  select (fresh_entry now superseded) (py_items md "sessions").

Definition _superseded_from_seat (md : option jobj) : list string := py_strs md "superseded_nonces".

(** [{(i.get("provider") or "unknown") for i in sessions.values()}], sorted. *)
Definition session_provider (e : string * json) : string :=
  or_empty (py_or (py_str (info_meta e.2) "provider") (Some "unknown")).

Definition providers_of (sessions : list (string * json)) : list string :=
  sorted (dedup (session_provider <$> sessions)).

(** [{i.get("host") for i in sessions.values() if i.get("host")}], sorted. *)
Definition hosts_of (sessions : list (string * json)) : list string :=
  sorted (dedup (omap (λ e, let h := py_str (info_meta e.2) "host" in
                            if truthy h then h else None) sessions)).

(** ** The session's heartbeat *)

Record heartbeat := Heartbeat {
  h_identity : string;
  h_project : string;
  h_state : string;
  h_provider : option string;
  h_overlays : list string;
  h_nonce : option string;
  h_host : option string;
  h_activity : bool
}.

Definition session_entry (now : Z) (b : heartbeat) : json := JObj [
  ("last_seen", JTime now);
  ("provider", jopt (h_provider b));
  ("state", JStr (h_state b));
  ("host", jopt (h_host b))].

(** This beat merged into the pruned nonce map; a displaced nonce is refused. *)
Definition merged_sessions (now : Z) (b : heartbeat) (superseded : list string) (prior : option jobj)
  : list (string * json) :=
  let sessions := _fresh_sessions prior now superseded in
  match h_nonce b with
  | Some n => if nonempty n && negb (n isin superseded)
              then dict_set n (session_entry now b) sessions else sessions
  | None => sessions
  end.

(** A nonce the row has not seen: another process, whose watcher has said nothing yet. *)
Definition new_generation (b : heartbeat) (prior : option jobj) : bool :=
  match h_nonce b with
  | Some n => nonempty n && negb (n isin (fst <$> py_items prior "sessions"))
  | None => false
  end.

Definition presence_meta (now : Z) (b : heartbeat) (identity : string) (sessions : list (string * json))
    (prior : option jobj) : jobj :=
  let metadata : jobj := list_to_map [
    ("kind", JStr "presence");
    ("provider", jopt (h_provider b));
    ("state", JStr (h_state b));
    ("overlays", JArr (JStr <$> h_overlays b));
    ("channels", JArr []);
    ("last_seen", JTime now);
    ("host", if is_exempt identity then JNull else jor (jopt (h_host b)) (jget prior "host"));
    ("sessions", JObj sessions);
    ("agent_last_active", if h_activity b then JTime now else jget prior "agent_last_active")] in
  let watcher_seen := jget prior "watcher_last_seen" in
  if jtruthy watcher_seen && negb (new_generation b prior)
  then <["watcher_last_seen" := watcher_seen]> metadata else metadata.

Definition presence_value (b : heartbeat) (identity project : string) : string :=
  identity +:+ " [" +:+ or_empty (py_or (h_provider b) (Some "unknown")) +:+ "] " +:+ h_state b
  +:+ " on " +:+ project.

(** [SELECT metadata ...] of the identity's presence row. *)
Definition presence_md (identity project : string) (t : table) : option jobj :=
  r ← head (sql_select (is_presence identity project) t); r_meta r.

Definition seat_superseded (identity project : string) (t : table) : list string :=
  _superseded_from_seat (r ← sql_find (seat_pk identity project) t; r_meta r).

(** [UPDATE ... SET last_used_at = NOW()] of the seat row. *)
Definition touch_seat (now : Z) (identity project : string) (t : table) : table :=
  sql_update (has_pk (seat_pk identity project)) (set_used now) t.

Definition presence_row (identity project value : string) (md : jobj) : new_row :=
  NewRow (PKey PRESENCE_NAMESPACE ("presence/" +:+ identity) PRESENCE_SCOPE project None)
    value "" "" value None (Some md) None.

Record collision := Collision { co_live_sessions : nat; co_providers : list string }.

Definition presence_update (now : Z) (b : heartbeat) (t : table) : option collision * table :=
  let identity := lower (h_identity b) in
  let project := lower (h_project b) in
  let prior := presence_md identity project t in
  let superseded := seat_superseded identity project t in
  let sessions := merged_sessions now b superseded prior in
  let md := presence_meta now b identity sessions prior in
  let value := presence_value b identity project in
  let report r := set_used now (set_meta (Some md) (set_value value r)) in
  let updated := sql_count (is_presence identity project) t in
  let t1 := sql_update (is_presence identity project) report t in
  let t2 := touch_seat now identity project t1 in
  let t3 := if updated == 0 then (sql_upsert now (presence_row identity project value md) report t2).2
            else t2 in
  (if (1 <? length sessions)%nat && negb (is_exempt identity)
   then Some (Collision (length sessions) (providers_of sessions)) else None,
   t3).

(** ** The watcher's beat and farewell *)

(** [jsonb_set(COALESCE(metadata, '{}') - 'farewell_at', '{watcher_last_seen}', now)] *)
Definition watcher_stamp (now : Z) (m : option jobj) : option jobj :=
  Some (<["watcher_last_seen" := JTime now]> (delete "farewell_at" (default ∅ m))).

Definition presence_watcher_beat (now : Z) (identity project : string) (t : table) : bool * table :=
  let identity := lower identity in
  let project := lower project in
  let p := is_presence identity project in
  let t1 := sql_update p (λ r, set_used now (set_meta (watcher_stamp now (r_meta r)) r)) t in
  if sql_count p t == 0 then (false, t1)
  else (true, touch_seat now identity project t1).

Definition presence_farewell (now : Z) (identity project : string) (t : table) : bool * table :=
  let p := is_presence (lower identity) (lower project) in
  (negb (sql_count p t == 0),
   sql_update p (λ r, set_meta (md_set (r_meta r) "farewell_at" (JTime now)) r) t).

(** Alive, silent, or no basis, with the beat it rests on. *)
Definition _watcher_state (md : option jobj) (now : Z) : option bool * option Z :=
  match md_time md "watcher_last_seen" with
  | Some seen => (Some (now - seen <? WATCHER_STALE_AFTER_SECONDS)%Z, Some seen)
  | None => (None, None)
  end.

(** ** Watch claims as the roster shows them *)

Record wclaim := WEntry { w_state : watch_state; w_armed_by : json; w_last_beat : json }.

Inductive watch_view :=
| WOne (w : wclaim)
| WShared (state : watch_state) (by_host : list (string * wclaim))
| WUnheld.

Definition view_state (v : watch_view) : watch_state :=
  match v with
  | WOne w => w_state w
  | WShared s _ => s
  | WUnheld => Unheld
  end.

(** Seconds since the last beat; [None] is infinity. *)
Definition _beat_age (now : Z) (w : wclaim) : option Z :=
  match w_last_beat w with
  | JTime t => Some (now - t)%Z
  | _ => None
  end.

Definition long_silent (now : Z) (w : wclaim) : bool :=
  match _beat_age now w with
  | Some a => (PRESENCE_STALE_AFTER_SECONDS <? a)%Z
  | None => true
  end.

Definition of_role (seat k : string) : bool := (k == seat) || startswith (seat +:+ "@") k.

(** The box of one claim of a shared role. *)
Definition claim_box (seat k : string) (md : option jobj) : string :=
  let h := match (split1 "@" k).2 with
           | Some h => Some h
           | None => watch_host_of seat (py_strs md "listen_set") (py_str md "host")
           end in
  or_empty (py_or h (Some "unknown")).

Definition fold_box (now : Z) (seat : string) (metas : list (string * option jobj))
    (by_host : list (string * wclaim)) (kw : string * wclaim) : list (string * wclaim) :=
  let '(k, w) := kw in
  let h := claim_box seat k (default None (dict_get k metas)) in
  if (w_state w != Covered) && long_silent now w then by_host
  else if negb (h isin (fst <$> by_host)) || (w_state w == Covered) then dict_set h w by_host
  else by_host.

Definition folded_state (by_host : list (string * wclaim)) : watch_state :=
  if forallb (λ hw, w_state hw.2 == Covered) by_host then Covered else Expired.

Definition by_host_of (now : Z) (seat : string) (metas : list (string * option jobj))
    (claims : list (string * wclaim)) : list (string * wclaim) :=
  foldl (fold_box now seat metas) [] (select (λ kw, of_role seat kw.1) claims).

(** The fold of one shared role: its per-box claims leave the dictionary and
    one entry of the role, if any box still has a claim, takes their place. *)
Definition fold_role (now : Z) (seat : string) (metas : list (string * option jobj))
    (claims : list (string * wclaim)) (views : list (string * watch_view)) : list (string * watch_view) :=
  let rest := select (λ kv, negb (of_role seat kv.1)) views in
  let by_host := by_host_of now seat metas claims in
  if length by_host == 0 then rest else dict_set seat (WShared (folded_state by_host) by_host) rest.

Definition fold_shared_watches (now : Z) (claims : list (string * wclaim))
    (metas : list (string * option jobj)) : list (string * watch_view) :=
  foldl (λ views seat, fold_role now seat metas claims views)
    ((λ kw, (kw.1, WOne kw.2)) <$> claims) SEAT_EXEMPT_IDENTITIES.

(** The claim rows, [watch/<seat>], as the roster's query reads them. *)
Definition is_claim_row (r : row) : bool := is_watch r && startswith "watch/" (r_key r).
Definition claim_seat (r : row) : string := removeprefix "watch/" (r_key r).

Definition watch_entry (now : Z) (r : row) : wclaim :=
  WEntry (if fresh now r then Covered else Expired) (jget (r_meta r) "armed_by") (jget (r_meta r) "last_beat").

Definition watch_by_seat (now : Z) (t : table) : list (string * watch_view) :=
  let rows := sql_select is_claim_row t in
  fold_shared_watches now
    (foldl (λ d r, dict_set (claim_seat r) (watch_entry now r) d) [] rows)
    (foldl (λ d r, dict_set (claim_seat r) (r_meta r) d) [] rows).

(** ** Death certificates as the readers see them *)

Record death := Death { de_died : json; de_cause : json; de_graceful : json; de_by : json }.

Section readers.
Context (iso : Z → string).

(** [(md.get("died_at") or "")] as the text it is. *)
Definition stamp_text (j : json) : string :=
  match j with
  | JStr s => s
  | JTime t => iso t
  | _ => ""
  end.

(** [a > b] of two texts. *)
Definition text_after (a b : string) : bool := bool_decide (String.le b a) && (a != b).

Definition death_of (md : option jobj) : death :=
  Death (jget md "died_at") (jget md "cause") (jget md "graceful") (jget md "certified_by").

Definition file_death (d : list (string * death)) (r : row) : list (string * death) :=
  let seat := norm (py_str (r_meta r) "seat") in
  if negb (nonempty seat) then d
  else match dict_get seat d with
       | None => dict_set seat (death_of (r_meta r)) d
       | Some prior =>
           if text_after (stamp_text (jget (r_meta r) "died_at")) (stamp_text (de_died prior))
           then dict_set seat (death_of (r_meta r)) d else d
       end.

Definition is_death (r : row) : bool :=
  (r_ns r == PRESENCE_NAMESPACE) && (r_scope r == DEATH_SCOPE) && (r_user r == SEAT_USER_ID).

(** [project.lower() if project else None] as a filter; [None] lets every row pass. *)
Definition scoped (project : option string) (column : option string) : bool :=
  if truthy project then column == Some (lower (or_empty project)) else true.

Definition _death_by_seat (project : option string) (t : table) : list (string * death) :=
  foldl file_death [] (sql_select (λ r, is_death r && scoped project (r_project r)) t).

(** The certificate, unless something lived after it. *)
Definition _death_for (ident : string) (deaths : list (string * death)) (evidence : list (option Z))
  : option death :=
  match dict_get ident deaths with
  | None => None
  | Some d =>
      match de_died d with
      | JTime died =>
          if existsb (λ e, match e with Some t => (died <? t)%Z | None => false end) evidence
          then None else Some d
      | _ => Some d
      end
  end.

(** ** The roster *)

Record entry := Entry {
  e_identity : string;
  e_project : string;
  e_state : string;
  e_provider : json;
  e_overlays : json;
  e_last_seen : Z;
  e_age : Z;
  e_is_stale : bool;
  e_live_sessions : nat;
  e_collision : bool;
  e_providers_seen : list string;
  e_host : json;
  e_hosts_seen : list string;
  e_watcher_alive : option bool;
  e_watcher_last_seen : option Z;
  e_agent_last_active : json;
  e_watch : watch_view;
  e_farewell_at : json;
  e_death : option death
}.

Definition any_presence (r : row) : bool :=
  (r_ns r == PRESENCE_NAMESPACE) && (r_scope r == PRESENCE_SCOPE).

Definition ident_of (r : row) : string := removeprefix "presence/" (r_key r).

(** [ORDER BY last_used_at DESC] *)
Definition by_used_desc (l : list row) : list row := sort_by (λ a b, r_used b <=? r_used a)%Z l.

(** The seat rows' displaced nonces by identity; a later row of the same name wins. *)
Definition superseded_by_ident (project : option string) (t : table) (ident : string) : list string :=
  let rows := sql_select (λ r, (r_ns r == PRESENCE_NAMESPACE) && (r_scope r == SEAT_SCOPE)
                               && (r_user r == SEAT_USER_ID) && scoped project (r_project r)) t in
  match last (select (λ r, seat_of r == ident) rows) with
  | Some r => _superseded_from_seat (r_meta r)
  | None => []
  end.

Definition roster_entry (now : Z) (project : option string) (t : table) (r : row) : entry :=
  let md := r_meta r in
  let ident := ident_of r in
  let age := (now - r_used r)%Z in
  let fresh := _fresh_sessions md now (superseded_by_ident project t ident) in
  let live := Nat.max (length fresh) 1 in
  let '(watcher_alive, watcher_seen) := _watcher_state md now in
  Entry ident (r_user r) (or_empty (py_or (py_str md "state") (Some "unknown")))
    (jget md "provider") (jor (jget md "overlays") (JArr []))
    (r_used r) age (PRESENCE_STALE_AFTER_SECONDS <=? age)%Z
    live ((1 <? live)%nat && negb (is_exempt ident))
    (providers_of fresh) (jget md "host") (hosts_of fresh)
    watcher_alive watcher_seen (jget md "agent_last_active")
    (default WUnheld (dict_get ident (watch_by_seat now t)))
    (jget md "farewell_at")
    (_death_for ident (_death_by_seat project t) [Some (r_used r); watcher_seen]).

Definition is_done (r : row) : bool := py_str (r_meta r) "state" == Some "done".

(** The rows a listing shows. *)
Definition listed (now : Z) (channel : option string) (include_done include_expired : bool) (r : row) : bool :=
  negb (is_done r && negb include_done)
  && negb (truthy channel)
  && negb ((PRESENCE_RETENTION_SECONDS <=? now - r_used r)%Z && negb include_expired).

Definition roster_list (now : Z) (project channel : option string) (include_done include_expired : bool)
    (t : table) : list entry :=
  roster_entry now project t <$>
    select (listed now channel include_done include_expired)
      (by_used_desc (sql_select (λ r, any_presence r && scoped project (Some (r_user r))) t)).

(** ** The liveness a send reports *)

Record liveness := Liveness {
  l_listener : string;
  l_age : Z;
  l_is_stale : bool;
  l_watcher_alive : option bool;
  l_farewell_at : json;
  l_death : option death
}.

(** The addresses a presence row answers for: its own, and its project's unless retired. *)
Definition speaks_for (addresses : list string) (r : row) : list string :=
  let ident := ident_of r in
  let proj := lower (r_user r) in
  (if ident isin addresses then [ident] else [])
  ++ (if (proj isin addresses) && (proj != ident) && negb (is_done r) then [proj] else []).

Definition better (best : list (string * row)) (addr : string) (r : row) : list (string * row) :=
  match dict_get addr best with
  | None => dict_set addr r best
  | Some cur => if (r_used cur <? r_used r)%Z then dict_set addr r best else best
  end.

Definition hear (addresses : list string) (best : list (string * row)) (r : row) : list (string * row) :=
  foldl (λ best addr, better best addr r) best (speaks_for addresses r).

(** The row that answers for each address. *)
Definition best_listeners (addresses : list string) (t : table) : list (string * row) :=
  foldl (hear addresses) []
    (sql_select (λ r, any_presence r
       && ((r_key r isin ((λ a, "presence/" +:+ a) <$> addresses)) || (r_user r isin addresses))) t).

Definition deaths_named (addresses : list string) (t : table) : list (string * death) :=
  foldl file_death []
    (sql_select (λ r, is_death r
       && match md_text (r_meta r) "seat" with Some s => lower s isin addresses | None => false end) t).

Definition liveness_of (now : Z) (deaths : list (string * death)) (r : row) : liveness :=
  let age := (now - r_used r)%Z in
  let '(watcher_alive, watcher_seen) := _watcher_state (r_meta r) now in
  Liveness (ident_of r) age (PRESENCE_STALE_AFTER_SECONDS <=? age)%Z watcher_alive
    (jget (r_meta r) "farewell_at")
    (_death_for (ident_of r) deaths [Some (r_used r); watcher_seen]).

Definition recipient_liveness (now : Z) (addresses : list (option string)) (t : table)
  : list (string * liveness) :=
  let addresses := (λ a, lower (or_empty a)) <$> select truthy addresses in
  if length addresses == 0 then []
  else (λ ar, (ar.1, liveness_of now (deaths_named addresses t) ar.2)) <$> best_listeners addresses t.
End readers.
