(* ===== verification/PresenceProps.v ===== *)
(** What presence guarantees: the effect of each beat on every row, what the
    stored evidence can be trusted for, and what the two readers answer. *)

From stdpp Require Import base gmap list strings pretty sorting.
From Stdlib Require Import ZArith Lia Ascii.
From S2P Require Import Prelude PyString Json Store Inbox WatchClaim WatchClaimProps Seats SeatsProps Presence.

(** ** Presence rows *)

Definition presence_pk (identity project : string) : pkey :=
  PKey PRESENCE_NAMESPACE ("presence/" +:+ identity) PRESENCE_SCOPE project None.

(** Presence is written with no project. *)
Definition presence_wf (t : table) : Prop :=
  wf t ∧ ∀ r, r ∈ t_rows t → any_presence r = true → r_project r = None.

Section rows.
Implicit Types (t : table) (r : row) (i p : string) (b : heartbeat).

Lemma any_presence_true r : any_presence r = true ↔ r_ns r = PRESENCE_NAMESPACE ∧ r_scope r = PRESENCE_SCOPE.
Proof. unfold any_presence. by rewrite andb_true_iff, !bool_decide_eq_true. Qed.

Lemma is_presence_true i p r :
  is_presence i p r = true ↔ any_presence r = true ∧ r_user r = p ∧ r_key r = "presence/" +:+ i.
Proof. unfold is_presence, any_presence. rewrite !andb_true_iff, !bool_decide_eq_true. tauto. Qed.

Lemma is_presence_pk t i p r :
  presence_wf t → r ∈ t_rows t → is_presence i p r = has_pk (presence_pk i p) r.
Proof.
  intros [_ Hp] Hr. apply eq_true_iff_eq. rewrite is_presence_true, has_pk_true. split.
  - intros (Ha & Hu & Hk). specialize (Hp r Hr Ha). apply any_presence_true in Ha as [Hn Hs].
    destruct (r_pk r). simpl in *. by subst.
  - intros Hk. rewrite any_presence_true. by rewrite Hk.
Qed.

Lemma presence_sql_update t i p f :
  presence_wf t → sql_update (is_presence i p) f t = sql_update (has_pk (presence_pk i p)) f t.
Proof.
  intros Hwf. unfold sql_update, update_where. f_equal. apply map_ext_in. intros r Hr%list_elem_of_In.
  by rewrite (is_presence_pk t).
Qed.

Lemma presence_sql_select t i p :
  presence_wf t → sql_select (is_presence i p) t = sql_select (has_pk (presence_pk i p)) t.
Proof. intros Hwf. apply select_ext. intros r Hr. by apply (is_presence_pk t). Qed.

Lemma presence_find t i p :
  presence_wf t → presence_md i p t = (r ← sql_find (presence_pk i p) t; r_meta r).
Proof. intros Hwf. unfold presence_md, sql_find. by rewrite presence_sql_select. Qed.

Lemma presence_count t i p :
  presence_wf t → (sql_count (is_presence i p) t == 0) = negb (is_some (sql_find (presence_pk i p) t)).
Proof.
  intros Hwf. unfold sql_count, sql_find. rewrite presence_sql_select by done.
  by destruct (sql_select _ t).
Qed.

Lemma presence_pk_ne i p s q : presence_pk i p ≠ seat_pk s q.
Proof. done. Qed.

Lemma presence_pk_inj i p i' p' : presence_pk i p = presence_pk i' p' ↔ i = i' ∧ p = p'.
Proof. split; [|by intros [-> ->]]. by intros [= H ->]. Qed.

Lemma presence_wf_update q f t : KeepsKeys f → presence_wf t → presence_wf (sql_update q f t).
Proof.
  intros Hf [Hwf Hp]. split; [by apply wf_update|].
  intros y (x & Hx & ->)%elem_of_update_where. unfold any_presence.
  destruct (q x); rewrite ?(keeps_pk (f := f)); by apply Hp.
Qed.

Lemma presence_wf_upsert now n f t :
  KeepsKeys f → presence_wf t → (∃ i p, n_pk n = presence_pk i p) → presence_wf (sql_upsert now n f t).2.
Proof.
  intros Hf Hwf (i & p & Hn). unfold sql_upsert. destruct (sql_find (n_pk n) t) eqn:E; cbn [snd].
  - by apply presence_wf_update.
  - split; [apply wf_append; [apply Hwf|done]|].
    intros r [Hr| ->]%elem_of_append; [by apply Hwf|]. intros _. cbn. by rewrite Hn.
Qed.

(** The clock of the seat row alone moves. *)
Lemma touch_find t now i p k :
  wf t → sql_find k (touch_seat now i p t) =
    (if k == seat_pk i p then set_used now else id) <$> sql_find k t.
Proof.
  intros Hwf. unfold touch_seat. rewrite sql_find_update by done.
  destruct (sql_find k t) as [r|] eqn:E; [|done]. cbn.
  apply sql_find_Some_elem in E as [_ <-]. unfold has_pk. by case_bool_decide.
Qed.
End rows.

(** ** The effect of the three writers *)

(** What a heartbeat writes in its row. *)
Definition beat_meta (now : Z) (b : heartbeat) (t : table) : jobj :=
  let i := lower (h_identity b) in
  let p := lower (h_project b) in
  presence_meta now b i (merged_sessions now b (seat_superseded i p t) (presence_md i p t))
    (presence_md i p t).

Section writers.
Implicit Types (t : table) (r : row) (i p : string) (b : heartbeat).

Lemma beat_find t now b k :
  presence_wf t →
  let i := lower (h_identity b) in
  let p := lower (h_project b) in
  let t' := (presence_update now b t).2 in
  presence_wf t' ∧
  (k ≠ presence_pk i p → sql_find k t' = (if k == seat_pk i p then set_used now else id) <$> sql_find k t) ∧
  ∃ r, sql_find (presence_pk i p) t' = Some r ∧ r_meta r = Some (beat_meta now b t) ∧ r_used r = now.
Proof.
  intros Hwf i p. cbv zeta. unfold presence_update. fold i p. cbn [snd].
  set (md := presence_meta _ _ _ _ _). change md with (beat_meta now b t). clear md.
  set (report := λ r, set_used now _). assert (KeepsKeys report) as Hk by (by split).
  rewrite presence_count, presence_sql_update by done.
  set (t1 := sql_update _ report t). assert (presence_wf t1) as Hwf1 by (by apply presence_wf_update).
  set (t2 := touch_seat now i p t1).
  assert (presence_wf t2) as Hwf2 by (apply presence_wf_update; [apply _|done]).
  assert (∀ k, sql_find k t1 = (if k == presence_pk i p then report else id) <$> sql_find k t) as H1.
  { intros k'. unfold t1. rewrite sql_find_update by (done || apply Hwf).
    destruct (sql_find k' t) as [r|] eqn:E; [|done]. cbn.
    apply sql_find_Some_elem in E as [_ <-]. unfold has_pk. by case_bool_decide. }
  assert (∀ k, sql_find k t2 = (if k == seat_pk i p then set_used now else id) <$> sql_find k t1) as H2.
  { intros k'. apply touch_find, Hwf1. }
  destruct (sql_find (presence_pk i p) t) as [r|] eqn:E; cbn [is_some negb].
  - split_and!; [done| |].
    + intros Hne. rewrite H2, H1, (bool_decide_eq_false_2 (k = presence_pk i p)) by done. by destruct (sql_find k t).
    + exists (report r). rewrite H2, H1, E. rewrite bool_decide_eq_false_2 by apply presence_pk_ne.
      by rewrite bool_decide_eq_true_2.
  - split_and!.
    + apply presence_wf_upsert; [done|done|]. by exists i, p.
    + intros Hne. rewrite sql_find_upsert_ne by (done || apply Hwf2 || congruence).
      rewrite H2, H1, (bool_decide_eq_false_2 (k = presence_pk i p)) by done. by destruct (sql_find k t).
    + assert (sql_find (presence_pk i p) t2 = None) as Hn.
      { rewrite H2, H1, E. done. }
      change (presence_pk i p) with (n_pk (presence_row i p (presence_value b i p) (beat_meta now b t))) in *.
      unfold sql_upsert. rewrite Hn. cbn [snd].
      eexists. split; [apply sql_find_append_eq; [apply Hwf2|exact Hn]|done].
Qed.

Lemma watcher_find t now i0 p0 k :
  presence_wf t →
  let i := lower i0 in
  let p := lower p0 in
  let t' := (presence_watcher_beat now i0 p0 t).2 in
  presence_wf t' ∧
  (presence_watcher_beat now i0 p0 t).1 = is_some (sql_find (presence_pk i p) t) ∧
  sql_find k t' =
    (if k == presence_pk i p then λ r, set_used now (set_meta (watcher_stamp now (r_meta r)) r)
     else if (k == seat_pk i p) && is_some (sql_find (presence_pk i p) t) then set_used now else id)
    <$> sql_find k t.
Proof.
  intros Hwf i p. cbv zeta. unfold presence_watcher_beat. fold i p.
  rewrite presence_count, presence_sql_update by done.
  set (stamp := λ r, set_used now _). assert (KeepsKeys stamp) as Hk by (by split).
  set (t1 := sql_update _ stamp t). assert (presence_wf t1) as Hwf1 by (by apply presence_wf_update).
  assert (sql_find k t1 = (if k == presence_pk i p then stamp else id) <$> sql_find k t) as H1.
  { unfold t1. rewrite sql_find_update by (done || apply Hwf). destruct (sql_find k t) as [r|] eqn:E; [|done]. cbn.
    apply sql_find_Some_elem in E as [_ <-]. unfold has_pk. by case_bool_decide. }
  destruct (sql_find (presence_pk i p) t) as [r|] eqn:E; cbn [is_some negb fst snd].
  - split_and!; [apply presence_wf_update; [apply _|done]|done|].
    rewrite touch_find by apply Hwf1. rewrite H1, andb_true_r.
    destruct (sql_find k t); cbn; [|done]. f_equal.
    destruct (decide (k = presence_pk i p)) as [->|Hne]; [|by rewrite (bool_decide_eq_false_2 (k = presence_pk i p))].
    by rewrite (bool_decide_eq_false_2 _ (presence_pk_ne i p i p)), (bool_decide_eq_true_2 _ eq_refl).
  - split_and!; [done|done|]. by rewrite H1, andb_false_r.
Qed.

Lemma farewell_find t now i0 p0 k :
  presence_wf t →
  let i := lower i0 in
  let p := lower p0 in
  let t' := (presence_farewell now i0 p0 t).2 in
  presence_wf t' ∧
  (presence_farewell now i0 p0 t).1 = is_some (sql_find (presence_pk i p) t) ∧
  sql_find k t' =
    (if k == presence_pk i p then λ r, set_meta (md_set (r_meta r) "farewell_at" (JTime now)) r else id)
    <$> sql_find k t.
Proof.
  intros Hwf i p. cbv zeta. unfold presence_farewell. fold i p.
  rewrite presence_count, presence_sql_update by done. cbn [fst snd]. rewrite negb_involutive.
  split_and!; [apply presence_wf_update; [by split|done]|done|].
  rewrite sql_find_update by (by first [apply _|apply Hwf|split]).
  destruct (sql_find k t) as [r|] eqn:E; [|done]. cbn.
  apply sql_find_Some_elem in E as [_ <-]. unfold has_pk. by case_bool_decide.
Qed.
End writers.

(** ** Sequences of beats *)

Inductive presence_event :=
| Beat (now : Z) (b : heartbeat)
| WatcherBeat (now : Z) (identity project : string)
| Farewell (now : Z) (identity project : string).

Definition presence_step (t : table) (e : presence_event) : table :=
  match e with
  | Beat now b => (presence_update now b t).2
  | WatcherBeat now i p => (presence_watcher_beat now i p t).2
  | Farewell now i p => (presence_farewell now i p t).2
  end.

Definition presence_run (es : list presence_event) (t : table) : table := foldl presence_step t es.

(** The address an event is about. *)
Definition about (e : presence_event) : string * string :=
  match e with
  | Beat _ b => (lower (h_identity b), lower (h_project b))
  | WatcherBeat _ i p | Farewell _ i p => (lower i, lower p)
  end.

Definition at_time (e : presence_event) : Z :=
  match e with Beat now _ | WatcherBeat now _ _ | Farewell now _ _ => now end.

(** A real tool call of the agent; anything that proves life; an observed exit. *)
Definition is_act (e : presence_event) : bool := match e with Beat _ b => h_activity b | _ => false end.
Definition is_life (e : presence_event) : bool := match e with Farewell _ _ _ => false | _ => true end.

(** The last event of a kind about one address. *)
Definition last_such (k : presence_event → bool) (i p : string) (es : list presence_event) : option presence_event :=
  last (select (λ e, (about e == (i, p)) && k e) es).

Section traces.
Implicit Types (t : table) (r : row) (i p : string) (b : heartbeat) (e : presence_event).

Lemma presence_meta_active now b i s prior :
  jget (Some (presence_meta now b i s prior)) "agent_last_active" =
    if h_activity b then JTime now else jget prior "agent_last_active".
Proof. unfold presence_meta. by destruct (_ && _). Qed.

Lemma presence_meta_farewell now b i s prior :
  jget (Some (presence_meta now b i s prior)) "farewell_at" = JNull.
Proof. unfold presence_meta. by destruct (_ && _). Qed.

Lemma presence_meta_state now b i s prior :
  py_str (Some (presence_meta now b i s prior)) "state" = Some (h_state b).
Proof. unfold presence_meta. by destruct (_ && _). Qed.

Lemma presence_meta_sessions now b i s prior :
  py_items (Some (presence_meta now b i s prior)) "sessions" = s.
Proof. unfold presence_meta. by destruct (_ && _). Qed.

Lemma watcher_stamp_get now m k :
  md_get (watcher_stamp now m) k =
    if k == "watcher_last_seen" then Some (JTime now)
    else if k == "farewell_at" then None else md_get m k.
Proof.
  unfold watcher_stamp, md_get. cbn [mbind option_bind]. case_bool_decide as H1; subst.
  - by rewrite lookup_insert_eq.
  - rewrite lookup_insert_ne by done. case_bool_decide as H2; subst.
    + by rewrite lookup_delete_eq.
    + rewrite lookup_delete_ne by done. by destruct m.
Qed.

(** The row of an address after one event, about it or about another. *)
Lemma step_row t e i p r :
  presence_wf t → sql_find (presence_pk i p) t = Some r →
  presence_wf (presence_step t e) ∧
  ∃ r', sql_find (presence_pk i p) (presence_step t e) = Some r' ∧
    if about e == (i, p)
    then match e with
         | Beat now b => r_meta r' = Some (beat_meta now b t) ∧ r_used r' = now ∧ presence_md i p t = r_meta r
         | WatcherBeat now _ _ => r_meta r' = watcher_stamp now (r_meta r) ∧ r_used r' = now
         | Farewell now _ _ => r_meta r' = md_set (r_meta r) "farewell_at" (JTime now) ∧ r_used r' = r_used r
         end
    else r' = r.
Proof.
  intros Hwf Hr. assert (presence_md i p t = r_meta r) as Hmd by (by rewrite presence_find, Hr).
  destruct e as [now b|now i0 p0|now i0 p0]; cbn [presence_step about].
  - destruct (beat_find t now b (presence_pk i p) Hwf) as (Hwf' & Hne & r' & Hr' & Hm & Hu).
    split; [done|]. bcase ((lower (h_identity b), lower (h_project b)) = (i, p)) E.
    + injection E as <- <-. by exists r'.
    + exists r. split; [|done]. rewrite Hne by (rewrite presence_pk_inj; intros [-> ->]; done).
      by rewrite Hr.
  - destruct (watcher_find t now i0 p0 (presence_pk i p) Hwf) as (Hwf' & _ & Hf).
    split; [done|]. rewrite Hf, Hr. eexists. split; [done|].
    bcase ((lower i0, lower p0) = (i, p)) E.
    + injection E as <- <-. by rewrite bool_decide_eq_true_2.
    + rewrite (bool_decide_eq_false_2 (presence_pk i p = _)); [done|].
      rewrite presence_pk_inj. by intros [-> ->].
  - destruct (farewell_find t now i0 p0 (presence_pk i p) Hwf) as (Hwf' & _ & Hf).
    split; [done|]. rewrite Hf, Hr. eexists. split; [done|].
    bcase ((lower i0, lower p0) = (i, p)) E.
    + injection E as <- <-. by rewrite bool_decide_eq_true_2.
    + rewrite (bool_decide_eq_false_2 (presence_pk i p = _)); [done|].
      rewrite presence_pk_inj. by intros [-> ->].
Qed.

(** One event's contribution to the three stored facts. *)
Lemma step_facts t e i p r :
  presence_wf t → sql_find (presence_pk i p) t = Some r →
  presence_wf (presence_step t e) ∧
  ∃ r', sql_find (presence_pk i p) (presence_step t e) = Some r' ∧
    r_used r' = (if (about e == (i, p)) && is_life e then at_time e else r_used r) ∧
    jget (r_meta r') "agent_last_active" =
      (if (about e == (i, p)) && is_act e then JTime (at_time e) else jget (r_meta r) "agent_last_active") ∧
    jget (r_meta r') "farewell_at" =
      (if about e == (i, p) then if is_life e then JNull else JTime (at_time e)
       else jget (r_meta r) "farewell_at").
Proof.
  intros Hwf Hr. destruct (step_row t e i p r Hwf Hr) as (Hwf' & r' & Hr' & Hc).
  split; [done|]. exists r'. split; [done|]. bcase (about e = (i, p)) E; [|by subst].
  destruct e as [now b|now i0 p0|now i0 p0]; cbn [is_life is_act at_time andb] in *.
  - destruct Hc as (-> & -> & Hmd). unfold beat_meta.
    rewrite presence_meta_active, presence_meta_farewell. cbn [about] in E. injection E as -> ->.
    rewrite Hmd. by destruct (h_activity b).
  - destruct Hc as (-> & ->). unfold jget. by rewrite !watcher_stamp_get.
  - destruct Hc as (-> & ->). unfold jget. by rewrite md_get_set_eq, md_get_set_ne.
Qed.
End traces.

Lemma last_such_cons k i p e es :
  last_such k i p (e :: es) =
    match last_such k i p es with
    | Some x => Some x
    | None => if (about e == (i, p)) && k e then Some e else None
    end.
Proof.
  unfold last_such. rewrite select_cons. destruct (_ && _); [|by destruct (last _)].
  rewrite last_cons. by destruct (last _).
Qed.

(** C25. What each stored instant of a presence row is evidence of. Whatever the
    sequence of heartbeats, watcher beats and farewells at any addresses, an
    address keeps its row, and in it: the clock is that of the last beat of
    the session or of its watcher, never of a farewell; [agent_last_active]
    is the time of the last real tool call, which no timer beat, watcher beat
    or farewell moves; and [farewell_at] is the last farewell unless any beat
    came after it. *)
Theorem evidence_separated es t i p r :
  presence_wf t → sql_find (presence_pk i p) t = Some r →
  ∃ r', sql_find (presence_pk i p) (presence_run es t) = Some r' ∧
    r_used r' = default (r_used r) (at_time <$> last_such is_life i p es) ∧
    jget (r_meta r') "agent_last_active" =
      default (jget (r_meta r) "agent_last_active") ((λ e, JTime (at_time e)) <$> last_such is_act i p es) ∧
    jget (r_meta r') "farewell_at" =
      match last_such (λ _, true) i p es with
      | Some (Farewell now _ _) => JTime now
      | Some _ => JNull
      | None => jget (r_meta r) "farewell_at"
      end.
Proof.
  revert t r. induction es as [|e es IH]; intros t r Hwf Hr; [by exists r|].
  destruct (step_facts t e i p r Hwf Hr) as (Hwf1 & r1 & Hr1 & Hu & Ha & Hf).
  destruct (IH (presence_step t e) r1 Hwf1 Hr1) as (r' & Hr' & Hu' & Ha' & Hf').
  exists r'. split; [exact Hr'|]. rewrite Hu', Ha', Hf', !last_such_cons, Hu, Ha, Hf. split_and!.
  - destruct (last_such is_life i p es); [done|]. cbn [default from_option fmap option_fmap option_map]; by destruct (bool_decide _ && is_life e).
  - destruct (last_such is_act i p es); [done|]. cbn [default from_option fmap option_fmap option_map]; by destruct (bool_decide _ && is_act e).
  - destruct (last_such (λ _, true) i p es) as [x|]; [reflexivity|].
    bcase (about e = (i, p)) E; [|done]. by destruct e.
Qed.

(** ** The watcher's evidence belongs to one process *)

Lemma watcher_state_get m now :
  _watcher_state m now = match jget m "watcher_last_seen" with
                         | JTime seen => (Some (now - seen <? WATCHER_STALE_AFTER_SECONDS)%Z, Some seen)
                         | _ => (None, None)
                         end.
Proof. unfold _watcher_state, md_time, jget. by destruct (md_get m _) as [[]|]. Qed.

Lemma presence_meta_watcher now b i s prior :
  jget (Some (presence_meta now b i s prior)) "watcher_last_seen" =
    if jtruthy (jget prior "watcher_last_seen") && negb (new_generation b prior)
    then jget prior "watcher_last_seen" else JNull.
Proof. unfold presence_meta. by destruct (_ && _). Qed.

Lemma presence_md_beat t now b :
  presence_wf t →
  presence_md (lower (h_identity b)) (lower (h_project b)) (presence_update now b t).2 = Some (beat_meta now b t).
Proof.
  intros Hwf. destruct (beat_find t now b (presence_pk "" "") Hwf) as (Hwf' & _ & r & Hr & Hm & _).
  by rewrite presence_find, Hr.
Qed.

(** A watcher's beat is evidence about one process only. A heartbeat under a
    nonce the row has not seen leaves no basis, alive or dead, whatever its
    predecessor's watcher had said; a heartbeat of a process already in the
    map, or of a client without a nonce, leaves the evidence as it was. The
    watcher's own beat makes it fresh, changes nothing else the session had
    reported, voids a farewell, and never makes a row where there was none. *)
Lemma watcher_generational t now b w :
  presence_wf t →
  let i := lower (h_identity b) in
  let p := lower (h_project b) in
  let prior := presence_md i p t in
  let after := presence_md i p (presence_update now b t).2 in
  let beaten := presence_md i p (presence_watcher_beat w i p t).2 in
  ((∃ n, h_nonce b = Some n ∧ n ≠ "" ∧ n ∉ fst <$> py_items prior "sessions") →
     ∀ later, _watcher_state after later = (None, None)) ∧
  ((∀ n, h_nonce b = Some n → n = "" ∨ n ∈ fst <$> py_items prior "sessions") →
     ∀ later, _watcher_state after later = _watcher_state prior later) ∧
  (if (presence_watcher_beat w i p t).1
   then (∀ later, _watcher_state beaten later = (Some (later - w <? WATCHER_STALE_AFTER_SECONDS)%Z, Some w)) ∧
        md_get beaten "farewell_at" = None ∧
        ∀ k, k ≠ "watcher_last_seen" → k ≠ "farewell_at" → md_get beaten k = md_get prior k
   else sql_find (presence_pk i p) t = None ∧
        sql_find (presence_pk i p) (presence_watcher_beat w i p t).2 = None).
Proof.
  intros Hwf. cbv zeta. rewrite presence_md_beat by done.
  destruct (watcher_find t w (lower (h_identity b)) (lower (h_project b))
    (presence_pk (lower (h_identity b)) (lower (h_project b))) Hwf) as (Hwf' & Hb & Hf).
  rewrite !lower_idem in *. rewrite bool_decide_eq_true_2 in Hf by done.
  set (i := lower (h_identity b)) in *. set (p := lower (h_project b)) in *.
  unfold beat_meta. fold i p. split_and!.
  - intros (n & Hn & Hne & Hnew) later. rewrite watcher_state_get, presence_meta_watcher.
    unfold new_generation. rewrite Hn, (proj2 (nonempty_true n) Hne), (bool_decide_eq_false_2 _ Hnew).
    by rewrite andb_false_r.
  - intros Hold later. rewrite !watcher_state_get, presence_meta_watcher.
    replace (new_generation b (presence_md i p t)) with false.
    + rewrite andb_true_r. destruct (jtruthy (jget _ _)) eqn:Et; [done|].
      by destruct (jget _ _).
    + unfold new_generation. destruct (h_nonce b) as [n|]; [|done].
      destruct (Hold n eq_refl) as [->|Hin]; [done|]. by rewrite bool_decide_eq_true_2, andb_false_r.
  - rewrite Hb. rewrite !presence_find by done.
    destruct (sql_find (presence_pk i p) t) as [r|] eqn:E; cbn [is_some]; [|by rewrite Hf].
    rewrite Hf. cbn [mbind option_bind fmap option_fmap option_map set_used set_meta r_meta]. split_and!.
    + intros later. rewrite watcher_state_get. unfold jget. by rewrite watcher_stamp_get.
    + by rewrite watcher_stamp_get.
    + intros k H1 H2. rewrite watcher_stamp_get. by rewrite !bool_decide_eq_false_2.
Qed.

(** ** Two bodies, one seat *)

(** The prior map's keys are those of a JSON object, each once. *)
Definition map_ok (m : option jobj) : Prop := NoDup (fst <$> py_items m "sessions").

Section dicts.
Context {A : Type}.
Implicit Types (d : list (string * A)) (k : string) (v : A).

Lemma dict_set_keys k v d x : x ∈ fst <$> dict_set k v d ↔ x = k ∨ x ∈ fst <$> d.
Proof.
  induction d as [|[k' v'] d IH]; cbn; [set_solver|].
  case_bool_decide; cbn; subst; [set_solver|].
  rewrite !elem_of_cons. change (list_fmap _ _ ?f ?l) with (f <$> l). rewrite IH. tauto.
Qed.

Lemma dict_set_NoDup k v d : NoDup (fst <$> d) → NoDup (fst <$> dict_set k v d).
Proof.
  induction d as [|[k' v'] d IH]; cbn; [intros _; by apply NoDup_singleton|].
  intros [Hk Hd]%NoDup_cons. case_bool_decide; cbn; subst; [by apply NoDup_cons|].
  apply NoDup_cons. split; [|by apply IH].
  change (k' ∉ fst <$> dict_set k v d). rewrite dict_set_keys. by intros [->|?].
Qed.

Lemma dict_get_set k v d k' : dict_get k' (dict_set k v d) = if k' == k then Some v else dict_get k' d.
Proof.
  induction d as [|[k0 v0] d IH]; cbn.
  - destruct (decide (k' = k)) as [->|]; [by rewrite !bool_decide_eq_true_2|].
    by rewrite !bool_decide_eq_false_2 by congruence.
  - destruct (decide (k0 = k)) as [->|Hne].
    + rewrite (bool_decide_eq_true_2 (k = k)) by done. cbn.
      destruct (decide (k' = k)) as [->|]; [by rewrite !bool_decide_eq_true_2|].
      by rewrite !bool_decide_eq_false_2 by congruence.
    + rewrite (bool_decide_eq_false_2 (k0 = k)) by done. cbn. rewrite IH.
      destruct (decide (k0 = k')) as [->|]; [by rewrite (bool_decide_eq_true_2 (k' = k')), bool_decide_eq_false_2|].
      by rewrite (bool_decide_eq_false_2 (k0 = k')).
Qed.

Lemma dict_get_None k d : dict_get k d = None ↔ k ∉ fst <$> d.
Proof.
  induction d as [|[k0 v0] d IH]; cbn; [set_solver|].
  case_bool_decide; subst; [set_solver|]. rewrite elem_of_cons, IH.
  change (list_fmap _ _ ?f ?l) with (f <$> l). naive_solver.
Qed.

Lemma elem_of_dict_set k v d e :
  NoDup (fst <$> d) → e ∈ dict_set k v d ↔ e = (k, v) ∨ (e ∈ d ∧ e.1 ≠ k).
Proof.
  induction d as [|[k' v'] d IH]; cbn.
  - intros _. rewrite list_elem_of_singleton, elem_of_nil. tauto.
  - intros [Hk Hd]%NoDup_cons. case_bool_decide; subst.
    + rewrite !elem_of_cons. split.
      * intros [->|Hin]; [by left|]. right. split; [by right|]. intros He. apply Hk.
        apply list_elem_of_fmap. exists e. by rewrite He.
      * intros [->|[[->|Hin] Hne]]; [by left|done|by right].
    + rewrite !elem_of_cons, IH by done. naive_solver.
Qed.
End dicts.

(** A nonce that counts: this beat's, or one seen within the window; never a displaced one. *)
Definition live_nonce (now : Z) (b : heartbeat) (superseded : list string) (prior : option jobj) (n : string) : Prop :=
  n ∉ superseded ∧
  ((h_nonce b = Some n ∧ n ≠ "") ∨
   ∃ info seen, (n, info) ∈ py_items prior "sessions" ∧
     md_time (info_meta info) "last_seen" = Some seen ∧ (now - seen < SEAT_COLLISION_WINDOW_SECONDS)%Z).

Lemma elem_of_fresh md now superseded n info :
  (n, info) ∈ _fresh_sessions md now superseded ↔
    (n, info) ∈ py_items md "sessions" ∧ n ∉ superseded ∧
    ∃ seen, md_time (info_meta info) "last_seen" = Some seen ∧ (now - seen < SEAT_COLLISION_WINDOW_SECONDS)%Z.
Proof.
  unfold _fresh_sessions. rewrite elem_of_select. unfold fresh_entry. cbn [fst snd].
  rewrite andb_true_iff, negb_true_iff, bool_decide_eq_false.
  destruct (md_time _ _) as [seen|] eqn:E.
  - rewrite Z.ltb_lt. naive_solver.
  - naive_solver.
Qed.

Lemma fresh_keys_NoDup md now superseded : map_ok md → NoDup (fst <$> _fresh_sessions md now superseded).
Proof. apply NoDup_fmap_select. Qed.

Lemma merged_NoDup now b superseded prior :
  map_ok prior → NoDup (fst <$> merged_sessions now b superseded prior).
Proof.
  intros Hok. unfold merged_sessions. pose proof (fresh_keys_NoDup prior now superseded Hok).
  destruct (h_nonce b) as [n|]; [|done]. destruct (_ && _); [by apply dict_set_NoDup|done].
Qed.

Lemma elem_of_merged now b superseded prior n :
  n ∈ fst <$> merged_sessions now b superseded prior ↔ live_nonce now b superseded prior n.
Proof.
  assert (n ∈ fst <$> _fresh_sessions prior now superseded ↔ n ∉ superseded ∧
    ∃ info seen, (n, info) ∈ py_items prior "sessions" ∧
     md_time (info_meta info) "last_seen" = Some seen ∧ (now - seen < SEAT_COLLISION_WINDOW_SECONDS)%Z) as Hf.
  { rewrite list_elem_of_fmap. split.
    - intros ([n' info] & -> & Hin). apply elem_of_fresh in Hin. naive_solver.
    - intros (Hs & info & seen & Hin & Ht & Hlt). exists (n, info). split; [done|].
      apply elem_of_fresh. naive_solver. }
  unfold merged_sessions, live_nonce. destruct (h_nonce b) as [n0|]; [|rewrite Hf; naive_solver].
  destruct (nonempty n0) eqn:Hne; cbn [andb].
  - apply nonempty_true in Hne. destruct (decide (n0 ∈ superseded)) as [Hs|Hs].
    + rewrite (bool_decide_eq_true_2 _ Hs), Hf. cbn [negb]. naive_solver.
    + rewrite (bool_decide_eq_false_2 _ Hs). cbn [negb]. rewrite dict_set_keys, Hf. naive_solver.
  - rewrite Hf. assert (n0 = "") as -> by (by destruct n0). naive_solver.
Qed.

Lemma distinct_length {A} (l : list A) :
  NoDup l → (1 < length l)%nat ↔ ∃ x y, x ≠ y ∧ x ∈ l ∧ y ∈ l.
Proof.
  intros Hnd. split.
  - destruct l as [|x [|y l]]; cbn; try lia. intros _. exists x, y.
    apply NoDup_cons in Hnd as [Hx _]. set_solver.
  - intros (x & y & Hne & Hx & Hy). destruct l as [|a [|b l]]; cbn; [set_solver| |lia].
    rewrite list_elem_of_singleton in Hx, Hy. congruence.
Qed.

(** Two bodies on one seat are reported exactly when there are two: a
    heartbeat answers with a collision if and only if the identity is not a
    shared role and two distinct nonces are live, with their number; a nonce
    the register has displaced never counts, not even its own late beat, and
    nothing that is not live stays in the stored map. *)
Lemma collision_exact t now b :
  presence_wf t →
  let i := lower (h_identity b) in
  let p := lower (h_project b) in
  let prior := presence_md i p t in
  let live := live_nonce now b (seat_superseded i p t) prior in
  let '(answer, t') := presence_update now b t in
  map_ok prior →
  (answer ≠ None ↔ is_exempt i = false ∧ ∃ n n', n ≠ n' ∧ live n ∧ live n') ∧
  (∀ c, answer = Some c → ∃ ns, NoDup ns ∧ (∀ n, n ∈ ns ↔ live n) ∧ co_live_sessions c = length ns) ∧
  map_ok (presence_md i p t') ∧
  (∀ n, n ∈ fst <$> py_items (presence_md i p t') "sessions" ↔ live n).
Proof.
  intros Hwf. cbv zeta. destruct (presence_update now b t) as [answer t'] eqn:E. intros Hok.
  pose proof (presence_md_beat t now b Hwf) as Hmd. rewrite E in Hmd. cbn [snd] in Hmd.
  apply (f_equal fst) in E. cbn [fst] in E. rewrite Hmd. unfold beat_meta, map_ok.
  rewrite presence_meta_sessions. set (i := lower (h_identity b)) in *. set (p := lower (h_project b)) in *.
  set (m := merged_sessions _ _ _ _) in *.
  assert (NoDup (fst <$> m)) as Hnd by (by apply merged_NoDup).
  assert (∀ n, n ∈ fst <$> m ↔ live_nonce now b (seat_superseded i p t) (presence_md i p t) n) as Hel.
  { intros n. apply elem_of_merged. }
  unfold presence_update in E. cbn [fst] in E. fold i p m in E. split_and!; [| |done|exact Hel].
  - transitivity ((1 <? length m)%nat && negb (is_exempt i) = true).
    { rewrite <- E. by destruct (_ && _). }
    rewrite andb_true_iff, negb_true_iff, Nat.ltb_lt, <- (length_fmap fst), (distinct_length _ Hnd).
    setoid_rewrite Hel. tauto.
  - intros c Hc. exists (fst <$> m). rewrite length_fmap. split_and!; [done|done|].
    rewrite Hc in E. destruct (_ && _); [|done]. injection E as <-. done.
Qed.

(** ** The heartbeat and the roster agree *)

Lemma seats_wf_presence t now b : presence_wf t → seats_wf t → seats_wf (presence_update now b t).2.
Proof.
  intros Hp Hs. unfold presence_update. cbn [snd].
  set (t1 := sql_update _ _ t). assert (seats_wf t1) as H1 by (apply seats_wf_update; [by split|done]).
  set (t2 := touch_seat _ _ _ _). assert (seats_wf t2) as H2 by (apply seats_wf_update; [apply _|done]).
  destruct (_ == 0); [|done]. unfold sql_upsert. destruct (sql_find _ t2) eqn:E; cbn [snd].
  - apply seats_wf_update; [by split|done].
  - apply seats_wf_append; [done|done|]. by right.
Qed.

Lemma last_all {A} (l : list A) x : x ∈ l → (∀ y, y ∈ l → y = x) → last l = Some x.
Proof.
  intros Hx Hall. destruct (last l) as [y|] eqn:E.
  - f_equal. apply Hall. by apply last_Some_elem_of in E.
  - apply last_None in E. subst. by apply elem_of_nil in Hx.
Qed.

(** Within one project the roster reads the displaced nonces the heartbeat read. *)
Lemma superseded_agree t p0 i :
  seats_wf t → p0 ≠ "" → superseded_by_ident (Some p0) t i = seat_superseded i (lower p0) t.
Proof.
  intros Hs Hp. assert (truthy (Some p0) = true) as Ht by (by destruct p0).
  unfold superseded_by_ident, seat_superseded, scoped. rewrite Ht. cbn [or_empty default].
  set (l := select _ (sql_select _ t)).
  assert (∀ r, r ∈ l ↔ r ∈ t_rows t ∧ r_pk r = seat_pk i (lower p0)) as Hl.
  { intros r. unfold l. rewrite elem_of_select, elem_of_sql_select, bool_decide_eq_true.
    split.
    - intros (<- & Hin & Hr). split; [done|]. by apply (seat_row_pk t).
    - intros [Hr Hk]. split; [by eapply seat_of_pk|]. split; [|done].
      by destruct (pk_in_registry r i (lower p0) Hk) as [H _]. }
  destruct (sql_find (seat_pk i (lower p0)) t) as [r|] eqn:E.
  - apply sql_find_Some_elem in E as [Hr Hk]. rewrite (last_all l r); [done|by apply Hl|].
    intros y Hy. apply Hl in Hy as [Hy Hyk]. eapply wf_row_eq; [apply Hs|done..|congruence].
  - destruct (last l) as [r|] eqn:El; [|done]. apply last_Some_elem_of, Hl in El as [Hr Hk].
    rewrite sql_find_None in E. by destruct (E r Hr).
Qed.

Lemma merged_all_fresh now b superseded prior e :
  map_ok prior → e ∈ merged_sessions now b superseded prior → fresh_entry now superseded e = true.
Proof.
  intros Hok. assert (∀ e, e ∈ _fresh_sessions prior now superseded → fresh_entry now superseded e = true) as Hf
    by (by intros e0 [H _]%elem_of_select).
  unfold merged_sessions. destruct (h_nonce b) as [n|]; [|apply Hf].
  destruct (nonempty n && negb (n isin superseded)) eqn:E; [|apply Hf].
  rewrite elem_of_dict_set by (by apply fresh_keys_NoDup). intros [->|[He _]]; [|by apply Hf].
  apply andb_true_iff in E as [_ E]. unfold fresh_entry. cbn [fst snd]. rewrite E.
  change (md_time _ _) with (Some now). cbn [andb]. apply Z.ltb_lt. unfold SEAT_COLLISION_WINDOW_SECONDS. lia.
Qed.

(** The heartbeat's answer and the roster cannot disagree about a
    collision: right after a beat, the roster of the project, retired
    sessions included, lists the identity as just seen, in the state it
    reported, with as many live sessions as the beat counted, and flagged
    exactly when the beat was answered with a collision. *)
Lemma roster_agrees_with_beat iso t now b :
  presence_wf t → seats_wf t → h_project b ≠ "" → h_state b ≠ "" →
  map_ok (presence_md (lower (h_identity b)) (lower (h_project b)) t) →
  let '(answer, t') := presence_update now b t in
  ∃ e, e ∈ roster_list iso now (Some (h_project b)) None true false t' ∧
    e_identity e = lower (h_identity b) ∧ e_project e = lower (h_project b) ∧
    e_state e = h_state b ∧ e_age e = 0%Z ∧ e_is_stale e = false ∧
    e_collision e = is_some answer ∧
    ∀ c, answer = Some c → e_live_sessions e = co_live_sessions c ∧ e_providers_seen e = co_providers c.
Proof.
  intros Hwf Hs Hp Hst Hok. destruct (presence_update now b t) as [answer t'] eqn:E.
  pose proof (beat_find t now b (seat_pk (lower (h_identity b)) (lower (h_project b))) Hwf) as Hb.
  pose proof (seats_wf_presence t now b Hwf Hs) as Hs'.
  rewrite E in Hb, Hs'. cbn [snd] in Hb, Hs'. apply (f_equal fst) in E. cbn [fst] in E.
  unfold presence_update in E. cbn [fst] in E.
  set (i := lower (h_identity b)) in *. set (p := lower (h_project b)) in *.
  set (m := merged_sessions _ _ _ _) in *. destruct Hb as (Hwf' & Hseat & r & Hr & Hm & Hu).
  apply sql_find_Some_elem in Hr as [Hr Hk].
  assert (superseded_by_ident (Some (h_project b)) t' i = seat_superseded i p t) as Hsup.
  { rewrite superseded_agree by done. unfold seat_superseded. fold p. rewrite Hseat by done.
    rewrite bool_decide_eq_true_2 by done. by destruct (sql_find _ t). }
  assert (_fresh_sessions (r_meta r) now (seat_superseded i p t) = m) as Hfresh.
  { rewrite Hm. unfold _fresh_sessions, beat_meta. rewrite presence_meta_sessions. fold i p m.
    apply select_all. intros e He. by apply (merged_all_fresh _ b _ (presence_md i p t)). }
  assert (ident_of r = i) as Hi by (unfold ident_of; rewrite Hk; apply (removeprefix_app "presence/")).
  assert (py_str (r_meta r) "state" = Some (h_state b)) as Hstate.
  { rewrite Hm. apply presence_meta_state. }
  exists (roster_entry iso now (Some (h_project b)) t' r).
  assert (truthy (Some (h_state b)) = true) as Htr by (by destruct (h_state b)).
  split; [|unfold roster_entry; destruct (_watcher_state _ _) as [al seen];
           cbn [e_identity e_project e_state e_age e_is_stale e_collision e_live_sessions e_providers_seen];
           rewrite Hi, Hk, Hu, Z.sub_diag, Hsup, Hfresh, Hstate; unfold py_or; rewrite Htr; split_and!; try done].
  - unfold roster_list. apply list_elem_of_fmap. exists r. split; [done|]. apply elem_of_select. split.
    + unfold listed. rewrite Hu, Z.sub_diag, andb_false_r. done.
    + unfold by_used_desc. rewrite elem_of_sort_by. apply elem_of_sql_select. split; [|done].
      unfold any_presence, scoped. rewrite Hk. replace (truthy (Some (h_project b))) with true by (by destruct (h_project b)).
      cbn. by rewrite !bool_decide_eq_true_2.
  - rewrite <- E. destruct m as [|? [|? ?]]; try done. cbn. by destruct (is_exempt i).
  - intros c Hc. rewrite <- E in Hc. destruct (_ && _) eqn:Ec; [|done]. injection Hc as <-.
    apply andb_true_iff in Ec as [Hlt _]. apply Nat.ltb_lt in Hlt. cbn. split; [lia|done].
Qed.

(** ** Watch claims on the roster *)

Section watches.
Implicit Types (t : table) (r : row) (kw : string * wclaim).

Lemma dict_get_select {A} (p : string → bool) k (d : list (string * A)) :
  dict_get k (select (λ kv, p kv.1) d) = if p k then dict_get k d else None.
Proof.
  induction d as [|[k' v] d IH]; [by destruct (p k)|]. rewrite select_cons. cbn [fst].
  destruct (p k') eqn:E; cbn [dict_get]; rewrite IH; case_bool_decide; subst; try done; by rewrite E.
Qed.

Lemma dict_get_fmap {A B} (f : A → B) k (d : list (string * A)) :
  dict_get k ((λ kv, (kv.1, f kv.2)) <$> d) = f <$> dict_get k d.
Proof. induction d as [|[k' v] d IH]; [done|]. cbn. by case_bool_decide. Qed.

Lemma dict_get_foldl {A B} (key : A → string) (val : A → B) k l d :
  dict_get k (foldl (λ d x, dict_set (key x) (val x) d) d l) =
    match last (select (λ x, key x == k) l) with
    | Some x => Some (val x)
    | None => dict_get k d
    end.
Proof.
  revert d. induction l as [|x l IH]; intros d; [done|]. cbn [foldl]. rewrite IH, select_cons.
  rewrite dict_get_set. bcase (key x = k) E.
  - subst. rewrite last_cons. rewrite (bool_decide_eq_true_2 (key x = key x)) by done.
    by destruct (last _).
  - by rewrite bool_decide_eq_false_2 by congruence.
Qed.

(** A claim the fold of a shared role takes into account. *)
Definition counts (now : Z) (w : wclaim) : bool := (w_state w == Covered) || negb (long_silent now w).

Section fold.
Context (now : Z) (seat : string) (metas : list (string * option jobj)).

Definition box_of kw : string := claim_box seat kw.1 (default None (dict_get kw.1 metas)).

Lemma fold_box_inv l :
  let bh := foldl (fold_box now seat metas) [] l in
  NoDup (fst <$> bh) ∧
  (∀ h, h ∈ fst <$> bh ↔ ∃ kw, kw ∈ l ∧ box_of kw = h ∧ counts now kw.2 = true) ∧
  (∀ h w, (h, w) ∈ bh → w_state w = Covered ↔ ∃ kw, kw ∈ l ∧ box_of kw = h ∧ w_state kw.2 = Covered).
Proof.
  cbv zeta. induction l as [|kw l IH] using rev_ind; cbn [foldl].
  { split_and!; [constructor|set_solver|set_solver]. }
  rewrite foldl_snoc. set (bh := foldl _ [] l) in *. destruct IH as (Hnd & Hk & Hc).
  setoid_rewrite elem_of_app. setoid_rewrite list_elem_of_singleton.
  assert (fold_box now seat metas bh kw =
    if negb (counts now kw.2) then bh
    else if negb (box_of kw isin (fst <$> bh)) || (w_state kw.2 == Covered)
    then dict_set (box_of kw) kw.2 bh else bh) as ->.
  { unfold fold_box, counts, box_of. destruct kw as [k w]. cbn [fst snd].
    by destruct (bool_decide (w_state w = Covered)), (long_silent now w). }
  destruct (counts now kw.2) eqn:Ec; cbn [negb].
  2:{ split_and!; [done| |].
      - intros h. rewrite Hk. split; [naive_solver|]. intros (kw' & [Hin| ->] & Hb & Hcc); [eauto|congruence].
      - intros h w Hin. rewrite (Hc h w Hin). split; [naive_solver|].
        intros (kw' & [Hin'| ->] & Hb & Hcov); [eauto|].
        unfold counts in Ec. by rewrite (bool_decide_eq_true_2 _ Hcov) in Ec. }
  destruct (negb (box_of kw isin (fst <$> bh)) || (w_state kw.2 == Covered)) eqn:Eb.
  - split_and!; [by apply dict_set_NoDup| |].
    + intros h. rewrite dict_set_keys, Hk. naive_solver.
    + intros h w. rewrite elem_of_dict_set by done. intros [[= -> ->]|[Hin Hne]]; cbn [fst] in *.
      * split; [intros Hcov; exists kw; naive_solver|]. intros (kw' & [Hin| ->] & Hb & Hcov); [|done].
        apply orb_true_iff in Eb as [Eb|Eb]; [|by apply bool_decide_eq_true in Eb].
        apply negb_true_iff, bool_decide_eq_false in Eb. exfalso. apply Eb, Hk. exists kw'.
        split_and!; [done|done|]. unfold counts. by rewrite (bool_decide_eq_true_2 _ Hcov).
      * rewrite (Hc h w Hin). naive_solver.
  - apply orb_false_iff in Eb as [Eb1 Eb2]. apply negb_false_iff, bool_decide_eq_true in Eb1.
    apply bool_decide_eq_false in Eb2. split_and!; [done| |].
    + intros h. rewrite Hk. split; [naive_solver|]. intros (kw' & [Hin| ->] & Hb & Hcc); [eauto|].
      rewrite <- Hb. by apply Hk in Eb1.
    + intros h w Hin. rewrite (Hc h w Hin). naive_solver.
Qed.
End fold.

Lemma folded_covered bh : folded_state bh = Covered ↔ ∀ hw, hw ∈ bh → w_state hw.2 = Covered.
Proof.
  unfold folded_state. transitivity (forallb (λ hw : string * wclaim, w_state hw.2 == Covered) bh = true).
  - by destruct (forallb _ bh).
  - rewrite forallb_forall. split; intros H hw Hin.
    + apply list_elem_of_In in Hin. specialize (H hw Hin). by apply bool_decide_eq_true in H.
    + apply list_elem_of_In in Hin. by apply bool_decide_eq_true, H.
Qed.

Lemma fold_shared_role now claims metas :
  dict_get "admin" (fold_shared_watches now claims metas) =
    let bh := by_host_of now "admin" metas claims in
    if length bh == 0 then None else Some (WShared (folded_state bh) bh).
Proof.
  unfold fold_shared_watches, SEAT_EXEMPT_IDENTITIES. cbn [foldl]. unfold fold_role. cbv zeta.
  assert (dict_get "admin" (select (λ kv, negb (of_role "admin" kv.1))
    ((λ kw, (kw.1, WOne kw.2)) <$> claims)) = None) as Hn.
  { rewrite (dict_get_select (λ k, negb (of_role "admin" k))). done. }
  destruct (_ == 0); [exact Hn|]. by rewrite dict_get_set.
Qed.

Lemma fold_shared_other now claims metas s :
  of_role "admin" s = false →
  dict_get s (fold_shared_watches now claims metas) = WOne <$> dict_get s claims.
Proof.
  intros Hs. unfold fold_shared_watches, SEAT_EXEMPT_IDENTITIES. cbn [foldl]. unfold fold_role. cbv zeta.
  assert (dict_get s (select (λ kv, negb (of_role "admin" kv.1))
    ((λ kw, (kw.1, WOne kw.2)) <$> claims)) = WOne <$> dict_get s claims) as Hn.
  { rewrite (dict_get_select (λ k, negb (of_role "admin" k))), Hs. cbn [negb]. apply dict_get_fmap. }
  destruct (_ == 0); [exact Hn|]. rewrite dict_get_set.
  rewrite bool_decide_eq_false_2; [exact Hn|]. intros ->. done.
Qed.
End watches.

(** No deaf box hides behind another's coverage. A shared role is covered
    on the roster exactly when some box has a claim that counts (covered, or
    silent for at most ten minutes) and every box with such a claim has a
    covered one; it reads as having no watch exactly when no claim counts; and
    each box is shown covered exactly when a claim of that box is. *)
Lemma role_fold_exact now claims metas :
  let group := select (λ kw, of_role "admin" kw.1) claims in
  let counted kw := kw ∈ group ∧ (w_state kw.2 = Covered ∨ long_silent now kw.2 = false) in
  let covered h := ∃ kw, kw ∈ group ∧ box_of "admin" metas kw = h ∧ w_state kw.2 = Covered in
  let view := dict_get "admin" (fold_shared_watches now claims metas) in
  (view = None ↔ ¬ ∃ kw, counted kw) ∧
  (∀ v, view = Some v → view_state v = Covered ↔ ∀ kw, counted kw → covered (box_of "admin" metas kw)) ∧
  (∀ s bh, view = Some (WShared s bh) →
     NoDup (fst <$> bh) ∧
     (∀ h, h ∈ fst <$> bh ↔ ∃ kw, counted kw ∧ box_of "admin" metas kw = h) ∧
     ∀ h w, (h, w) ∈ bh → w_state w = Covered ↔ covered h).
Proof.
  cbv zeta. rewrite fold_shared_role. cbv zeta. unfold by_host_of.
  set (group := select _ claims).
  destruct (fold_box_inv now "admin" metas group) as (Hnd & Hk & Hc). set (bh := foldl _ [] group) in *.
  assert (∀ w, counts now w = true ↔ w_state w = Covered ∨ long_silent now w = false) as Hcounts.
  { intros w. unfold counts. by rewrite orb_true_iff, bool_decide_eq_true, negb_true_iff. }
  setoid_rewrite Hcounts in Hk.
  assert (length bh = 0 ↔ ¬ ∃ kw, kw ∈ group ∧ (w_state kw.2 = Covered ∨ long_silent now kw.2 = false)) as Hz.
  { rewrite length_zero_iff_nil. split.
    - intros Hb (kw & Hkw). assert (box_of "admin" metas kw ∈ fst <$> bh) as Hin by (apply Hk; naive_solver).
      rewrite Hb in Hin. by apply elem_of_nil in Hin.
    - intros Hn. destruct bh as [|[h w] l] eqn:E; [done|]. exfalso. apply Hn.
      destruct (proj1 (Hk h)) as (kw & H1 & H2 & H3); [by left|]. eauto. }
  split_and!.
  - rewrite <- Hz. case_bool_decide; naive_solver.
  - intros v Hv. case_bool_decide; [done|]. injection Hv as <-. cbn [view_state].
    rewrite folded_covered.
    split.
    + intros Hall kw [Hin Hcc]. assert (box_of "admin" metas kw ∈ fst <$> bh) as Hb by (apply Hk; eauto).
      apply list_elem_of_fmap in Hb as ([h w] & -> & Hb). cbn [fst]. apply (Hc h w Hb). exact (Hall (h, w) Hb).
    + intros Hall [h w] Hin. apply (Hc h w Hin). assert (h ∈ fst <$> bh) as Hb
        by (apply list_elem_of_fmap; by exists (h, w)).
      apply Hk in Hb as (kw & H1 & <- & H3). apply Hall. eauto.
  - intros s bh' Hv. case_bool_decide; [done|]. injection Hv as <- <-. split_and!; [done| |done].
    intros h. rewrite Hk. naive_solver.
Qed.

Lemma answers_plain seat r :
  norm (Some seat) = seat → is_exempt seat = false →
  answers (Some seat) None r = at_claim ("watch/" +:+ seat) r.
Proof.
  intros Hn Hex. unfold answers, of_seat, _shared_key_clause, asked_box, on_box, at_claim.
  rewrite Hn, Hex. cbn [andb]. by rewrite orb_false_r, andb_true_r.
Qed.

(** The roster and the status answer of a seat never disagree about its
    watch: for a seat that is not a shared role, the state the roster shows is
    the state [watch_status] answers. *)
Lemma roster_watch_status now seat t :
  watch_wf t → norm (Some seat) = seat → is_exempt seat = false → startswith "admin@" seat = false →
  view_state (default WUnheld (dict_get seat (watch_by_seat now t))) =
    s_state (watch_status now (Some seat) None t).
Proof.
  intros Hwf Hn Hex Ha. unfold watch_by_seat. rewrite fold_shared_other.
  2:{ unfold of_role. change ("admin" +:+ "@") with "admin@". rewrite Ha, orb_false_r.
      unfold is_exempt in Hex. apply bool_decide_eq_false in Hex. apply bool_decide_eq_false.
      intros ->. apply Hex. left. }
  rewrite dict_get_foldl. cbn [dict_get]. set (l := select _ _).
  assert (∀ r, answers (Some seat) None r = at_claim ("watch/" +:+ seat) r) as Hans
    by (intros r; by apply answers_plain).
  assert (∀ r, r ∈ l ↔ r ∈ t_rows t ∧ answers (Some seat) None r = true) as Hl.
  { intros r. rewrite Hans, at_claim_true. unfold l. rewrite elem_of_select, elem_of_sql_select.
    unfold is_claim_row, claim_seat. rewrite andb_true_iff, bool_decide_eq_true. split.
    - intros (<- & (Hw & Hp) & Hin). apply startswith_true in Hp as [x ->].
      by rewrite (removeprefix_app "watch/").
    - intros (Hin & Hw & ->). by rewrite (removeprefix_app "watch/"), (startswith_app "watch/"). }
  destruct (last l) as [r|] eqn:E.
  - pose proof E as Hr. apply last_Some_elem_of, Hl in Hr as [Hr Hra].
    change (view_state _) with (if fresh now r then Covered else Expired).
    assert (∀ x, x ∈ t_rows t → answers (Some seat) None x = true → x = r) as Hu.
    { intros x Hx Hax. rewrite Hans in *. by eapply claim_unique. }
    destruct (fresh now r) eqn:Ef.
    + symmetry. apply status_covered. eauto.
    + destruct (s_state (watch_status now (Some seat) None t)) eqn:Es; [|done|].
      * apply status_covered in Es as (x & Hx & Hax & Hfx). rewrite (Hu x Hx Hax) in Hfx. congruence.
      * rewrite status_unheld in Es. by rewrite (Es r Hr) in Hra.
  - cbn. symmetry. apply status_unheld. intros x Hx. apply not_true_iff_false. intros Hax.
    assert (x ∈ l) as Hin by (by apply Hl). apply last_None in E. rewrite E in Hin. by apply elem_of_nil in Hin.
Qed.

(** ** The roster *)

(** Who the roster lists: exactly the presence rows of the project asked
    for (or of all), less the retired unless asked, less those silent for two
    days unless asked, and nothing at all for a channel; each with its own
    age, stale from ten minutes on, and the freshest first. *)
Lemma roster_exact iso now project channel include_done include_expired t :
  let out := roster_list iso now project channel include_done include_expired t in
  (∀ e, e ∈ out ↔ ∃ r, r ∈ t_rows t ∧ e = roster_entry iso now project t r ∧
     r_ns r = INBOX_NAMESPACE ∧ r_scope r = "presence" ∧
     (truthy project = true → r_user r = lower (or_empty project)) ∧
     truthy channel = false ∧
     (py_str (r_meta r) "state" = Some "done" → include_done = true) ∧
     ((now - r_used r < 172800)%Z ∨ include_expired = true)) ∧
  (∀ e, e ∈ out → e_age e = (now - e_last_seen e)%Z ∧ (e_is_stale e = true ↔ (600 <= e_age e)%Z)) ∧
  StronglySorted (λ e e', (e_last_seen e' <= e_last_seen e)%Z) out.
Proof.
  cbv zeta. unfold roster_list.
  assert (∀ r, e_last_seen (roster_entry iso now project t r) = r_used r ∧
    e_age (roster_entry iso now project t r) = (now - r_used r)%Z ∧
    e_is_stale (roster_entry iso now project t r) = (PRESENCE_STALE_AFTER_SECONDS <=? now - r_used r)%Z) as Hentry
    by (intros r; unfold roster_entry; by destruct (_watcher_state _ _)).
  split_and!.
  - intros e. rewrite list_elem_of_fmap. setoid_rewrite elem_of_select.
    unfold by_used_desc. setoid_rewrite elem_of_sort_by. setoid_rewrite elem_of_sql_select.
    unfold listed, any_presence, scoped, is_done, PRESENCE_RETENTION_SECONDS.
    split; intros (r & H); exists r.
    + destruct H as (-> & Hl & Hs & Hr). apply andb_true_iff in Hs as [Ha Hsc].
      apply andb_true_iff in Ha as [Hns Hscope]. apply bool_decide_eq_true in Hns, Hscope.
      rewrite !andb_true_iff, !negb_true_iff, !andb_false_iff, !negb_false_iff in Hl.
      destruct Hl as [[Hd Hc] Hx]. split_and!; try done.
      * intros Ht. rewrite Ht in Hsc. apply bool_decide_eq_true in Hsc. by injection Hsc.
      * intros Hst. by destruct Hd as [Hd%bool_decide_eq_false|?].
      * destruct Hx as [Hx%Z.leb_gt|?]; [by left|by right].
    + destruct H as (Hr & -> & Hns & Hscope & Hp & Hc & Hd & Hx). split; [done|].
      rewrite !andb_true_iff, !negb_true_iff, !andb_false_iff, !negb_false_iff, !bool_decide_eq_true.
      split_and!; try done.
      * destruct (decide (py_str (r_meta r) "state" = Some "done")); [right; auto|left; by apply bool_decide_eq_false].
      * destruct Hx as [Hx|Hx]; [left; by apply Z.leb_gt|by right].
      * destruct (truthy project); [|done]. apply bool_decide_eq_true. f_equal. auto.
  - intros e (r & -> & _)%list_elem_of_fmap. destruct (Hentry r) as (-> & -> & ->).
    split; [done|]. rewrite Z.leb_le. done.
  - apply StronglySorted_fmap with (R1 := λ a b, (r_used b <=? r_used a)%Z = true).
    + intros a b H. destruct (Hentry a) as (-> & _), (Hentry b) as (-> & _). by apply Z.leb_le.
    + apply StronglySorted_select. apply sort_by_sorted.
      * intros x y. rewrite !Z.leb_le. lia.
      * intros x y z. rewrite !Z.leb_le. lia.
Qed.

(** ** Death certificates *)

Section deaths.
Context (iso : Z → string).
Implicit Types (r : row) (d : list (string * death)).

Definition died_text (md : option jobj) : string := stamp_text iso (jget md "died_at").

Lemma text_after_trans a b c : text_after b a = true → text_after c a = false → text_after c b = false.
Proof.
  unfold text_after. rewrite !andb_true_iff, !andb_false_iff, !negb_true_iff, !negb_false_iff,
    !bool_decide_eq_true, !bool_decide_eq_false.
  intros [Hab Hne] [Hca|Hca].
  - left. intros Hbc. apply Hca. by transitivity b.
  - subst c. left. intros Hba. apply Hne. by apply (anti_symm String.le).
Qed.

Lemma text_after_irrefl a : text_after a a = false.
Proof. unfold text_after. by rewrite (bool_decide_eq_true_2 (a = a)), andb_false_r. Qed.

(** The certificates of one name. *)
Definition certifies (s : string) (r : row) : bool := norm (py_str (r_meta r) "seat") == s.

Lemma file_death_get d r s :
  s ≠ "" → dict_get s (file_death iso d r) =
    if certifies s r
    then match dict_get s d with
         | Some prior => if text_after (died_text (r_meta r)) (stamp_text iso (de_died prior))
                         then Some (death_of (r_meta r)) else Some prior
         | None => Some (death_of (r_meta r))
         end
    else dict_get s d.
Proof.
  intros Hs. unfold file_death, certifies, died_text. set (n := norm _).
  bcase (n = s) E; subst.
  - rewrite (proj2 (nonempty_true n) Hs). cbn [negb].
    destruct (dict_get n d) as [prior|] eqn:Ed; [destruct (text_after _ _)|];
      rewrite ?dict_get_set, ?(bool_decide_eq_true_2 (n = n)); done.
  - destruct (negb _); [done|]. destruct (dict_get n d) as [prior|]; [destruct (text_after _ _)|];
      rewrite ?dict_get_set, ?(bool_decide_eq_false_2 (s = n)) by congruence; done.
Qed.

Lemma file_deaths rows s :
  s ≠ "" →
  match dict_get s (foldl (file_death iso) [] rows) with
  | None => ∀ r, r ∈ rows → certifies s r = false
  | Some x => ∃ r, r ∈ rows ∧ certifies s r = true ∧ x = death_of (r_meta r) ∧
      ∀ r', r' ∈ rows → certifies s r' = true → text_after (died_text (r_meta r')) (died_text (r_meta r)) = false
  end.
Proof.
  intros Hs. induction rows as [|r rows IH] using rev_ind; [by intros r ?%elem_of_nil|].
  rewrite foldl_snoc, file_death_get by done.
  assert (∀ x, x ∈ rows ++ [r] ↔ x ∈ rows ∨ x = r) as Hin
    by (intros x; by rewrite elem_of_app, list_elem_of_singleton).
  destruct (certifies s r) eqn:Ec.
  - destruct (dict_get s _) as [x|].
    + destruct IH as (r0 & Hr0 & Hc0 & -> & Hmax).
      change (stamp_text iso (de_died (death_of (r_meta r0)))) with (died_text (r_meta r0)).
      destruct (text_after _ _) eqn:Et.
      * exists r. split_and!; [apply Hin; by right|done|done|]. intros r' [Hr'| ->]%Hin Hc'; [|apply text_after_irrefl].
        eapply text_after_trans; [exact Et|]. by apply Hmax.
      * exists r0. split_and!; [apply Hin; by left|done|done|]. intros r' [Hr'| ->]%Hin Hc'; [by apply Hmax|done].
    + exists r. split_and!; [apply Hin; by right|done|done|]. intros r' [Hr'| ->]%Hin Hc'; [|apply text_after_irrefl].
      by rewrite (IH r' Hr') in Hc'.
  - destruct (dict_get s _) as [x|].
    + destruct IH as (r0 & Hr0 & Hc0 & -> & Hmax). exists r0. split_and!; [apply Hin; by left|done|done|].
      intros r' [Hr'| ->]%Hin Hc'; [by apply Hmax|congruence].
    + intros r' [Hr'| ->]%Hin; [by apply IH|done].
Qed.
End deaths.

(** A certificate filed under a name, in a scope. *)
Definition cert_of (project : option string) (t : table) (ident : string) (r : row) : Prop :=
  r ∈ t_rows t ∧ is_death r = true ∧ scoped project (r_project r) = true ∧
  norm (py_str (r_meta r) "seat") = ident.

(** No other certificate of the name is written later. *)
Definition latest_cert (iso : Z → string) (project : option string) (t : table) (ident : string) (r : row) : Prop :=
  cert_of project t ident r ∧ ∀ r', cert_of project t ident r' →
    text_after (died_text iso (r_meta r')) (died_text iso (r_meta r)) = false.

(** Something lived after the death it gives. *)
Definition voided (evidence : list (option Z)) (r : row) : Prop :=
  ∃ died later, jget (r_meta r) "died_at" = JTime died ∧ Some later ∈ evidence ∧ (died < later)%Z.

Lemma death_for_latest ident evidence d r :
  dict_get ident d = Some (death_of (r_meta r)) →
  match _death_for ident d evidence with
  | Some x => ¬ voided evidence r ∧ x = death_of (r_meta r)
  | None => voided evidence r
  end.
Proof.
  intros Hd. unfold _death_for, voided. rewrite Hd. cbn [death_of de_died].
  destruct (jget (r_meta r) "died_at") as [| | | |died| |] eqn:Ed;
    try (split; [by intros (? & ? & [=] & _)|done]).
  destruct (existsb _ evidence) eqn:Ee.
  - apply existsb_exists in Ee as ([later|] & Hin & Hlt); [|done]. exists died, later.
    split_and!; [done|by apply list_elem_of_In|by apply Z.ltb_lt].
  - split; [|done]. intros (x & later & [= <-] & Hin & Hlt). apply not_true_iff_false in Ee. apply Ee.
    apply existsb_exists. exists (Some later). split; [by apply list_elem_of_In|by apply Z.ltb_lt].
Qed.

(** The death shown for a name is testimony, and the latest there is. It is
    a certificate filed under that name, in the scope asked for, with no other
    of the name written later; it is withheld exactly when there is none, or
    when something (the session's own clock or its watcher's beat) lived after
    the instant it gives. A beat before that instant never hides it. *)
Lemma death_shown iso project t ident evidence :
  ident ≠ "" →
  match _death_for ident (_death_by_seat iso project t) evidence with
  | Some d => ∃ r, latest_cert iso project t ident r ∧ ¬ voided evidence r ∧ d = death_of (r_meta r)
  | None => (∀ r, ¬ cert_of project t ident r) ∨
            ∃ r, latest_cert iso project t ident r ∧ voided evidence r
  end.
Proof.
  intros Hi. unfold _death_by_seat. set (rows := sql_select _ t).
  assert (∀ r, r ∈ rows ∧ certifies ident r = true ↔ cert_of project t ident r) as Hcert.
  { intros r. unfold rows, certifies, cert_of.
    rewrite elem_of_sql_select, andb_true_iff, bool_decide_eq_true. tauto. }
  pose proof (file_deaths iso rows ident Hi) as Hd.
  destruct (dict_get ident (foldl _ [] rows)) as [d|] eqn:Eg.
  - destruct Hd as (r & Hr & Hc & -> & Hmax).
    assert (latest_cert iso project t ident r) as Hlatest.
    { split; [by apply Hcert|]. intros r' [Hr' Hc']%Hcert. by apply Hmax. }
    pose proof (death_for_latest ident evidence _ r Eg) as Hv.
    destruct (_death_for _ _ _); [exists r; tauto|right; by exists r].
  - unfold _death_for. rewrite Eg. left. intros r [Hr Hc]%Hcert. by rewrite (Hd r Hr) in Hc.
Qed.

(** ** Liveness of recipients *)

(** Presence rows are keyed by a name and filed under a lower-case project. *)
Definition presence_named (t : table) : Prop :=
  ∀ r, r ∈ t_rows t → any_presence r = true →
    (∃ i, r_key r = "presence/" +:+ i) ∧ lower (r_user r) = r_user r.

(** A row that can answer for an address: the address's own, or a row of the
    project of that name that is not retired. *)
Definition answers_for (addr : string) (r : row) : Prop :=
  ident_of r = addr ∨ (r_user r = addr ∧ is_done r = false).

Section listeners.
Implicit Types (t : table) (r : row) (best : list (string * row)) (addrs : list string).

Lemma elem_of_speaks addrs r addr :
  addr ∈ speaks_for addrs r ↔ addr ∈ addrs ∧
    (ident_of r = addr ∨ (lower (r_user r) = addr ∧ lower (r_user r) ≠ ident_of r ∧ is_done r = false)).
Proof.
  unfold speaks_for. rewrite elem_of_app.
  destruct (decide (ident_of r ∈ addrs)) as [Hi|Hi];
    [rewrite (bool_decide_eq_true_2 _ Hi)|rewrite (bool_decide_eq_false_2 _ Hi)];
    destruct (decide (lower (r_user r) ∈ addrs)) as [Hp|Hp];
    [rewrite (bool_decide_eq_true_2 _ Hp)|rewrite (bool_decide_eq_false_2 _ Hp)|
     rewrite (bool_decide_eq_true_2 _ Hp)|rewrite (bool_decide_eq_false_2 _ Hp)];
    destruct (decide (lower (r_user r) = ident_of r)) as [He|He];
    rewrite ?(bool_decide_eq_true_2 _ He), ?(bool_decide_eq_false_2 _ He);
    destruct (is_done r); cbn [andb negb]; rewrite ?list_elem_of_singleton, ?elem_of_nil; naive_solver.
Qed.

(** The answer for an address so far, and the next row. *)
Definition freshest (cur : option row) (r : row) : option row :=
  match cur with
  | None => Some r
  | Some c => if (r_used c <? r_used r)%Z then Some r else Some c
  end.

Lemma better_get best a r addr :
  dict_get addr (better best a r) = if addr == a then freshest (dict_get a best) r else dict_get addr best.
Proof.
  assert (∀ d, dict_get addr (dict_set a r d) = if addr == a then Some r else dict_get addr d) as Hset
    by (intros d; apply dict_get_set).
  unfold better, freshest. bcase (addr = a) E; [subst a|];
    destruct (dict_get _ best) as [c|] eqn:Ec; [destruct (_ <? _)%Z| |destruct (_ <? _)%Z|];
    by rewrite ?Hset.
Qed.

Lemma freshest_idem cur r : freshest (freshest cur r) r = freshest cur r.
Proof.
  destruct cur as [c|]; cbn [freshest]; [|by rewrite Z.ltb_irrefl].
  destruct (r_used c <? r_used r)%Z eqn:E; cbn [freshest]; [by rewrite Z.ltb_irrefl|by rewrite E].
Qed.

Lemma hear_get addrs best r addr :
  dict_get addr (hear addrs best r) =
    if addr isin speaks_for addrs r then freshest (dict_get addr best) r else dict_get addr best.
Proof.
  unfold hear. generalize (speaks_for addrs r) as l. induction l as [|a l IH] using rev_ind; [done|].
  rewrite foldl_snoc, better_get. bcase (addr = a) E.
  - subst a. rewrite IH. rewrite (bool_decide_eq_true_2 (addr ∈ l ++ [addr])) by set_solver.
    case_bool_decide; [apply freshest_idem|done].
  - rewrite IH. replace (addr isin (l ++ [a])) with (addr isin l); [done|].
    apply bool_decide_ext. set_solver.
Qed.

Lemma hear_rows addrs rows addr :
  match dict_get addr (foldl (hear addrs) [] rows) with
  | None => ∀ r, r ∈ rows → addr ∉ speaks_for addrs r
  | Some x => x ∈ rows ∧ addr ∈ speaks_for addrs x ∧
      ∀ r, r ∈ rows → addr ∈ speaks_for addrs r → (r_used r <= r_used x)%Z
  end.
Proof.
  induction rows as [|r rows IH] using rev_ind; [by intros r ?%elem_of_nil|].
  rewrite foldl_snoc, hear_get.
  assert (∀ x, x ∈ rows ++ [r] ↔ x ∈ rows ∨ x = r) as Hin
    by (intros x; by rewrite elem_of_app, list_elem_of_singleton).
  bcase (addr ∈ speaks_for addrs r) E.
  - destruct (dict_get addr _) as [c|]; cbn [freshest].
    + destruct IH as (Hc & Hs & Hmax). destruct (Z.ltb_spec (r_used c) (r_used r)).
      * split_and!; [apply Hin; by right|done|]. intros x [Hx| ->]%Hin Hsx; [|lia].
        specialize (Hmax x Hx Hsx). lia.
      * split_and!; [apply Hin; by left|done|]. intros x [Hx| ->]%Hin Hsx; [by apply Hmax|lia].
    + split_and!; [apply Hin; by right|done|]. intros x [Hx| ->]%Hin Hsx; [by destruct (IH x Hx)|lia].
  - destruct (dict_get addr _) as [c|].
    + destruct IH as (Hc & Hs & Hmax). split_and!; [apply Hin; by left|done|].
      intros x [Hx| ->]%Hin Hsx; [by apply Hmax|done].
    + intros x [Hx| ->]%Hin; [by apply IH|done].
Qed.

(** The rows the query reads are those that can speak. *)
Lemma spoken_rows t addrs r addr :
  presence_named t → r ∈ t_rows t → any_presence r = true → addr ∈ speaks_for addrs r →
  (r_key r isin ((λ a, "presence/" +:+ a) <$> addrs)) || (r_user r isin addrs) = true.
Proof.
  intros Hn Hr Ha [Hin Hs]%elem_of_speaks. destruct (Hn r Hr Ha) as [[i Hi] Hl].
  apply orb_true_iff. rewrite !bool_decide_eq_true. destruct Hs as [Hs|(Hs & _)].
  - left. apply list_elem_of_fmap. exists addr. split; [|done]. rewrite Hi. f_equal. rewrite <- Hs.
    unfold ident_of. rewrite Hi. symmetry. apply (removeprefix_app "presence/").
  - right. by rewrite Hl in Hs; subst.
Qed.

Lemma answers_speaks t addrs r addr :
  presence_named t → r ∈ t_rows t → any_presence r = true → addr ∈ addrs →
  addr ∈ speaks_for addrs r ↔ answers_for addr r.
Proof.
  intros Hn Hr Ha Hin. destruct (Hn r Hr Ha) as [_ Hl]. rewrite elem_of_speaks, Hl. unfold answers_for.
  destruct (decide (ident_of r = addr)); naive_solver.
Qed.
End listeners.

(** The row behind a liveness answer. *)
Lemma liveness_row iso now addresses t addr :
  presence_named t →
  let addrs := (λ a, lower (or_empty a)) <$> select truthy addresses in
  let row_for r := r ∈ t_rows t ∧ any_presence r = true ∧ answers_for addr r in
  match dict_get addr (recipient_liveness iso now addresses t) with
  | Some l => addr ∈ addrs ∧ ∃ r, row_for r ∧ (∀ r', row_for r' → (r_used r' <= r_used r)%Z) ∧
      l = liveness_of now (deaths_named iso addrs t) r
  | None => addr ∈ addrs → ∀ r, ¬ row_for r
  end.
Proof.
  intros Hn. cbv zeta. unfold recipient_liveness.
  set (addrs := (λ a, lower (or_empty a)) <$> select truthy addresses).
  destruct (length addrs == 0) eqn:Ez.
  { cbn [dict_get]. intros Ha. apply bool_decide_eq_true, length_zero_iff_nil in Ez.
    rewrite Ez in Ha. by apply elem_of_nil in Ha. }
  rewrite dict_get_fmap. unfold best_listeners. set (rows := sql_select _ t).
  pose proof (hear_rows addrs rows addr) as Hh.
  assert (∀ r, addr ∈ addrs → r ∈ rows ∧ addr ∈ speaks_for addrs r ↔
    r ∈ t_rows t ∧ any_presence r = true ∧ answers_for addr r) as Hrow.
  { intros r Ha. unfold rows. rewrite elem_of_sql_select, andb_true_iff. split.
    - intros [[[Hp _] Hr] Hs]. split_and!; [done..|]. by apply (answers_speaks t addrs).
    - intros (Hr & Hp & Hs). assert (addr ∈ speaks_for addrs r) as Hsp by (by apply (answers_speaks t addrs)).
      split_and!; [done| |done|done]. by eapply spoken_rows. }
  destruct (dict_get addr (foldl _ [] rows)) as [x|]; cbn [fmap option_fmap option_map].
  - destruct Hh as (Hx & Hs & Hmax). pose proof Hs as [Ha _]%elem_of_speaks.
    split; [done|]. exists x. split; [by apply Hrow|]. split; [|done].
    intros r' Hr'. apply (Hrow r' Ha) in Hr' as [Hr' Hs']. by apply Hmax.
  - intros Ha r Hr. apply (Hrow r Ha) in Hr as [Hr Hs]. by apply (Hh r Hr).
Qed.

Lemma elem_of_asked (addresses : list (option string)) addr :
  addr ∈ (λ a, lower (or_empty a)) <$> select truthy addresses ↔ ∃ a, Some a ∈ addresses ∧ a ≠ "" ∧ addr = lower a.
Proof.
  rewrite list_elem_of_fmap. split.
  - intros (a & -> & [Ht Ha]%elem_of_select). destruct a as [[|c s]|]; [done| |done]. by exists (String c s).
  - intros (a & Ha & Hne & ->). exists (Some a). split; [done|]. apply elem_of_select. by destruct a.
Qed.

(** Absent is not dead, and the freshest ear speaks. The liveness a send
    reads for an address is that of the row that beat last among those that
    can answer for it (its own row, or, for a project's name, any row of the
    project that is not retired): no other is fresher, its age is its own, and
    it is stale from ten minutes on. An address nothing answers for does not
    appear at all, and neither does one that was not asked about. *)
Lemma liveness_freshest iso now addresses t addr :
  presence_named t →
  let asked := ∃ a, Some a ∈ addresses ∧ a ≠ "" ∧ addr = lower a in
  let row_for r := r ∈ t_rows t ∧ any_presence r = true ∧ answers_for addr r in
  match dict_get addr (recipient_liveness iso now addresses t) with
  | Some l => asked ∧ ∃ r, row_for r ∧ (∀ r', row_for r' → (r_used r' <= r_used r)%Z) ∧
      l_listener l = ident_of r ∧ l_age l = (now - r_used r)%Z ∧
      (l_is_stale l = true ↔ (600 <= now - r_used r)%Z) ∧
      l_watcher_alive l = (_watcher_state (r_meta r) now).1 ∧ l_farewell_at l = jget (r_meta r) "farewell_at"
  | None => asked → ∀ r, ¬ row_for r
  end.
Proof.
  intros Hn. cbv zeta. pose proof (liveness_row iso now addresses t addr Hn) as Hl. cbv zeta beta in Hl |- *.
  destruct (dict_get addr _) as [l|]; [|intros Hs; by apply Hl, elem_of_asked].
  destruct Hl as (Ha & r & Hr & Hmax & ->). split; [by apply elem_of_asked|]. exists r. split; [done|].
  split; [done|]. unfold liveness_of. destruct (_watcher_state _ _) as [al seen].
  split_and!; try done. apply Z.leb_le.
Qed.

Lemma file_deaths_absent iso rows s :
  (∀ r, r ∈ rows → norm (py_str (r_meta r) "seat") ≠ s) → dict_get s (foldl (file_death iso) [] rows) = None.
Proof.
  induction rows as [|r rows IH] using rev_ind; [done|]. intros H. rewrite foldl_snoc.
  assert (norm (py_str (r_meta r) "seat") ≠ s) as Hne by (apply H; set_solver).
  assert (dict_get s (foldl (file_death iso) [] rows) = None) as HN by (apply IH; intros x Hx; apply H; set_solver).
  unfold file_death. destruct (negb _); [done|].
  destruct (dict_get (norm _) _) as [prior|]; [destruct (text_after _ _)|];
    rewrite ?dict_get_set, ?(bool_decide_eq_false_2 (s = _)) by congruence; done.
Qed.

(** The certificate of a group address's listener is never read: only those of
    the addresses themselves are fetched. *)
Lemma group_death_unread iso now addresses t addr l :
  dict_get addr (recipient_liveness iso now addresses t) = Some l →
  (∀ r, r ∈ t_rows t → is_death r = true →
     ∃ s, md_get (r_meta r) "seat" = Some (JStr s) ∧ norm (Some s) = s) →
  l_listener l ∉ (λ a, lower (or_empty a)) <$> select truthy addresses →
  l_death l = None.
Proof.
  unfold recipient_liveness. set (addrs := (λ a, lower (or_empty a)) <$> select truthy addresses).
  destruct (length addrs == 0); [done|]. intros Hl Hnorm Hnot.
  rewrite dict_get_fmap in Hl. destruct (dict_get addr _) as [r|]; [|done]. injection Hl as <-.
  revert Hnot. unfold liveness_of. destruct (_watcher_state _ _) as [al seen]. cbn [l_listener l_death].
  intros Hnot. unfold _death_for. unfold deaths_named. rewrite file_deaths_absent; [done|].
  intros x [Hx Hin]%elem_of_sql_select Hc. apply andb_true_iff in Hx as [Hd Hx].
  destruct (Hnorm x Hin Hd) as (s & Hs & Hns). rewrite md_text_get, Hs in Hx. cbn in Hx.
  apply bool_decide_eq_true in Hx. unfold py_str in Hc. rewrite Hs, Hns in Hc.
  apply Hnot. by rewrite <- Hc, <- Hns, <- lower_norm, Hns.
Qed.

(** ** Concrete runs *)

Definition ex_beat (nonce : string) (activity : bool) : heartbeat :=
  Heartbeat "Tide-Claude-2" "Tide" "running" (Some "claude") [] (Some nonce) (Some "hosta") activity.
Definition ex_seated : table := presence_run [Beat 1000 (ex_beat "n1" true)] empty_table.
Definition ex_events : list presence_event :=
  [WatcherBeat 1040 "tide-claude-2" "tide"; Beat 1100 (ex_beat "n1" false);
   Farewell 1200 "tide-claude-2" "tide"].

Lemma ex_empty_presence_wf : presence_wf empty_table.
Proof. split; [apply wf_empty|]. by intros r ?%elem_of_nil. Qed.

Lemma ex_presence_wf : presence_wf ex_seated.
Proof. apply (beat_find empty_table 1000 (ex_beat "n1" true) (presence_pk "" "")), ex_empty_presence_wf. Qed.

Lemma ex_presence_seats_wf : seats_wf ex_seated.
Proof.
  apply seats_wf_presence; [apply ex_empty_presence_wf|]. split; [apply wf_empty|]. by intros r ?%elem_of_nil.
Qed.

Lemma evidence_separated_witness :
  ∃ r, sql_find (presence_pk "tide-claude-2" "tide") (presence_run ex_events ex_seated) = Some r ∧
    r_used r = 1100%Z ∧ jget (r_meta r) "agent_last_active" = JTime 1000 ∧
    jget (r_meta r) "farewell_at" = JTime 1200.
Proof.
  destruct (evidence_separated ex_events ex_seated "tide-claude-2" "tide"
    (default (mk_row 0 0 (presence_row "" "" "" ∅)) (sql_find (presence_pk "tide-claude-2" "tide") ex_seated))
    ex_presence_wf ltac:(vm_compute; reflexivity)) as (r & Hr & Hu & Ha & Hf).
  exists r. split; [exact Hr|]. split_and!; [rewrite Hu|rewrite Ha|rewrite Hf]; vm_compute; reflexivity.
Defined.

Definition ex_cert (died : Z) : new_row :=
  NewRow (PKey PRESENCE_NAMESPACE ("death/k" +:+ pretty died) DEATH_SCOPE SEAT_USER_ID (Some "tide")) "" "" "" "" None
    (Some {["seat" := JStr "tide-claude-2"; "died_at" := JTime died]}) None.

Definition ex_buried : table := sql_append 0 (ex_cert 2000) ex_seated.
