(* ===== verification/Register.v ===== *)
(** The read side of the seat register and the intake of death certificates
    (src/server/services/session_registry.py): [death_certify], [seat_list],
    [address_register], [project_registry] and [unknown_root_advisories].

    Each operation runs its SQL statements in the source's order. [iso] is
    [datetime.isoformat], [lane_reservation] the setting
    [lane_reservation_enabled], [people] the names of the active human
    principals. The database's text order is taken to be byte order; it only
    orders the entries of a listing. *)

From stdpp Require Import base gmap list strings pretty sorting.
From Stdlib Require Import ZArith Lia Ascii.
From S2P Require Import Prelude PyString Json Store Principals Memory Inbox WatchClaim Seats Presence.

Definition GENERATED_KEY_PREFIX : string := "auto-".
Definition PROJECT_DORMANT_SECONDS : Z := SEAT_GRACE_SECONDS.

(** [substr(s, n + 1)] *)
Fixpoint sdrop (n : nat) (s : string) : string :=
  match n, s with
  | S n', String _ s' => sdrop n' s'
  | _, _ => s
  end.

(** ** Death certificates *)

Record certificate := Certificate {
  ce_session_key : string;
  ce_seat : string;
  ce_lane : string;
  ce_project : string;
  ce_provider : string;
  ce_host : string;
  ce_died_at : Z;
  ce_cause : string;
  ce_graceful : option bool;
  ce_certified_by : option string;
  ce_session_nonce : option string
}.

Record cert_result := CertResult {
  cr_created : bool;
  cr_updated : bool;
  cr_cursor_updated : bool;
  cr_cursor_size : nat
}.

Section certify.
Context (iso : Z → string).

Definition death_idem (c : certificate) : string :=
  if nonempty (ce_session_key c) then ce_session_key c else ce_seat c +:+ "|" +:+ iso (ce_died_at c).

Definition death_key (c : certificate) : string := DEATH_SCOPE +:+ "/" +:+ death_idem c.

Definition cert_project (c : certificate) : string := norm (Some (ce_project c)).

Definition death_pk (c : certificate) : pkey :=
  PKey SEAT_NAMESPACE (death_key c) DEATH_SCOPE SEAT_USER_ID (Some (cert_project c)).

Definition death_meta (now : Z) (c : certificate) : jobj := list_to_map [
  ("kind", JStr "death");
  ("session_key", JStr (ce_session_key c));
  ("seat", JStr (ce_seat c));
  ("lane", JStr (ce_lane c));
  ("provider", JStr (ce_provider c));
  ("host", JStr (ce_host c));
  ("died_at", JTime (ce_died_at c));
  ("cause", JStr (ce_cause c));
  ("graceful", match ce_graceful c with Some g => JBool g | None => JNull end);
  ("certified_by", jopt (ce_certified_by c));
  ("session_nonce", jopt (stripped (ce_session_nonce c)));
  ("received_at", JTime now)].

(** [INSERT ... ON CONFLICT DO UPDATE ... WHERE stored died_at < new died_at]:
    whether a row was inserted, whether one was replaced. *)
Definition file_cert (now : Z) (c : certificate) (t : table) : (bool * bool) * table :=
  let n := NewRow (death_pk c) (death_idem c) "" "" (death_idem c) None (Some (death_meta now c)) None in
  match sql_find (death_pk c) t with
  | None => ((true, false), sql_append now n t)
  | Some r =>
      let earlier := match md_time (r_meta r) "died_at" with
                     | Some d => (d <? ce_died_at c)%Z
                     | None => false
                     end in
      if earlier
      then ((false, true), sql_update (has_pk (death_pk c))
              (λ r, set_meta (Some (death_meta now c)) (set_value (death_idem c) r)) t)
      else ((false, false), t)
  end.

(** The mark on the seat row: a fact, neither a deletion nor an ageing. *)
Definition death_mark (c : certificate) : jobj := list_to_map [
  ("death_certified", JBool true);
  ("death_certified_at", JTime (ce_died_at c));
  ("death_certified_nonce", jopt (stripped (ce_session_nonce c)))].

Definition mark_seat (c : certificate) (t : table) : table :=
  if nonempty (ce_seat c)
  then sql_update (has_pk (seat_pk (ce_seat c) (cert_project c)))
         (λ r, set_meta (md_merge_strict (r_meta r) (death_mark c)) r) t
  else t.

(** Mail the dead occupant had read, on addresses that outlive sessions. *)
Definition harvested (c : certificate) (r : row) : bool :=
  (r_scope r == INBOX_SCOPE)
  && (if nonempty (ce_host c) then md_has (r_meta r) "read_by" (ce_seat c +:+ "@" +:+ ce_host c)
      else existsb (like (ce_seat c +:+ "@%")) (md_elements (r_meta r) "read_by"))
  && (r_user r != ce_seat c) && negb (startswith "machine:" (r_user r)).

(** The lane's cursor gains the ids of that mail. *)
Definition feed_cursor (now : Z) (c : certificate) (t : table) : nat * table :=
  let ids := (λ r, r_key r) <$> sql_select (harvested c) t in
  let pk := cursor_pk (ce_lane c) (cert_project c) in
  match sql_find pk t with
  | None =>
      let merged := sorted (dedup ids) in
      (length merged,
       (sql_upsert now
          (NewRow pk (ce_lane c) "" "" (ce_lane c) None
             (Some (list_to_map [("kind", JStr "lane_cursor"); ("ids", JArr (JStr <$> merged));
                                 ("updated_at", JTime now); ("last_cert", JStr (death_key c));
                                 ("applied", JArr [])])) None)
          (set_meta (Some (list_to_map [("kind", JStr "lane_cursor"); ("ids", JArr (JStr <$> merged));
                                 ("updated_at", JTime now); ("last_cert", JStr (death_key c));
                                 ("applied", JArr [])]))) t).2)
  | Some cur =>
      let md := default ∅ (r_meta cur) in
      let merged := sorted (dedup (py_strs (Some md) "ids" ++ ids)) in
      (length merged,
       sql_update (has_pk pk)
         (set_meta (Some (<["last_cert" := JStr (death_key c)]>
                            (<["updated_at" := JTime now]> (<["ids" := JArr (JStr <$> merged)]> md))))) t)
  end.

Definition death_certify (now : Z) (c : certificate) (t : table) : cert_result * table :=
  let '((created, updated), t1) := file_cert now c t in
  let t2 := mark_seat c t1 in
  if nonempty (ce_lane c) && nonempty (ce_seat c)
  then let '(size, t3) := feed_cursor now c t2 in (CertResult created updated true size, t3)
  else (CertResult created updated false 0, t2).
End certify.

(** ** Seats, joined with their presence *)

Definition any_seat (r : row) : bool := (r_ns r == SEAT_NAMESPACE) && (r_scope r == SEAT_SCOPE).

(** [LEFT JOIN memories p ON ... p.user_id = s.project AND p.key = 'presence/' || substr(s.key, 6)] *)
Definition joins (s p : row) : bool :=
  (r_ns p == r_ns s) && (r_scope p == PRESENCE_SCOPE) && (Some (r_user p) == r_project s)
  && (r_key p == "presence/" +:+ sdrop 5 (r_key s)).

Definition left_join (seats : list row) (t : table) : list (row * option row) :=
  flat_map (λ s, match sql_select (joins s) t with
                 | [] => [(s, None)]
                 | ps => (λ p, (s, Some p)) <$> ps
                 end) seats.

Definition seen_meta (p : option row) : option jobj := r ← p; r_meta r.

Definition in_project (project : option string) (r : row) : bool :=
  match project with
  | None => true
  | Some p => r_project r == Some p
  end.

(** [project.strip().lower() if project else None] *)
Definition asked_project (project : option string) : option string :=
  if truthy project then Some (norm project) else None.

Definition is_generated (key : option string) : bool :=
  match key with
  | Some k => startswith GENERATED_KEY_PREFIX k
  | None => false
  end.

Record seat_entry := SeatEntry {
  se_seat : string;
  se_project : option string;
  se_provider : json;
  se_host : json;
  se_session_key : json;
  se_generated : bool;
  se_age : Z;
  se_watcher_alive : option bool;
  se_watcher_last_seen : option Z
}.

Definition seat_entry_of (now : Z) (sp : row * option row) : seat_entry :=
  let '(s, p) := sp in
  let '(alive, seen) := _watcher_state (seen_meta p) now in
  SeatEntry (seat_of s) (r_project s) (jget (r_meta s) "provider") (jget (r_meta s) "host")
    (jget (r_meta s) "session_key") (is_generated (py_str (r_meta s) "session_key"))
    (now - r_used s) alive seen.

Definition seat_list (now : Z) (project session_key : option string) (t : table) : list seat_entry :=
  let key := asked_project session_key in
  seat_entry_of now <$>
    left_join (by_used_desc
      (sql_select (λ r, any_seat r && in_project (asked_project project) r
         && match key with None => true | Some k => md_text (r_meta r) "session_key" == Some k end) t)) t.

(** ** The address register *)

Inductive fixed_reason := ExemptRole | PersonAddress.

(** What the allocator would do with a name: never its business, or the ladder's decision. *)
Inductive allocation := Fixed (why : fixed_reason) | Ladder (d : decision).

Inductive entry_type := SeatEntryType | MailOnly.

Record reg_entry := RegEntry {
  re_address : string;
  re_type : entry_type;
  re_project : option string;
  re_provider : json;
  re_host : json;
  re_hosts_seen : json;
  re_session_key : json;
  re_generated : bool;
  re_runtime : bool;
  re_preferred_seat : json;
  re_claimed_at : json;
  re_last_spoke_at : option Z;
  re_age : option Z;
  re_watcher_alive : option bool;
  re_watcher_last_seen : option Z;
  re_watch : option watch_view;
  re_farewell_at : json;
  re_death_certified : bool;
  re_death : option death;
  re_mail : nat;
  re_allocation : allocation
}.

(** The mail that parks a name, as the allocator counts it. *)
Definition undrained (r : row) : bool := is_mail r && negb (is_archived r) && is_open r.

Definition mail_count (t : table) (addr : string) : nat :=
  length (sql_select (λ r, undrained r && (r_user r == addr)) t).

Definition mail_addresses (t : table) : list string :=
  sorted (dedup ((λ r, r_user r) <$> sql_select undrained t)).

(** [{(r["name"] or "").strip().lower() ... WHERE type = 'human' AND active}] *)
Definition person_names (ps : list principal_row) : list string :=
  (λ p, norm (Some (p_name p))) <$> select (λ p, (p_type p == "human") && p_active p) ps.

Section register.
Context (iso : Z → string) (lane_reservation : bool) (people : list string).

Definition latest (d : list (string * death)) (k : string) (m : option jobj) : list (string * death) :=
  match dict_get k d with
  | None => dict_set k (death_of m) d
  | Some prior =>
      if text_after (stamp_text iso (jget m "died_at")) (stamp_text iso (de_died prior))
      then dict_set k (death_of m) d else d
  end.

(** Certificates by session key; those without a key, by seat. *)
Definition index_death (ks : list (string * death) * list (string * death)) (r : row)
  : list (string * death) * list (string * death) :=
  let '(by_key, by_seat) := ks in
  match py_str (r_meta r) "session_key", py_str (r_meta r) "seat" with
  | Some (String _ _ as k), _ => (latest by_key k (r_meta r), by_seat)
  | _, Some (String _ _ as s) => (by_key, latest by_seat s (r_meta r))
  | _, _ => (by_key, by_seat)
  end.

Definition death_index (project : option string) (t : table) : list (string * death) * list (string * death) :=
  foldl index_death ([], [])
    (sql_select (λ r, (r_ns r == SEAT_NAMESPACE) && (r_scope r == DEATH_SCOPE) && in_project project r) t).

Definition _is_root (t : table) (addr : string) : bool := before "@" addr isin _fetch_known_roots t.

Definition _fixed_reason (addr : string) : option fixed_reason :=
  let bare := before "@" addr in
  if is_exempt bare then Some ExemptRole
  else if bare isin people then Some PersonAddress
  else None.

Definition _allocation (fixed : option fixed_reason) (root lane : bool) (age : option Z) (mail : nat)
    (presence_age last_used : option Z) (certified_dead : bool) : allocation :=
  match fixed with
  | Some why => Fixed why
  | None =>
      Ladder (allocation_decision (Facts root lane age (negb (mail == 0))
        (match presence_age with Some a => (a <? SEAT_LIVE_SECONDS)%Z | None => false end)
        last_used false certified_dead))
  end.

(** The certificate attached to a seat row: the session key's own, else the
    seat's; void once the row, its presence or its claim came after it. *)
Definition seat_death (by_key by_seat : list (string * death)) (s : row) (p : option row) : option death :=
  let by_own_key := match py_str (r_meta s) "session_key" with
                    | Some (String _ _ as k) => dict_get k by_key
                    | _ => None
                    end in
  let found := match by_own_key with Some d => Some d | None => dict_get (seat_of s) by_seat end in
  match found with
  | None => None
  | Some d =>
      match de_died d with
      | JTime died =>
          let after o := match o with Some t => (died <? t)%Z | None => false end in
          if (died <? r_used s)%Z || after (r_used <$> p) || after (md_time (r_meta s) "claimed_at")
          then None else Some d
      | _ => Some d
      end
  end.

Definition seat_reg_entry (now : Z) (t : table) (deaths : list (string * death) * list (string * death))
    (sp : row * option row) : reg_entry :=
  let '(s, p) := sp in
  let md := r_meta s in
  let seat := seat_of s in
  let age := (now - r_used s)%Z in
  let '(alive, seen) := _watcher_state (seen_meta p) now in
  let mail := mail_count t seat in
  RegEntry seat SeatEntryType (r_project s) (jget md "provider") (jget md "host")
    (jget (seen_meta p) "hosts_seen") (jget md "session_key") (is_generated (py_str md "session_key"))
    (py_flag md "runtime") (jget md "preferred_seat") (jget md "claimed_at")
    (Some (r_used s)) (Some age) alive seen
    (Some (default WUnheld (dict_get seat (watch_by_seat now t))))
    (jget (seen_meta p) "farewell_at") (py_flag md "death_certified")
    (seat_death deaths.1 deaths.2 s p) mail
    (_allocation (_fixed_reason seat) (_is_root t seat)
       (is_reserved_lane lane_reservation seat (or_empty (r_project s)))
       (Some age) mail ((λ x, now - r_used x)%Z <$> p) (Some (r_used s))
       (_cert_is_for_this_occupant (Some s))).

Definition mail_reg_entry (t : table) (deaths : list (string * death) * list (string * death)) (addr : string)
  : reg_entry :=
  let mail := mail_count t addr in
  RegEntry addr MailOnly None JNull JNull JNull JNull false false JNull JNull None None None None None
    JNull false (dict_get addr deaths.2) mail
    (_allocation (_fixed_reason addr) (_is_root t addr) false None mail None None false).

(** A mail-only name is listed under a project by its prefix. *)
Definition prefix_of (project : option string) (addr : string) : bool :=
  match project with
  | None => true
  | Some p => let bare := before "@" addr in (bare == p) || startswith (p +:+ "-") bare
  end.

(** [ORDER BY s.project, s.key] *)
Definition by_project_key (l : list row) : list row :=
  sort_by (λ a b, let pa := or_empty (r_project a) in let pb := or_empty (r_project b) in
    if pa == pb then bool_decide (String.le (r_key a) (r_key b)) else bool_decide (String.le pa pb)) l.

Definition register_rows (project : option string) (t : table) : list (row * option row) :=
  left_join (by_project_key (sql_select (λ r, any_seat r && in_project project r) t)) t.

Definition address_register (now : Z) (project : option string) (t : table) : list reg_entry :=
  let project := asked_project project in
  let deaths := death_index project t in
  let seats := register_rows project t in
  let seated := (λ sp, seat_of sp.1) <$> seats in
  (seat_reg_entry now t deaths <$> seats)
  ++ (mail_reg_entry t deaths <$>
        select (λ a, negb ((a isin seated) || startswith "#" a) && prefix_of project a) (mail_addresses t)).
End register.

(** ** The projects the store knows *)

Record project_entry := ProjectEntry {
  pe_project : option string;
  pe_first_seen : Z;
  pe_last_active : Z;
  pe_registered : bool;
  pe_dormant : bool
}.

Record known_project := Known { kp_first : Z; kp_last : Z; kp_registered : bool }.

(** Projects observed through their seat rows: first creation, last use. *)
Definition observe_seat (d : list (string * known_project)) (r : row) : list (string * known_project) :=
  match r_project r with
  | None => d
  | Some p =>
      match dict_get p d with
      | None => dict_set p (Known (r_created r) (r_used r) false) d
      | Some k => dict_set p (Known (Z.min (kp_first k) (r_created r)) (Z.max (kp_last k) (r_used r)) false) d
      end
  end.

(** A registered root, merged into what was observed. *)
Definition register_root (d : list (string * known_project)) (r : row) : list (string * known_project) :=
  let p := or_empty (r_project r) in
  match dict_get p d with
  | None => dict_set p (Known (r_created r) (r_used r) true) d
  | Some k => dict_set p (Known (if (r_created r <? kp_first k)%Z then r_created r else kp_first k)
                                (if (kp_last k <? r_used r)%Z then r_used r else kp_last k) true) d
  end.

Definition is_census (r : row) : bool := (r_ns r == SEAT_NAMESPACE) && (r_scope r == PROJECT_REGISTRY_SCOPE).

Definition project_registry (now : Z) (t : table) : list project_entry :=
  let observed := foldl observe_seat [] (sql_select any_seat t) in
  let merged := foldl register_root observed (sql_select is_census t) in
  (λ pk, ProjectEntry (Some pk.1) (kp_first pk.2) (kp_last pk.2) (kp_registered pk.2)
           (PROJECT_DORMANT_SECONDS <? now - kp_last pk.2)%Z)
    <$> sort_by (λ a b, kp_last b.2 <=? kp_last a.2)%Z merged.

(** ** Advice on an address nothing backs *)

Definition advisory (a : string) : string :=
  a +:+ ": no registered project roots this address, no session has "
  +:+ "ever held it, and nothing is listening there. Delivered and "
  +:+ "stored — but if this is a typo, it will queue forever. Known "
  +:+ "roots are served by GET /session/projects.".

Definition ever_held (t : table) (a : string) : bool :=
  existsb (λ r, (r_ns r == SEAT_NAMESPACE) && ((r_scope r == SEAT_SCOPE) || (r_scope r == PRESENCE_SCOPE))
                && ((r_key r == "seat/" +:+ a) || (r_key r == "presence/" +:+ a))) (t_rows t).

(** The address is, or is suffixed to, the root. *)
Definition under_root (bare root : string) : bool := (bare == root) || startswith (root +:+ "-") bare.

Definition advised (people : list string) (t : table) (a : string) : bool :=
  let bare := before "@" a in
  has_char "-" bare && negb (is_exempt bare) && negb (bare isin people) && negb (ever_held t a)
  && negb (existsb (under_root bare) (_fetch_known_roots t)).

Definition unknown_root_advisories (people : list string) (addrs : list (option string)) (t : table) : list string :=
  let candidates := select (λ a, nonempty a && negb (startswith "#" a)) (norm <$> addrs) in
  advisory <$> select (advised people t) candidates.
