(* ===== verification/RegisterProps.v ===== *)
(** What the register promises: its allocation column is the allocator's own
    decision, the record of a death only moves forward, a certificate touches
    three rows, and a certified successor inherits what the dead had read. *)

From stdpp Require Import base gmap list strings pretty sorting.
From Stdlib Require Import ZArith Lia Ascii.
From S2P Require Import Prelude PyString Json Store Principals Memory Inbox WatchClaim WatchClaimProps.
From S2P Require Import Seats SeatsProps Presence PresenceProps Register.

(** ** The register and the allocator *)

Section allocator.
Context (iso : Z → string) (lane : bool) (people : list string).
Implicit Types (t : table) (r s : row) (q : claimant).

Lemma mail_count_holds t seat : negb (mail_count t seat == 0) = _address_holds_mail t seat.
Proof.
  unfold mail_count, _address_holds_mail. rewrite existsb_select.
  assert (sql_select (λ r, undrained r && (r_user r == seat)) t =
    sql_select (λ r, is_mail r && (r_user r == seat) && negb (is_archived r) && is_open r) t) as ->; [|done].
  apply select_ext. intros r _. unfold undrained.
  destruct (is_mail r), (is_archived r), (is_open r), (r_user r == seat); done.
Qed.

(** The presence row joined to a seat row is the one the allocator looks at. *)
Lemma joined_presence t s p pr :
  seats_wf t → presence_wf t → s ∈ t_rows t → in_registry p s = true →
  (s, pr) ∈ left_join [s] t → pr = sql_find (presence_pk (seat_of s) p) t.
Proof.
  intros Hs Hp Hin Hreg. destruct Hs as [Hwf Hk]. apply in_registry_true in Hreg as [Hseat Hproj].
  destruct (Hk s Hin Hseat) as [x Hx]. apply is_seat_true in Hseat as (Hns & _).
  assert (∀ r, r ∈ t_rows t → joins s r = is_presence (seat_of s) p r) as Hj.
  { intros r _. unfold joins, is_presence, seat_of. rewrite Hx, Hns, Hproj.
    change (sdrop 5 ("seat/" +:+ x)) with (sdrop 0 x).
    replace (sdrop 0 x) with x by (by destruct x). rewrite (removeprefix_app "seat/").
    f_equal. f_equal. apply bool_decide_ext. split; [by intros [=]|by intros ->]. }
  unfold left_join. cbn [flat_map]. rewrite app_nil_r.
  replace (sql_select (joins s) t) with (sql_select (has_pk (presence_pk (seat_of s) p)) t).
  2:{ apply select_ext. intros r Hr. rewrite Hj by done. symmetry. by apply (is_presence_pk t). }
  unfold sql_find. destruct (sql_select _ t) as [|a l] eqn:E.
  - by intros [= ->]%list_elem_of_singleton.
  - intros (y & [= ->] & Hy)%list_elem_of_fmap. cbn [head]. f_equal.
    assert (∀ z, z ∈ a :: l → z ∈ t_rows t ∧ r_pk z = presence_pk (seat_of s) p) as Hall.
    { intros z Hz. rewrite <- E in Hz. apply elem_of_sql_select in Hz. rewrite has_pk_true in Hz. tauto. }
    destruct (Hall y Hy) as [Hyt Hyk], (Hall a ltac:(left)) as [Hat Hak].
    eapply wf_row_eq; [exact Hwf|done..|congruence].
Qed.

Lemma presence_fresh_find now t seat p :
  presence_wf t → _presence_is_fresh now t seat p =
    match sql_find (presence_pk seat p) t with Some r => (now - r_used r <? SEAT_LIVE_SECONDS)%Z | None => false end.
Proof.
  intros Hp. unfold _presence_is_fresh, sql_find. by rewrite presence_sql_select.
Qed.

Lemma elem_of_left_join s pr seats t : (s, pr) ∈ left_join seats t ↔ s ∈ seats ∧ (s, pr) ∈ left_join [s] t.
Proof.
  unfold left_join. rewrite !list_elem_of_In, !in_flat_map. cbn [flat_map]. split.
  - intros (x & Hx & Hin). assert (x = s) as ->.
    { destruct (sql_select (joins x) t); [by destruct Hin as [[= ->]|[]]|].
      apply list_elem_of_In, list_elem_of_fmap in Hin as (? & [= ->] & _). done. }
    split; [done|]. exists s. split; [by left|done].
  - intros [Hs (x & [->|[]] & Hin)]. by exists x.
Qed.

Lemma elem_of_by_project_key l r : r ∈ by_project_key l ↔ r ∈ l.
Proof. apply elem_of_sort_by. Qed.

(** The ladder looks at presence only past the grace of a name without mail. *)
Lemma ladder_ext f f' :
  f_root f = f_root f' → f_lane f = f_lane f' → f_age f = f_age f' → f_holds_mail f = f_holds_mail f' →
  f_last_used_at f = f_last_used_at f' → f_certified_dead f = f_certified_dead f' → f_age f ≠ None →
  (∀ a, f_age f = Some a → (SEAT_GRACE_SECONDS <= a)%Z → f_holds_mail f = false →
     f_presence_fresh f = f_presence_fresh f') →
  allocation_decision f = allocation_decision f'.
Proof.
  destruct f as [r1 l1 a1 m1 p1 u1 v1 c1], f' as [r2 l2 a2 m2 p2 u2 v2 c2]. cbn.
  intros -> -> -> -> -> -> Ha Hp. destruct a2 as [a|]; [|done]. unfold allocation_decision. cbn.
  destruct r2, l2; try done. destruct (c2 && negb m2); [done|].
  destruct (Z.ltb_spec a SEAT_LIVE_SECONDS); [done|]. destruct (Z.ltb_spec a SEAT_GRACE_SECONDS); [done|].
  destruct m2; [done|]. by rewrite (Hp a).
Qed.

(** The register's decision about a seat row, in the allocator's terms. *)
Lemma seat_allocation now t deaths q s pr breathing :
  seats_wf t → presence_wf t → s ∈ t_rows t → in_registry (q_project q) s = true →
  (s, pr) ∈ left_join [s] t → _fixed_reason people (seat_of s) = None →
  let roots := _fetch_known_roots t in
  let f := facts_of now q t (seat_of s) (Some s) breathing in
  re_allocation (seat_reg_entry lane people now t deaths (s, pr)) =
    Ladder (if before "@" (seat_of s) isin roots then skip ReservedRoot
            else if is_reserved_lane lane (seat_of s) (q_project q) then skip ReservedLane
            else allocation_decision f).
Proof.
  intros Hs Hp Hin Hreg Hj Hfix. cbv zeta. pose proof (joined_presence _ _ _ _ Hs Hp Hin Hreg Hj) as Hpr.
  apply in_registry_true in Hreg as [_ Hproj]. unfold seat_reg_entry.
  destruct (_watcher_state _ _) as [al seen]. cbn [re_allocation]. unfold _allocation. rewrite Hfix, Hproj.
  cbn [or_empty default from_option]. unfold _is_root. f_equal. set (root := _ isin _). set (ln := is_reserved_lane _ _ _).
  destruct root eqn:Er; [by destruct ln|]. destruct ln eqn:El; [done|].
  apply ladder_ext; try done; cbn.
  - apply mail_count_holds.
  - intros a [= <-] Hg. rewrite mail_count_holds. intros Hm.
    rewrite Hm, presence_fresh_find by done. rewrite (proj2 (Z.leb_le _ _) Hg). cbn. rewrite Hpr.
    by destruct (sql_find _ t).
Qed.

(** A seat entry of the register comes from a seat row of its project. *)
Lemma seat_entry_row now project t e :
  (∀ r, r ∈ t_rows t → any_seat r = true → r_user r = SEAT_USER_ID) →
  e ∈ address_register iso lane people now project t → re_type e = SeatEntryType →
  ∃ s pr deaths, s ∈ t_rows t ∧ is_seat s = true ∧ (s, pr) ∈ left_join [s] t ∧
    e = seat_reg_entry lane people now t deaths (s, pr).
Proof.
  intros Hg He Hty. unfold address_register in He. apply elem_of_app in He as [He|He].
  - apply list_elem_of_fmap in He as ([s pr] & -> & Hin). unfold register_rows in Hin.
    apply elem_of_left_join in Hin as [Hs Hj]. apply elem_of_by_project_key, elem_of_sql_select in Hs as [Hs Hin].
    apply andb_true_iff in Hs as [Hs _]. exists s, pr, (death_index iso (asked_project project) t).
    split_and!; [done| |done|done]. pose proof (Hg s Hin Hs) as Hu. apply is_seat_true.
    unfold any_seat in Hs. rewrite andb_true_iff, !bool_decide_eq_true in Hs. tauto.
  - by apply list_elem_of_fmap in He as (a & -> & _).
Qed.

Lemma seat_reg_entry_fields now t deaths s pr :
  re_address (seat_reg_entry lane people now t deaths (s, pr)) = seat_of s ∧
  re_project (seat_reg_entry lane people now t deaths (s, pr)) = r_project s ∧
  re_last_spoke_at (seat_reg_entry lane people now t deaths (s, pr)) = Some (r_used s).
Proof. unfold seat_reg_entry. by destruct (_watcher_state _ _). Qed.

(** Without a preference, the allocator takes a chair exactly when the ladder lets it. *)
Lemma takes_iff now q t s breathing w k :
  seats_wf t → s ∈ t_rows t → in_registry (q_project q) s = true → (r_used s < now)%Z →
  (∃ g t', try_candidate lane now q None (_fetch_known_roots t) breathing w k (seat_of s) t = inl (g, t')) ↔
  is_reserved_lane lane (seat_of s) (q_project q) = false ∧ is_reserved_root lane (seat_of s) (q_project q) = false ∧
  seat_of s ∉ _fetch_known_roots t ∧
  would_skip (allocation_decision (facts_of now q t (seat_of s) (Some s) breathing)) = false.
Proof.
  intros Hs Hin Hreg Hu. pose proof (seat_row_pk t _ s Hs Hin Hreg) as Hpk.
  assert (sql_find (seat_pk (seat_of s) (q_project q)) t = Some s) as Hf by (by apply sql_find_Some; [apply Hs|]).
  unfold try_candidate. rewrite Hf. cbv zeta. set (d := allocation_decision _).
  rewrite (bool_decide_eq_false_2 (None = Some (seat_of s))) by done. cbn [andb].
  replace (match d_reason d with Some _ => false | None => false end) with false by (by destruct (d_reason d)).
  destruct (is_reserved_lane _ _ _); [split; [by intros (? & ? & ?)|by intros [? _]]|].
  destruct (is_reserved_root _ _ _); [split; [by intros (? & ? & ?)|by intros (_ & ? & _)]|]. cbn [orb].
  case_bool_decide as Hr; [split; [by intros (? & ? & ?)|by intros (_ & _ & ? & _)]|].
  unfold would_skip. destruct (d_reason d) as [reason|] eqn:Ed; cbn [is_some];
    [split; [by intros (? & ? & ?)|by intros (_ & _ & _ & ?)]|].
  split; [done|]. intros _. set (cutoff := if _cert_is_for_this_occupant _ then _ else _).
  assert (r_used s < cutoff)%Z as Hc.
  { unfold cutoff. destruct (_cert_is_for_this_occupant (Some s)) eqn:Ec; [done|].
    pose proof (allocation_decision_exact (facts_of now q t (seat_of s) (Some s) breathing)) as (Hex & _).
    fold d in Hex. rewrite Ed in Hex. destruct Hex as (_ & _ & _ & [Hx|[[Hx _]|(a & Ha & Hge & _)]]);
      cbn in *; [congruence|done|]. injection Ha as <-.
    unfold SEAT_LIVE_SECONDS, SEAT_GRACE_SECONDS in *. lia. }
  unfold _try_takeover. replace (sql_count _ t == 0) with false; [eauto|].
  symmetry. apply bool_decide_eq_false. intros H0. rewrite sql_count_zero in H0. specialize (H0 s Hin).
  apply andb_false_iff in H0 as [H0|H0]; [|lia]. by apply bool_decide_eq_false in H0.
Qed.
End allocator.

(** C27. The register's allocation column cannot drift from the allocator. For an
    entry of a seat row whose name is neither a shared role's nor a person's,
    the register says the name is free exactly when a claim that walks the
    candidates without a preference would be granted that name, whatever the
    claim's own session; no beat of the current second may be racing it. *)
Theorem register_matches_allocator iso lane people now project t q e seat breathing w k :
  seats_wf t → presence_wf t → (∀ r, r ∈ t_rows t → any_seat r = true → r_user r = SEAT_USER_ID) →
  e ∈ address_register iso lane people now project t → re_type e = SeatEntryType →
  re_address e = seat → re_project e = Some (q_project q) →
  is_exempt (q_project q) = false → has_char "@" seat = false → _fixed_reason people seat = None →
  (∀ u, re_last_spoke_at e = Some u → (u < now)%Z) →
  (∃ g t', try_candidate lane now q None (_fetch_known_roots t) breathing w k seat t = inl (g, t')) ↔
  (∃ d, re_allocation e = Ladder d ∧ would_skip d = false).
Proof.
  intros Hs Hp Hg He Hty Ha Hproj Hex Hat Hfix Hu.
  destruct (seat_entry_row iso lane people now project t e Hg He Hty) as (s & pr & deaths & Hin & Hseat & Hj & ->).
  destruct (seat_reg_entry_fields lane people now t deaths s pr) as (E1 & E2 & E3).
  rewrite E1 in Ha. rewrite E2 in Hproj. specialize (Hu _ E3). subst seat.
  assert (in_registry (q_project q) s = true) as Hreg by (by apply in_registry_true).
  rewrite (takes_iff lane now q t s breathing w k) by done.
  rewrite (seat_allocation lane people now t deaths q s pr breathing) by done. cbv zeta.
  rewrite before_id by done.
  assert (is_reserved_root lane (seat_of s) (q_project q) = true → seat_of s ∈ _fetch_known_roots t) as Hroot.
  { unfold is_reserved_root. rewrite !andb_true_iff, bool_decide_eq_true. intros [_ ->].
    apply elem_of_roots. split; [done|]. exists s. apply is_seat_true in Hseat as (H1 & H2 & _). auto. }
  case_bool_decide as Hr; [split; [tauto|by intros (d & [= <-] & ?)]|].
  destruct (is_reserved_lane _ _ _); [split; [by intros [? _]|by intros (d & [= <-] & ?)]|].
  destruct (is_reserved_root _ _ _); [by specialize (Hroot eq_refl)|]. split; [|by intros (d & [= <-] & ?)].
  intros (_ & _ & _ & Hd). eauto.
Qed.

(** ** Certificates *)

Section certificates.
Context (iso : Z → string).
Implicit Types (t : table) (r : row) (c : certificate).

Lemma death_pk_ne_seat c s p : death_pk iso c ≠ seat_pk s p.
Proof. done. Qed.

Lemma death_pk_ne_cursor c l p : death_pk iso c ≠ cursor_pk l p.
Proof. done. Qed.

Lemma seat_pk_ne_cursor s p l p' : seat_pk s p ≠ cursor_pk l p'.
Proof. done. Qed.

Lemma file_cert_find now c t k :
  wf t →
  wf (file_cert iso now c t).2 ∧
  sql_find k (file_cert iso now c t).2 =
    (if k == death_pk iso c
     then match sql_find k t with
          | None => Some (mk_row (t_seq t) now
              (NewRow (death_pk iso c) (death_idem iso c) "" "" (death_idem iso c) None (Some (death_meta now c)) None))
          | Some r => Some (if (file_cert iso now c t).1.2
                            then set_meta (Some (death_meta now c)) (set_value (death_idem iso c) r) else r)
          end
     else sql_find k t).
Proof.
  intros Hwf. unfold file_cert. set (n := NewRow _ _ _ _ _ _ _ _).
  destruct (sql_find (death_pk iso c) t) as [r|] eqn:E; cbn [fst snd].
  - destruct (match md_time _ _ with Some d => _ | None => _ end); cbn [fst snd].
    + split; [apply wf_update; [by split|done]|]. rewrite sql_find_update by (done || by split).
      bcase (k = death_pk iso c) Ek.
      * subst k. rewrite E. cbn. apply sql_find_Some_elem in E as [_ E]. by rewrite (proj2 (has_pk_true _ _) E).
      * destruct (sql_find k t) as [x|] eqn:Ex; [|done]. cbn. apply sql_find_Some_elem in Ex as [_ Ex].
        unfold has_pk. by rewrite bool_decide_eq_false_2 by congruence.
    + split; [done|]. bcase (k = death_pk iso c) Ek; [subst k; by rewrite E|done].
  - split; [by apply wf_append|]. bcase (k = death_pk iso c) Ek.
    + subst k. rewrite E. by apply (sql_find_append_eq now n).
    + by apply sql_find_append_ne.
Qed.

Lemma mark_seat_find c t k :
  wf t → wf (mark_seat c t) ∧
  sql_find k (mark_seat c t) =
    (if (k == seat_pk (ce_seat c) (cert_project c)) && nonempty (ce_seat c)
     then λ r, set_meta (md_merge_strict (r_meta r) (death_mark c)) r else id) <$> sql_find k t.
Proof.
  intros Hwf. unfold mark_seat. destruct (nonempty (ce_seat c)); rewrite ?andb_true_r, ?andb_false_r.
  - split; [apply wf_update; [by split|done]|]. rewrite sql_find_update by (done || by split).
    destruct (sql_find k t) as [r|] eqn:E; [|done]. cbn. apply sql_find_Some_elem in E as [_ <-].
    unfold has_pk. by case_bool_decide.
  - split; [done|]. by destruct (sql_find k t).
Qed.

Lemma feed_cursor_find now c t k :
  wf t → wf (feed_cursor iso now c t).2 ∧
  (k ≠ cursor_pk (ce_lane c) (cert_project c) → sql_find k (feed_cursor iso now c t).2 = sql_find k t).
Proof.
  intros Hwf. unfold feed_cursor. set (pk := cursor_pk _ _).
  destruct (sql_find pk t) as [cur|] eqn:E; cbn [snd].
  - split; [apply wf_update; [by split|done]|]. intros Hne. rewrite sql_find_update by (done || by split).
    destruct (sql_find k t) as [x|] eqn:Ex; [|done]. cbn. apply sql_find_Some_elem in Ex as [_ Ex].
    unfold has_pk. by rewrite bool_decide_eq_false_2 by congruence.
  - split; [apply wf_upsert; [by split|done]|]. intros Hne.
    apply sql_find_upsert_ne; [by split|done|]. cbn. congruence.
Qed.

(** The table after a certificate, before its cursor is fed. *)
Definition marked (now : Z) c t : table := mark_seat c (file_cert iso now c t).2.

Lemma marked_wf now c t : wf t → wf (marked now c t).
Proof.
  intros Hwf. apply (mark_seat_find c _ (death_pk iso c)), (file_cert_find now c t (death_pk iso c)), Hwf.
Qed.

Lemma certify_split now c t :
  (death_certify iso now c t).2 =
    if nonempty (ce_lane c) && nonempty (ce_seat c) then (feed_cursor iso now c (marked now c t)).2
    else marked now c t.
Proof.
  unfold death_certify, marked. destruct (file_cert iso now c t) as [[cr up] t1]. cbn [snd].
  destruct (_ && _); [|done]. by destruct (feed_cursor _ _ _ _).
Qed.

Lemma certify_find now c t k :
  wf t → k ≠ cursor_pk (ce_lane c) (cert_project c) →
  wf (death_certify iso now c t).2 ∧
  sql_find k (death_certify iso now c t).2 = sql_find k (marked now c t).
Proof.
  intros Hwf Hk. rewrite certify_split.
  pose proof (marked_wf now c t Hwf) as Hm.
  destruct (_ && _); [|done]. destruct (feed_cursor_find now c (marked now c t) k Hm) as [H1 H2]. auto.
Qed.
End certificates.

(** A certificate touches three rows. It writes the record of the death; it
    adds three marks to the seat row it names, whose clock, value and every
    other field stay (the seat is neither freed nor aged); it feeds the lane's
    cursor; and every other row of the table is as it was. *)
Lemma certificate_narrow iso now c t :
  wf t →
  let t' := (death_certify iso now c t).2 in
  (∀ k, k ≠ death_pk iso c → k ≠ seat_pk (ce_seat c) (cert_project c) →
     k ≠ cursor_pk (ce_lane c) (cert_project c) → sql_find k t' = sql_find k t) ∧
  (∀ s, sql_find (seat_pk (ce_seat c) (cert_project c)) t = Some s →
     ∃ s', sql_find (seat_pk (ce_seat c) (cert_project c)) t' = Some s' ∧
       r_used s' = r_used s ∧ r_created s' = r_created s ∧ r_value s' = r_value s ∧
       ∀ k, k ∉ ["death_certified"; "death_certified_at"; "death_certified_nonce"] →
            md_get (r_meta s') k = md_get (r_meta s) k) ∧
  (sql_find (seat_pk (ce_seat c) (cert_project c)) t = None →
   sql_find (seat_pk (ce_seat c) (cert_project c)) t' = None).
Proof.
  intros Hwf. cbv zeta.
  assert (∀ k, k ≠ death_pk iso c → sql_find k (marked iso now c t) =
    (if (k == seat_pk (ce_seat c) (cert_project c)) && nonempty (ce_seat c)
     then λ r, set_meta (md_merge_strict (r_meta r) (death_mark c)) r else id) <$> sql_find k t) as Hm.
  { intros k Hk. unfold marked. destruct (file_cert_find iso now c t k Hwf) as [Hw Hf].
    rewrite bool_decide_eq_false_2 in Hf by done.
    rewrite (proj2 (mark_seat_find c _ k Hw)). by rewrite Hf. }
  split_and!.
  - intros k H1 H2 H3. rewrite (proj2 (certify_find iso now c t k Hwf H3)), Hm by done.
    rewrite (bool_decide_eq_false_2 _ H2). by destruct (sql_find k t).
  - intros s Hs.
    rewrite (proj2 (certify_find iso now c t (seat_pk (ce_seat c) (cert_project c)) Hwf (seat_pk_ne_cursor _ _ _ _))).
    rewrite Hm, Hs by done. eexists. split; [done|].
    destruct (_ && _); [|done]. cbn [set_meta r_used r_created r_value r_meta].
    split_and!; [done..|]. intros k Hk. unfold md_get, md_merge_strict. destruct (r_meta s) as [m|]; [|done].
    cbn. rewrite lookup_union_r; [done|]. rewrite !lookup_insert_ne by set_solver. apply lookup_empty.
  - intros Hn.
    rewrite (proj2 (certify_find iso now c t (seat_pk (ce_seat c) (cert_project c)) Hwf (seat_pk_ne_cursor _ _ _ _))).
    by rewrite Hm, Hn by done.
Qed.

(** A sequence of certificates, each at its own time. *)
Definition certify_all (iso : Z → string) (cs : list (Z * certificate)) (t : table) : table :=
  foldl (λ t nc, (death_certify iso nc.1 nc.2 t).2) t cs.

(** The instant a stored certificate gives. *)
Definition stored_death (k : pkey) (t : table) : option Z :=
  r ← sql_find k t; md_time (r_meta r) "died_at".

(** A record of a death always gives its instant. *)
Definition dated (k : pkey) (t : table) : Prop :=
  ∀ r, sql_find k t = Some r → is_Some (md_time (r_meta r) "died_at").

Lemma file_cert_stored iso now c t k :
  wf t → (∀ c', k ≠ cursor_pk (ce_lane c') (cert_project c')) → (∀ s p, k ≠ seat_pk s p) → dated k t →
  dated k (death_certify iso now c t).2 ∧
  stored_death k (death_certify iso now c t).2 =
    if k == death_pk iso c
    then Some (match stored_death k t with Some d => Z.max d (ce_died_at c) | None => ce_died_at c end)
    else stored_death k t.
Proof.
  intros Hwf Hk Hs Hd. destruct (certify_find iso now c t k Hwf (Hk c)) as [_ Hf].
  destruct (file_cert_find iso now c t k Hwf) as [Hw1 Hf1]. unfold marked in Hf.
  rewrite (proj2 (mark_seat_find c _ k Hw1)), (bool_decide_eq_false_2 _ (Hs _ _)), Hf1 in Hf. cbn [andb] in Hf.
  unfold dated, stored_death. rewrite Hf. clear Hf Hf1. bcase (k = death_pk iso c) Ek.
  2:{ destruct (sql_find k t) as [r|] eqn:E; cbn; [|by split]. split; [|done]. intros x [= <-]. by apply Hd. }
  subst k. destruct (sql_find (death_pk iso c) t) as [r|] eqn:E; cbn [fmap option_fmap option_map mbind option_bind].
  - destruct (Hd r E) as [d Hdd]. rewrite Hdd. unfold file_cert. rewrite E, Hdd.
    destruct (Z.ltb_spec d (ce_died_at c)); cbn [fst snd]; (split; [intros x [= <-]; by eexists|]).
    + change (Some (ce_died_at c) = Some (Z.max d (ce_died_at c))). f_equal. lia.
    + cbn. rewrite Hdd. f_equal. lia.
  - split; [intros x [= <-]; by eexists|done].
Qed.

(** The record tells the latest death and nothing moves it back. After any
    sequence of certificates, the record filed under a key gives the latest of
    the instants certified under that key, the one it started with included;
    an earlier or a repeated certificate changes nothing, and is answered as
    neither created nor updated. *)
Lemma latest_death_kept iso cs c0 t :
  wf t → dated (death_pk iso c0) t →
  let k := death_pk iso c0 in
  stored_death k (certify_all iso cs t) =
    foldl (λ best nc, if k == death_pk iso nc.2
             then Some (match best with Some d => Z.max d (ce_died_at nc.2) | None => ce_died_at nc.2 end)
             else best) (stored_death k t) cs ∧
  (∀ now d, stored_death k t = Some d → (ce_died_at c0 <= d)%Z →
     cr_created (death_certify iso now c0 t).1 = false ∧ cr_updated (death_certify iso now c0 t).1 = false ∧
     sql_find k (death_certify iso now c0 t).2 = sql_find k t).
Proof.
  intros Hwf Hd k. split.
  - revert t Hwf Hd. induction cs as [|[now c] cs IH]; intros t Hwf Hd; [done|]. cbn [foldl certify_all fst snd].
    destruct (file_cert_stored iso now c t k Hwf) as [Hd' Hs]; [done|done|exact Hd|].
    rewrite <- Hs. apply IH; [|exact Hd']. by destruct (certify_find iso now c t k Hwf).
  - intros now d Hst Hle. unfold stored_death in Hst. destruct (sql_find k t) as [r|] eqn:E; [|done].
    cbn in Hst. assert (file_cert iso now c0 t = ((false, false), t)) as Hfc.
    { unfold file_cert. change (death_pk iso c0) with k. rewrite E, Hst.
      by rewrite (proj2 (Z.ltb_ge _ _) Hle). }
    assert ((death_certify iso now c0 t).1 = CertResult false false (cr_cursor_updated (death_certify iso now c0 t).1)
      (cr_cursor_size (death_certify iso now c0 t).1)) as ->.
    { unfold death_certify. rewrite Hfc. destruct (_ && _); [|done]. by destruct (feed_cursor _ _ _ _). }
    split_and!; [done..|]. destruct (certify_find iso now c0 t k Hwf) as [_ Hf]; [done|]. rewrite Hf.
    unfold marked. rewrite Hfc. cbn [snd]. rewrite (proj2 (mark_seat_find c0 t k Hwf)), E.
    by rewrite (bool_decide_eq_false_2 (k = seat_pk _ _)).
Qed.

(** ** Succession *)

Section succession.
Context (iso : Z → string).
Implicit Types (t : table) (r : row) (c : certificate) (q : claimant).

(** Mail is untouched by the certificate itself. *)
Lemma marked_mail now c t r :
  wf t → r ∈ t_rows t → r_scope r = INBOX_SCOPE → sql_find (r_pk r) (marked iso now c t) = Some r.
Proof.
  intros Hwf Hr Hsc. destruct (file_cert_find iso now c t (r_pk r) Hwf) as [Hw Hf].
  unfold marked. rewrite (proj2 (mark_seat_find c _ (r_pk r) Hw)), Hf.
  rewrite !bool_decide_eq_false_2 by (intros E; rewrite E in Hsc; discriminate Hsc).
  by rewrite (proj2 (sql_find_Some (r_pk r) t r Hwf)).
Qed.

Lemma py_strs_JStr l m k : md_get m k = Some (JArr (JStr <$> l)) → py_strs m k = l.
Proof.
  intros H. unfold py_strs. rewrite H. clear H. induction l as [|x l IH]; [done|]. cbn. by rewrite IH.
Qed.

(** The fed cursor's ids: what it had and what the dead had read. *)
Lemma fed_cursor now c t :
  wf t →
  ∃ cur, sql_find (cursor_pk (ce_lane c) (cert_project c)) (feed_cursor iso now c t).2 = Some cur ∧
    r_meta cur ≠ None ∧
    ∀ r, r ∈ t_rows t → harvested c r = true → r_key r ∈ py_strs (Some (default ∅ (r_meta cur))) "ids".
Proof.
  intros Hwf. unfold feed_cursor. set (pk := cursor_pk _ _). set (ids := (λ r, r_key r) <$> _).
  assert (∀ r, r ∈ t_rows t → harvested c r = true → r_key r ∈ ids) as Hids.
  { intros r Hr Hh. apply list_elem_of_fmap. exists r. split; [done|]. by apply elem_of_sql_select. }
  destruct (sql_find pk t) as [cur|] eqn:E; cbn [snd].
  - rewrite sql_find_update by (done || by split). rewrite E. cbn.
    apply sql_find_Some_elem in E as [_ E]. rewrite (proj2 (has_pk_true _ _) E).
    eexists. split; [done|]. split; [done|]. intros r Hr Hh. cbn [set_meta r_meta default].
    erewrite py_strs_JStr; [|cbn; by rewrite !lookup_insert_ne, lookup_insert_eq by done].
    rewrite elem_of_sorted, elem_of_dedup, elem_of_app. auto.
  - unfold sql_upsert. cbn [n_pk]. rewrite E. cbn [snd]. set (n := NewRow _ _ _ _ _ _ _ _).
    change (sql_find pk (sql_append now n t)) with (sql_find (n_pk n) (sql_append now n t)).
    rewrite (sql_find_append_eq now n t Hwf E). eexists. split; [done|]. split; [done|].
    intros r Hr Hh. cbn [mk_row r_meta default n n_meta].
    erewrite py_strs_JStr; [|reflexivity]. rewrite elem_of_sorted, elem_of_dedup. auto.
Qed.

(** Inheriting marks every listed letter as read by the heir. *)
Lemma inherited_read reader ids t r :
  wf t → r ∈ t_rows t → r_scope r = INBOX_SCOPE → r_key r ∈ ids → r_meta r ≠ None →
  ∃ r', sql_find (r_pk r) (inherit_mail reader ids t) = Some r' ∧ read_by reader r' = true.
Proof.
  intros Hwf Hr Hsc Hin Hm. unfold inherit_mail. rewrite sql_find_update by (done || by split).
  rewrite (proj2 (sql_find_Some (r_pk r) t r Hwf)) by done. eexists. split; [done|].
  rewrite (bool_decide_eq_true_2 _ Hsc), (bool_decide_eq_true_2 _ Hin). cbn [andb].
  destruct (md_has (r_meta r) "read_by" reader) eqn:E; cbn [negb]; [exact E|].
  unfold read_by, md_has, inherit_read. cbn [set_meta r_meta]. destruct (r_meta r) as [m|]; [|done].
  cbn. rewrite lookup_insert_eq. apply jhas_append.
Qed.

(** A certificate just filed is found under its session's key. *)
Lemma filed_cert_found now c t q :
  wf t → q_key q = ce_session_key c → q_project q = cert_project c →
  cr_created (death_certify iso now c t).1 || cr_updated (death_certify iso now c t).1 = true →
  sql_count (is_cert_of q) (death_certify iso now c t).2 ≠ 0.
Proof.
  intros Hwf Hk Hp Hc. assert ((file_cert iso now c t).1.1 || (file_cert iso now c t).1.2 = true) as Hf.
  { revert Hc. unfold death_certify. destruct (file_cert iso now c t) as [[cr up] t1].
    destruct (_ && _); [|done]. by destruct (feed_cursor _ _ _ _). }
  destruct (file_cert_find iso now c t (death_pk iso c) Hwf) as [Hw1 Hf1].
  assert (∃ x, sql_find (death_pk iso c) (death_certify iso now c t).2 = Some x ∧
    r_meta x = Some (death_meta now c)) as (x & Hx & Hm).
  { destruct (certify_find iso now c t (death_pk iso c) Hwf) as [_ ->]; [done|]. unfold marked.
    rewrite (proj2 (mark_seat_find c _ (death_pk iso c) Hw1)), Hf1. rewrite (bool_decide_eq_true_2 _ eq_refl).
    rewrite (bool_decide_eq_false_2 (death_pk iso c = seat_pk _ _)) by done.
    revert Hf. unfold file_cert. destruct (sql_find (death_pk iso c) t) as [r|]; cbn; [|eauto].
    destruct (md_time (r_meta r) "died_at") as [d|]; [destruct (d <? ce_died_at c)%Z|]; cbn; eauto; done. }
  apply sql_find_Some_elem in Hx as [Hx Hpk]. intros H0. rewrite sql_count_zero in H0.
  specialize (H0 x Hx). unfold is_cert_of in H0. rewrite Hpk, Hm in H0. cbn in H0.
  rewrite Hk, Hp in H0. by rewrite !bool_decide_eq_true_2 in H0.
Qed.
End succession.

(** A certified death is inherited. Once the spawner has certified the death
    of a lane's occupant, a newly seated session of the lane, which either
    returns under the certified session key or finds no live colleague on the
    lane, starts with the dead occupant's reading behind it: every letter the
    dead had acknowledged on an address that outlives it reads as read by the
    newcomer, under its own name. *)
Lemma succession_inherits iso now later c q seat host t :
  wf t → ce_lane c ≠ "" → ce_seat c ≠ "" →
  q_project q = cert_project c → lane_of (q_project q) (q_provider q) = ce_lane c →
  q_host q = Some host → host ≠ "" →
  let '(answer, t') := death_certify iso now c t in
  (q_key q = ce_session_key c ∧ q_key q ≠ "" ∧ cr_created answer || cr_updated answer = true) ∨
    live_colleague later q seat t' = false →
  ∀ r, r ∈ t_rows t → harvested c r = true →
  ∃ r', sql_find (r_pk r) (_apply_lane_inheritance later q seat t') = Some r' ∧
    read_by (seat +:+ "@" +:+ host) r' = true.
Proof.
  intros Hwf Hl Hs Hp Hlane Hh Hhost. destruct (death_certify iso now c t) as [answer t'] eqn:E.
  intros Hcond r Hr Hharv.
  assert (t' = (feed_cursor iso now c (marked iso now c t)).2) as Ht'.
  { pose proof (certify_split iso now c t) as Hsp. rewrite E in Hsp. cbn [snd] in Hsp.
    by rewrite (proj2 (nonempty_true _) Hl), (proj2 (nonempty_true _) Hs) in Hsp. }
  pose proof (marked_wf iso now c t Hwf) as Hwm.
  destruct (feed_cursor_find iso now c (marked iso now c t) (r_pk r) Hwm) as [Hwf' Hkeep]. rewrite <- Ht' in *.
  destruct (fed_cursor iso now c (marked iso now c t) Hwm) as (cur & Hcur & _ & Hids). rewrite <- Ht' in Hcur.
  pose proof Hharv as Hharv'. unfold harvested in Hharv'. rewrite !andb_true_iff in Hharv'.
  destruct Hharv' as [[[Hsc Hread] _] _]. apply bool_decide_eq_true in Hsc.
  pose proof (marked_mail iso now c t r Hwf Hr Hsc) as Hrm. pose proof Hrm as Hrm'. apply sql_find_Some_elem in Hrm' as [Hrm' _].
  assert (r_pk r ≠ cursor_pk (ce_lane c) (cert_project c)) as Hne by (intros Hx; rewrite Hx in Hsc; discriminate Hsc).
  assert (r ∈ t_rows t') as Hrt'.
  { rewrite <- (Hkeep Hne) in Hrm. by apply sql_find_Some_elem in Hrm as [? _]. }
  specialize (Hids r Hrm' Hharv). set (ids := py_strs _ "ids") in *.
  assert (r_meta r ≠ None) as Hmeta.
  { intros Hn. unfold md_has, md_elements in Hread. rewrite Hn in Hread. by destruct (nonempty (ce_host c)). }
  unfold _apply_lane_inheritance. rewrite Hh, Hlane, Hp. destruct host as [|ch host]; [done|].
  rewrite Hcur. cbv zeta. fold ids.
  assert (length ids ≠ 0) as Hlen by (destruct ids; [by apply elem_of_nil in Hids|done]).
  rewrite (bool_decide_eq_false_2 _ Hlen). cbn [orb].
  replace (negb _ && live_colleague later q seat t') with false.
  2:{ symmetry. apply andb_false_iff. destruct Hcond as [(Hk & Hkne & Hc)|Hc]; [left|by right].
      pose proof (filed_cert_found iso now c t q Hwf Hk Hp) as Hfc. rewrite E in Hfc. cbn [fst snd] in Hfc.
      specialize (Hfc Hc). rewrite (proj2 (nonempty_true _) Hkne). by rewrite (bool_decide_eq_false_2 _ Hfc). }
  destruct (inherited_read (seat +:+ "@" +:+ String ch host) ids t' r Hwf' Hrt' Hsc Hids Hmeta) as (r' & Hr' & Hb).
  exists r'. split; [|exact Hb].
  assert (wf (inherit_mail (seat +:+ "@" +:+ String ch host) ids t')) as Hwi by (apply wf_update; [by split|done]).
  rewrite sql_find_update by (done || by split). rewrite Hr'. cbn [fmap option_fmap option_map].
  apply sql_find_Some_elem in Hr' as [_ Hpk]. unfold has_pk. by rewrite bool_decide_eq_false_2 by congruence.
Qed.

(** No presence row stores [hosts_seen], the field the register serves under
    that name: it is always null there. *)
Lemma hosts_seen_never_stored now b i s prior :
  jget (Some (presence_meta now b i s prior)) "hosts_seen" = JNull.
Proof. unfold presence_meta. by destruct (_ && _). Qed.

(** ** Concrete runs *)

Definition ex_seat (used : Z) : row :=
  Row 1 (seat_pk "tide-claude-2" "tide") "tide-claude-2" "" "" "" 0 used None
    (Some {["session_key" := JStr "k1"; "provider" := JStr "claude"]}) None None.
Definition ex_letter : row :=
  Row 2 (PKey INBOX_NAMESPACE "inbox/7" INBOX_SCOPE "tide-claude" None) "body" "" "" "" 1 1 None
    (Some {["read_by" := JArr [JStr "tide-claude-2@hosta"]]}) None None.
Definition ex_office : table := Table [ex_seat 100; ex_letter] 3.
Definition ex_certificate (died : Z) : certificate :=
  Certificate "k1" "tide-claude-2" "tide-claude" "tide" "claude" "hosta" died "stop" (Some true) (Some "hub") None.
Definition ex_heir : claimant := Claimant "k2" "tide" "claude" (Some "n9") (Some "hostb") None false.

Lemma ex_office_wf : wf ex_office.
Proof. split_and!; [vm_compute; repeat constructor; set_solver..|]. repeat constructor. Qed.

Lemma ex_office_seats_wf : seats_wf ex_office.
Proof.
  split; [apply ex_office_wf|]. intros r Hr Hs. apply elem_of_cons in Hr as [->|Hr]; [by exists "tide-claude-2"|].
  apply list_elem_of_singleton in Hr as ->. discriminate Hs.
Qed.

Lemma ex_office_presence_wf : presence_wf ex_office.
Proof.
  split; [apply ex_office_wf|]. intros r Hr Hp.
  apply elem_of_cons in Hr as [->|Hr]; [discriminate Hp|apply list_elem_of_singleton in Hr as ->; discriminate Hp].
Qed.

Lemma register_matches_allocator_witness :
  ∃ d g t', re_allocation (seat_reg_entry false [] 700000 ex_office ([], []) (ex_seat 100, None)) = Ladder d ∧
    would_skip d = false ∧
    try_candidate false 700000 ex_heir None (_fetch_known_roots ex_office) false [] None "tide-claude-2" ex_office
      = inl (g, t').
Proof.
  assert (∃ d, re_allocation (seat_reg_entry false [] 700000 ex_office ([], []) (ex_seat 100, None)) = Ladder d ∧
    would_skip d = false) as (d & Hd & Hf) by (eexists; split; vm_compute; reflexivity).
  destruct (proj2 (register_matches_allocator pretty false [] 700000 None ex_office ex_heir
    (seat_reg_entry false [] 700000 ex_office ([], []) (ex_seat 100, None)) "tide-claude-2" false [] None
    ex_office_seats_wf ex_office_presence_wf
    ltac:(intros r Hr Hs; apply elem_of_cons in Hr as [->|Hr]; [reflexivity|];
          apply list_elem_of_singleton in Hr as ->; discriminate Hs)
    ltac:(vm_compute; left) eq_refl eq_refl eq_refl eq_refl eq_refl eq_refl
    ltac:(intros u Hu; vm_compute in Hu; injection Hu as <-; reflexivity))
    (ex_intro _ d (conj Hd Hf))) as (g & t' & H).
  exists d, g, t'. split; [exact Hd|]. split; [exact Hf|exact H].
Defined.
