(* ===== verification/Tree.v ===== *)
(** The address tree (src/server/services/session_registry.py): parsing an
    address against the known roots, the climb of unhandled asks towards the
    root, and the sweep of spent chatter.

    A pass reads the mail, the roots and the register once, then updates the
    letters one by one. Moving a letter changes a column of the unique index:
    [climb_pass] raises the table as it stands when the database refuses. The
    response's counters are the verdicts, in the order of the letters. *)

From stdpp Require Import base gmap list strings pretty sorting.
From Stdlib Require Import ZArith Lia Ascii.
From S2P Require Import Prelude PyString Json Store Inbox WatchClaim Seats Presence Register.

Definition CLIMB_LANE_DWELL_SECONDS : Z := SEAT_LIVE_SECONDS * 3.
Definition DEEP_CHATTER_EPOCH_SECONDS : Z := 259200.

(** ** The grammar *)

Inductive node_kind := KRoot | KLane | KIncarnation.

#[global] Instance node_kind_eq_dec : EqDecision node_kind.
Proof. solve_decision. Defined.

Record node := Node { n_kind : node_kind; n_root : string; n_parent : string }.

(** [max(..., key=len, default=None)]: the first of the longest. *)
Definition longest (l : list string) : option string :=
  foldl (λ best r, match best with
                   | None => Some r
                   | Some b => if (String.length b <? String.length r)%nat then Some r else Some b
                   end) None l.

(** [s.rpartition("-")] where the separator occurs: what is before and after the last one. *)
Fixpoint rsplit_dash (s : string) : option (string * string) :=
  match s with
  | EmptyString => None
  | String c s' =>
      match rsplit_dash s' with
      | Some (h, o) => Some (String c h, o)
      | None => if c == "-"%char then Some (EmptyString, s') else None
      end
  end.

Definition _parse_tree_node (addr : string) (roots : list string) : option node :=
  let bare := before "@" addr in
  match longest (select (under_root bare) roots) with
  | None => None
  | Some root =>
      if bare == root then Some (Node KRoot root "")
      else
        let rest := sdrop (String.length root + 1) bare in
        if rest isin LANE_PROVIDERS then Some (Node KLane root root)
        else match rsplit_dash rest with
             | Some (head, ordinal) =>
                 if (head isin LANE_PROVIDERS) && isdigit ordinal
                 then Some (Node KIncarnation root (root +:+ "-" +:+ head)) else None
             | None => None
             end
  end.

(** ** The climb *)

Inductive climb_reason := HolderDeathCertified | HolderFarewellObserved | LaneDormant.

Inductive climb_skip :=
| SkHandled | SkUnknown | SkNotTree | SkRoot | SkExempt | SkHolderAlive | SkNoEvidence | SkLaneActive
| SkProjectQuiet.

Inductive climb_verdict := Climbs (parent : string) (why : climb_reason) | Stays (why : climb_skip).

Definition reason_text (why : climb_reason) : string :=
  match why with
  | HolderDeathCertified => "holder-death-certified"
  | HolderFarewellObserved => "holder-farewell-observed"
  | LaneDormant => "lane-dormant-while-project-active"
  end.

(** [e["allocation"].get("reason") in ("live-holder", "presence-fresh")] *)
Definition beats_now (e : reg_entry) : bool :=
  match re_allocation e with
  | Ladder d => (d_reason d == Some LiveHolder) || (d_reason d == Some PresenceFresh)
  | Fixed _ => false
  end.

(** [{e["address"]: e for e in ...}]: the last entry of an address. *)
Definition register_get (register : list reg_entry) (addr : string) : option reg_entry :=
  last (select (λ e, re_address e == addr) register).

(** The dictionary's values: the last entry of each address. *)
Definition register_values (register : list reg_entry) : list reg_entry :=
  omap (register_get register) (dedup (re_address <$> register)).

Definition project_fresh (register : list reg_entry) (roots : list string) (root : string) : bool :=
  existsb (λ e, match _parse_tree_node (re_address e) roots with
                | Some n => (n_root n == root) && beats_now e
                | None => false
                end) (register_values register).

Definition in_subtree (roots : list string) (lane : string) (e : reg_entry) : bool :=
  (re_address e == lane)
  || match _parse_tree_node (re_address e) roots with
     | Some n => n_parent n == lane
     | None => false
     end.

(** [min(ages) if ages else None] *)
Definition min_of (l : list Z) : option Z :=
  match l with
  | [] => None
  | x :: l' => Some (foldl Z.min x l')
  end.

Definition lane_subtree_quiet_since (register : list reg_entry) (roots : list string) (lane : string) : option Z :=
  min_of (omap re_age (select (in_subtree roots lane) (register_values register))).

Definition climb_verdict_of (register : list reg_entry) (roots : list string) (m : inbox_message) : climb_verdict :=
  match m_handled m with
  | Some true => Stays SkHandled
  | None => Stays SkUnknown
  | Some false =>
      let bare := before "@" (m_to m) in
      if is_exempt bare then Stays SkExempt
      else match _parse_tree_node (m_to m) roots with
      | None => Stays SkNotTree
      | Some n =>
          match n_kind n with
          | KRoot => Stays SkRoot
          | KIncarnation =>
              match register_get register bare with
              | None => Stays SkNoEvidence
              | Some e =>
                  if beats_now e then Stays SkHolderAlive
                  else if is_some (re_death e) then Climbs (n_parent n) HolderDeathCertified
                  else if jtruthy (re_farewell_at e) then Climbs (n_parent n) HolderFarewellObserved
                  else Stays SkNoEvidence
              end
          | KLane =>
              if negb (project_fresh register roots (n_root n)) then Stays SkProjectQuiet
              else match lane_subtree_quiet_since register roots bare with
                   | Some newest => if (newest <? CLIMB_LANE_DWELL_SECONDS)%Z then Stays SkLaneActive
                                    else Climbs (n_parent n) LaneDormant
                   | None => Climbs (n_parent n) LaneDormant
                   end
          end
      end
  end.

(** The letters a pass considers. *)
Definition climbable (r : row) : bool :=
  is_mail r && negb (is_archived r) && is_open r
  && (lower (md_text_or "" (r_meta r) "intent") isin ASK_INTENTS)
  && negb (startswith "huddle/" (md_text_or "" (r_meta r) "thread_id")).

Definition climb_stamp (now : Z) (from : string) (why : climb_reason) : jobj := list_to_map [
  ("climbed_from", JStr from);
  ("climbed_at", JTime now);
  ("climb_reason", JStr (reason_text why))].

Definition with_user (u : string) (k : pkey) : pkey :=
  PKey (k_ns k) (k_key k) (k_scope k) u (k_project k).

(** [UPDATE ... SET user_id = parent, metadata = metadata || ... WHERE key = id] *)
Definition move_letter (now : Z) (m : inbox_message) (parent : string) (why : climb_reason) (t : table)
  : option table :=
  let p := is_message (m_id m) in
  t1 ← sql_rekeys ((λ r, (r_id r, with_user parent)) <$> sql_select p t) t;
  Some (sql_update p (λ r, set_meta (md_merge_strict (r_meta r) (climb_stamp now (m_to m) why)) r) t1).

Record climbed := Climbed { cl_id : string; cl_from : string; cl_to : string; cl_reason : climb_reason }.

Section passes.
Context (iso : Z → string) (lane_reservation : bool) (people : list string).

Fixpoint climb_letters (now : Z) (register : list reg_entry) (roots : list string) (ms : list inbox_message)
    (t : table) : outcome table (list climbed * list climb_skip * table) :=
  match ms with
  | [] => Done ([], [], t)
  | m :: ms' =>
      match climb_verdict_of register roots m with
      | Stays why =>
          do! (up, stays, t') <- climb_letters now register roots ms' t; Done (up, why :: stays, t')
      | Climbs parent why =>
          match move_letter now m parent why t with
          | None => Raise t
          | Some t1 =>
              do! (up, stays, t') <- climb_letters now register roots ms' t1;
              Done (Climbed (m_id m) (m_to m) parent why :: up, stays, t')
          end
      end
  end.

Definition climb_pass (now : Z) (t : table) : outcome table (list climbed * list climb_skip * table) :=
  climb_letters now (address_register iso lane_reservation people now None t) (_fetch_known_roots t)
    (_mark_handled t (_row_to_inbox_message <$> sql_select climbable t)) t.

(** ** The sweep *)

Inductive sweep_skip := SwAsk | SwRoot | SwNotTree | SwFresh | SwExempt.
Inductive sweep_reason := IncarnationDead | OlderThanEpoch.
Inductive sweep_verdict := Sweeps (why : sweep_reason) | Leaves (why : sweep_skip).

Definition sweep_text (why : sweep_reason) : string :=
  match why with
  | IncarnationDead => "incarnation-dead"
  | OlderThanEpoch => "older-than-epoch"
  end.

Definition spent (r : row) : bool :=
  is_mail r && negb (is_archived r) && is_open r
  && negb (startswith "huddle/" (md_text_or "" (r_meta r) "thread_id")).

Definition sweep_verdict_of (now : Z) (register : list reg_entry) (roots : list string) (r : row) : sweep_verdict :=
  let bare := before "@" (r_user r) in
  if norm (py_str (r_meta r) "intent") isin ASK_INTENTS then Leaves SwAsk
  else if is_exempt bare then Leaves SwExempt
  else match _parse_tree_node (r_user r) roots with
  | None => Leaves SwNotTree
  | Some n =>
      if n_kind n == KRoot then Leaves SwRoot
      else
        let epoch_dead := (n_kind n == KIncarnation)
          && match register_get register bare with Some e => is_some (re_death e) | None => false end in
        if negb epoch_dead && (now - r_created r <? DEEP_CHATTER_EPOCH_SECONDS)%Z then Leaves SwFresh
        else Sweeps (if epoch_dead then IncarnationDead else OlderThanEpoch)
  end.

Definition sweep_stamp (now : Z) (why : sweep_reason) : jobj := list_to_map [
  ("status", JStr INBOX_RESOLVED);
  ("resolved_at", JTime now);
  ("resolved_by", JStr "system:epoch-sweep");
  ("sweep_reason", JStr (sweep_text why))].

Record swept := Swept { sw_id : string; sw_to : string; sw_reason : sweep_reason }.

Fixpoint sweep_letters (now : Z) (register : list reg_entry) (roots : list string) (rows : list row) (t : table)
  : list swept * list sweep_skip * table :=
  match rows with
  | [] => ([], [], t)
  | r :: rows' =>
      match sweep_verdict_of now register roots r with
      | Leaves why =>
          let '(gone, left_, t') := sweep_letters now register roots rows' t in (gone, why :: left_, t')
      | Sweeps why =>
          let t1 := sql_update (is_message (r_key r))
                      (λ x, set_meta (md_merge (r_meta x) (sweep_stamp now why)) x) t in
          let '(gone, left_, t') := sweep_letters now register roots rows' t1 in
          (Swept (r_key r) (r_user r) why :: gone, left_, t')
      end
  end.

Definition sweep_pass (now : Z) (t : table) : list swept * list sweep_skip * table :=
  sweep_letters now (address_register iso lane_reservation people now None t) (_fetch_known_roots t)
    (sql_select spent t) t.
End passes.
