(* ===== verification/TreeProps.v ===== *)
(** What the address tree guarantees: a parent is one level up under the same
    root, a climb pass moves exactly the letters its rule names and the passes
    stop, and a sweep resolves spent chatter and nothing else. *)

From stdpp Require Import base gmap list strings pretty sorting.
From Stdlib Require Import ZArith Lia Ascii.
From S2P Require Import Prelude PyString Json Store Inbox WatchClaim Seats SeatsProps Presence Register Tree.

(** ** The grammar *)

Section grammar.
Implicit Types (a b s root : string) (roots : list string).

Lemma longest_spec l :
  match longest l with
  | None => l = []
  | Some x => x ∈ l ∧ ∀ y, y ∈ l → String.length y ≤ String.length x
  end.
Proof.
  unfold longest. induction l as [|y l IH] using rev_ind; [done|]. rewrite foldl_snoc.
  destruct (foldl _ None l) as [b|].
  - destruct IH as [Hb Hmax]. destruct (Nat.ltb_spec (String.length b) (String.length y)).
    + split; [set_solver|]. intros z [Hz| ->%list_elem_of_singleton]%elem_of_app; [|done].
      specialize (Hmax z Hz). lia.
    + split; [set_solver|]. intros z [Hz| ->%list_elem_of_singleton]%elem_of_app; [by apply Hmax|lia].
  - subst l. split; [set_solver|]. intros z [[]%elem_of_nil| ->%list_elem_of_singleton]%elem_of_app. done.
Qed.

Lemma under_root_true a root :
  under_root a root = true ↔ a = root ∨ ∃ rest, a = root +:+ String "-" rest.
Proof.
  unfold under_root. rewrite orb_true_iff, bool_decide_eq_true, startswith_true.
  apply or_iff_compat_l. split; intros (x & ->); exists x; by rewrite string_app_assoc.
Qed.

Lemma under_root_length a root : under_root a root = true → a = root ∨ String.length root < String.length a.
Proof.
  rewrite under_root_true. intros [->|(rest & ->)]; [by left|right]. rewrite string_length_app. cbn. lia.
Qed.

Lemma string_prefix_eq s s' x x' : s +:+ x = s' +:+ x' → String.length s = String.length s' → s = s'.
Proof.
  revert s'. induction s as [|c s IH]; intros [|c' s'] H Hl; try done. cbn in *.
  injection H as -> H. f_equal. apply IH; [done|lia].
Qed.

Lemma longest_root roots a root :
  root ∈ roots → under_root a root = true →
  (∀ x, x ∈ roots → under_root a x = true → String.length x ≤ String.length root) →
  longest (select (under_root a) roots) = Some root.
Proof.
  intros Hin Hu Hmax. pose proof (longest_spec (select (under_root a) roots)) as H.
  destruct (longest _) as [x|].
  - destruct H as [[Hx Hxr]%elem_of_select Hm]. f_equal.
    assert (String.length root ≤ String.length x) by (apply Hm, elem_of_select; done).
    assert (String.length x ≤ String.length root) by auto.
    apply under_root_true in Hx, Hu.
    destruct Hx as [->|(u & Hx)], Hu as [Hu|(v & Hu)]; subst; try done.
    + rewrite string_length_app in *. cbn in *. lia.
    + rewrite string_length_app in *. cbn in *. lia.
    + eapply string_prefix_eq; [by rewrite <- Hx|lia].
  - assert (root ∈ select (under_root a) roots) as Hs by (by apply elem_of_select).
    rewrite H in Hs. by apply elem_of_nil in Hs.
Qed.

Lemma sdrop_app s x : sdrop (String.length s + 1) (s +:+ String "-" x) = x.
Proof. induction s as [|c s IH]; cbn; [by destruct x|exact IH]. Qed.

Lemma rsplit_dash_app s h o : rsplit_dash s = Some (h, o) → s = h +:+ String "-" o.
Proof.
  revert h. induction s as [|c s IH]; intros h; [done|]. cbn.
  destruct (rsplit_dash s) as [[h' o']|].
  - intros [= <- <-]. cbn. f_equal. by apply IH.
  - case_bool_decide; [|done]. by intros [= <- <-]; subst.
Qed.

(** What a parsed address is made of. *)
Lemma parse_shape addr roots n :
  _parse_tree_node addr roots = Some n →
  let bare := before "@" addr in
  n_root n ∈ roots ∧ under_root bare (n_root n) = true ∧
  (∀ x, x ∈ roots → under_root bare x = true → String.length x ≤ String.length (n_root n)) ∧
  match n_kind n with
  | KRoot => bare = n_root n
  | KLane => ∃ p, p ∈ LANE_PROVIDERS ∧ bare = n_root n +:+ String "-" p ∧ n_parent n = n_root n
  | KIncarnation => ∃ p o, p ∈ LANE_PROVIDERS ∧ isdigit o = true ∧
      n_parent n = n_root n +:+ String "-" p ∧ bare = n_parent n +:+ String "-" o
  end.
Proof.
  cbv zeta. unfold _parse_tree_node. set (bare := before "@" addr).
  pose proof (longest_spec (select (under_root bare) roots)) as Hl.
  destruct (longest _) as [root|]; [|done]. destruct Hl as [[Hu Hr]%elem_of_select Hmax].
  assert (∀ x, x ∈ roots → under_root bare x = true → String.length x ≤ String.length root) as Hlong
    by (intros x Hx Hxu; apply Hmax, elem_of_select; done).
  case_bool_decide as Hb; [intros [= <-]; by cbn|].
  apply under_root_true in Hu as Hu'. destruct Hu' as [|(rest & Hrest)]; [done|]. rewrite Hrest, sdrop_app.
  rewrite Hrest in Hu, Hlong.
  case_bool_decide as Hp; [intros [= <-]; cbn; split_and!; eauto|].
  destruct (rsplit_dash rest) as [[h o]|] eqn:E; [|done]. apply rsplit_dash_app in E as ->.
  destruct ((h isin LANE_PROVIDERS) && isdigit o) eqn:Eh; [|done]. apply andb_true_iff in Eh as [Hh Ho].
  apply bool_decide_eq_true in Hh. intros [= <-]. cbn [n_root n_kind n_parent]. split_and!; [done..|].
  exists h, o. split_and!; [done..|]. by rewrite string_app_assoc.
Qed.
End grammar.

(** The parent of an address parses one level up. *)
Lemma parent_parses addr roots n :
  _parse_tree_node addr roots = Some n →
  match n_kind n with
  | KRoot => True
  | KLane => _parse_tree_node (n_parent n) roots = Some (Node KRoot (n_root n) "")
  | KIncarnation => _parse_tree_node (n_parent n) roots = Some (Node KLane (n_root n) (n_root n))
  end.
Proof.
  intros Hn. destruct (parse_shape addr roots n Hn) as (Hr & Hu & Hmax & Hk). cbv zeta in *.
  assert (has_char "@" (before "@" addr) = false) as Hat by apply before_no_char.
  destruct (n_kind n); [done|..].
  - destruct Hk as (p & Hp & Hb & ->). rewrite Hb, has_char_app in Hat. apply orb_false_iff in Hat as [Hat _].
    unfold _parse_tree_node. rewrite before_id by done.
    rewrite (longest_root roots (n_root n) (n_root n)); [by rewrite bool_decide_eq_true_2|done| |].
    + apply under_root_true. by left.
    + intros x _ [->|Hlt]%under_root_length; lia.
  - destruct Hk as (p & o & Hp & Ho & Hpar & Hb).
    assert (has_char "@" (n_parent n) = false) as Hat'.
    { rewrite Hb, has_char_app in Hat. by apply orb_false_iff in Hat as [? _]. }
    unfold _parse_tree_node. rewrite before_id by done.
    rewrite (longest_root roots (n_parent n) (n_root n)); [|done| |].
    + rewrite Hpar, sdrop_app. rewrite bool_decide_eq_false_2.
      2:{ intros H. apply (f_equal String.length) in H. rewrite string_length_app in H. cbn in H. lia. }
      by rewrite bool_decide_eq_true_2.
    + apply under_root_true. right. by exists p.
    + intros x Hx Hxu. apply Hmax; [done|]. rewrite Hb. apply under_root_true in Hxu. apply under_root_true.
      right. destruct Hxu as [<-|(y & ->)]; [by exists o|]. exists (y +:+ String "-" o). by rewrite string_app_assoc.
Qed.

(** A parent is one level up, under the same root. An address parses under
    the longest known root it is or extends; the parent of a lane is its root,
    and parses as that root; the parent of an incarnation is its lane, and
    parses as a lane of the same root. So a letter that climbs moves towards
    its own root, at most twice. *)
Lemma parent_one_level addr roots n :
  _parse_tree_node addr roots = Some n →
  n_root n ∈ roots ∧ under_root (before "@" addr) (n_root n) = true ∧
  (∀ x, x ∈ roots → under_root (before "@" addr) x = true → String.length x ≤ String.length (n_root n)) ∧
  match n_kind n with
  | KRoot => before "@" addr = n_root n
  | KLane => _parse_tree_node (n_parent n) roots = Some (Node KRoot (n_root n) "")
  | KIncarnation => _parse_tree_node (n_parent n) roots = Some (Node KLane (n_root n) (n_root n))
  end.
Proof.
  intros Hn. destruct (parse_shape addr roots n Hn) as (Hr & Hu & Hmax & Hk). split_and!; [done..|].
  pose proof (parent_parses addr roots n Hn). by destruct (n_kind n).
Qed.

(** ** A climb pass *)

(** Letters have ids of their own (uuid4): one letter per key. *)
Definition letters_wf (t : table) : Prop :=
  wf t ∧ ∀ r r', r ∈ t_rows t → r' ∈ t_rows t → is_mail r = true → is_mail r' = true → r_key r = r_key r' → r = r'.

(** A letter as the pass judges it. *)
Definition letter (t : table) (r : row) : inbox_message := mark_handled_one t (_row_to_inbox_message r).

(** A letter moved. *)
Definition lifted (now : Z) (parent : string) (why : climb_reason) (r : row) : row :=
  set_meta (md_merge_strict (r_meta r) (climb_stamp now (r_user r) why)) (set_pk (with_user parent (r_pk r)) r).

(** What the pass does with a row. *)
Definition climb_of (now : Z) (register : list reg_entry) (roots : list string) (t : table) (r : row) : row :=
  if climbable r
  then match climb_verdict_of register roots (letter t r) with
       | Climbs parent why => lifted now parent why r
       | Stays _ => r
       end
  else r.

Section frames.
Implicit Types (r : row).

Lemma letter_fields t r : m_id (letter t r) = r_key r ∧ m_to (letter t r) = r_user r.
Proof.
  unfold letter, mark_handled_one. destruct (negb _); [done|]. destruct (_ isin _); [done|].
  destruct (replied_to _ _); [done|]. destruct (is_root _); [|done]. by destruct (replied_in_thread _ _).
Qed.

Lemma climbable_mail r : climbable r = true → is_mail r = true.
Proof. unfold climbable. rewrite !andb_true_iff. tauto. Qed.

Lemma climb_of_keeps now register roots t r :
  is_mail (climb_of now register roots t r) = is_mail r ∧ r_key (climb_of now register roots t r) = r_key r ∧
  r_id (climb_of now register roots t r) = r_id r.
Proof. unfold climb_of. destruct (climbable r); [|done]. by destruct (climb_verdict_of _ _ _). Qed.

Lemma select_single {A} (p : A → bool) (l : list A) x :
  NoDup l → x ∈ l → p x = true → (∀ y, y ∈ l → p y = true → y = x) → select p l = [x].
Proof.
  intros Hnd Hx Hp Hu. induction l as [|y l IH]; [by apply elem_of_nil in Hx|].
  apply NoDup_cons in Hnd as [Hy Hnd]. rewrite select_cons. destruct (p y) eqn:Ey.
  - assert (y = x) as -> by (apply Hu; [left|done]). f_equal. apply select_nil. intros z Hz.
    apply not_true_iff_false. intros Hpz. apply Hy. assert (z = x) as <- by (apply Hu; [by right|done]). done.
  - apply elem_of_cons in Hx as [->|Hx]; [congruence|]. apply IH; [done..|]. intros z Hz. apply Hu. by right.
Qed.
End frames.

(** A pass that rewrites letters one by one: the table once the letters [done]
    are dealt with. *)
Section partial.
Context (g : row → row) (t : table)
        (g_keeps : ∀ r, is_mail (g r) = is_mail r ∧ r_key (g r) = r_key r ∧ r_id (g r) = r_id r).
Implicit Types (r : row) (done : list row).

Definition partial done : table := Table ((λ r, if r isin done then g r else r) <$> t_rows t) (t_seq t).

Lemma partial_nil : partial [] = t.
Proof. unfold partial. cbn. destruct t as [rows q]. cbn. f_equal. apply list_fmap_id. Qed.

Lemma elem_of_partial done y :
  y ∈ t_rows (partial done) → ∃ r, r ∈ t_rows t ∧ y = (if r isin done then g r else r) ∧
    is_mail y = is_mail r ∧ r_key y = r_key r ∧ r_id y = r_id r.
Proof using g_keeps.
  intros (r & -> & Hr)%list_elem_of_fmap. exists r. split; [done|]. split; [done|].
  destruct (r isin done); [apply g_keeps|done].
Qed.

Lemma partial_ids done : r_id <$> t_rows (partial done) = r_id <$> t_rows t.
Proof using g_keeps.
  unfold partial. cbn [t_rows]. rewrite <- list_fmap_compose. apply list_fmap_ext. intros i x _. cbn.
  destruct (x isin done); [apply g_keeps|done].
Qed.

(** One letter, not dealt with yet. *)
Section one.
Context (done : list row) (r : row) (Hwf : letters_wf t) (Hr : r ∈ t_rows t) (Hmail : is_mail r = true)
        (Hnot : r ∉ done).

Lemma partial_here : r ∈ t_rows (partial done).
Proof using Hr Hnot. apply list_elem_of_fmap. exists r. by rewrite (bool_decide_eq_false_2 _ Hnot). Qed.

Lemma partial_message y : y ∈ t_rows (partial done) → is_message (r_key r) y = true → y = r.
Proof using g_keeps Hwf Hr Hmail Hnot.
  intros Hy Hm. destruct (elem_of_partial done y Hy) as (x & Hx & -> & Em & Ek & _).
  unfold is_message in Hm. rewrite Em, Ek, andb_true_iff, bool_decide_eq_true in Hm. destruct Hm as [Hm Hk].
  rewrite (proj2 Hwf x r Hx Hr Hm Hmail Hk). by rewrite (bool_decide_eq_false_2 _ Hnot).
Qed.

Lemma partial_id y : y ∈ t_rows (partial done) → r_id y = r_id r → y = r.
Proof using g_keeps Hwf Hr Hnot.
  intros Hy Hi. destruct (elem_of_partial done y Hy) as (x & Hx & -> & _ & _ & Ei).
  rewrite Ei in Hi. rewrite (wf_id_eq t x r (proj1 Hwf) Hx Hr Hi). by rewrite (bool_decide_eq_false_2 _ Hnot).
Qed.

Lemma message_self : is_message (r_key r) r = true.
Proof using Hmail. unfold is_message. by rewrite Hmail, bool_decide_eq_true_2. Qed.

Lemma select_letter : sql_select (is_message (r_key r)) (partial done) = [r].
Proof using All.
  apply select_single; [|apply partial_here|apply message_self|apply partial_message].
  apply (NoDup_fmap_1 r_id). rewrite partial_ids. by destruct Hwf as [(_ & ? & _) _].
Qed.

(** Moving it meets no other row's key. *)
Lemma rekey_letter parent :
  sql_rekey (r_id r) (with_user parent) (partial done) =
    Some (sql_update (λ x, r_id x == r_id r) (λ x, set_pk (with_user parent (r_pk x)) x) (partial done)).
Proof using All.
  unfold sql_rekey. destruct (existsb _ (t_rows (partial done))) eqn:E; [|reflexivity]. exfalso.
  apply existsb_exists in E as (y & Hy & E). apply list_elem_of_In in Hy. apply andb_true_iff in E as [Hyi E].
  apply bool_decide_eq_true in Hyi. rewrite (partial_id y Hy Hyi) in E.
  apply existsb_exists in E as (z & Hz & E). apply list_elem_of_In in Hz. apply andb_true_iff in E as [Hzi E].
  apply negb_true_iff, bool_decide_eq_false in Hzi. apply has_pk_true in E.
  apply Hzi. rewrite (partial_message z Hz); [reflexivity|].
  pose proof message_self as Hrm. revert Hrm. unfold is_message, is_mail. by rewrite E.
Qed.

(** Dealing with it. *)
Lemma partial_rows f :
  (∀ y, y ∈ t_rows (partial done) → r_id y ≠ r_id r → is_message (r_key r) y = false → f y = y) →
  f r = g r → f <$> t_rows (partial done) = t_rows (partial (done ++ [r])).
Proof using All.
  intros Hf Hfr. unfold partial. cbn [t_rows]. rewrite <- list_fmap_compose. apply list_fmap_ext.
  intros i x Hx%list_elem_of_lookup_2. cbn. destruct (decide (x = r)) as [->|Hne].
  - rewrite (bool_decide_eq_false_2 _ Hnot). by rewrite (bool_decide_eq_true_2 (r ∈ done ++ [r])) by set_solver.
  - set (y := if x isin done then _ else x).
    assert (y ∈ t_rows (partial done)) as Hy by (apply list_elem_of_fmap; by exists x).
    assert (r_id y ≠ r_id r) as Hi.
    { unfold y. destruct (x isin done); [rewrite (proj2 (proj2 (g_keeps x)))|];
        intros Hi; apply Hne; by apply (wf_id_eq t x r (proj1 Hwf)). }
    rewrite Hf; [|exact Hy|exact Hi|].
    + unfold y. replace (x isin (done ++ [r])) with (x isin done); [reflexivity|]. apply bool_decide_ext. set_solver.
    + destruct (is_message (r_key r) y) eqn:Em; [|reflexivity]. by rewrite (partial_message y Hy Em) in Hi.
Qed.

Lemma partial_stays : g r = r → partial (done ++ [r]) = partial done.
Proof using All.
  intros Hg. transitivity (Table (t_rows (partial (done ++ [r]))) (t_seq t)); [reflexivity|].
  rewrite <- (partial_rows id); [by rewrite list_fmap_id|done|by rewrite Hg].
Qed.
End one.
End partial.

Section climb.
Context (now : Z) (register : list reg_entry) (roots : list string) (t : table).

Lemma partial_step done r :
  letters_wf t → r ∈ t_rows t → r ∉ done → climbable r = true →
  let tc := partial (climb_of now register roots t) t done in
  match climb_verdict_of register roots (letter t r) with
  | Stays _ => partial (climb_of now register roots t) t (done ++ [r]) = tc
  | Climbs parent why =>
      move_letter now (letter t r) parent why tc = Some (partial (climb_of now register roots t) t (done ++ [r]))
  end.
Proof.
  intros Hwf Hr Hnot Hc. cbv zeta. pose proof (climbable_mail r Hc) as Hmail.
  pose proof (climb_of_keeps now register roots t) as Hg.
  destruct (climb_verdict_of _ _ _) as [parent why|why] eqn:Ev.
  - destruct (letter_fields t r) as [Hid Hto]. unfold move_letter. rewrite Hid, Hto, select_letter by done.
    cbn [fmap list_fmap sql_rekeys]. rewrite rekey_letter by done. cbn [mbind option_bind]. f_equal.
    transitivity (Table (t_rows (partial (climb_of now register roots t) t (done ++ [r]))) (t_seq t)); [|reflexivity].
    unfold sql_update, update_where. cbn [t_rows t_seq]. f_equal. rewrite map_map. apply partial_rows; try done.
    + intros y _ Hi Hm. by rewrite (bool_decide_eq_false_2 _ Hi), Hm.
    + rewrite (bool_decide_eq_true_2 (r_id r = r_id r)) by reflexivity.
      replace (is_message (r_key r) (set_pk (with_user parent (r_pk r)) r)) with true
        by (symmetry; exact (message_self r Hmail)).
      unfold climb_of. by rewrite Hc, Ev.
  - apply partial_stays; try done. unfold climb_of. by rewrite Hc, Ev.
Qed.
End climb.

Section run.
Context (now : Z) (register : list reg_entry) (roots : list string) (t : table).
Implicit Types (r : row) (l done : list row).

Definition climbed_of r : option climbed :=
  match climb_verdict_of register roots (letter t r) with
  | Climbs parent why => Some (Climbed (r_key r) (r_user r) parent why)
  | Stays _ => None
  end.

Definition stay_of r : option climb_skip :=
  match climb_verdict_of register roots (letter t r) with
  | Climbs _ _ => None
  | Stays why => Some why
  end.

Lemma climb_letters_run done l :
  letters_wf t → (∀ r, r ∈ l → r ∈ t_rows t ∧ climbable r = true) → NoDup (done ++ l) →
  climb_letters now register roots (letter t <$> l) (partial (climb_of now register roots t) t done) =
    Done (omap climbed_of l, omap stay_of l, partial (climb_of now register roots t) t (done ++ l)).
Proof.
  intros Hwf. revert done. induction l as [|r l IH]; intros done Hl Hnd; [by rewrite app_nil_r|].
  destruct (Hl r ltac:(left)) as [Hr Hc].
  assert (r ∉ done) as Hnot.
  { apply NoDup_app in Hnd as (_ & Hd & _). intros Hin. apply (Hd r Hin). left. }
  assert (NoDup ((done ++ [r]) ++ l)) as Hnd' by (by rewrite <- (assoc_L (++))).
  assert (∀ x, x ∈ l → x ∈ t_rows t ∧ climbable x = true) as Hl' by (intros x Hx; apply Hl; by right).
  pose proof (IH (done ++ [r]) Hl' Hnd') as IH'. rewrite <- (assoc_L (++)) in IH'. cbn [app] in IH'.
  pose proof (partial_step now register roots t done r Hwf Hr Hnot Hc) as Hstep. cbv zeta in Hstep.
  cbn [fmap list_fmap climb_letters omap list_omap]. unfold climbed_of at 1, stay_of at 1.
  destruct (letter_fields t r) as [Hid Hto].
  destruct (climb_verdict_of register roots (letter t r)) as [parent why|why].
  - rewrite Hstep. change (list_fmap _ _ (letter t) l) with (letter t <$> l). rewrite IH'. cbn. by rewrite Hid, Hto.
  - rewrite <- Hstep. change (list_fmap _ _ (letter t) l) with (letter t <$> l). by rewrite IH'.
Qed.
End run.

(** The pass in closed form. *)
Lemma climb_pass_run iso lane people now t :
  letters_wf t →
  let register := address_register iso lane people now None t in
  let roots := _fetch_known_roots t in
  climb_pass iso lane people now t =
    Done (omap (climbed_of register roots t) (sql_select climbable t),
          omap (stay_of register roots t) (sql_select climbable t),
          Table (climb_of now register roots t <$> t_rows t) (t_seq t)).
Proof.
  intros Hwf. cbv zeta. unfold climb_pass. set (register := address_register _ _ _ _ _ _).
  set (roots := _fetch_known_roots t). set (l := sql_select climbable t).
  assert (_mark_handled t (_row_to_inbox_message <$> l) = letter t <$> l) as ->
    by (unfold _mark_handled; by rewrite <- list_fmap_compose).
  transitivity (climb_letters now register roots (letter t <$> l) (partial (climb_of now register roots t) t []));
    [by rewrite partial_nil|].
  rewrite climb_letters_run; [|done| |].
  - cbn [app]. do 2 f_equal. unfold partial. f_equal. apply list_fmap_ext. intros i r Hr%list_elem_of_lookup_2.
    destruct (r isin l) eqn:E; [done|]. apply bool_decide_eq_false in E. unfold climb_of.
    destruct (climbable r) eqn:Ec; [|done]. destruct E. by apply elem_of_sql_select.
  - intros r [Hc Hr]%elem_of_sql_select. done.
  - cbn [app]. apply (NoDup_fmap_1 r_id). apply NoDup_fmap_select. by destruct Hwf as [(_ & ? & _) _].
Qed.

(** ** When a letter climbs *)

Definition climbs_by (register : list reg_entry) (roots : list string) (m : inbox_message)
    (parent : string) (why : climb_reason) : Prop :=
  m_handled m = Some false ∧ before "@" (m_to m) ∉ SEAT_EXEMPT_IDENTITIES ∧
  ∃ n, _parse_tree_node (m_to m) roots = Some n ∧ parent = n_parent n ∧
  match why with
  | HolderDeathCertified => n_kind n = KIncarnation ∧
      ∃ e, register_get register (before "@" (m_to m)) = Some e ∧ beats_now e = false ∧ re_death e ≠ None
  | HolderFarewellObserved => n_kind n = KIncarnation ∧
      ∃ e, register_get register (before "@" (m_to m)) = Some e ∧ beats_now e = false ∧ re_death e = None ∧
           jtruthy (re_farewell_at e) = true
  | LaneDormant => n_kind n = KLane ∧ project_fresh register roots (n_root n) = true ∧
      ∀ e a, e ∈ register_values register → in_subtree roots (before "@" (m_to m)) e = true →
             re_age e = Some a → (1800 <= a)%Z
  end.

Lemma min_of_spec l : match min_of l with None => l = [] | Some m => m ∈ l ∧ ∀ x, x ∈ l → (m <= x)%Z end.
Proof.
  destruct l as [|y l]; [done|]. cbn [min_of]. revert y. induction l as [|x l IH]; intros y; cbn [foldl].
  - split; [left|]. by intros x ->%list_elem_of_singleton.
  - destruct (IH (Z.min y x)) as [Hin Hmin]. split.
    + apply elem_of_cons in Hin as [->|Hin]; [|set_solver]. destruct (Z.min_spec y x) as [[_ ->]|[_ ->]]; set_solver.
    + intros z [->|[->|Hz]%elem_of_cons]%elem_of_cons; [| |apply Hmin; by right];
        specialize (Hmin (Z.min y x) ltac:(left)); lia.
Qed.

(** The dwell of a lane, spelled out. *)
Lemma quiet_since_spec register roots lane :
  match lane_subtree_quiet_since register roots lane with Some a => (CLIMB_LANE_DWELL_SECONDS <= a)%Z | None => True end ↔
  ∀ e a, e ∈ register_values register → in_subtree roots lane e = true → re_age e = Some a → (1800 <= a)%Z.
Proof.
  unfold lane_subtree_quiet_since. set (ages := omap _ _). pose proof (min_of_spec ages) as H.
  assert (∀ a, a ∈ ages ↔ ∃ e, e ∈ register_values register ∧ in_subtree roots lane e = true ∧ re_age e = Some a) as Hages.
  { intros a. unfold ages. rewrite list_elem_of_omap. setoid_rewrite elem_of_select. naive_solver. }
  change CLIMB_LANE_DWELL_SECONDS with 1800%Z. destruct (min_of ages) as [m|].
  - destruct H as [Hm Hmin]. split.
    + intros Hle e a He Hs Ha. specialize (Hmin a). rewrite Hages in Hmin. specialize (Hmin ltac:(eauto)). lia.
    + intros Hall. apply Hages in Hm as (e & He & Hs & Ha). eauto.
  - split; [|done]. intros _ e a He Hs Ha. assert (a ∈ ages) as Hin by (apply Hages; eauto).
    rewrite H in Hin. by apply elem_of_nil in Hin.
Qed.

(** Case analysis on the reason, each case closed by its evidence. *)
Ltac by_reason why H :=
  destruct why;
  [destruct H as (? & ? & ? & ? & ?)|destruct H as (? & ? & ? & ? & ? & ?)|destruct H as (? & ? & ?)];
  simplify_eq; first [reflexivity|congruence].

Lemma verdict_climbs register roots m parent why :
  climb_verdict_of register roots m = Climbs parent why ↔ climbs_by register roots m parent why.
Proof.
  unfold climb_verdict_of, climbs_by. destruct (m_handled m) as [[]|]; [split; [done|naive_solver]| |split; [done|naive_solver]].
  unfold is_exempt. case_bool_decide as Hex; [split; [done|naive_solver]|].
  destruct (_parse_tree_node (m_to m) roots) as [n|]; [|split; [done|naive_solver]].
  destruct (n_kind n) eqn:Ek.
  - split; [done|]. intros (_ & _ & n' & [= <-] & _ & H). by_reason why H.
  - pose proof (quiet_since_spec register roots (before "@" (m_to m))) as Hq.
    destruct (project_fresh register roots (n_root n)) eqn:Ef; cbn [negb].
    2:{ split; [done|]. intros (_ & _ & n' & [= <-] & _ & H). by_reason why H. }
    transitivity ((match lane_subtree_quiet_since register roots (before "@" (m_to m)) with
      Some a => (CLIMB_LANE_DWELL_SECONDS <= a)%Z | None => True end) ∧ parent = n_parent n ∧ why = LaneDormant).
    + destruct (lane_subtree_quiet_since _ _ _) as [a|].
      * destruct (Z.ltb_spec a CLIMB_LANE_DWELL_SECONDS) as [Hlt|Hge].
        -- split; [done|]. intros (H1 & _). exfalso. apply (Z.lt_irrefl a). by eapply Z.lt_le_trans.
        -- split; [by intros [= <- <-]|by intros (_ & -> & ->)].
      * split; [by intros [= <- <-]|by intros (_ & -> & ->)].
    + rewrite Hq. split; [intros (H1 & -> & ->); eauto 10|].
      intros (_ & _ & n' & [= <-] & -> & H).
      destruct why; [destruct H as [? _]; congruence|destruct H as [? _]; congruence|].
      destruct H as (_ & _ & Ha). done.
  - destruct (register_get register (before "@" (m_to m))) as [e|].
    2:{ split; [done|]. intros (_ & _ & n' & [= <-] & _ & H). by_reason why H. }
    destruct (beats_now e) eqn:Eb; [split; [done|]; intros (_ & _ & n' & [= <-] & _ & H); by_reason why H|].
    destruct (re_death e) as [d|] eqn:Ed; cbn [is_some]; [|destruct (jtruthy (re_farewell_at e)) eqn:Ew];
      (split; [intros [= <- <-]; eauto 15 with congruence|]);
      intros (_ & _ & n' & [= <-] & -> & H); by_reason why H.
Qed.

(** C21. A climb pass moves exactly the letters its rule names. It never fails;
    every row is kept, and is either moved or untouched. It is moved if and
    only if it is an open ask, judged unhandled, not of a shared role, on an
    incarnation whose register entry shows a death or a farewell and no beat,
    or on a lane whose whole subtree has been silent for half an hour while
    its project is alive; it moves to the parent of its address, with its id,
    its text and its creation kept, its old address recorded, and it is
    reported. *)
Theorem climb_exact iso lane people now t :
  letters_wf t →
  let register := address_register iso lane people now None t in
  let roots := _fetch_known_roots t in
  ∃ up stays t', climb_pass iso lane people now t = Done (up, stays, t') ∧ t_seq t' = t_seq t ∧
  Forall2 (λ r r',
    (climbable r = true ∧ ∃ parent why, climbs_by register roots (letter t r) parent why ∧
       Climbed (r_key r) (r_user r) parent why ∈ up ∧
       r_user r' = parent ∧ r_key r' = r_key r ∧ r_id r' = r_id r ∧ r_value r' = r_value r ∧
       r_created r' = r_created r ∧
       r_meta r' = md_merge_strict (r_meta r) (climb_stamp now (r_user r) why)) ∨
    (r' = r ∧ (climbable r = true → ∀ parent why, ¬ climbs_by register roots (letter t r) parent why)))
    (t_rows t) (t_rows t').
Proof.
  intros Hwf. cbv zeta. set (register := address_register _ _ _ _ _ _). set (roots := _fetch_known_roots t).
  eexists _, _, _. split; [by apply climb_pass_run|]. split; [done|]. cbn [t_rows].
  apply Forall2_fmap_r, Forall2_same. intros r Hr. fold register roots. unfold compose, climb_of.
  destruct (climbable r) eqn:Hc; [|right; split; [done|by intros ?]].
  destruct (climb_verdict_of register roots (letter t r)) as [parent why|why] eqn:Ev.
  - left. split; [done|]. exists parent, why. split; [by apply verdict_climbs|]. split; [|done].
    apply list_elem_of_omap. exists r. split; [by apply elem_of_sql_select|]. unfold climbed_of. by rewrite Ev.
  - right. split; [done|]. intros _ parent why' Hby%verdict_climbs. congruence.
Qed.

(** ** The passes stop *)

(** How far below its root an address is. *)
Definition depth (roots : list string) (addr : string) : nat :=
  match _parse_tree_node addr roots with
  | Some n => match n_kind n with KRoot => 0 | KLane => 1 | KIncarnation => 2 end
  | None => 0
  end.

Definition total_depth (roots : list string) (t : table) : nat :=
  sum_list ((λ r, depth roots (r_user r)) <$> sql_select climbable t).

Inductive climbs : table → nat → table → Prop :=
| climbs_refl t : climbs t 0 t
| climbs_pass iso lane people now t up stays t1 k t2 :
    climb_pass iso lane people now t = Done (up, stays, t1) → climbs t1 k t2 → climbs t (length up + k) t2.

Section climbs.
Implicit Types (t : table) (r : row).

Lemma parse_unique_depth roots addr addr' n :
  _parse_tree_node addr roots = Some n → n_kind n ≠ KRoot → addr' = n_parent n →
  S (depth roots addr') = depth roots addr.
Proof.
  intros Hn Hk ->. pose proof (parse_shape addr roots n Hn) as Hs. unfold depth at 2. rewrite Hn.
  pose proof (parent_parses addr roots n Hn) as Hp. unfold depth.
  destruct (n_kind n); [done|by rewrite Hp|by rewrite Hp].
Qed.

Lemma md_strict_text now from why m k :
  k ∉ ["climbed_from"; "climbed_at"; "climb_reason"] →
  md_text (md_merge_strict m (climb_stamp now from why)) k = md_text m k.
Proof.
  intros Hk. destruct m as [m|]; [|done]. unfold md_merge_strict, md_text. cbn [mbind option_bind].
  rewrite lookup_union_r; [done|]. unfold climb_stamp. cbn [list_to_map foldr].
  rewrite !lookup_insert_ne by set_solver. apply lookup_empty.
Qed.

Lemma climbable_lifted now parent why r : climbable (lifted now parent why r) = climbable r.
Proof.
  unfold climbable, is_mail, is_archived, is_open, md_bool, md_text_or, lifted. cbn [set_meta r_meta r_pk set_pk with_user k_ns k_scope].
  by rewrite !md_strict_text by set_solver.
Qed.

Lemma climbable_climb_of now register roots t r : climbable (climb_of now register roots t r) = climbable r.
Proof.
  unfold climb_of. destruct (climbable r) eqn:E; [|done].
  destruct (climb_verdict_of _ _ _); [by rewrite climbable_lifted|done].
Qed.

(** A pass keeps the letters' ids apart and the roots as they were. *)
Lemma climb_of_frame now register roots t r :
  is_mail r = false → climb_of now register roots t r = r.
Proof.
  intros H. unfold climb_of. destruct (climbable r) eqn:E; [|done]. apply climbable_mail in E. congruence.
Qed.

Lemma select_fmap_frame {A} (p : A → bool) (f : A → A) l :
  (∀ x, p (f x) = p x) → (∀ x, p x = true → f x = x) → select p (f <$> l) = select p l.
Proof.
  intros Hp Hf. induction l as [|x l IH]; [done|]. cbn [fmap list_fmap]. rewrite !select_cons, Hp.
  change (list_fmap _ _ f l) with (f <$> l). rewrite IH. destruct (p x) eqn:E; [by rewrite Hf|done].
Qed.

Lemma climb_roots now register roots t :
  _fetch_known_roots (Table (climb_of now register roots t <$> t_rows t) (t_seq t)) = _fetch_known_roots t.
Proof.
  unfold _fetch_known_roots. do 3 f_equal. unfold sql_select. cbn [t_rows]. apply select_fmap_frame.
  - intros r. destruct (is_mail r) eqn:E; [|by rewrite climb_of_frame].
    unfold is_mail in E. apply andb_true_iff in E as [_ E]. apply bool_decide_eq_true in E.
    unfold climb_of. destruct (climbable r); [|done]. destruct (climb_verdict_of _ _ _); [|done].
    cbn. rewrite E. by rewrite !andb_false_r.
  - intros r Hr. apply climb_of_frame. apply andb_true_iff in Hr as [_ Hr].
    unfold is_mail. apply andb_false_iff. right. apply bool_decide_eq_false. intros E. by rewrite E in Hr.
Qed.

Lemma depth_pass now register t :
  let roots := _fetch_known_roots t in
  let t' := Table (climb_of now register roots t <$> t_rows t) (t_seq t) in
  length (omap (climbed_of register roots t) (sql_select climbable t)) + total_depth roots t' = total_depth roots t.
Proof.
  cbv zeta. set (roots := _fetch_known_roots t). unfold total_depth, sql_select. cbn [t_rows].
  generalize (t_rows t) as l. induction l as [|r l IH]; [done|]. cbn [fmap list_fmap].
  change (list_fmap _ _ ?f l) with (f <$> l) in *. rewrite !select_cons, climbable_climb_of.
  destruct (climbable r) eqn:Hc; [|exact IH]. cbn [omap list_omap fmap list_fmap sum_list].
  change (list_fmap _ _ ?f ?k) with (f <$> k) in *. unfold climbed_of at 1, climb_of at 1. rewrite Hc.
  destruct (climb_verdict_of register roots (letter t r)) as [parent why|why] eqn:Ev; [|cbn; lia].
  apply verdict_climbs in Ev as (_ & _ & n & Hn & -> & Hwhy). destruct (letter_fields t r) as [_ Hto].
  rewrite Hto in Hn. assert (n_kind n ≠ KRoot) as Hk by (by destruct why; destruct Hwhy as [-> _]).
  pose proof (parse_unique_depth roots (r_user r) (n_parent n) n Hn Hk eq_refl) as Hd.
  change (r_user (lifted now (n_parent n) why r)) with (n_parent n). cbn [length]. unfold id in *. lia.
Qed.
End climbs.

(** Passes keep the ids of letters apart. *)
Lemma letters_wf_climb now register roots t :
  letters_wf t → letters_wf (Table (climb_of now register roots t <$> t_rows t) (t_seq t)).
Proof.
  intros [Hwf Hu]. destruct Hwf as (Hpk & Hid & Hseq).
  assert (∀ x y, x ∈ t_rows t → y ∈ t_rows t →
    r_pk (climb_of now register roots t x) = r_pk (climb_of now register roots t y) → x = y) as Hinj.
  { intros x y Hx Hy E. destruct (climb_of_keeps now register roots t x) as (Hmx & Hkx & _).
    destruct (climb_of_keeps now register roots t y) as (Hmy & Hky & _).
    destruct (is_mail x) eqn:Ex.
    - assert (is_mail y = true) as Ey.
      { rewrite <- Hmy. rewrite <- Hmx. unfold is_mail. by rewrite E. }
      apply (Hu x y Hx Hy Ex Ey). rewrite <- Hkx, <- Hky. by rewrite E.
    - assert (is_mail y = false) as Ey.
      { rewrite <- Hmy. rewrite <- Hmx. unfold is_mail. by rewrite E. }
      rewrite !climb_of_frame in E by done. by apply (NoDup_fmap_inj r_pk (t_rows t)). }
  split; [split_and!|].
  - cbn [t_rows]. rewrite <- list_fmap_compose. apply NoDup_fmap_2_strong; [exact Hinj|].
    by apply (NoDup_fmap_1 r_pk).
  - cbn [t_rows]. rewrite <- list_fmap_compose.
    erewrite (list_fmap_ext _ r_id); [exact Hid|]. intros i x _. apply climb_of_keeps.
  - cbn [t_rows t_seq]. apply Forall_fmap. eapply Forall_impl; [exact Hseq|]. intros x Hx. cbn.
    by rewrite (proj2 (proj2 (climb_of_keeps now register roots t x))).
  - cbn [t_rows]. intros r r' (x & -> & Hx)%list_elem_of_fmap (y & -> & Hy)%list_elem_of_fmap Hm Hm' Hk.
    destruct (climb_of_keeps now register roots t x) as (Hmx & Hkx & _).
    destruct (climb_of_keeps now register roots t y) as (Hmy & Hky & _).
    rewrite Hmx in Hm. rewrite Hmy in Hm'. rewrite Hkx, Hky in Hk. by rewrite (Hu x y).
Qed.

Lemma depth_bound roots addr : depth roots addr ≤ 2.
Proof. unfold depth. destruct (_parse_tree_node _ _) as [n|]; [destruct (n_kind n)|]; lia. Qed.

Lemma total_depth_bound roots t : total_depth roots t ≤ 2 * sql_count climbable t.
Proof.
  unfold total_depth, sql_count. induction (sql_select climbable t) as [|r l IH]; [done|].
  cbn [fmap list_fmap length]. change (list_fmap _ _ ?f ?k) with (f <$> k).
  change (sum_list (?x :: ?k)) with (x + sum_list k). pose proof (depth_bound roots (r_user r)). lia.
Qed.

(** The climb stops. Whatever the number of passes and their times, the
    letters moved in all and the distances left to the roots add up to the
    distances at the start; so no more than two moves per open ask are ever
    made, and once every ask has reached its root a pass moves nothing. *)
Lemma climb_terminates t k t' :
  letters_wf t → climbs t k t' →
  letters_wf t' ∧ _fetch_known_roots t' = _fetch_known_roots t ∧
  k + total_depth (_fetch_known_roots t) t' = total_depth (_fetch_known_roots t) t ∧
  k ≤ 2 * sql_count climbable t.
Proof.
  intros Hwf Hc.
  assert (letters_wf t' ∧ _fetch_known_roots t' = _fetch_known_roots t ∧
    k + total_depth (_fetch_known_roots t) t' = total_depth (_fetch_known_roots t) t) as (H1 & H2 & H3).
  { induction Hc as [t|iso lane people now t up stays t1 k t2 Hp Hc IH]; [done|].
    rewrite climb_pass_run in Hp by done. injection Hp as <- _ <-.
    destruct IH as (H1 & H2 & H3); [by apply letters_wf_climb|]. rewrite climb_roots in H2, H3.
    split_and!; [done..|]. rewrite <- (depth_pass now (address_register iso lane people now None t)). lia. }
  split_and!; [done..|]. pose proof (total_depth_bound (_fetch_known_roots t) t). lia.
Qed.

(** ** The sweep *)

Definition sweep_of (now : Z) (register : list reg_entry) (roots : list string) (r : row) : row :=
  if spent r
  then match sweep_verdict_of now register roots r with
       | Sweeps why => set_meta (md_merge (r_meta r) (sweep_stamp now why)) r
       | Leaves _ => r
       end
  else r.

Section sweep.
Context (now : Z) (register : list reg_entry) (roots : list string) (t : table).
Implicit Types (r : row) (l done : list row).

Lemma sweep_of_keeps r :
  is_mail (sweep_of now register roots r) = is_mail r ∧ r_key (sweep_of now register roots r) = r_key r ∧
  r_id (sweep_of now register roots r) = r_id r.
Proof. unfold sweep_of. destruct (spent r); [|done]. by destruct (sweep_verdict_of _ _ _ _). Qed.

Lemma spent_mail r : spent r = true → is_mail r = true.
Proof. unfold spent. rewrite !andb_true_iff. tauto. Qed.

Definition swept_of r : option swept :=
  match sweep_verdict_of now register roots r with
  | Sweeps why => Some (Swept (r_key r) (r_user r) why)
  | Leaves _ => None
  end.

Definition left_of r : option sweep_skip :=
  match sweep_verdict_of now register roots r with
  | Sweeps _ => None
  | Leaves why => Some why
  end.

Lemma sweep_letters_run done l :
  letters_wf t → (∀ r, r ∈ l → r ∈ t_rows t ∧ spent r = true) → NoDup (done ++ l) →
  sweep_letters now register roots l (partial (sweep_of now register roots) t done) =
    (omap swept_of l, omap left_of l, partial (sweep_of now register roots) t (done ++ l)).
Proof.
  intros Hwf. revert done. induction l as [|r l IH]; intros done Hl Hnd; [by rewrite app_nil_r|].
  destruct (Hl r ltac:(left)) as [Hr Hs]. pose proof (spent_mail r Hs) as Hmail.
  assert (r ∉ done) as Hnot.
  { apply NoDup_app in Hnd as (_ & Hd & _). intros Hin. apply (Hd r Hin). left. }
  assert (NoDup ((done ++ [r]) ++ l)) as Hnd' by (by rewrite <- (assoc_L (++))).
  assert (∀ x, x ∈ l → x ∈ t_rows t ∧ spent x = true) as Hl' by (intros x Hx; apply Hl; by right).
  pose proof (IH (done ++ [r]) Hl' Hnd') as IH'. rewrite <- (assoc_L (++)) in IH'. cbn [app] in IH'.
  cbn [sweep_letters omap list_omap]. unfold swept_of at 1, left_of at 1.
  destruct (sweep_verdict_of now register roots r) as [why|why] eqn:Ev.
  - assert (sql_update (is_message (r_key r)) (λ x, set_meta (md_merge (r_meta x) (sweep_stamp now why)) x)
      (partial (sweep_of now register roots) t done) = partial (sweep_of now register roots) t (done ++ [r])) as ->.
    { transitivity (Table (t_rows (partial (sweep_of now register roots) t (done ++ [r]))) (t_seq t)); [|reflexivity].
      unfold sql_update, update_where. cbn [t_seq partial]. f_equal.
      apply (partial_rows _ _ sweep_of_keeps); try done.
      - intros y _ _ Hm. by rewrite Hm.
      - rewrite (message_self r Hmail). unfold sweep_of. by rewrite Hs, Ev. }
    by rewrite IH'.
  - rewrite <- (partial_stays _ _ sweep_of_keeps done r); try done; [by rewrite IH'|].
    unfold sweep_of. by rewrite Hs, Ev.
Qed.
End sweep.

Lemma sweep_pass_run iso lane people now t :
  letters_wf t →
  let register := address_register iso lane people now None t in
  let roots := _fetch_known_roots t in
  sweep_pass iso lane people now t =
    (omap (swept_of now register roots) (sql_select spent t), omap (left_of now register roots) (sql_select spent t),
     Table (sweep_of now register roots <$> t_rows t) (t_seq t)).
Proof.
  intros Hwf. cbv zeta. unfold sweep_pass. set (register := address_register _ _ _ _ _ _).
  set (roots := _fetch_known_roots t). set (l := sql_select spent t).
  transitivity (sweep_letters now register roots l (partial (sweep_of now register roots) t []));
    [by rewrite partial_nil|].
  rewrite sweep_letters_run; [|done| |].
  - cbn [app]. f_equal. unfold partial. f_equal. apply list_fmap_ext. intros i r Hr%list_elem_of_lookup_2.
    destruct (r isin l) eqn:E; [done|]. apply bool_decide_eq_false in E. unfold sweep_of.
    destruct (spent r) eqn:Ec; [|done]. destruct E. by apply elem_of_sql_select.
  - intros r [Hs Hr]%elem_of_sql_select. done.
  - cbn [app]. apply (NoDup_fmap_1 r_id). apply NoDup_fmap_select. by destruct Hwf as [(_ & ? & _) _].
Qed.

(** A letter whose time has come: open chatter below its root, to a dead
    incarnation or three days old. *)
Definition sweep_due (now : Z) (register : list reg_entry) (roots : list string) (r : row) : Prop :=
  spent r = true ∧ norm (py_str (r_meta r) "intent") ∉ ASK_INTENTS ∧
  before "@" (r_user r) ∉ SEAT_EXEMPT_IDENTITIES ∧
  ∃ n, _parse_tree_node (r_user r) roots = Some n ∧ n_kind n ≠ KRoot ∧
    ((259200 <= now - r_created r)%Z ∨
     n_kind n = KIncarnation ∧ ∃ e, register_get register (before "@" (r_user r)) = Some e ∧ re_death e ≠ None).

Lemma sweep_due_iff now register roots r :
  spent r = true →
  sweep_due now register roots r ↔ ∃ why, sweep_verdict_of now register roots r = Sweeps why.
Proof.
  intros Hs. unfold sweep_due, sweep_verdict_of, is_exempt.
  case_bool_decide as Hask; [split; [tauto|by intros [? ?]]|].
  case_bool_decide as Hex; [split; [tauto|by intros [? ?]]|].
  destruct (_parse_tree_node (r_user r) roots) as [n|]; [|split; [by intros (_ & _ & _ & n & ? & _)|by intros [? ?]]].
  case_bool_decide as Hk; [split; [|by intros [? ?]]; intros (_ & _ & _ & n' & [= <-] & ? & _); done|].
  set (dead := (n_kind n == KIncarnation) && _). unfold DEEP_CHATTER_EPOCH_SECONDS.
  assert (dead = true ↔ n_kind n = KIncarnation ∧
    ∃ e, register_get register (before "@" (r_user r)) = Some e ∧ re_death e ≠ None) as Hd.
  { unfold dead. rewrite andb_true_iff, bool_decide_eq_true. apply and_iff_compat_l.
    destruct (register_get _ _) as [e|]; [|split; [done|by intros (e & ? & _)]]. split.
    - intros H. exists e. split; [done|]. by destruct (re_death e).
    - intros (e' & [= <-] & H). by destruct (re_death e). }
  split.
  - intros (_ & _ & _ & n' & [= <-] & _ & Hor). destruct dead; [eexists; done|].
    destruct Hor as [Hage|Hdead%Hd]; [|done]. destruct (Z.ltb_spec (now - r_created r) 259200); [lia|by eexists].
  - intros (why & Hv). split_and!; [done..|]. exists n. split_and!; [done..|].
    destruct dead; [right; by apply Hd|left]. destruct (Z.ltb_spec (now - r_created r) 259200); [done|lia].
Qed.

(** The sweep resolves spent chatter and nothing else. A row is changed if
    and only if it is an open letter that is not an ask, not of a shared role,
    below its project root, and either addressed to an incarnation certified
    dead or three days old; it is then marked resolved by the sweep, keeps
    every column and every other field, is reported, and is no longer open for
    a second pass. No ask, no root mail and no meeting letter is ever swept. *)
Lemma sweep_exact iso lane people now t :
  letters_wf t →
  let register := address_register iso lane people now None t in
  let roots := _fetch_known_roots t in
  let '(gone, kept, t') := sweep_pass iso lane people now t in
  t_seq t' = t_seq t ∧
  Forall2 (λ r r',
    (¬ sweep_due now register roots r ∧ r' = r) ∨
    (sweep_due now register roots r ∧
     r_pk r' = r_pk r ∧ r_value r' = r_value r ∧ r_created r' = r_created r ∧ r_used r' = r_used r ∧
     md_text (r_meta r') "status" = Some "resolved" ∧ md_text (r_meta r') "resolved_by" = Some "system:epoch-sweep" ∧
     (∀ k, k ∉ ["status"; "resolved_at"; "resolved_by"; "sweep_reason"] → md_get (r_meta r') k = md_get (r_meta r) k) ∧
     r_key r ∈ sw_id <$> gone ∧ spent r' = false)) (t_rows t) (t_rows t').
Proof.
  intros Hwf. cbv zeta. rewrite sweep_pass_run by done. cbv zeta. split; [done|].
  set (register := address_register _ _ _ _ _ _). set (roots := _fetch_known_roots t). cbn [t_rows].
  apply Forall2_fmap_r, Forall2_same. intros r Hr. unfold compose, sweep_of.
  destruct (spent r) eqn:Hs; [|left; split; [by intros [? _]; congruence|done]].
  pose proof (sweep_due_iff now register roots r Hs) as Hdue.
  destruct (sweep_verdict_of now register roots r) as [why|why] eqn:Ev;
    [right|left; split; [by intros [? ?]%Hdue|done]].
  assert (r_key r ∈ sw_id <$> omap (swept_of now register roots) (sql_select spent t)) as Hgone.
  { apply list_elem_of_fmap. exists (Swept (r_key r) (r_user r) why). split; [done|]. apply list_elem_of_omap.
    exists r. split; [by apply elem_of_sql_select|]. unfold swept_of. by rewrite Ev. }
  assert (∀ k, md_get (md_merge (r_meta r) (sweep_stamp now why)) k =
    match sweep_stamp now why !! k with Some v => Some v | None => md_get (r_meta r) k end) as Hget
    by (intros k; apply md_get_merge).
  split_and!; try done.
  - apply Hdue. by exists why.
  - by rewrite md_text_get, Hget.
  - by rewrite md_text_get, Hget.
  - intros k Hnot. cbn [set_meta r_meta]. rewrite Hget. unfold sweep_stamp. cbn [list_to_map foldr].
    rewrite !lookup_insert_ne by set_solver. by rewrite lookup_empty.
  - unfold spent, is_open, md_text_or. cbn [set_meta r_meta]. rewrite (md_text_get _ "status"), Hget. cbn.
    by rewrite andb_false_r.
Qed.

(** ** Concrete runs *)

Definition ex_mail (key to intent from : string) (created : Z) : row :=
  Row created (PKey INBOX_NAMESPACE key INBOX_SCOPE to None) "body" "" "" "" created created None
    (Some {["intent" := JStr intent; "from" := JStr from; "status" := JStr "open"]}) None None.
Definition ex_seat_row (id : Z) (seat : string) (used : Z) : row :=
  Row id (seat_pk seat "tide") seat "" "" "" 0 used None (Some {["session_key" := JStr seat]}) None None.
Definition ex_death_row (id : Z) (seat : string) (died : Z) : row :=
  Row id (PKey SEAT_NAMESPACE ("death/" +:+ seat) DEATH_SCOPE SEAT_USER_ID (Some "tide")) "" "" "" "" died died None
    (Some {["session_key" := JStr seat; "seat" := JStr seat; "died_at" := JTime died]}) None None.

(** A dead incarnation with an ask and a note in its box. *)
Definition ex_tree : table := Table [
  ex_mail "inbox/1" "tide-claude-2" "action" "owner" 1;
  ex_mail "inbox/2" "tide-claude-2" "note" "owner" 2;
  ex_seat_row 3 "tide-claude-2" 50;
  ex_death_row 4 "tide-claude-2" 100] 5.

Lemma ex_tree_letters : letters_wf ex_tree.
Proof.
  split.
  - split_and!; [vm_compute; repeat constructor; set_solver..|]. cbn. repeat constructor; done.
  - intros r r' Hr Hr' Hm Hm' Hk. unfold ex_tree in Hr, Hr'. cbn [t_rows] in Hr, Hr'.
    repeat (apply elem_of_cons in Hr as [->|Hr]; [|]); try by apply elem_of_nil in Hr.
    all: repeat (apply elem_of_cons in Hr' as [->|Hr']; [|]); try by apply elem_of_nil in Hr'.
    all: first [reflexivity|discriminate].
Qed.

Lemma climb_exact_witness :
  ∃ up stays t', climb_pass pretty false [] 2000 ex_tree = Done (up, stays, t') ∧ t_seq t' = 5%Z.
Proof.
  destruct (climb_exact pretty false [] 2000 ex_tree ex_tree_letters) as (up & stays & t' & H & Hs & _).
  exists up, stays, t'. by rewrite Hs.
Defined.

Lemma ex_climbs : ∃ t', climb_pass pretty false [] 2000 ex_tree =
  Done ([Climbed "inbox/1" "tide-claude-2" "tide-claude" HolderDeathCertified], [], t').
Proof. eexists. vm_compute. reflexivity. Qed.
