(* ===== verification/MailSignal.v ===== *)
(** The mail signal (src/server/services/mail_signal.py and its route in
    src/server/routers/memory.py): a login-free address an outside agent polls
    for "is there new mail". Keys are issued per address, rotated, revoked and
    rate limited; the answer is a cursor, a count and an instant.

    SHA-256 is the parameter [sha256]. The random part of a new key is an
    argument. The monotonic clock of the rate limit is in milliseconds. *)

From stdpp Require Import base gmap list strings pretty sorting.
From Stdlib Require Import ZArith Lia Ascii.
From S2P Require Import Prelude PyString Json Store AddressRoles Principals Inbox.

Definition KEY_PREFIX : string := "sig_".

(** [MIN_POLL_INTERVAL_S], in milliseconds. *)
Definition MIN_POLL_INTERVAL_S : Z := 2000.

(** ** State *)

(** A row of [mail_signal]. *)
Record signal_row := SignalRow {
  g_id : Z;
  g_address : string;
  g_principal : string;
  g_key_hash : string;
  g_issued_by : option string;
  g_created_at : Z;
  g_revoked_at : option Z;
  g_last_polled_at : option Z;
  g_poll_count : Z
}.

#[global] Instance signal_row_eq_dec : EqDecision signal_row.
Proof. solve_decision. Defined.

(** The table with its sequence, and the module's [_last_poll]. *)
Record signals := Signals {
  sg_rows : list signal_row;
  sg_seq : Z;
  sg_last_poll : gmap string Z
}.

Definition no_signals : signals := Signals [] 1 ∅.

(** What is served of a row: every column but the hash. *)
Record signal_view := SignalView {
  v_id : Z;
  v_address : string;
  v_principal : string;
  v_issued_by : option string;
  v_created_at : Z;
  v_revoked_at : option Z;
  v_last_polled_at : option Z;
  v_poll_count : Z
}.

Definition _row (r : signal_row) : signal_view :=
  SignalView (g_id r) (g_address r) (g_principal r) (g_issued_by r) (g_created_at r) (g_revoked_at r)
    (g_last_polled_at r) (g_poll_count r).

(** ** The rate limit *)

Definition rate_limited (key_hash : string) (now : Z) (last_poll : gmap string Z) : bool * gmap string Z :=
  match last_poll !! key_hash with
  | Some last => if (now - last <? MIN_POLL_INTERVAL_S)%Z then (true, last_poll)
                 else (false, <[key_hash := now]> last_poll)
  | None => (false, <[key_hash := now]> last_poll)
  end.

(** ** Keys *)

Definition generate_key (token : string) : string := KEY_PREFIX +:+ token.

Definition live_key (r : signal_row) : bool := negb (is_some (g_revoked_at r)).

Definition live_at (address : string) (r : signal_row) : bool := (g_address r == address) && live_key r.

Definition revoke (now : Z) (r : signal_row) : signal_row :=
  SignalRow (g_id r) (g_address r) (g_principal r) (g_key_hash r) (g_issued_by r) (g_created_at r)
    (Some now) (g_last_polled_at r) (g_poll_count r).

Definition polled (now : Z) (r : signal_row) : signal_row :=
  SignalRow (g_id r) (g_address r) (g_principal r) (g_key_hash r) (g_issued_by r) (g_created_at r)
    (g_revoked_at r) (Some now) (g_poll_count r + 1)%Z.

Section signal.
Context (sha256 : string → string).

Definition hash_key (raw_key : string) : string := sha256 raw_key.

(** The two statements run in one transaction; [None] is the unique
    violation on [key_hash], which undoes both. *)
Definition issue_signal (now : Z) (token address principal : string) (issued_by : option string) (st : signals)
  : option (signal_view * string * signals) :=
  let address := norm (Some address) in
  let raw_key := generate_key token in
  let rows := update_where (live_at address) (revoke now) (sg_rows st) in
  if existsb (λ r, g_key_hash r == hash_key raw_key) rows then None
  else
    let r := SignalRow (sg_seq st) address (norm (Some principal)) (hash_key raw_key) issued_by now None None 0 in
    Some (_row r, raw_key, Signals (rows ++ [r]) (sg_seq st + 1) (sg_last_poll st)).

Definition revoke_signal (now : Z) (address : string) (st : signals) : nat * signals :=
  let p := live_at (norm (Some address)) in
  (length (select p (sg_rows st)),
   Signals (update_where p (revoke now) (sg_rows st)) (sg_seq st) (sg_last_poll st)).

(** [ORDER BY address, created_at DESC] *)
Definition list_signals (include_revoked : bool) (st : signals) : list signal_view :=
  _row <$> sort_by (λ a b, if g_address a == g_address b then (g_created_at b <=? g_created_at a)%Z
                           else bool_decide (String.le (g_address a) (g_address b)))
             (select (λ r, include_revoked || live_key r) (sg_rows st)).

(** [WHERE s.key_hash = $1 AND s.revoked_at IS NULL AND p.name = s.principal AND p.active] *)
Definition resolves (people : list principal_row) (key_hash : string) (r : signal_row) : bool :=
  (g_key_hash r == key_hash) && live_key r
  && existsb (λ p, (p_name p == g_principal r) && p_active p) people.

Definition lookup_signal (now : Z) (people : list principal_row) (raw_key : string) (st : signals)
  : option signal_view * signals :=
  if negb (startswith KEY_PREFIX raw_key) then (None, st)
  else
    let p := resolves people (hash_key raw_key) in
    (_row ∘ polled now <$> head (select p (sg_rows st)),
     Signals (update_where p (polled now) (sg_rows st)) (sg_seq st) (sg_last_poll st)).

(** ** The answer *)

Record signal_answer := SignalAnswer {
  a_cursor : string;
  a_pending : nat;
  a_latest_at : option Z
}.

(** Mail that wakes one of the mailboxes. *)
Definition waking (address : string) (mailboxes : list string) (r : row) : bool :=
  is_mail r && (r_user r isin mailboxes) && negb (is_archived r)
  && (md_text_or "" (r_meta r) "intent" != "fyi")
  && (lower (md_text_or "" (r_meta r) "from") != address).

(** [ORDER BY created_at DESC, key DESC] *)
Definition newest_first (a b : row) : bool :=
  if (r_created a =? r_created b)%Z then bool_decide (String.le (r_key b) (r_key a))
  else (r_created b <? r_created a)%Z.

Definition latest_waking (address : string) (mailboxes : list string) (t : table) : option row :=
  head (sort_by newest_first (sql_select (waking address mailboxes) t)).

(** [SELECT max(created_at)] *)
Definition max_created (l : list row) : option Z :=
  match l with
  | [] => None
  | r :: l' => Some (foldl (λ m x, Z.max m (r_created x)) (r_created r) l')
  end.

Definition signal_state (roles : gmap string string) (address : string) (t : table) : signal_answer :=
  let address := norm (Some address) in
  let mailboxes := address :: roles_held_by roles (Some address) in
  let latest_key := (λ r, r_key r) <$> latest_waking address mailboxes t in
  SignalAnswer
    (if truthy latest_key then stake 16 (sha256 (address +:+ "|" +:+ or_empty latest_key)) else "0")
    (sql_count (λ r, waking address mailboxes r && is_open r && negb (read_by address r)) t)
    (max_created (sql_select (waking address mailboxes) t)).

(** ** The route *)

Inductive poll_answer :=
| PollState (a : signal_answer)   (* 200 *)
| PollTooMany                     (* 429 *)
| PollNotFound.                   (* 404 *)

Definition mail_signal_poll (mono now : Z) (people : list principal_row) (roles : gmap string string)
    (t : table) (key : string) (st : signals) : poll_answer * signals :=
  let key := strip key in
  let '(limited, last_poll) := rate_limited (hash_key key) mono (sg_last_poll st) in
  let st := Signals (sg_rows st) (sg_seq st) last_poll in
  if limited then (PollTooMany, st)
  else match lookup_signal now people key st with
       | (None, st') => (PollNotFound, st')
       | (Some row, st') => (PollState (signal_state roles (v_address row) t), st')
       end.
End signal.
