(* ===== verification/MailSignalProps.v ===== *)
(** What a mail signal promises: at most one live key per address, a rotated,
    revoked or orphaned key never answers again, a key is served at most once
    per two seconds, and the cursor moves when waking mail arrives and not
    when it is read. *)

From stdpp Require Import base gmap list strings pretty sorting.
From Stdlib Require Import ZArith Lia Ascii.
From S2P Require Import Prelude PyString Json Store AddressRoles Principals Inbox InboxProps MailSignal.

(** ** The rate limit *)

(** The polls of [k] that were served, out of a sequence of polls of any keys. *)
Fixpoint served (k : string) (ps : list (string * Z)) (m : gmap string Z) : nat :=
  match ps with
  | [] => 0
  | (k', now) :: ps' =>
      let '(limited, m') := rate_limited k' now m in
      (if (k' == k) && negb limited then 1 else 0) + served k ps' m'
  end.

Lemma rate_limited_other k k' now m : k' ≠ k → (rate_limited k' now m).2 !! k = m !! k.
Proof.
  intros H. unfold rate_limited. destruct (m !! k') as [last|]; [destruct (_ <? _)%Z|]; cbn [snd];
    [done|by rewrite lookup_insert_ne..].
Qed.

(** The serves after one at [last], each two seconds after the one before. *)
Lemma served_after k ps m last until :
  m !! k = Some last → (∀ p, p ∈ ps → (p.2 <= until)%Z) →
  (MIN_POLL_INTERVAL_S * Z.of_nat (served k ps m) <= Z.max 0 (until - last))%Z.
Proof.
  revert m last. induction ps as [|[k' now] ps IH]; intros m last Hm Hle; cbn [served]; [lia|].
  pose proof (Hle (k', now) ltac:(by left)) as Hnow. cbn [snd] in Hnow.
  assert (∀ p, p ∈ ps → (p.2 <= until)%Z) as Hle' by (intros p Hp; apply Hle; by right).
  destruct (rate_limited k' now m) as [limited m'] eqn:E.
  destruct (decide (k' = k)) as [->|Hk].
  - rewrite bool_decide_eq_true_2 by done. unfold rate_limited in E. rewrite Hm in E.
    destruct (now - last <? MIN_POLL_INTERVAL_S)%Z eqn:Ew; injection E as <- <-; cbn [negb andb].
    + by apply IH.
    + apply Z.ltb_ge in Ew.
      specialize (IH (<[k := now]> m) now ltac:(by rewrite lookup_insert_eq) Hle').
      unfold MIN_POLL_INTERVAL_S in *. lia.
  - rewrite (bool_decide_eq_false_2 (k' = k)) by done. cbn [andb]. apply IH; [|done].
    pose proof (rate_limited_other k k' now m Hk) as Ho. rewrite E in Ho. by rewrite <- Hm.
Qed.

Lemma served_before k ps m from until :
  (∀ p, p ∈ ps → (from <= p.2 <= until)%Z) →
  (MIN_POLL_INTERVAL_S * (Z.of_nat (served k ps m) - 1) <= Z.max 0 (until - from))%Z.
Proof.
  revert m. induction ps as [|[k' now] ps IH]; intros m Hle; cbn [served]; [unfold MIN_POLL_INTERVAL_S; lia|].
  pose proof (Hle (k', now) ltac:(by left)) as Hnow. cbn [snd] in Hnow.
  assert (∀ p, p ∈ ps → (from <= p.2 <= until)%Z) as Hle' by (intros p Hp; apply Hle; by right).
  destruct (rate_limited k' now m) as [limited m'] eqn:E.
  destruct (decide (k' = k)) as [->|Hk];
    [rewrite bool_decide_eq_true_2 by done|rewrite (bool_decide_eq_false_2 (k' = k)) by done; cbn [andb]; specialize (IH m' Hle'); lia].
  destruct limited; cbn [negb andb].
  - specialize (IH m' Hle'). lia.
  - assert (m' !! k = Some now) as Hm.
    { unfold rate_limited in E. destruct (m !! k); [destruct (_ <? _)%Z|]; simplify_eq E; intros <-;
        by rewrite lookup_insert_eq. }
    pose proof (served_after k ps m' now until Hm ltac:(intros p Hp; by apply Hle')) as Ha.
    unfold MIN_POLL_INTERVAL_S in *. lia.
Qed.

(** The rate of a key is bounded, and only its own. Whatever polls of
    whatever keys arrive between two instants of the clock, at most one poll
    of a key per two seconds, and one more, is served; a key is refused only
    within two seconds of a poll of its own that was served, and a refusal
    does not extend the wait. *)
Lemma poll_rate_bound k ps m from until now :
  (∀ p, p ∈ ps → (from <= p.2 <= until)%Z) →
  (MIN_POLL_INTERVAL_S * (Z.of_nat (served k ps m) - 1) <= Z.max 0 (until - from))%Z ∧
  ((rate_limited k now m).1 = true ↔ ∃ last, m !! k = Some last ∧ (now < last + 2000)%Z) ∧
  ((rate_limited k now m).1 = true → (rate_limited k now m).2 = m) ∧
  ((rate_limited k now m).1 = false → (rate_limited k now m).2 !! k = Some now) ∧
  (∀ k', k' ≠ k → (rate_limited k now m).2 !! k' = m !! k').
Proof.
  intros H. split_and!; [by apply served_before|..| |].
  - unfold rate_limited, MIN_POLL_INTERVAL_S. destruct (m !! k) as [last|] eqn:E.
    + destruct (now - last <? 2000)%Z eqn:Ew; split; intros Hl; try done.
      * exists last. split; [done|]. lia.
      * destruct Hl as (x & [= <-] & Hx). lia.
    + split; [done|]. by intros (x & ? & _).
  - unfold rate_limited. destruct (m !! k); [destruct (_ <? _)%Z|]; done.
  - unfold rate_limited. destruct (m !! k); [destruct (_ <? _)%Z|]; cbn; intros Hl; try done;
      by rewrite lookup_insert_eq.
  - intros k' Hk. by apply rate_limited_other.
Qed.

(** ** Keys over time *)

Inductive signal_op :=
| Issue (now : Z) (token address principal : string) (issued_by : option string)
| Revoke (now : Z) (address : string)
| Poll (mono now : Z) (people : list principal_row) (roles : gmap string string) (t : table) (key : string).

Section keys.
Context (sha256 : string → string).
Implicit Types (st : signals) (r : signal_row).

(** A failed issue is rolled back. *)
Definition run_op (st : signals) (op : signal_op) : signals :=
  match op with
  | Issue now token address principal by_ =>
      match issue_signal sha256 now token address principal by_ st with
      | Some (_, st') => st'
      | None => st
      end
  | Revoke now address => (revoke_signal now address st).2
  | Poll mono now people roles t key => (mail_signal_poll sha256 mono now people roles t key st).2
  end.

Record signals_ok (st : signals) : Prop := {
  ok_hashes : NoDup (g_key_hash <$> sg_rows st);
  ok_ids : ∀ r, r ∈ sg_rows st → (g_id r < sg_seq st)%Z;
  ok_norm : ∀ r, r ∈ sg_rows st → norm (Some (g_address r)) = g_address r;
  ok_one_live : ∀ r r', r ∈ sg_rows st → r' ∈ sg_rows st → live_key r = true → live_key r' = true →
    g_address r = g_address r' → r = r'
}.

Lemma no_signals_ok : signals_ok no_signals.
Proof. split; [apply NoDup_nil_2|..]; cbn; set_solver. Qed.

Lemma hash_eq st r r' :
  signals_ok st → r ∈ sg_rows st → r' ∈ sg_rows st → g_key_hash r = g_key_hash r' → r = r'.
Proof. intros Hok Hr Hr'. by apply (NoDup_fmap_inj g_key_hash _ _ _ (ok_hashes _ Hok)). Qed.

(** An update that keeps identities, and revokes at most. *)
Record keeps_key (f : signal_row → signal_row) : Prop := {
  kk_hash : ∀ r, g_key_hash (f r) = g_key_hash r;
  kk_id : ∀ r, g_id (f r) = g_id r;
  kk_address : ∀ r, g_address (f r) = g_address r;
  kk_principal : ∀ r, g_principal (f r) = g_principal r;
  kk_live : ∀ r, live_key (f r) = true → live_key r = true
}.

Lemma revoke_keeps now : keeps_key (revoke now).
Proof. by split. Qed.

Lemma polled_keeps now : keeps_key (polled now).
Proof. by split. Qed.

Lemma update_ok p f st polls :
  keeps_key f → signals_ok st → signals_ok (Signals (update_where p f (sg_rows st)) (sg_seq st) polls).
Proof.
  intros [Hh Hi Ha _ Hl] Hok. split; cbn [sg_rows sg_seq].
  - rewrite fmap_update_where by done. apply Hok.
  - intros y (r & Hr & ->)%elem_of_update_where. destruct (p r); rewrite ?Hi; by apply Hok.
  - intros y (r & Hr & ->)%elem_of_update_where. destruct (p r); rewrite ?Ha; by apply Hok.
  - intros y y' (r & Hr & ->)%elem_of_update_where (r' & Hr' & ->)%elem_of_update_where Hly Hly' E.
    assert (r = r') as ->; [|done].
    apply (ok_one_live st Hok r r' Hr Hr').
    + destruct (p r); auto.
    + destruct (p r'); auto.
    + destruct (p r), (p r'); by rewrite ?Ha in E.
Qed.

Lemma polls_ok st polls : signals_ok st → signals_ok (Signals (sg_rows st) (sg_seq st) polls).
Proof. by intros [? ? ? ?]. Qed.

Lemma issue_ok now token address principal by_ st v key st' :
  signals_ok st → issue_signal sha256 now token address principal by_ st = Some (v, key, st') →
  signals_ok st' ∧
  ∃ r, r ∈ sg_rows st' ∧ v = _row r ∧ key = "sig_" +:+ token ∧ g_key_hash r = sha256 key ∧
    g_address r = norm (Some address) ∧ g_principal r = norm (Some principal) ∧ live_key r = true ∧
    (∀ r', r' ∈ sg_rows st' → live_key r' = true → g_address r' = norm (Some address) → r' = r) ∧
    (∀ r', r' ∈ sg_rows st → g_address r' ≠ norm (Some address) → r' ∈ sg_rows st') ∧
    (∀ r', r' ∈ sg_rows st → ∃ r2, r2 ∈ sg_rows st' ∧ g_key_hash r2 = g_key_hash r' ∧
       (g_address r' = norm (Some address) → live_key r2 = false)).
Proof.
  intros Hok. unfold issue_signal. cbv zeta.
  set (a := norm (Some address)). set (rows := update_where _ _ _).
  destruct (existsb _ rows) eqn:Ef; [done|]. intros [= <- <- <-].
  set (r := SignalRow _ _ _ _ _ _ _ _ _).
  pose proof (update_ok (live_at a) (revoke now) st (sg_last_poll st) (revoke_keeps now) Hok) as Hok1.
  fold rows in Hok1.
  assert (∀ x, x ∈ rows → live_key x = true → g_address x ≠ a) as Hdead.
  { intros x (y & Hy & ->)%elem_of_update_where. unfold live_at. destruct (live_key y) eqn:El.
    - rewrite andb_true_r. destruct (decide (g_address y = a)) as [E|E].
      + by rewrite (bool_decide_eq_true_2 _ E).
      + by rewrite (bool_decide_eq_false_2 _ E).
    - rewrite andb_false_r. congruence. }
  split.
  - split; cbn [sg_rows sg_seq].
    + rewrite fmap_app. apply NoDup_app. split_and!; [apply (ok_hashes _ Hok1)| |apply NoDup_singleton].
      intros h Hh Hin. apply list_elem_of_singleton in Hin as ->. apply list_elem_of_fmap in Hh as (x & E & Hx).
      apply (not_true_iff_false) in Ef. apply Ef, existsb_exists. exists x.
      split; [by apply list_elem_of_In|]. apply bool_decide_eq_true. by rewrite <- E.
    + intros x [Hx| ->%list_elem_of_singleton]%elem_of_app; [|unfold r; cbn; lia].
      pose proof (ok_ids _ Hok1 x Hx) as Hlt. cbn in Hlt. lia.
    + intros x [Hx| ->%list_elem_of_singleton]%elem_of_app; [by apply (ok_norm _ Hok1)|apply norm_idem].
    + intros x y [Hx| ->%list_elem_of_singleton]%elem_of_app [Hy| ->%list_elem_of_singleton]%elem_of_app Hl Hl' E.
      * by apply (ok_one_live _ Hok1).
      * by apply (Hdead x Hx) in Hl.
      * by apply (Hdead y Hy) in Hl'.
      * done.
  - exists r. cbn [sg_rows]. split_and!; try done.
    + apply elem_of_app. right. by apply list_elem_of_singleton.
    + intros x [Hx| ->%list_elem_of_singleton]%elem_of_app Hl E; [|done]. by apply (Hdead x Hx) in Hl.
    + intros x Hx E. apply elem_of_app. left. apply elem_of_update_where. exists x. split; [done|].
      unfold live_at. by rewrite (bool_decide_eq_false_2 (g_address x = a)) by done.
    + intros x Hx. exists (if live_at a x then revoke now x else x). split_and!.
      * apply elem_of_app. left. apply elem_of_update_where. by exists x.
      * by destruct (live_at a x).
      * intros E. unfold live_at. rewrite bool_decide_eq_true_2 by done. by destruct (live_key x) eqn:El.
Qed.

Lemma lookup_ok now people key st : signals_ok st → signals_ok (lookup_signal sha256 now people key st).2.
Proof.
  intros Hok. unfold lookup_signal. destruct (negb _); [done|].
  apply update_ok; [apply polled_keeps|done].
Qed.

Lemma run_op_ok st op : signals_ok st → signals_ok (run_op st op).
Proof.
  intros Hok. destruct op as [now token a p b|now a|mono now people roles t key]; cbn [run_op].
  - destruct (issue_signal _ _ _ _ _ _ _) as [[[v key] st']|] eqn:E; [|done]. by apply issue_ok in E as [E _].
  - apply update_ok; [apply revoke_keeps|done].
  - unfold mail_signal_poll. destruct (rate_limited _ _ _) as [limited polls].
    pose proof (polls_ok st polls Hok) as Hok1. destruct limited; [done|].
    pose proof (lookup_ok now people (strip key) _ Hok1) as Hok2.
    by destruct (lookup_signal _ _ _ _ _) as [[v|] st'].
Qed.

Lemma run_ops_ok ops st : signals_ok st → signals_ok (foldl run_op st ops).
Proof. revert st. induction ops as [|op ops IH]; intros st Hok; [done|]. by apply IH, run_op_ok. Qed.

(** One live key per address. Whatever keys are issued, revoked and polled,
    in whatever order, hashes and ids stay distinct, addresses are stored in
    lower case without blanks, and no two live keys serve one address. A key
    just issued is the live key of its address, a hash of itself is all that
    is stored of it, and rotation ends the one before; no other address's
    rows are touched. *)
Lemma one_live_key ops now token address principal by_ :
  let st := foldl run_op no_signals ops in
  signals_ok st ∧
  ∀ v key st', issue_signal sha256 now token address principal by_ st = Some (v, key, st') →
    (∃ r, r ∈ sg_rows st' ∧ v = _row r ∧ g_key_hash r = sha256 key ∧ live_key r = true ∧
       g_address r = norm (Some address) ∧
       ∀ r', r' ∈ sg_rows st' → live_key r' = true → g_address r' = norm (Some address) → r' = r) ∧
    ∀ r', r' ∈ sg_rows st → g_address r' ≠ norm (Some address) → r' ∈ sg_rows st'.
Proof.
  intros st. assert (signals_ok st) as Hok by apply run_ops_ok, no_signals_ok.
  split; [done|]. intros v key st' E. apply issue_ok in E as [_ (r & Hr & Hv & Hk & Hh & Ha & _ & Hl & Hu & Hf & _)]; [|done].
  split; [|done]. by exists r.
Qed.

(** The row a key answers from. *)
Definition answers (people : list principal_row) (key : string) (r : signal_row) : Prop :=
  startswith "sig_" key = true ∧ g_key_hash r = sha256 key ∧ g_revoked_at r = None ∧
  ∃ p, p ∈ people ∧ p_name p = g_principal r ∧ p_active p = true.

Lemma resolves_true people key r :
  resolves people (sha256 key) r = true ↔
  g_key_hash r = sha256 key ∧ g_revoked_at r = None ∧ ∃ p, p ∈ people ∧ p_name p = g_principal r ∧ p_active p = true.
Proof.
  unfold resolves. rewrite !andb_true_iff, bool_decide_eq_true, existsb_exists.
  unfold live_key. split.
  - intros [[H1 H2] (p & Hp & Hq)]. bprop. split_and!; [done|by destruct (g_revoked_at r)|].
    destruct Hq. exists p. split_and!; [by apply list_elem_of_In|done|done].
  - intros (H1 & -> & p & Hp & Hn & Ha). split_and!; [done|done|].
    exists p. split; [by apply list_elem_of_In|]. by rewrite bool_decide_eq_true_2.
Qed.

Lemma lookup_Some now people key st :
  signals_ok st →
  match lookup_signal sha256 now people key st with
  | (Some v, st') => ∃ r, r ∈ sg_rows st ∧ answers people key r ∧ v = _row (polled now r) ∧
      sg_rows st' = update_where (λ x, x == r) (polled now) (sg_rows st)
  | (None, st') => st' = st ∧ ∀ r, r ∈ sg_rows st → ¬ answers people key r
  end.
Proof.
  intros Hok. unfold lookup_signal, hash_key. fold KEY_PREFIX. destruct (startswith KEY_PREFIX key) eqn:Ek; cbn [negb].
  2:{ split; [done|]. intros r _ [Hs _]. unfold KEY_PREFIX in Ek. congruence. }
  set (p := resolves people (sha256 key)). destruct (head (select p (sg_rows st))) as [r|] eqn:Eh; cbn [fmap option_fmap option_map].
  - assert (r ∈ select p (sg_rows st)) as Hr by (by apply head_Some_elem_of).
    apply elem_of_select in Hr as [Hp Hr]. exists r. split_and!; [done| |done|].
    + split; [done|]. by apply resolves_true.
    + cbn [sg_rows]. unfold update_where. apply map_ext_in. intros x Hx%list_elem_of_In.
      destruct (decide (x = r)) as [->|Hne]; [by rewrite Hp, bool_decide_eq_true_2|].
      rewrite (bool_decide_eq_false_2 _ Hne). destruct (p x) eqn:Epx; [|done]. exfalso.
      apply Hne, (hash_eq st); [done..|]. apply resolves_true in Epx as [-> _], Hp as [-> _]. done.
  - apply head_None in Eh. assert (∀ r, r ∈ sg_rows st → p r = false) as Hno by (by apply select_nil).
    split.
    + rewrite update_where_nop by done. by destruct st.
    + intros r Hr [_ Ha]. apply resolves_true in Ha. specialize (Hno r Hr). unfold p in Hno. congruence.
Qed.

(** An answered poll has a row behind it. *)
Lemma poll_has_row st mono now people roles t key a :
  signals_ok st → (mail_signal_poll sha256 mono now people roles t key st).1 = PollState a →
  ∃ r, r ∈ sg_rows st ∧ answers people (strip key) r.
Proof.
  intros Hok. unfold mail_signal_poll. destruct (rate_limited _ _ _) as [[|] polls]; [done|].
  pose proof (lookup_Some now people (strip key) _ (polls_ok st polls Hok)) as Hl.
  destruct (lookup_signal _ _ _ _ _) as [[v|] st']; [|done]. destruct Hl as (r & Hr & Ha & _). by exists r.
Qed.

(** The signal answers exactly the holders of a live key of an active login.
    A poll is refused for its rate exactly when the limiter says so; it is
    answered exactly when the key, blanks trimmed, is a signal key whose hash
    is stored, unrevoked, with an active principal, and then with the state of
    that row's address and the poll counted on that row alone; in every other
    case the answer is the one not-found, and nothing changes. *)
Lemma poll_answers_exact ops mono now people roles t key :
  let st := foldl run_op no_signals ops in
  let '(answer, st') := mail_signal_poll sha256 mono now people roles t key st in
  match answer with
  | PollTooMany =>
      (rate_limited (sha256 (strip key)) mono (sg_last_poll st)).1 = true ∧ sg_rows st' = sg_rows st
  | PollState a => ∃ r, r ∈ sg_rows st ∧ answers people (strip key) r ∧
      a = signal_state sha256 roles (g_address r) t ∧
      sg_rows st' = update_where (λ x, x == r) (polled now) (sg_rows st)
  | PollNotFound =>
      (rate_limited (sha256 (strip key)) mono (sg_last_poll st)).1 = false ∧
      (∀ r, r ∈ sg_rows st → ¬ answers people (strip key) r) ∧ sg_rows st' = sg_rows st
  end.
Proof.
  intros st. assert (signals_ok st) as Hok by apply run_ops_ok, no_signals_ok.
  unfold mail_signal_poll, hash_key at 1.
  destruct (rate_limited (sha256 (strip key)) mono (sg_last_poll st)) as [limited polls] eqn:E.
  destruct limited; [done|].
  pose proof (lookup_Some now people (strip key) _ (polls_ok st polls Hok)) as Hl.
  destruct (lookup_signal _ _ _ _ _) as [[v|] st'].
  - destruct Hl as (r & Hr & Ha & -> & Hs). exists r. by split_and!.
  - by destruct Hl as [-> Hno].
Qed.

(** No operation touches a row that is already revoked. *)
Lemma dead_row_kept st op r : r ∈ sg_rows st → live_key r = false → r ∈ sg_rows (run_op st op).
Proof.
  intros Hr Hd.
  assert (∀ p f, (∀ x, p x = true → live_key x = true) → r ∈ update_where p f (sg_rows st)) as Hkeep.
  { intros p f Hp. apply elem_of_update_where. exists r. split; [done|].
    destruct (p r) eqn:E; [|done]. apply Hp in E. congruence. }
  assert (∀ a x, live_at a x = true → live_key x = true) as Hlive.
  { intros a x. unfold live_at. intros [_ H]%andb_true_iff. done. }
  destruct op as [now token a p b|now a|mono now people roles t key]; cbn [run_op].
  - unfold issue_signal. cbv zeta. destruct (existsb _ _); [done|]. cbn [sg_rows].
    apply elem_of_app. left. apply Hkeep, Hlive.
  - cbn [revoke_signal snd sg_rows]. apply Hkeep, Hlive.
  - unfold mail_signal_poll. destruct (rate_limited _ _ _) as [[|] polls]; [done|].
    unfold lookup_signal. destruct (negb _); [done|].
    set (q := resolves people _).
    assert (r ∈ update_where q (polled now) (sg_rows st)) as Hin.
    { apply Hkeep. intros x. unfold q, resolves. rewrite !andb_true_iff. tauto. }
    by destruct (head _).
Qed.

Lemma dead_rows_kept ops st r : r ∈ sg_rows st → live_key r = false → r ∈ sg_rows (foldl run_op st ops).
Proof.
  revert st. induction ops as [|op ops IH]; intros st Hr Hd; [done|]. apply IH; [|done]. by apply dead_row_kept.
Qed.

(** What ends a key: its address is revoked, or another key is issued for it. *)
Definition ends (st : signals) (op : signal_op) (address : string) : Prop :=
  match op with
  | Issue now token a p b => norm (Some a) = address ∧ is_some (issue_signal sha256 now token a p b st) = true
  | Revoke _ a => norm (Some a) = address
  | Poll _ _ _ _ _ _ => False
  end.

Lemma ended_dead st op r :
  signals_ok st → r ∈ sg_rows st → ends st op (g_address r) →
  ∃ r', r' ∈ sg_rows (run_op st op) ∧ g_key_hash r' = g_key_hash r ∧ live_key r' = false.
Proof.
  intros Hok Hr Hend. destruct op as [now token a p b|now a|]; cbn [ends run_op] in *; [| |done].
  - destruct Hend as [Ha Hi]. destruct (issue_signal _ _ _ _ _ _ _) as [[[v k] st']|] eqn:E; [|done].
    apply issue_ok in E as [_ (_ & _ & _ & _ & _ & _ & _ & _ & _ & _ & Hrest)]; [|done].
    destruct (Hrest r Hr) as (r' & Hr' & Hh & Hd). exists r'. auto.
  - exists (if live_at (norm (Some a)) r then revoke now r else r). split_and!.
    + apply elem_of_update_where. by exists r.
    + by destruct (live_at _ _).
    + unfold live_at. rewrite Hend, bool_decide_eq_true_2 by done. by destruct (live_key r) eqn:El.
Qed.

(** A key that ended never answers again. Once the address of a key has been
    revoked, or another key issued for it, no later sequence of issues,
    revocations and polls (a clock set back, a login reactivated) makes a
    poll with that key answer. Nor does a key whose login is not active, or
    gone, while it is so. *)
Lemma ended_key_dead ops r key mono now people roles t :
  let st := foldl run_op no_signals ops in
  let answer st := (mail_signal_poll sha256 mono now people roles t key st).1 in
  r ∈ sg_rows st → g_key_hash r = sha256 (strip key) →
  (∀ op later a, ends st op (g_address r) → answer (foldl run_op (run_op st op) later) ≠ PollState a) ∧
  ((∀ p, p ∈ people → p_name p = g_principal r → p_active p = false) → ∀ a, answer st ≠ PollState a).
Proof.
  intros st answer Hr Hh.
  assert (∀ ops' a, answer (foldl run_op no_signals ops') = PollState a →
    ∃ x, x ∈ sg_rows (foldl run_op no_signals ops') ∧ answers people (strip key) x) as Hans.
  { intros ops' a Ha. eapply poll_has_row; [apply run_ops_ok, no_signals_ok|exact Ha]. }
  assert (signals_ok st) as Hok by apply run_ops_ok, no_signals_ok. split.
  - intros op later a Hend Ha. destruct (ended_dead st op r Hok Hr Hend) as (d & Hd & Hdh & Hdd).
    assert (foldl run_op (run_op st op) later = foldl run_op no_signals (ops ++ op :: later)) as E
      by (by rewrite foldl_app).
    rewrite E in Ha. apply Hans in Ha as (x & Hx & _ & Hxh & Hxl & _). rewrite <- E in Hx.
    assert (x = d) as ->.
    { apply (hash_eq (foldl run_op (run_op st op) later)); [by apply run_ops_ok, run_op_ok|done| |congruence].
      by apply dead_rows_kept. }
    unfold live_key in Hdd. by rewrite Hxl in Hdd.
  - intros Hno a Ha. apply Hans in Ha as (x & Hx & _ & Hxh & _ & p & Hp & Hn & Hact).
    assert (x = r) as -> by (apply (hash_eq st); [done..|congruence]).
    rewrite (Hno p Hp Hn) in Hact. done.
Qed.
End keys.

(** ** The cursor *)

Section cursor.
Context (sha256 : string → string).
Implicit Types (r : row) (t : table).

(** What a signal reads of a row besides its key and creation. *)
Definition same_waking (r r' : row) : Prop :=
  r_pk r' = r_pk r ∧ r_created r' = r_created r ∧
  ∀ k, k ∈ ["archived"; "intent"; "from"] → md_text (r_meta r') k = md_text (r_meta r) k.

Lemma same_waking_refl r : same_waking r r.
Proof. done. Qed.

Lemma waking_same address boxes r r' : same_waking r r' → waking address boxes r' = waking address boxes r.
Proof.
  intros (Hpk & _ & Hk). unfold waking, is_mail, is_archived, md_text_or.
  rewrite Hpk, (md_bool_ext (r_meta r') (r_meta r) "archived") by (apply Hk; set_solver).
  by rewrite !Hk by set_solver.
Qed.

Lemma max_created_fmap (f : row → row) l :
  (∀ r, r_created (f r) = r_created r) → max_created (f <$> l) = max_created l.
Proof.
  intros Hf. destruct l as [|x l]; [done|]. cbn [fmap list_fmap max_created]. rewrite Hf. f_equal.
  generalize (r_created x) as m. clear x.
  induction l as [|y l IH]; intros m; [done|]. cbn. rewrite Hf. apply IH.
Qed.

Lemma signal_fmap (f : row → row) roles address t q :
  (∀ r, same_waking r (f r)) →
  a_cursor (signal_state sha256 roles address (Table (f <$> t_rows t) q)) =
    a_cursor (signal_state sha256 roles address t) ∧
  a_latest_at (signal_state sha256 roles address (Table (f <$> t_rows t) q)) =
    a_latest_at (signal_state sha256 roles address t).
Proof.
  intros Hf. unfold signal_state. cbv zeta. set (a := norm (Some address)). set (boxes := a :: _).
  assert (∀ r, r_created (f r) = r_created r) as Hcr by apply Hf.
  assert (sql_select (waking a boxes) (Table (f <$> t_rows t) q) = f <$> sql_select (waking a boxes) t) as E.
  { unfold sql_select. cbn [t_rows]. apply select_fmap. intros r _. by apply waking_same. }
  cbn [a_cursor a_latest_at]. unfold latest_waking. rewrite E, max_created_fmap by done. split; [|done].
  rewrite (sort_by_fmap newest_first newest_first f).
  2:{ intros x y. unfold newest_first. by rewrite !Hcr, (proj1 (Hf x)), (proj1 (Hf y)). }
  destruct (sort_by _ _) as [|x l]; [done|]. cbn. by rewrite (proj1 (Hf x)).
Qed.

Lemma signal_update (p : row → bool) (f : row → row) roles address t :
  (∀ r, same_waking r (f r)) →
  a_cursor (signal_state sha256 roles address (sql_update p f t)) =
    a_cursor (signal_state sha256 roles address t) ∧
  a_latest_at (signal_state sha256 roles address (sql_update p f t)) =
    a_latest_at (signal_state sha256 roles address t).
Proof.
  intros Hf. rewrite sql_update_fmap. apply signal_fmap. intros r. by destruct (p r).
Qed.

Lemma set_keeps_waking k v r :
  k ∉ ["archived"; "intent"; "from"] → same_waking r (set_meta (md_set (r_meta r) k v) r).
Proof.
  intros Hk. split_and!; [done..|]. intros k' Hk'. cbn [set_meta r_meta]. apply md_text_set_ne. by intros ->.
Qed.

Lemma merge_keeps_waking stamp r :
  (∀ k, k ∈ ["archived"; "intent"; "from"] → stamp !! k = None) →
  same_waking r (set_meta (md_merge (r_meta r) stamp) r).
Proof.
  intros Hs. split_and!; [done..|]. intros k Hk. cbn [set_meta r_meta]. rewrite md_text_merge. by rewrite (Hs k Hk).
Qed.

Lemma resolve_keeps_waking now who r : same_waking r (set_meta (resolve_meta now who (r_meta r)) r).
Proof.
  split_and!; [done..|]. intros k Hk. cbn [set_meta r_meta]. apply resolve_meta_text. set_solver.
Qed.

(** The cursor that stands for a newest waking message, or for none. *)
Definition cursor_of (address : string) (latest_key : option string) : string :=
  if truthy latest_key then stake 16 (sha256 (address +:+ "|" +:+ or_empty latest_key)) else "0".

Definition latest_key (roles : gmap string string) (address : string) (t : table) : option string :=
  let a := norm (Some address) in
  (λ r, r_key r) <$> latest_waking a (a :: roles_held_by roles (Some a)) t.

Lemma latest_append address boxes t now n :
  waking address boxes (mk_row (t_seq t) now n) = true →
  (∀ r, r ∈ t_rows t → (r_created r < now)%Z) →
  latest_waking address boxes (sql_append now n t) = Some (mk_row (t_seq t) now n) ∧
  max_created (sql_select (waking address boxes) (sql_append now n t)) = Some now.
Proof.
  intros Hw Hold. set (x := mk_row (t_seq t) now n).
  assert (sql_select (waking address boxes) (sql_append now n t) = sql_select (waking address boxes) t ++ [x]) as E.
  { unfold sql_select, sql_append. cbn [t_rows]. fold x. rewrite select_app, select_cons. fold x in Hw. by rewrite Hw. }
  assert (∀ r, r ∈ sql_select (waking address boxes) t → (r_created r < now)%Z) as Hlt.
  { intros r [_ Hr]%elem_of_sql_select. by apply Hold. }
  unfold latest_waking. rewrite E. revert Hlt. generalize (sql_select (waking address boxes) t) as l. intros l Hlt.
  split.
  - unfold sort_by. rewrite foldl_app. cbn [foldl]. fold (sort_by newest_first l).
    assert (∀ y, y ∈ sort_by newest_first l → (r_created y < now)%Z) as Hs.
    { intros y Hy. apply Hlt. by rewrite elem_of_sort_by in Hy. }
    destruct (sort_by newest_first l) as [|y k]; [done|]. cbn [insert_by].
    specialize (Hs y ltac:(by left)).
    assert (newest_first y x = false) as ->; [|done].
    unfold newest_first. change (r_created x) with now.
    rewrite (proj2 (Z.eqb_neq _ _)) by lia. apply Z.ltb_ge. lia.
  - destruct l as [|y l]; [done|]. cbn [app max_created]. rewrite foldl_app. cbn [foldl].
    change (r_created x) with now. f_equal.
    assert (∀ m, (m < now)%Z → foldl (λ m x, Z.max m (r_created x)) m l < now)%Z as Hf.
    { assert (∀ z, z ∈ l → (r_created z < now)%Z) as Hl by (intros z Hz; apply Hlt; by right).
      clear -Hl. induction l as [|z l IH]; intros m Hm; [done|]. cbn. apply IH.
      - intros w Hw. apply Hl. by right.
      - specialize (Hl z ltac:(by left)). lia. }
    specialize (Hf (r_created y) ltac:(apply Hlt; by left)). lia.
Qed.

(** The cursor moves on arrival and not on reading. Acking, resolving a
    message or a thread, the stale sweep and the delivery mark leave cursor
    and instant of every signal as they were, whoever acts. A letter that
    arrives later than what is there, in one of the signal's mailboxes (its
    address or a role it holds), not [fyi] and not from the address itself,
    becomes the message the cursor stands for, and its instant the latest. *)
Lemma cursor_moves_on_arrival expand roles address t :
  let s := signal_state sha256 roles address in
  let same t' := a_cursor (s t') = a_cursor (s t) ∧ a_latest_at (s t') = a_latest_at (s t) in
  let a := norm (Some address) in
  (∀ id who, same (inbox_ack id who t).2) ∧
  (∀ now id who, same (inbox_resolve now id who t).2) ∧
  (∀ now thread listen who, same (inbox_resolve_thread expand now thread listen who t).2) ∧
  (∀ now hours who batch, same (inbox_autoresolve_stale now hours who batch t).2) ∧
  (∀ ms reader, same (_mark_delivered ms reader t)) ∧
  a_cursor (s t) = cursor_of a (latest_key roles address t) ∧
  ∀ now uid m key t', inbox_send now uid m t = Done (key, t') →
    (∀ r, r ∈ t_rows t → (r_created r < now)%Z ∧ r_key r ≠ mail_key uid) →
    lower (sd_to m) ∈ a :: roles_held_by roles (Some a) → sd_intent m ≠ Some "fyi" →
    lower (or_empty (sd_from m)) ≠ a →
    a_latest_at (s t') = Some now ∧ a_cursor (s t') = cursor_of a (Some key) ∧
    latest_key roles address t ≠ Some key.
Proof.
  cbv zeta. split_and!.
  - intros id who. apply signal_update. intros r. by apply set_keeps_waking; set_solver.
  - intros now id who. apply signal_update. intros r. apply resolve_keeps_waking.
  - intros now thread listen who. unfold inbox_resolve_thread. destruct (_ || _); [done|].
    apply signal_update. intros r. apply resolve_keeps_waking.
  - intros now hours who batch. apply signal_update. intros r. apply merge_keeps_waking.
    intros k Hk. rewrite !elem_of_cons in Hk. by destruct Hk as [->|[->|[->|?%elem_of_nil]]].
  - intros ms reader. unfold _mark_delivered. destruct (_ || _); [done|].
    apply signal_update. intros r. apply set_keeps_waking. set_solver.
  - reflexivity.
  - intros now uid m key t' Hsend Hold Hbox Hint Hfrom. unfold inbox_send in Hsend. cbv zeta in Hsend.
    set (n := NewRow _ _ _ _ _ _ _ _) in Hsend. unfold sql_insert_nothing in Hsend.
    destruct (sql_find (n_pk n) t) eqn:Efind; [done|]. injection Hsend as <- <-.
    set (a := norm (Some address)). set (boxes := a :: roles_held_by roles (Some a)).
    assert (waking a boxes (mk_row (t_seq t) now n) = true) as Hw.
    { unfold waking. rewrite !andb_true_iff. split_and!; [done|by apply bool_decide_eq_true_2|done| |].
      - apply negb_true_iff, bool_decide_eq_false_2. unfold n. cbn [mk_row n_meta r_meta].
        change (md_text_or "" (Some (mail_meta m)) "intent") with (default "" (jtext (jopt (sd_intent m)))).
        destruct (sd_intent m); [|done]. cbn. congruence.
      - apply negb_true_iff, bool_decide_eq_false_2. unfold n. cbn [mk_row n_meta r_meta].
        change (md_text_or "" (Some (mail_meta m)) "from") with (default "" (jtext (jopt (sd_from m)))).
        by destruct (sd_from m). }
    destruct (latest_append a boxes t now n Hw ltac:(intros r Hr; by apply Hold)) as [Hl Hm].
    assert (a_latest_at (signal_state sha256 roles address (sql_append now n t)) = Some now ∧
            a_cursor (signal_state sha256 roles address (sql_append now n t)) = cursor_of a (Some (mail_key uid))) as [Ha Hc].
    { split; [exact Hm|]. unfold signal_state. cbv zeta. cbn [a_cursor]. fold a. fold boxes.
      by rewrite Hl. }
    split_and!.
    + destruct (truthy _); [|done]. rewrite <- Ha. apply signal_update. intros r. apply merge_keeps_waking.
      intros k Hk. rewrite !elem_of_cons in Hk. by destruct Hk as [->|[->|[->|?%elem_of_nil]]].
    + destruct (truthy _); [|done]. rewrite <- Hc. apply signal_update. intros r. apply merge_keeps_waking.
      intros k Hk. rewrite !elem_of_cons in Hk. by destruct Hk as [->|[->|[->|?%elem_of_nil]]].
    + unfold latest_key. fold a. fold boxes. intros E. destruct (latest_waking a boxes t) as [r|] eqn:El; [|done].
      injection E as E. apply head_Some_elem_of in El. rewrite elem_of_sort_by in El.
      apply elem_of_sql_select in El as [_ Hr]. by apply (Hold r Hr).
Qed.
End cursor.

(** ** Witnesses *)

Definition ex_sig_sha (s : string) : string := "#" +:+ s.

Definition ex_sig_ops : list signal_op := [Issue 10 "abc" " Bot " "bot" (Some "owner")].

Definition ex_sig_row : signal_row :=
  SignalRow 1 "bot" "bot" "#sig_abc" (Some "owner") 10 None None 0.

(** A letter in the mailbox of a polled address. *)
Definition ex_signal_box : table :=
  Table [Row 1 (PKey "fleet" "inbox/1" "inbox" "bot" None) "hello" "" "" "" 5 5 None
           (Some (list_to_map [("kind", JStr "inbox"); ("from", JStr "ann"); ("archived", JBool false)])) None None] 2.

(** The cursor also moves when the newest letter is archived, although nothing arrived. *)
Lemma archive_moves_cursor :
  a_cursor (signal_state ex_sig_sha ∅ "bot" ex_signal_box) = "#bot|inbox/1" ∧
  a_cursor (signal_state ex_sig_sha ∅ "bot" (inbox_archive "inbox/1" None ex_signal_box).2) = "0".
Proof. vm_compute. split; reflexivity. Qed.
