(* ===== verification/Delivery.v ===== *)
(** Delivery (src/server/services/memory_service.py): wakes that are no
    letters, the thread and the seat a reply belongs to, and the cost lines a
    sender's receipt carries.

    [iso] is [datetime.isoformat] (see Presence). The ids drawn for wakes are
    an argument. Texts are ASCII where a pattern looks inside them. *)

From stdpp Require Import base gmap list strings pretty sorting.
From Stdlib Require Import ZArith Lia Ascii.
From S2P Require Import Prelude PyString Json Store ProjectAlias AddressRoles Inbox WatchClaim Seats Presence.

Definition WAKE_SCOPE : string := "wake".
Definition WAKE_TTL_SECONDS : Z := 300.

(** ** Wakes *)

Record wake_args := WakeArgs {
  wk_to : list string;
  wk_ref : string;
  wk_note : string;
  wk_from : option string;
  wk_from_principal : option string;
  wk_relayed_from : option string
}.

Definition wake_meta (now : Z) (a : wake_args) : jobj := list_to_map [
  ("kind", JStr "wake");
  ("ref", JStr (stake 256 (wk_ref a)));
  ("from", jopt (wk_from a));
  ("from_principal", jopt (wk_from_principal a));
  ("relayed_from", jopt (stripped (Some (norm (wk_relayed_from a)))));
  ("created_at", JTime now)].

Definition wake_row (now : Z) (a : wake_args) (target uid : string) : new_row :=
  NewRow (PKey INBOX_NAMESPACE ("wake/" +:+ uid) WAKE_SCOPE target None) (stake 280 (wk_note a)) "" "" ""
    (Some (now + WAKE_TTL_SECONDS)%Z) (Some (wake_meta now a)) None.

(** One row per target, each its own statement; [Raise] is a key already
    taken, with the rows written before it. *)
Fixpoint wake_rows (now : Z) (a : wake_args) (targets : list string) (uids : nat → string) (i : nat) (t : table)
  : outcome table (list string * table) :=
  match targets with
  | [] => Done ([], t)
  | target :: rest =>
      match sql_insert_nothing now (wake_row now a target (uids i)) t with
      | (None, _) => Raise t
      | (Some _, t1) =>
          do! (ids, t2) <- wake_rows now a rest uids (S i) t1;
          Done (("wake/" +:+ uids i) :: ids, t2)
      end
  end.

(** [[t.strip().lower() for t in to if t and t.strip()]] *)
Definition wake_targets (to : list string) : list string :=
  (λ t, lower (strip t)) <$> select (λ t, nonempty (strip t)) to.

Definition wake_send (now : Z) (a : wake_args) (uids : nat → string) (t : table)
  : outcome table (list string * table) :=
  wake_rows now a (wake_targets (wk_to a)) uids 0 t.

Record wake_event := WakeEvent {
  we_id : string;
  we_to : string;
  we_ref : option string;
  we_from : option string;
  we_from_principal : option string;
  we_relayed_from : option string;
  we_note : string;
  we_at : Z
}.

Definition wake_event_of (r : row) : wake_event :=
  let md := r_meta r in
  WakeEvent (r_key r) (r_user r) (py_str md "ref") (py_str md "from") (py_str md "from_principal")
    (py_str md "relayed_from") (r_value r) (r_created r).

(** [expires_at > NOW()], in one of the mailboxes. *)
Definition wake_live (now : Z) (listen : list string) (r : row) : bool :=
  (r_ns r == INBOX_NAMESPACE) && (r_scope r == WAKE_SCOPE) && (r_user r isin listen)
  && match r_expires r with Some e => (now <? e)%Z | None => false end.

(** The reader's own names: its identity and the bare form of it. *)
Definition own_names (reader : option string) : list string :=
  if truthy reader then [norm reader; before "@" (norm reader)] else [].

Definition wakes_reader (own : list string) (since : option Z) (r : row) : bool :=
  match since with Some s => (s <? r_created r)%Z | None => true end
  && negb (norm (py_str (r_meta r) "from") isin own)
  && negb (norm (py_str (r_meta r) "relayed_from") isin own).

Section wakes.
Context (expand : list string → list string).

Definition wake_list_fresh (now : Z) (listen_set : list string) (since : option Z) (reader : option string)
    (t : table) : list wake_event :=
  let listen := lower <$> select nonempty listen_set in
  let listen := listen ++ expand listen in
  if length listen == 0 then []
  else wake_event_of <$> select (wakes_reader (own_names reader) since)
         (take 50 (by_created_desc (sql_select (wake_live now listen) t))).
End wakes.

(** ** Where a reply goes *)

Section replies.
Context (iso : Z → string).

(** The live seat of the parent's sender, when the reply aims at its lane. *)
Definition reply_seat_retarget (now : Z) (in_reply_to : option string) (to : string) (t : table) : option string :=
  if negb (truthy in_reply_to) || negb (nonempty to) then None
  else match head (sql_select (is_message (or_empty in_reply_to)) t) with
  | None => None
  | Some r =>
      let lane := norm (py_str (r_meta r) "from_lane") in
      let seat := before "@" (norm (py_str (r_meta r) "from")) in
      if negb (nonempty lane) || (before "@" (norm (Some to)) != lane) then None
      else if negb (nonempty seat) || (seat == lane) then None
      else match dict_get seat (recipient_liveness iso now [Some seat] t) with
           | None => None
           | Some info =>
               if l_is_stale info || jtruthy (l_farewell_at info) || is_some (l_death info) then None
               else Some seat
           end
  end.
End replies.

(** ** What a message costs *)

Record live_agent := LiveAgent { la_project : string; la_last_active : json }.

(** The agents at work, by identity: fresh, not done, no farewell. *)
Definition fresh_presence (now : Z) (r : row) : bool :=
  any_presence r && (now - PRESENCE_STALE_AFTER_SECONDS <=? r_used r)%Z.

Definition file_agent (d : list (string * live_agent)) (r : row) : list (string * live_agent) :=
  if Presence.is_done r || jtruthy (jget (r_meta r) "farewell_at") then d
  else dict_set (ident_of r) (LiveAgent (lower (r_user r)) (jget (r_meta r) "agent_last_active")) d.

Definition live_agents (now : Z) (t : table) : list (string * live_agent) :=
  foldl file_agent [] (sql_select (fresh_presence now) t).

(** [re.fullmatch(re.escape(addr) + r"-\d+", ident)] *)
Definition numbered (addr ident : string) : bool :=
  match drop_prefix (addr +:+ "-") ident with
  | Some o => isdigit o
  | None => false
  end.

Inductive cost_fact :=
| RoomPost
| WokeNone
| Woke (agents : list string)
| Queued (addr : string) (minutes : Z).

(** [str(n)] of an integer. *)
Definition py_int (z : Z) : string := pretty.pretty z.

Definition cost_line (f : cost_fact) : string :=
  match f with
  | RoomPost => "Room post — the room relay wakes whoever it @-names; engram cannot count that."
  | WokeNone => "Woke 0 agents (fyi) — delivered for their next turn."
  | Woke l =>
      let n := length l in
      "Woke " +:+ py_int (Z.of_nat n) +:+ " agent" +:+ (if n == 1 then "" else "s") +:+
      (if (0 <? n)%nat && (n <=? 8)%nat then ": " +:+ join ", " l +:+ "." else ".")
  | Queued addr m =>
      addr +:+ " has not acted since your previous message (" +:+ py_int m +:+
      " min ago) — this one queues behind it. Sending more will not reach it sooner."
  end.

Section costs.
Context (aliases roles : gmap string string) (owner : option string).

(** Whom an address wakes, among the agents at work but the sender. *)
Definition wakes_agent (addr : string) (e : string * live_agent) : bool :=
  let targets := addr :: match holder roles (Some addr) with
                         | Some h => if nonempty h then [h] else []
                         | None => []
                         end in
  let fam := (match family aliases (Some addr) with [] => [addr] | l => l end) ++ targets in
  (e.1 isin targets) || (la_project e.2 isin fam) || numbered addr e.1.

(** The sender's last letter to the address, this send's own apart. *)
Definition previous_letter (addr me : string) (sent : list string) (r : row) : bool :=
  is_mail r && (r_user r == addr)
  && match md_text (r_meta r) "from" with Some f => before "@" (lower f) == me | None => false end
  && negb (r_key r isin sent).

Definition queued (now : Z) (me : string) (sent : list string) (live : list (string * live_agent)) (t : table)
    (addr : string) : option cost_fact :=
  info ← dict_get addr live;
  match la_last_active info with
  | JTime acted =>
      prev ← head (by_created_desc (sql_select (previous_letter addr me sent) t));
      if (acted <? r_created prev)%Z then Some (Queued addr ((now - r_created prev) / 60)%Z) else None
  | _ => None
  end.

Definition send_cost_facts (now : Z) (recipients : list string) (sender intent : option string)
    (sent : list string) (thread_id : option string) (t : table) : list cost_fact :=
  let recips := (λ r, before "@" (lower (strip r))) <$> select nonempty recipients in
  let owner := norm owner in
  let me := before "@" (norm sender) in
  if length recips == 0 then []
  else if startswith "huddle/" (or_empty thread_id) && nonempty owner && (recips == [owner]) then [RoomPost]
  else
    let live := live_agents now t in
    let woken := select (λ i, i != me)
      (dedup (flat_map (λ addr, fst <$> select (wakes_agent addr) live) recips)) in
    (if lower (or_empty intent) == "fyi" then WokeNone else Woke (sorted woken))
    :: (if nonempty me then omap (queued now me sent live t) recips else []).
End costs.
