(* ===== verification/DeliveryProps.v ===== *)
(** What delivery promises: a wake is heard by those it names, for five
    minutes, and never by its author; a reply to a lane is moved only to a
    seat whose own process was heard from within ten minutes. *)

From stdpp Require Import base gmap list strings pretty sorting.
From Stdlib Require Import ZArith Lia Ascii.
From S2P Require Import Prelude PyString Json Store ProjectAlias ProjectAliasProps AddressRoles Inbox InboxProps.
From S2P Require Import WatchClaim Seats Presence PresenceProps Delivery.

(** ** Wakes *)

Section wakes.
Implicit Types (t : table) (a : wake_args) (uids : nat → string).

(** Ids never drawn before, and never twice. *)
Definition fresh_ids uids t : Prop :=
  Inj eq eq uids ∧ ∀ i r, r ∈ t_rows t → r_key r ≠ "wake/" +:+ uids i.

(** The rows of the wakes still to be sent, from the [i]-th. *)
Definition wake_rows_of (now : Z) a (targets : list string) uids (i : nat) (seq : Z) : list row :=
  imap (λ k target, mk_row (seq + Z.of_nat k) now (wake_row now a target (uids (i + k)))) targets.

Lemma wake_rows_all now a targets uids i t :
  Inj eq eq uids → (∀ k r, i <= k → r ∈ t_rows t → r_key r ≠ "wake/" +:+ uids k) →
  ∃ t', wake_rows now a targets uids i t = Done ((λ r, r_key r) <$> wake_rows_of now a targets uids i (t_seq t), t') ∧
    t_rows t' = t_rows t ++ wake_rows_of now a targets uids i (t_seq t).
Proof.
  intros Hinj. revert i t. induction targets as [|target targets IH]; intros i t Hfresh.
  { exists t. by rewrite app_nil_r. }
  cbn [wake_rows]. unfold sql_insert_nothing.
  destruct (sql_find (n_pk (wake_row now a target (uids i))) t) as [r|] eqn:E.
  { apply sql_find_Some_elem in E as [Hr Hpk]. exfalso. apply (Hfresh i r); [lia|done|]. by rewrite Hpk. }
  destruct (IH (S i) (sql_append now (wake_row now a target (uids i)) t)) as (t' & Hrun & Hrows).
  { intros k r Hk [Hr| ->]%elem_of_append; [by apply Hfresh; [lia|]|]. cbn.
    intros [=He%(inj uids)]. lia. }
  rewrite Hrun. cbn [obind]. exists t'. unfold wake_rows_of in *. cbn [imap sql_append t_seq t_rows] in *.
  assert (imap (λ k tg, mk_row (t_seq t + 1 + Z.of_nat k) now (wake_row now a tg (uids (S i + k)))) targets =
    imap ((λ k tg, mk_row (t_seq t + Z.of_nat k) now (wake_row now a tg (uids (i + k)))) ∘ S) targets) as Heq.
  { apply imap_ext. intros k x _. cbn [compose]. f_equal; [lia|]. do 2 f_equal. lia. }
  rewrite Heq in *. rewrite Z.add_0_r, Nat.add_0_r. split; [by rewrite fmap_cons|].
  rewrite Hrows. by rewrite <- app_assoc.
Qed.

Lemma elem_of_fresh_wakes expand now listen since reader t e :
  let boxes := lower <$> select nonempty listen in
  let boxes := boxes ++ expand boxes in
  length (sql_select (wake_live now boxes) t) <= 50 →
  e ∈ wake_list_fresh expand now listen since reader t ↔
    ∃ r, r ∈ t_rows t ∧ wake_live now boxes r = true ∧ wakes_reader (own_names reader) since r = true ∧
      e = wake_event_of r.
Proof.
  cbv zeta. set (boxes := _ ++ _). intros Hlen. unfold wake_list_fresh. fold boxes.
  destruct (length boxes == 0) eqn:E.
  - apply bool_decide_eq_true, length_zero_iff_nil in E. split; [by intros ?%elem_of_nil|].
    intros (r & _ & Hl & _). rewrite E in Hl. unfold wake_live in Hl.
    rewrite (bool_decide_eq_false_2 (r_user r ∈ [])) in Hl by apply not_elem_of_nil.
    by rewrite andb_false_r in Hl.
  - rewrite take_ge by (by rewrite by_created_desc_Permutation). rewrite list_elem_of_fmap. split.
    + intros (r & -> & [Hw Hr]%elem_of_select). rewrite by_created_desc_Permutation in Hr.
      apply elem_of_sql_select in Hr as [Hl Hr]. by exists r.
    + intros (r & Hr & Hl & Hw & ->). exists r. split; [done|]. apply elem_of_select. split; [done|].
      rewrite by_created_desc_Permutation. by apply elem_of_sql_select.
Qed.

Lemma wake_meta_str now a :
  py_str (Some (wake_meta now a)) "ref" = Some (stake 256 (wk_ref a)) ∧
  py_str (Some (wake_meta now a)) "from" = wk_from a ∧
  py_str (Some (wake_meta now a)) "from_principal" = wk_from_principal a ∧
  py_str (Some (wake_meta now a)) "relayed_from" = stripped (Some (norm (wk_relayed_from a))).
Proof.
  unfold py_str, wake_meta. split_and!; [done|..]; cbn -[stripped norm stake];
    [destruct (wk_from a)|destruct (wk_from_principal a)|destruct (stripped _)]; done.
Qed.

Lemma norm_stripped v : norm (stripped v) = norm v.
Proof.
  unfold stripped. destruct (nonempty _) eqn:E; unfold norm.
  - change (or_empty (Some (strip (or_empty v)))) with (strip (or_empty v)). by rewrite strip_idem.
  - apply not_true_iff_false in E. rewrite nonempty_true in E. apply dec_stable in E. by rewrite E.
Qed.

Lemma wake_live_sent later boxes now a target uid seq :
  wake_live later boxes (mk_row seq now (wake_row now a target uid)) = true ↔
    target ∈ boxes ∧ (later < now + 300)%Z.
Proof.
  unfold wake_live. cbn [mk_row r_pk n_pk wake_row k_ns k_scope k_user r_expires n_expires].
  rewrite !andb_true_iff, !bool_decide_eq_true, Z.ltb_lt. unfold WAKE_TTL_SECONDS. tauto.
Qed.

Lemma wakes_reader_sent now a target uid seq since reader :
  wakes_reader (own_names reader) since (mk_row seq now (wake_row now a target uid)) = true ↔
    (∀ s, since = Some s → (s < now)%Z) ∧
    norm (wk_from a) ∉ own_names reader ∧ norm (wk_relayed_from a) ∉ own_names reader.
Proof.
  unfold wakes_reader. destruct (wake_meta_str now a) as (_ & Hf & _ & Hrel).
  cbn [mk_row r_meta n_meta wake_row r_created]. rewrite Hf, Hrel, norm_stripped, norm_idem.
  rewrite !andb_true_iff, !negb_true_iff, !bool_decide_eq_false.
  destruct since as [s|]; [rewrite Z.ltb_lt|]; naive_solver.
Qed.

(** A wake is heard, briefly, and not by its author. Under ids never drawn
    before, a wake is always recorded: one row for each address it names, its
    note and its reference cut to their limits. A session that watches one of
    those addresses, with at most fifty wakes waiting in its mailboxes, is
    shown it exactly while less than five minutes have passed, if it came
    after the session's cursor and neither its author nor its declared author
    is the session, by its full or its bare name. *)
Lemma wake_heard now a uids t :
  fresh_ids uids t →
  ∃ news t', wake_send now a uids t = Done ((λ r, r_key r) <$> news, t') ∧ t_rows t' = t_rows t ++ news ∧
    length news = length (wake_targets (wk_to a)) ∧
    ∀ k y target, news !! k = Some y → wake_targets (wk_to a) !! k = Some target →
      wake_event_of y = WakeEvent ("wake/" +:+ uids k) target (Some (stake 256 (wk_ref a))) (wk_from a)
        (wk_from_principal a) (stripped (Some (norm (wk_relayed_from a)))) (stake 280 (wk_note a)) now ∧
      ∀ expand later listen since reader,
        let boxes := lower <$> select nonempty listen in
        let boxes := boxes ++ expand boxes in
        length (sql_select (wake_live later boxes) t') <= 50 →
        wake_event_of y ∈ wake_list_fresh expand later listen since reader t' ↔
          target ∈ boxes ∧ (later < now + 300)%Z ∧ (∀ s, since = Some s → (s < now)%Z) ∧
          norm (wk_from a) ∉ own_names reader ∧ norm (wk_relayed_from a) ∉ own_names reader.
Proof.
  intros [Hinj Hfresh]. set (news := wake_rows_of now a (wake_targets (wk_to a)) uids 0 (t_seq t)).
  destruct (wake_rows_all now a (wake_targets (wk_to a)) uids 0 t Hinj) as (t' & Hrun & Hrows).
  { intros k r _. apply Hfresh. }
  exists news, t'. split_and!; [done|done|apply length_imap|].
  intros k y target Hy Htg. unfold news, wake_rows_of in Hy. rewrite list_lookup_imap, Htg in Hy.
  cbn in Hy. injection Hy as <-. set (y := mk_row _ _ _).
  assert (wake_event_of y = WakeEvent ("wake/" +:+ uids k) target (Some (stake 256 (wk_ref a))) (wk_from a)
    (wk_from_principal a) (stripped (Some (norm (wk_relayed_from a)))) (stake 280 (wk_note a)) now) as Hev.
  { destruct (wake_meta_str now a) as (E1 & E2 & E3 & E4). unfold wake_event_of.
    change (r_meta y) with (Some (wake_meta now a)). by rewrite E1, E2, E3, E4. }
  split; [done|]. intros expand later listen since reader. cbv zeta. intros Hlen.
  rewrite (elem_of_fresh_wakes _ _ _ _ _ _ _ Hlen). set (boxes := (lower <$> _) ++ _) in *.
  pose proof (wake_live_sent later boxes now a target (uids k) (t_seq t + Z.of_nat k)%Z) as HL.
  pose proof (wakes_reader_sent now a target (uids k) (t_seq t + Z.of_nat k)%Z since reader) as HW.
  fold y in HL, HW. trans (wake_live later boxes y = true ∧ wakes_reader (own_names reader) since y = true);
    [|rewrite HL, HW; tauto].
  assert (y ∈ t_rows t') as Hin.
  { rewrite Hrows. apply elem_of_app. right. apply (list_elem_of_lookup_2 _ k). unfold wake_rows_of.
    by rewrite list_lookup_imap, Htg. }
  split.
  - intros (r & Hr & Hl & Hw & Heq). rewrite Hev in Heq.
    assert (r_key r = "wake/" +:+ uids k) as Hkey by (by injection Heq).
    rewrite Hrows in Hr. apply elem_of_app in Hr as [Hr|Hr]; [by destruct (Hfresh k r Hr)|].
    apply list_elem_of_lookup in Hr as [k' Hr]. unfold wake_rows_of in Hr.
    rewrite list_lookup_imap in Hr. destruct (_ !! k') as [tg|] eqn:Etg; [|done]. injection Hr as <-.
    cbn in Hkey. injection Hkey as Hu%(inj uids). subst k'. rewrite Htg in Etg. by injection Etg as <-.
  - intros (Hl & Hw). by exists y.
Qed.

End wakes.

(** ** Replies *)

Lemma before_lowered c s : lower s = s → lower (before c s) = before c s.
Proof.
  unfold before, lower. induction s as [|d s IH]; [done|]. cbn [smap split1]. intros [= Hd Hs].
  destruct (c == d); [done|]. specialize (IH Hs). destruct (split1 c s) as [l r]. cbn in *. by rewrite Hd, IH.
Qed.

Section replies.
Context (iso : Z → string).
Implicit Types (t : table).

(** What a retargeted reply rests on. *)
Lemma retarget_cases now in_reply_to to t seat :
  reply_seat_retarget iso now in_reply_to to t = Some seat →
  ∃ id parent info, in_reply_to = Some id ∧ head (sql_select (is_message id) t) = Some parent ∧
    let lane := norm (py_str (r_meta parent) "from_lane") in
    seat = before "@" (norm (py_str (r_meta parent) "from")) ∧
    before "@" (norm (Some to)) = lane ∧ lane ≠ "" ∧ seat ≠ "" ∧ seat ≠ lane ∧
    dict_get seat (recipient_liveness iso now [Some seat] t) = Some info ∧
    l_is_stale info = false ∧ jtruthy (l_farewell_at info) = false ∧ l_death info = None.
Proof.
  unfold reply_seat_retarget. destruct (_ || _) eqn:E0; [done|].
  destruct in_reply_to as [id|]; [|done]. cbn [or_empty].
  destruct (head _) as [parent|] eqn:Eh; [|done]. cbv zeta.
  destruct (_ || _) eqn:E1 at 1; [done|]. destruct (_ || _) eqn:E2 at 1; [done|].
  destruct (dict_get _ _) as [info|] eqn:Ei; [|done].
  destruct (l_is_stale info || _ || _) eqn:E3; [done|]. intros [= <-].
  exists id, parent, info. split; [done|]. split; [done|].
  apply orb_false_iff in E1 as [H1 H2], E2 as [H3 H4], E3 as [[H5 H6]%orb_false_iff H7].
  rewrite negb_false_iff, nonempty_true in H1, H3. rewrite negb_false_iff in H2. bprop.
  split_and!; try done. by destruct (l_death info).
Qed.

(** A reply is moved off a lane only towards a live sender. When the send
    moves a reply to a seat, the letter replied to is there, it named the
    target as its lane, and its sender's bare name is the seat and not that
    lane; and the freshest presence row that can answer for the seat was
    touched less than ten minutes ago, has said no farewell, and has no death
    certificate on record that nothing lived after. Nothing but the seat's
    own evidence moves a reply: a letter that names no lane, a target that is
    not it, or a seat never heard of leaves the target alone. *)
Lemma retarget_to_live_sender now in_reply_to to t seat :
  presence_named t →
  reply_seat_retarget iso now in_reply_to to t = Some seat →
  ∃ id parent r, in_reply_to = Some id ∧ head (sql_select (is_message id) t) = Some parent ∧
    (norm (py_str (r_meta parent) "from_lane") = before "@" (norm (Some to)) ∧ before "@" (norm (Some to)) ≠ "" ∧
     before "@" (norm (py_str (r_meta parent) "from")) = seat ∧ seat ≠ before "@" (norm (Some to)) ∧ seat ≠ "") ∧
    (r ∈ t_rows t ∧ any_presence r = true ∧ answers_for seat r ∧
     ∀ r', r' ∈ t_rows t → any_presence r' = true → answers_for seat r' → (r_used r' <= r_used r)%Z) ∧
    (now - r_used r < 600)%Z ∧ jtruthy (jget (r_meta r) "farewell_at") = false ∧
    _death_for (ident_of r) (deaths_named iso [seat] t) [Some (r_used r); (_watcher_state (r_meta r) now).2] = None.
Proof.
  intros Hn (id & parent & info & -> & Hp & Hlane)%retarget_cases. cbv zeta in Hlane.
  destruct Hlane as (Hs & Hto & Hne & Hs0 & Hsl & Hi & Hst & Hf & Hd).
  pose proof (liveness_row iso now [Some seat] t seat Hn) as H. cbv zeta beta in H. rewrite Hi in H.
  destruct H as (_ & r & (Hr & Hpr & Ha) & Hmax & ->). exists id, parent, r.
  assert (lower seat = seat) as Hls by (rewrite Hs; apply before_lowered, lower_norm).
  unfold liveness_of in Hst, Hf, Hd. destruct (_watcher_state (r_meta r) now) as [al seen] eqn:Ew.
  cbn [l_is_stale l_farewell_at l_death] in Hst, Hf, Hd.
  assert ((λ a, lower (or_empty a)) <$> select truthy [Some seat] = [seat]) as Hsel.
  { assert (truthy (Some seat) = true) as Ht by (by destruct seat).
    rewrite select_cons, Ht. change ([lower seat] = [seat]). by rewrite Hls. }
  rewrite Hsel in Hd. apply Z.leb_gt in Hst. rewrite Hto.
  split_and!; try done. intros r' Hr' Hp' Ha'. by apply Hmax.
Qed.
End replies.

(** ** Concrete runs *)

Definition ex_wake : wake_args := WakeArgs [" Tide "; "moon"] "huddle/7" "look" (Some "ann") (Some "fleet") None.
Definition ex_uids (i : nat) : string := pretty i.

Definition ex_ask (from lane : string) : send_args :=
  SendArgs "hal" "please look" "s" (Some from) None None None false None [] None None None (Some lane) None None false None.
Definition ex_replied (from : string) : table :=
  match inbox_send 1000 "1" (ex_ask from "tide-claude") ex_seated with Done (_, t) => t | Raise _ => empty_table end.

Lemma ex_replied_named : presence_named (ex_replied "Tide-Claude-2@hosta").
Proof.
  intros r Hr Hp. vm_compute in Hr. apply elem_of_cons in Hr as [->|Hr].
  - split; [by exists "tide-claude-2"|reflexivity].
  - apply list_elem_of_singleton in Hr as ->. discriminate Hp.
Qed.

(** A sender that holds no seat signs with its project's name, and the
    project's name is answered for by any of its sessions: a reply to its lane
    is then moved to the whole project. *)
Lemma retarget_widens :
  reply_seat_retarget pretty 1500 (Some "inbox/1") "tide-claude" (ex_replied "tide@hostb") = Some "tide".
Proof. vm_compute. reflexivity. Qed.
