(* ===== verification/Send.v ===== *)
(** The send route (src/server/routers/memory.py, [send_inbox]): the gates a
    message passes at the door, whose authority it carries, and the letters
    it becomes.

    The handler reads the project aliases, the role holders and the logins'
    names as the caller's refresh left them. The ids drawn for the letters and
    for a new thread are arguments. The advice texts (guidance) are not
    modelled; the warnings are, as data. Bodies are ASCII where the mention
    pattern looks inside them. *)

From stdpp Require Import base gmap list strings pretty sorting.
From Stdlib Require Import ZArith Lia Ascii.
From S2P Require Import Prelude PyString Json Store Identity ProjectAlias AddressRoles Principals Auth Inbox.
From S2P Require Import WatchClaim Seats Presence Register Delivery.

(** ** Settings and requests *)

(** The settings the route reads, the authentication ones included. *)
Record send_settings := SendSettings {
  ss_auth : auth_settings;
  ss_require_qualified_admin : bool;
  ss_huddle_fanout_refusal : bool
}.

Record send_request := SendRequest {
  sq_to : list string;
  sq_body : string;
  sq_subject : string;
  sq_from : option string;
  sq_thread_id : option string;
  sq_supersedes : option string;
  sq_intent : option string;
  sq_from_lane : option string;
  sq_in_reply_to : option string;
  sq_huddle_lifecycle : bool;
  sq_relayed_from : option string
}.

(** The provenance headers. *)
Record provenance := Provenance {
  pv_machine : option string;
  pv_model : option string;
  pv_model_source : option string;
  pv_project : option string
}.

(** ** Room mentions *)

(** The text after the next [q], if there is one. *)
Fixpoint after_quote (q : ascii) (s : string) : option string :=
  match s with
  | EmptyString => None
  | String c s' => if c == q then Some s' else after_quote q s'
  end.

(** [_ROOM_QUOTED_RE.sub(" ", s)]: each text in backticks or double quotes becomes a blank. *)
Fixpoint unquote (fuel : nat) (s : string) : string :=
  match fuel, s with
  | S fuel', String c s' =>
      if c isin ["`"; "034"]%char then
        match after_quote c s' with
        | Some rest => String " " (unquote fuel' rest)
        | None => String c (unquote fuel' s')
        end
      else String c (unquote fuel' s')
  | _, _ => ""
  end.

Definition word_char (c : ascii) : bool := is_alnum_char c || (c == "_"%char).
Definition mention_char (c : ascii) : bool := word_char c || (c isin ["."; "@"; "-"]%char).

Fixpoint take_while (p : ascii → bool) (s : string) : string :=
  match s with
  | String c s' => if p c then String c (take_while p s') else ""
  | EmptyString => ""
  end.

(** [_ROOM_MENTION_RE.findall(s)]: an [@] not after a word character or another
    [@], a letter or digit, and the longest run of name characters. [skip] is
    how much of the last match is still to be passed over. *)
Fixpoint mentions (skip : nat) (prev : option ascii) (s : string) : list string :=
  match s with
  | EmptyString => []
  | String c s' =>
      match skip with
      | S k => mentions k (Some c) s'
      | O =>
          let free := match prev with Some p => negb (word_char p || (p == "@"%char)) | None => true end in
          match s' with
          | String d _ =>
              if (c == "@"%char) && free && is_alnum_char d
              then let name := take_while mention_char s' in
                   name :: mentions (String.length name) (Some c) s'
              else mentions 0 (Some c) s'
          | EmptyString => []
          end
      end
  end.

Definition _room_mentions (body : string) : list string :=
  mentions 0 None (unquote (S (String.length body)) body).

(** ** Participants *)

(** [s or None] *)
Definition nullable (s : string) : option string := if nonempty s then Some s else None.

Definition _loose_address (address : option string) : option string :=
  if negb (truthy address) then None
  else
    let a := norm address in
    if negb (nonempty a) || startswith "machine:" a then nullable a
    else nullable (before "@" a).

Definition participant (addr : option string) : option string :=
  match _loose_address addr with
  | Some loose => if is_unqualified_admin loose && has_char "@" (or_empty addr)
                  then nullable (norm addr) else Some loose
  | None => None
  end.

Definition _participant_set (recipients : list string) (sender : option string) : list string :=
  dedup (omap participant ((Some <$> recipients) ++ [sender])).

(** ** Answers *)

Inductive send_refusal :=
| NoAccess (e : access_error)             (* 403 *)
| BadAddress (e : address_error)          (* 422 *)
| ChannelRetired (targets : list string)  (* 409 *)
| BareAdmin                               (* 409 *)
| NoMention                               (* 422 *)
| FanoutRetired (targets : list string)   (* 409 *)
| SendFailed.                             (* 500 *)

Inductive warning :=
| RelayReplaced (claimed owner : string)
| RelayIgnored (claimed sender : string)
| RetargetedTo (seat lane : string)
| RenamedTo (old new : string)
| OutsideRoom (addr : string)
| SilentRecipient (addr : string) (info : liveness)
| UnknownRoot (text : string).

Record send_response := SendResponse {
  sr_id : string;
  sr_ids : option (list string);
  sr_corrected_from : option string;
  sr_warnings : list warning;
  sr_group_fyi : bool;
  sr_cost : list cost_fact
}.

Inductive send_answer := Sent (r : send_response) | NotSent (why : send_refusal).

(** ** The gates *)

(** A name read off the settings or the sender: [(x or "").strip().lower()]. *)
Definition owner_name (cfg : send_settings) : string := norm (s_owner_principal_name (ss_auth cfg)).

Definition principal_name (p : option principal) : string := norm (pd_name <$> p).

Fixpoint autocorrect_all (raw : list string) : outcome address_error (list (string * option string)) :=
  match raw with
  | [] => Done []
  | t :: rest => do! c <- autocorrect_address t; do! cs <- autocorrect_all rest; Done (c :: cs)
  end.

(** One target under its current name, each name once, with the rename noted. *)
Definition rename_one (aliases : gmap string string) (acc : list (string * option string) * list warning)
    (c : string * option string) : list (string * option string) * list warning :=
  let '(renamed, notes) := acc in
  let now := or_empty (canonical_address aliases (Some c.1)) in
  ((if now isin (fst <$> renamed) then renamed else renamed ++ [(now, c.2)]),
   (if now != c.1 then notes ++ [RenamedTo c.1 now] else notes)).

Definition rename_all (aliases : gmap string string) (cs : list (string * option string))
  : list (string * option string) * list warning :=
  foldl (rename_one aliases) ([], []) cs.

Definition in_room (rq : send_request) : bool := startswith "huddle/" (or_empty (sq_thread_id rq)).

(** ROOM-MENTION-1: an agent's post to the room's owner that names nobody. *)
Definition unmentioned (cfg : send_settings) (p : option principal) (rq : send_request) (targets : list string)
  : bool :=
  let owner := owner_name cfg in
  nonempty owner && in_room rq && negb (sq_huddle_lifecycle rq) && (principal_name p != owner)
  && ((before "@" <$> targets) == [owner]) && (length (_room_mentions (sq_body rq)) == 0).

(** Band D 10d: the owner login's room fan-out to anybody but the owner. *)
Definition fanout_refused (cfg : send_settings) (p : option principal) (rq : send_request) (targets : list string)
  : list string :=
  let owner := owner_name cfg in
  if ss_huddle_fanout_refusal cfg && nonempty owner && is_some p
     && (lower (or_empty (pd_name <$> p)) == owner) && in_room rq && negb (sq_huddle_lifecycle rq)
  then select (λ t, before "@" t != owner) targets else [].

(** ** Authorship *)

Record authorship := Authorship {
  au_label : option string;
  au_relayed_from : option string;
  au_authority : bool;
  au_warning : option warning
}.

Definition is_relay (cfg : send_settings) (p : option principal) : bool :=
  match p with Some pr => is_owner_relay (ss_auth cfg) pr | None => false end.

Definition is_admin_sender (p : option principal) : bool :=
  match p with Some pr => pd_is_admin pr | None => false end.

Definition authorship_of (cfg : send_settings) (p : option principal) (rq : send_request) : authorship :=
  let claimed := nullable (norm (sq_relayed_from rq)) in
  let own_label := py_or (nullable (strip (or_empty (sq_from rq)))) in
  if is_relay cfg p then
    let owner := owner_name cfg in
    Authorship (own_label (Some owner)) (Some owner) true
      (match claimed with
       | Some c => if c != owner then Some (RelayReplaced c owner) else None
       | None => None
       end)
  else
    let label := own_label (pd_name <$> p) in
    match claimed with
    | Some c =>
        if is_admin_sender p then Authorship label (Some c) (c == principal_name p) None
        else Authorship label None false (Some (RelayIgnored c (principal_name p)))
    | None => Authorship label None (is_admin_sender p) None
    end.

(** ** The letters *)

(** GROUP-FYI-1: a group send with no intent of its own goes as [fyi]. *)
Definition group_fyi (cfg : send_settings) (p : option principal) (rq : send_request) (fanout : bool) : bool :=
  fanout && negb (nonempty (strip (or_empty (sq_intent rq)))) && negb (sq_huddle_lifecycle rq)
  && negb (nonempty (owner_name cfg) && (principal_name p == owner_name cfg)).

Definition letter_args (p : option principal) (rq : send_request) (pv : provenance) (au : authorship)
    (thread_id : option string) (participants : list string) (intent : option string) (first : bool)
    (target : string) : send_args :=
  SendArgs target (sq_body rq) (sq_subject rq) (au_label au) thread_id
    (if first then sq_supersedes rq else None) (pd_name <$> p) (au_authority au) intent participants
    (pv_machine pv) (pv_model pv) (pv_model_source pv) (sq_from_lane rq)
    (nullable (norm (pv_project pv))) (sq_in_reply_to rq) (sq_huddle_lifecycle rq) (au_relayed_from au).

(** The letters one after the other; a failing insert keeps those before it. *)
Fixpoint send_letters (now : Z) (args : bool → string → send_args) (targets : list string) (uids : nat → string)
    (i : nat) (t : table) : outcome table (list string * table) :=
  match targets with
  | [] => Done ([], t)
  | target :: rest =>
      match inbox_send now (uids i) (args (i =? 0)%nat target) t with
      | Raise _ => Raise t
      | Done (id, t1) =>
          do! (ids, t2) <- send_letters now args rest uids (S i) t1;
          Done (id :: ids, t2)
      end
  end.

(** ** The route *)

Section route.
Context (iso : Z → string) (cfg : send_settings).
Context (aliases roles : gmap string string) (people : list string).

(** A recipient that expects to be woken and may not be there. *)
Definition worth_a_warning (info : liveness) : bool :=
  l_is_stale info || (l_watcher_alive info == Some false) || jtruthy (l_farewell_at info) || is_some (l_death info).

Definition silent_recipients (now : Z) (intent : option string) (targets : list string) (t : table) : list warning :=
  if lower (or_empty intent) == "fyi" then []
  else
    let owner := owner_name cfg in
    let asked := select (λ a, negb (nonempty owner && (before "@" a == owner))) targets in
    (λ ai, SilentRecipient ai.1 ai.2)
      <$> select (λ ai, worth_a_warning ai.2) (recipient_liveness iso now (Some <$> asked) t).

(** HUD-ROUTE-1: room mail that will not reach the room. *)
Definition outside_room (p : option principal) (rq : send_request) (targets : list string) : list warning :=
  let owner := owner_name cfg in
  if nonempty owner && in_room rq && negb (sq_huddle_lifecycle rq) && (principal_name p != owner)
  then OutsideRoom <$> select (λ a, before "@" a != owner) targets else [].

Definition option_list {A} (o : option A) : list A := match o with Some x => [x] | None => [] end.

(** What follows once the recipients are settled and let through. *)
Definition deliver (now : Z) (p : option principal) (pv : provenance) (rq : send_request)
    (corrected : list (string * option string)) (notes : list warning) (retarget : option warning)
    (uids : nat → string) (thread_uid : string) (t : table) : send_answer * table :=
  let targets := fst <$> corrected in
  let fanout := (1 <? length targets)%nat in
  let thread := if negb (truthy (sq_thread_id rq)) && truthy (sq_in_reply_to rq)
                then reply_thread_of (sq_in_reply_to rq) t else sq_thread_id rq in
  let au := authorship_of cfg p rq in
  let participants := if fanout then _participant_set targets (au_label au) else [] in
  let thread := if fanout then py_or thread (Some ("inbox/" +:+ thread_uid)) else thread in
  let fyi := group_fyi cfg p rq fanout in
  let intent := if fyi then Some "fyi" else sq_intent rq in
  match send_letters now (letter_args p rq pv au thread participants intent) targets uids 0 t with
  | Raise t' => (NotSent SendFailed, t')
  | Done (ids, t') =>
      let cost := send_cost_facts aliases roles (s_owner_principal_name (ss_auth cfg)) now targets (au_label au)
                    intent ids (sq_thread_id rq) t' in
      let warnings := option_list (au_warning au) ++ option_list retarget ++ notes
                      ++ outside_room p rq targets ++ silent_recipients now intent targets t'
                      ++ (UnknownRoot <$> unknown_root_advisories people (Some <$> targets) t') in
      (Sent (SendResponse (or_empty (head ids)) (if (1 <? length ids)%nat then Some ids else None)
         (head corrected ≫= snd) warnings fyi cost), t')
  end.

(** A reply aimed at a lane whose sender's own seat is live goes to the seat. *)
Definition retargeted (now : Z) (rq : send_request) (corrected : list (string * option string)) (t : table)
  : list (string * option string) * option warning :=
  match corrected with
  | [(target, _)] =>
      match (if truthy (sq_in_reply_to rq) then reply_seat_retarget iso now (sq_in_reply_to rq) target t else None) with
      | Some seat => if nonempty seat then ([(seat, None)], Some (RetargetedTo seat target)) else (corrected, None)
      | None => (corrected, None)
      end
  | _ => (corrected, None)
  end.

Definition send_inbox (now : Z) (p : option principal) (pv : provenance) (rq : send_request)
    (uids : nat → string) (thread_uid : string) (t : table) : send_answer * table :=
  match check_namespace_access (ss_auth cfg) p INBOX_NAMESPACE "read" false with
  | Raise e => (NotSent (NoAccess e), t)
  | Done _ =>
  match autocorrect_all (sq_to rq) with
  | Raise e => (NotSent (BadAddress e), t)
  | Done corrected =>
      let channels := select (startswith "#") (fst <$> corrected) in
      if negb (length channels == 0) then (NotSent (ChannelRetired channels), t)
      else
        let '(corrected, notes) := rename_all aliases corrected in
        let '(corrected, retarget) := retargeted now rq corrected t in
        let targets := fst <$> corrected in
        if ss_require_qualified_admin cfg && existsb is_unqualified_admin targets then (NotSent BareAdmin, t)
        else if unmentioned cfg p rq targets then (NotSent NoMention, t)
        else match fanout_refused cfg p rq targets with
             | [] => deliver now p pv rq corrected notes retarget uids thread_uid t
             | blocked => (NotSent (FanoutRetired blocked), t)
             end
  end
  end.
End route.
