(* ===== verification/SendProps.v ===== *)
(** What the send route promises: who may carry authority, which letters a
    message becomes, what a refusal leaves behind, and when a reply is moved
    from a lane to a seat. *)

From stdpp Require Import base gmap list strings pretty sorting.
From Stdlib Require Import ZArith Lia Ascii.
From S2P Require Import Prelude PyString Json Store Identity ProjectAlias ProjectAliasProps AddressRoles Principals Auth.
From S2P Require Import Inbox InboxProps WatchClaim Seats Presence PresenceProps Register MailSignal Delivery Send.

(** ** The letters a send writes *)

Definition lifecycle_keys : list string := ["status"; "superseded_by"].

(** The same row, but for what superseding it stamps. *)
Definition kept (x y : row) : Prop :=
  y = set_meta (r_meta y) x ∧ ∀ k, k ∉ lifecycle_keys → md_get (r_meta y) k = md_get (r_meta x) k.

(** The row of one letter, whatever its lifecycle has become. *)
Definition letter (now : Z) (uid : string) (a : send_args) (y : row) : Prop :=
  r_pk y = PKey INBOX_NAMESPACE (mail_key uid) INBOX_SCOPE (lower (sd_to a)) None ∧
  r_created y = now ∧ r_value y = _strip_toolcall_trailer (sd_body a) ∧
  ∀ k, k ∉ lifecycle_keys → md_get (r_meta y) k = mail_meta a !! k.

#[global] Instance kept_preorder : PreOrder kept.
Proof.
  split; [intros x; split; [by destruct x|done]|].
  intros x y z [-> H1] [-> H2]. split; [done|]. intros k Hk. by rewrite <- H1, <- H2.
Qed.

Lemma letter_kept now uid a x y : letter now uid a x → kept x y → letter now uid a y.
Proof.
  intros (Hpk & Hc & Hv & Hm) [-> Hk]. unfold letter. cbn [set_meta r_pk r_created r_value r_meta] in *.
  split_and!; [done..|]. intros k Hnk. by rewrite Hk, Hm.
Qed.

Lemma mark_kept stamp (p : row → bool) x :
  (∀ k, k ∉ lifecycle_keys → stamp !! k = None) →
  kept x (if p x then set_meta (md_merge (r_meta x) stamp) x else x).
Proof.
  intros Hs. destruct (p x); [|done]. split; [done|]. intros k Hk. cbn [set_meta r_meta].
  rewrite md_get_merge. by rewrite Hs.
Qed.

Lemma inbox_send_rows now uid a t id t' :
  inbox_send now uid a t = Done (id, t') →
  id = mail_key uid ∧ ∃ olds y, t_rows t' = olds ++ [y] ∧ Forall2 kept (t_rows t) olds ∧ letter now uid a y.
Proof.
  unfold inbox_send. cbv zeta. set (n := NewRow _ _ _ _ _ _ _ _). unfold sql_insert_nothing.
  destruct (sql_find (n_pk n) t); [done|]. intros [= <- <-]. split; [done|].
  assert (letter now uid a (mk_row (t_seq t) now n)) as Hl by done.
  destruct (truthy (sd_supersedes a)).
  - cbn [sql_update sql_append t_rows]. unfold update_where. rewrite map_app. cbn [map].
    eexists _, _. split; [reflexivity|].
    assert (∀ k, k ∉ lifecycle_keys →
      (<["status" := JStr INBOX_SUPERSEDED]> {["superseded_by" := JStr (mail_key uid)]} : jobj) !! k = None) as Hs.
    { intros k Hk. unfold lifecycle_keys in Hk. rewrite !not_elem_of_cons in Hk. destruct Hk as (? & ? & _).
      by simplify_map_eq. }
    split.
    + apply Forall2_fmap_r, Forall2_same. intros x _. by apply mark_kept.
    + eapply letter_kept; [exact Hl|]. by apply mark_kept.
  - cbn [sql_append t_rows]. eexists _, _. split; [reflexivity|]. split; [|exact Hl].
    done.
Qed.

(** The letters written for a first part of the targets. *)
Fixpoint letters (now : Z) (args : bool → string → send_args) (targets : list string) (uids : nat → string)
    (i : nat) (news : list row) : Prop :=
  match targets, news with
  | _, [] => True
  | [], _ :: _ => False
  | target :: targets', y :: news' =>
      letter now (uids i) (args (i =? 0)%nat target) y ∧ letters now args targets' uids (S i) news'
  end.

Lemma letters_kept now args targets uids i news news' :
  letters now args targets uids i news → Forall2 kept news news' → letters now args targets uids i news'.
Proof.
  revert i news news'. induction targets as [|target targets IH]; intros i news news' Hl Hk;
    destruct Hk as [|y y' news news' Hy Hk]; try done.
  destruct Hl as [Hl1 Hl2]. split; [by eapply letter_kept|by eapply IH].
Qed.

(** Written or failed, the route only adds letters and stamps what it supersedes. *)
Lemma send_letters_rows now args targets uids i t o :
  send_letters now args targets uids i t = o →
  let t' := match o with Raise t' => t' | Done (_, t') => t' end in
  ∃ olds news, t_rows t' = olds ++ news ∧ Forall2 kept (t_rows t) olds ∧ letters now args targets uids i news ∧
    match o with
    | Done (ids, _) => length news = length targets ∧ ids = (λ y, r_key y) <$> news
    | Raise _ => True
    end.
Proof.
  revert i t o. induction targets as [|target targets IH]; intros i t o <-.
  - cbn. exists (t_rows t), []. rewrite app_nil_r. by split_and!.
  - cbn [send_letters]. destruct (inbox_send _ _ _ t) as [[id t1]|e] eqn:Es; cbn.
    2:{ exists (t_rows t), []. rewrite app_nil_r. by split_and!. }
    apply inbox_send_rows in Es as [-> (olds & y & E1 & Hk1 & Hy)].
    destruct (IH (S i) t1 _ eq_refl) as (olds2 & news & E2 & Hk2 & Hl & Hres).
    rewrite E1 in Hk2. apply Forall2_app_inv_l in Hk2 as (olds' & ys & Hk3 & Hk4 & ->).
    apply Forall2_cons_inv_l in Hk4 as (y' & ys' & Hyy & Hnil & ->). apply Forall2_nil_inv_l in Hnil as ->.
    exists olds', (y' :: news).
    assert (Forall2 kept (t_rows t) olds') as Hk5 by (by etrans).
    assert (letter now (uids i) (args (i =? 0) target) y') as Hy' by (by eapply letter_kept).
    destruct (send_letters now args targets uids (S i) t1) as [[ids t2]|t2]; cbn [obind] in *;
      rewrite <- app_assoc in E2; cbn [app] in E2; [|by split_and!].
    destruct Hres as [Hlen ->]. split_and!; [done..|cbn; lia|].
    cbn. f_equal. destruct Hy' as (Hpk & _). by rewrite Hpk.
Qed.

Lemma letters_each now args targets uids i news y :
  letters now args targets uids i news → y ∈ news →
  ∃ k first target, target ∈ targets ∧ letter now (uids k) (args first target) y.
Proof.
  revert i news. induction targets as [|target targets IH]; intros i [|z news] Hl Hy; try done;
    [by apply elem_of_nil in Hy..|]. destruct Hl as [Hz Hl].
  apply elem_of_cons in Hy as [->|Hy].
  - exists i, (i =? 0), target. split; [by left|done].
  - destruct (IH (S i) news Hl Hy) as (k & first & tg & Htg & Hlt). exists k, first, tg. split; [by right|done].
Qed.

Lemma letters_nth now args targets uids i news k y a :
  letters now args targets uids i news → news !! k = Some y → targets !! k = Some a →
  ∃ first, letter now (uids (i + k)) (args first a) y.
Proof.
  revert i news k. induction targets as [|tg targets IH]; intros i news k Hl Hy Ha; [done|].
  destruct news as [|z news]; [done|]. destruct Hl as [Hz Hl]. destruct k as [|k]; cbn in Hy, Ha.
  - injection Hy as <-. injection Ha as <-. rewrite Nat.add_0_r. by eexists.
  - rewrite <- Nat.add_succ_comm. by apply (IH (S i) news).
Qed.

Lemma py_or_truthy_r a b : truthy b = true → truthy (py_or a b) = true.
Proof. unfold py_or. by destruct (truthy a) eqn:E. Qed.

Section route.
Context (iso : Z → string) (cfg : send_settings) (aliases roles : gmap string string) (people : list string).
Implicit Types (t : table) (rq : send_request).

(** A message let through the gates, towards [corrected]. *)
Record let_through (now : Z) (p : option principal) rq t (corrected : list (string * option string))
    (notes : list warning) (retarget : option warning) : Prop := {
  lt_access : check_namespace_access (ss_auth cfg) p INBOX_NAMESPACE "read" false = Done tt;
  lt_asked : ∃ cs renamed, autocorrect_all (sq_to rq) = Done cs ∧ (∀ c, c ∈ cs → startswith "#" c.1 = false) ∧
    rename_all aliases cs = (renamed, notes) ∧ retargeted iso now rq renamed t = (corrected, retarget);
  lt_admin : ss_require_qualified_admin cfg = true → ∀ c, c ∈ corrected → is_unqualified_admin c.1 = false;
  lt_mention : unmentioned cfg p rq (fst <$> corrected) = false;
  lt_fanout : fanout_refused cfg p rq (fst <$> corrected) = []
}.

Lemma send_cases now p pv rq uids tid t ans t' :
  send_inbox iso cfg aliases roles people now p pv rq uids tid t = (ans, t') →
  (t' = t ∧ ∃ why, ans = NotSent why ∧ why ≠ SendFailed) ∨
  ∃ corrected notes retarget, let_through now p rq t corrected notes retarget ∧
    deliver iso cfg aliases roles people now p pv rq corrected notes retarget uids tid t = (ans, t').
Proof.
  unfold send_inbox. destruct (check_namespace_access _ _ _ _ _) as [[]|e] eqn:Ea; [|intros [= <- <-]; left; eauto].
  destruct (autocorrect_all _) as [cs|e] eqn:Ec; [|intros [= <- <-]; left; eauto].
  destruct (select (startswith "#") (fst <$> cs)) as [|c l] eqn:Ech; [|intros [= <- <-]; left; eauto].
  change (negb (length [] == 0)) with false. cbv iota.
  destruct (rename_all aliases cs) as [renamed notes] eqn:Er.
  destruct (retargeted iso now rq renamed t) as [corrected retarget] eqn:Et.
  destruct (_ && existsb _ _) eqn:Eb; [intros [= <- <-]; left; eauto|].
  destruct (unmentioned _ _ _ _) eqn:Em; [intros [= <- <-]; left; eauto|].
  destruct (fanout_refused _ _ _ _) eqn:Ef; [|intros [= <- <-]; left; eauto].
  intros Hd. right. exists corrected, notes, retarget. split; [|done]. split; try done.
  - exists cs, renamed. split_and!; [done| |done..]. intros x Hx.
    assert (∀ y, y ∈ fst <$> cs → startswith "#" y = false) as Hno by (by apply select_nil).
    apply Hno, list_elem_of_fmap. by exists x.
  - intros Hq x Hx. rewrite Hq in Eb. cbn [andb] in Eb. apply not_true_is_false. intros Hu.
    apply not_true_iff_false in Eb. apply Eb, existsb_exists. exists x.1. split; [|done].
    apply list_elem_of_In, list_elem_of_fmap. by exists x.
Qed.

(** Delivered or failed halfway, what a message adds are letters of its own. *)
Lemma deliver_rows now p pv rq corrected notes retarget uids tid t ans t' :
  deliver iso cfg aliases roles people now p pv rq corrected notes retarget uids tid t = (ans, t') →
  ∃ olds news thread participants intent,
    t_rows t' = olds ++ news ∧ Forall2 kept (t_rows t) olds ∧
    letters now (letter_args p rq pv (authorship_of cfg p rq) thread participants intent) (fst <$> corrected) uids 0 news ∧
    (∀ resp, ans = Sent resp → length news = length corrected ∧
       sr_id resp = or_empty (head ((λ y, r_key y) <$> news)) ∧
       sr_ids resp = (if (1 <? length news)%nat then Some ((λ y, r_key y) <$> news) else None)) ∧
    (let fanout := (1 <? length corrected)%nat in
     participants = (if fanout then _participant_set (fst <$> corrected) (au_label (authorship_of cfg p rq)) else []) ∧
     (fanout = true → truthy thread = true) ∧
     intent = (if group_fyi cfg p rq fanout then Some "fyi" else sq_intent rq)).
Proof.
  unfold deliver. cbv zeta. intros H. rewrite !length_fmap in *.
  destruct (send_letters _ _ _ _ _ _) as [[ids t2]|t2] eqn:Es;
    apply send_letters_rows in Es; destruct Es as (olds & news & E & Hk & Hl & Hres).
  all: injection H as <- <-; exists olds, news; do 3 eexists.
  all: split_and!; [exact E|exact Hk|exact Hl| |reflexivity| |reflexivity].
  - destruct Hres as [Hlen ->]. intros resp [= <-]. cbn [sr_id sr_ids]. by rewrite !length_fmap in *.
  - intros Hf. rewrite Hf. by apply py_or_truthy_r.
  - done.
  - intros Hf. rewrite Hf. by apply py_or_truthy_r.
Qed.
End route.

(** What a letter says of its author. *)
Lemma letter_author now uid a y :
  letter now uid a y →
  md_get (r_meta y) "from_principal" = Some (jopt (sd_from_principal a)) ∧
  md_get (r_meta y) "authority" = Some (JBool (sd_authority a)) ∧
  md_get (r_meta y) "relayed_from" = Some (jopt (sd_relayed_from a)) ∧
  md_get (r_meta y) "intent" = Some (jopt (sd_intent a)) ∧
  md_get (r_meta y) "thread_id" = Some (jopt (sd_thread_id a)) ∧
  md_get (r_meta y) "from" = Some (jopt (sd_from a)).
Proof. intros (_ & _ & _ & Hm). split_and!; by rewrite Hm by set_solver. Qed.

(** C14. Authority is earned at the door, never claimed. Whatever a client sends,
    a row the route adds names the authenticated login as its principal; it
    carries the owner's authority only if that login is an owner relay, then
    with the owner as the declared author, or an admin speaking for itself;
    and it declares a relayed author only if the login is an owner relay,
    which always declares the owner, or an admin. Letters already there are
    never given authority, an author or a relay. *)
Theorem authority_earned iso cfg aliases roles people now p pv rq uids tid t :
  let t' := (send_inbox iso cfg aliases roles people now p pv rq uids tid t).2 in
  let relay := ∃ pr, p = Some pr ∧ is_owner_relay (ss_auth cfg) pr = true in
  let admin := ∃ pr, p = Some pr ∧ pd_is_admin pr = true in
  ∀ y, y ∈ t_rows t' → (∃ x, x ∈ t_rows t ∧ kept x y) ∨
    md_get (r_meta y) "from_principal" = Some (jopt (pd_name <$> p)) ∧
    (md_get (r_meta y) "authority" = Some (JBool true) →
       relay ∧ md_get (r_meta y) "relayed_from" = Some (JStr (norm (s_owner_principal_name (ss_auth cfg)))) ∨
       admin ∧ (md_get (r_meta y) "relayed_from" = Some JNull ∨
                md_get (r_meta y) "relayed_from" = Some (JStr (norm (pd_name <$> p))))) ∧
    (∀ a, md_get (r_meta y) "relayed_from" = Some (JStr a) →
       relay ∧ a = norm (s_owner_principal_name (ss_auth cfg)) ∨
       admin ∧ a = norm (sq_relayed_from rq)).
Proof.
  cbv zeta. destruct (send_inbox _ _ _ _ _ _ _ _ _ _ _ _) as [ans t'] eqn:E. cbn [snd]. intros y Hy.
  apply send_cases in E as [[-> _]|(corrected & notes & retarget & _ & E)].
  { left. by exists y. }
  apply deliver_rows in E as (olds & news & th & parts & it & Erows & Hk & Hl & _ & _).
  rewrite Erows in Hy. apply elem_of_app in Hy as [Hy|Hy].
  { left. apply list_elem_of_lookup_1 in Hy as [i Hi].
    destruct (Forall2_lookup_r _ _ _ _ _ Hk Hi) as (x & Hx & Hxy). exists x. split; [|done].
    by eapply list_elem_of_lookup_2. }
  right. destruct (letters_each _ _ _ _ _ _ _ Hl Hy) as (k & first & target & _ & Hlet).
  apply letter_author in Hlet as (-> & -> & -> & _). split; [done|].
  unfold letter_args. cbn [sd_authority sd_relayed_from]. unfold authorship_of, is_relay, is_admin_sender.
  set (claimed := nullable (norm (sq_relayed_from rq))).
  assert (∀ c, claimed = Some c → c = norm (sq_relayed_from rq)) as Hc.
  { unfold claimed, nullable. intros c. destruct (nonempty _); [|done]. by intros [= <-]. }
  destruct p as [pr|]; cbn [option_map fmap option_fmap].
  - destruct (is_owner_relay (ss_auth cfg) pr) eqn:Er; cbn [au_authority au_relayed_from jopt].
    { split; [left|intros a [= <-]; left]; (split; [by exists pr|done]). }
    destruct claimed as [c|] eqn:Ec; destruct (pd_is_admin pr) eqn:Ea; cbn [au_authority au_relayed_from jopt].
    + split.
      * intros [= Hb]. bprop. right. split; [by exists pr|]. right. by rewrite Hb.
      * intros a [= <-]. right. split; [by exists pr|]. by apply Hc.
    + by split.
    + split; [|done]. intros _. right. split; [by exists pr|by left].
    + by split.
  - destruct claimed; by split.
Qed.

(** ** Recipients *)

Lemma rename_all_spec aliases cs :
  let out := (rename_all aliases cs).1 in
  NoDup (fst <$> out) ∧
  ∀ a, a ∈ fst <$> out ↔ ∃ c, c ∈ cs ∧ a = or_empty (canonical_address aliases (Some c.1)).
Proof.
  cbv zeta. unfold rename_all. induction cs as [|c cs IH] using rev_ind.
  - split; [apply NoDup_nil_2|]. intros a. set_solver.
  - rewrite foldl_snoc. destruct (foldl _ _ cs) as [out notes]. cbn [fst] in IH. destruct IH as [Hnd Hin].
    cbn [rename_one fst]. set (b := or_empty _).
    assert (∀ a, (∃ c0, c0 ∈ cs ++ [c] ∧ a = or_empty (canonical_address aliases (Some c0.1))) ↔
      a ∈ fst <$> out ∨ a = b) as Hiff.
    { intros a. rewrite Hin. split.
      - intros (x & [Hx| ->%list_elem_of_singleton]%elem_of_app & ->); [left|by right]. by exists x.
      - intros [(x & Hx & ->)| ->]; [exists x|exists c]; (split; [|done]); apply elem_of_app;
          [by left|right; by apply list_elem_of_singleton]. }
    bcase (b ∈ fst <$> out) E; split; intros; rewrite ?Hiff; [done| |rewrite fmap_app|].
    + split; [by left|]. by intros [?| ->].
    + apply NoDup_app. split_and!; [done| |apply NoDup_singleton].
      intros x Hx Hb. apply list_elem_of_singleton in Hb as ->. done.
    + rewrite fmap_app, elem_of_app. cbn. by rewrite list_elem_of_singleton.
Qed.

(** Who a message goes to: the current names of those it names, each once, or
    the live seat a reply to a lane is moved to. *)
Definition recipients_of (iso : Z → string) (aliases : gmap string string) (now : Z) (rq : send_request) (t : table)
    (targets : list string) : Prop :=
  ∃ cs, autocorrect_all (sq_to rq) = Done cs ∧
  let current := λ a, ∃ c, c ∈ cs ∧ a = or_empty (canonical_address aliases (Some c.1)) in
  (NoDup targets ∧ ∀ a, a ∈ targets ↔ current a) ∨
  ∃ lane seat, (∀ a, current a ↔ a = lane) ∧ targets = [seat] ∧
    reply_seat_retarget iso now (sq_in_reply_to rq) lane t = Some seat.

Lemma let_through_recipients iso cfg aliases now p rq t corrected notes retarget :
  let_through iso cfg aliases now p rq t corrected notes retarget →
  recipients_of iso aliases now rq t (fst <$> corrected).
Proof.
  intros [_ (cs & renamed & Hcs & _ & Hren & Hret) _ _ _]. exists cs. split; [done|]. cbv zeta.
  pose proof (rename_all_spec aliases cs) as [Hnd Hin]. rewrite Hren in Hnd, Hin. cbn [fst] in Hnd, Hin.
  unfold retargeted in Hret.
  destruct renamed as [|[lane o] [|c2 rest]]; try (injection Hret as <- <-; by left).
  destruct (if truthy _ then _ else None) as [seat|] eqn:Es; [|injection Hret as <- <-; by left].
  destruct (nonempty seat); injection Hret as <- <-; [right|by left].
  exists lane, seat. split_and!; [|done|by destruct (truthy (sq_in_reply_to rq))].
  intros a. rewrite <- Hin. cbn. by rewrite list_elem_of_singleton.
Qed.

(** C28. A message becomes one letter per recipient, and one conversation. When
    it is sent, its recipients are the current names of those it names, no
    one twice (or the one seat a reply was moved to); the table gains exactly
    one letter for each, in order, under its own id, all by the same author
    with the same text, and the ids are answered; nothing else changes but
    the stamp on the letter it supersedes. To several, all copies share one
    thread and one list of participants, without repetition, that holds every
    recipient and the sender in the form a reply is sent to. *)
Theorem one_letter_each iso cfg aliases roles people now p pv rq uids tid t resp t' :
  send_inbox iso cfg aliases roles people now p pv rq uids tid t = (Sent resp, t') →
  ∃ targets olds news, recipients_of iso aliases now rq t targets ∧
    t_rows t' = olds ++ news ∧ Forall2 kept (t_rows t) olds ∧ length news = length targets ∧
    (∀ k y a, news !! k = Some y → targets !! k = Some a →
       r_pk y = PKey "fleet" ("inbox/" +:+ uids k) "inbox" (lower a) None ∧ r_created y = now ∧
       r_value y = _strip_toolcall_trailer (sq_body rq) ∧
       md_get (r_meta y) "from" = Some (jopt (au_label (authorship_of cfg p rq)))) ∧
    sr_id resp = or_empty (head ((λ y, r_key y) <$> news)) ∧
    sr_ids resp = (if (1 <? length news)%nat then Some ((λ y, r_key y) <$> news) else None) ∧
    (1 < length targets → ∃ thread participants, thread ≠ "" ∧ NoDup participants ∧
       (∀ y, y ∈ news → md_get (r_meta y) "thread_id" = Some (JStr thread) ∧
          md_get (r_meta y) "participants" =
            Some (match participants with [] => JNull | l => JArr (JStr <$> l) end)) ∧
       ∀ a who, a ∈ (Some <$> targets) ++ [au_label (authorship_of cfg p rq)] → participant a = Some who →
         who ∈ participants).
Proof.
  intros E. apply send_cases in E as [(_ & why & ? & _)|(corrected & notes & retarget & Hlt & E)]; [done|].
  apply let_through_recipients in Hlt.
  apply deliver_rows in E as (olds & news & th & parts & it & Erows & Hk & Hl & Hids & Hparts & Hth & _).
  destruct (Hids resp eq_refl) as (Hlen & Hid & Hidl).
  set (targets := fst <$> corrected) in *. assert (length news = length targets) as Hlt' by (unfold targets; by rewrite length_fmap).
  exists targets, olds, news. split_and!; try done.
  - intros k y a Hy Ha. destruct (letters_nth _ _ _ _ 0 _ _ _ _ Hl Hy Ha) as [first Hlet].
    pose proof Hlet as (Hpk & Hc & Hv & _).
    apply letter_author in Hlet as (_ & _ & _ & _ & _ & Hf). by split_and!.
  - intros Hmany. assert ((1 <? length corrected)%nat = true) as Hf.
    { apply Nat.ltb_lt. unfold targets in Hmany. by rewrite length_fmap in Hmany. }
    rewrite Hf in *. destruct th as [th|]; [|by specialize (Hth eq_refl)].
    exists th, parts. specialize (Hth eq_refl). split_and!; [by intros ->| | |].
    + rewrite Hparts. apply NoDup_dedup.
    + intros y Hy. destruct (letters_each _ _ _ _ _ _ _ Hl Hy) as (k & first & target & _ & Hlet).
      pose proof Hlet as (_ & _ & _ & Hm). apply letter_author in Hlet as (_ & _ & _ & _ & -> & _).
      split; [done|]. rewrite Hm by set_solver. by destruct parts.
    + intros a who Ha Hwho. rewrite Hparts. unfold _participant_set. apply elem_of_dedup.
      apply list_elem_of_omap. by exists a.
Qed.

(** ** The gates *)

(** A refusal changes nothing, and nothing passes a closed gate. Any refusal
    but a failed insert leaves the table as it was. A message that is sent
    came from a login that may read the mailbox's namespace, names no channel,
    and its recipients are not the bare shared role when that must be
    qualified; a post to a room's owner, by anyone else, names somebody with
    an @ outside quotes; and the owner login's own room letters go to the
    owner only, once fan-out letters are retired. *)
Lemma closed_gates_hold iso cfg aliases roles people now p pv rq uids tid t :
  match send_inbox iso cfg aliases roles people now p pv rq uids tid t with
  | (NotSent SendFailed, _) => True
  | (NotSent _, t') => t' = t
  | (Sent resp, _) =>
      let owner := norm (s_owner_principal_name (ss_auth cfg)) in
      let room := startswith "huddle/" (or_empty (sq_thread_id rq)) && negb (sq_huddle_lifecycle rq) in
      check_namespace_access (ss_auth cfg) p "fleet" "read" false = Done tt ∧
      (∃ cs, autocorrect_all (sq_to rq) = Done cs ∧ ∀ c, c ∈ cs → startswith "#" c.1 = false) ∧
      ∃ targets, recipients_of iso aliases now rq t targets ∧
        (ss_require_qualified_admin cfg = true → ∀ a, a ∈ targets → lower (strip a) ≠ "admin") ∧
        (owner ≠ "" → room = true → norm (pd_name <$> p) ≠ owner → before "@" <$> targets = [owner] →
           ∃ name, name ∈ _room_mentions (sq_body rq)) ∧
        (ss_huddle_fanout_refusal cfg = true → owner ≠ "" → room = true → lower <$> (pd_name <$> p) = Some owner →
           ∀ a, a ∈ targets → before "@" a = owner)
  end.
Proof.
  destruct (send_inbox _ _ _ _ _ _ _ _ _ _ _ _) as [[resp|why] t'] eqn:E.
  - apply send_cases in E as [(_ & why & ? & _)|(corrected & notes & retarget & Hlt & _)]; [done|].
    pose proof (let_through_recipients _ _ _ _ _ _ _ _ _ _ Hlt) as Hrec.
    destruct Hlt as [Ha (cs & renamed & Hcs & Hno & _) Hadm Hmen Hfan]. cbv zeta. split; [done|].
    split; [by exists cs|]. exists (fst <$> corrected). split_and!; [done|..].
    + intros Hq a (c & -> & Hc)%list_elem_of_fmap Heq. specialize (Hadm Hq c Hc).
      unfold is_unqualified_admin in Hadm. rewrite Heq in Hadm. done.
    + intros Ho [Hr Hli]%andb_true_iff Hp Ht.
      destruct (_room_mentions (sq_body rq)) as [|name l] eqn:Em; [|exists name; by left]. exfalso.
      unfold unmentioned, owner_name, principal_name, in_room in Hmen.
      rewrite Hr, Hli, Ht, Em, (bool_decide_eq_false_2 _ Hp), (proj2 (nonempty_true _) Ho) in Hmen.
      by rewrite bool_decide_eq_true_2 in Hmen.
    + intros Hf Ho [Hr Hli]%andb_true_iff Hp a Hin. unfold fanout_refused, owner_name, in_room in Hfan.
      destruct p as [pr|]; [|done]. cbn in Hp. injection Hp as Hp.
      rewrite Hf, Hr, Hli, (proj2 (nonempty_true _) Ho) in Hfan. cbn [fmap option_fmap option_map] in Hfan.
      change (or_empty (Some (pd_name pr))) with (pd_name pr) in Hfan.
      rewrite (bool_decide_eq_true_2 (lower (pd_name pr) = _)) in Hfan by done. cbn [is_some andb] in Hfan.
      rewrite select_nil in Hfan. specialize (Hfan a Hin). apply negb_false_iff, bool_decide_eq_true in Hfan. done.
  - apply send_cases in E as [[-> (why' & [= <-] & Hne)]|(corrected & notes & retarget & _ & E)]; [by destruct why|].
    unfold deliver in E. cbv zeta in E.
    destruct (send_letters _ _ _ _ _ _) as [[ids t2]|t2]; [done|]. by injection E as <- <-.
Qed.

(** Group mail without an intent of its own wakes nobody. A message to
    several that gives no intent goes as [fyi] unless the owner sends it or it
    is a room's lifecycle letter: no signal of any mailbox wakes for any of
    its copies, and its receipt says so. Every other message keeps the intent
    it gave. *)
Lemma group_mail_quiet iso cfg aliases roles people now p pv rq uids tid t resp t' :
  send_inbox iso cfg aliases roles people now p pv rq uids tid t = (Sent resp, t') →
  ∃ targets olds news, recipients_of iso aliases now rq t targets ∧ t_rows t' = olds ++ news ∧
    Forall2 kept (t_rows t) olds ∧ length news = length targets ∧
    let owner := norm (s_owner_principal_name (ss_auth cfg)) in
    let quiet := 1 < length targets ∧ strip (or_empty (sq_intent rq)) = "" ∧ sq_huddle_lifecycle rq = false ∧
      ¬ (owner ≠ "" ∧ norm (pd_name <$> p) = owner) in
    (quiet → sr_group_fyi resp = true ∧
       ∀ y address boxes, y ∈ news → waking address boxes y = false) ∧
    (¬ quiet → sr_group_fyi resp = false ∧
       ∀ y, y ∈ news → md_get (r_meta y) "intent" = Some (jopt (sq_intent rq))).
Proof.
  intros E. apply send_cases in E as [(_ & why & ? & _)|(corrected & notes & retarget & Hlt & E)]; [done|].
  apply let_through_recipients in Hlt.
  assert (sr_group_fyi resp = group_fyi cfg p rq (1 <? length corrected)) as Hfyi.
  { unfold deliver in E. cbv zeta in E. rewrite length_fmap in E.
    destruct (send_letters _ _ _ _ _ _) as [[ids t2]|t2]; [|done]. by injection E as <- <-. }
  apply deliver_rows in E as (olds & news & th & parts & it & Erows & Hk & Hl & Hids & _ & _ & Hit).
  destruct (Hids resp eq_refl) as (Hlen & _ & _).
  exists (fst <$> corrected), olds, news. rewrite length_fmap. do 4 (split; [done|]). cbv zeta.
  rewrite Hfyi.
  assert (∀ y, y ∈ news → md_get (r_meta y) "intent" = Some (jopt it)) as Hint.
  { intros y Hy. destruct (letters_each _ _ _ _ _ _ _ Hl Hy) as (k & first & target & _ & Hlet).
    by apply letter_author in Hlet as (_ & _ & _ & -> & _). }
  assert (group_fyi cfg p rq (1 <? length corrected) = true ↔
    1 < length corrected ∧ strip (or_empty (sq_intent rq)) = "" ∧ sq_huddle_lifecycle rq = false ∧
      ¬ (norm (s_owner_principal_name (ss_auth cfg)) ≠ "" ∧
         norm (pd_name <$> p) = norm (s_owner_principal_name (ss_auth cfg)))) as Hiff.
  { unfold group_fyi, owner_name, principal_name. rewrite !andb_true_iff, Nat.ltb_lt, !negb_true_iff.
    rewrite andb_false_iff, bool_decide_eq_false, <- !not_true_iff_false, !nonempty_true.
    destruct (decide (strip (or_empty (sq_intent rq)) = "")),
      (decide (norm (s_owner_principal_name (ss_auth cfg)) = "")); tauto. }
  destruct (group_fyi cfg p rq _) eqn:Eg; subst it.
  - split; [|intros Hn; exfalso; by apply Hn, Hiff]. intros _. split; [done|].
    intros y address boxes Hy. unfold waking. specialize (Hint y Hy).
    assert (md_text_or "" (r_meta y) "intent" = "fyi") as ->.
    { unfold md_text_or. by rewrite md_text_get, Hint. }
    by rewrite (bool_decide_eq_true_2 ("fyi" = "fyi")), andb_false_r by done.
  - split; [intros Hq; by apply Hiff in Hq|]. done.
Qed.

(** ** Concrete runs *)

Definition ex_send_cfg : send_settings := SendSettings ex_cfg true true.
Definition ex_sender : principal := Principal 1 "fleet" "agent" false true false ["*"] ["*"] true 0 None.
Definition ex_prov : provenance := Provenance (Some "hosta") None None None.
Definition ex_round : send_request :=
  SendRequest ["Tide"; "moon"; "tide"] "look" "s" (Some "ann") None None None None None false None.
Definition ex_ids (i : nat) : string := pretty i.
Definition ex_sent : send_answer * table :=
  send_inbox pretty ex_send_cfg ∅ ∅ [] 100 (Some ex_sender) ex_prov ex_round ex_ids "t" empty_table.

Definition ex_receipt : send_response :=
  match ex_sent.1 with Sent r => r | NotSent _ => SendResponse "" None None [] false [] end.

Lemma ex_sent_rows : length (t_rows ex_sent.2) = 2 ∧ ex_sent = (Sent ex_receipt, ex_sent.2).
Proof. split; vm_compute; reflexivity. Qed.

Lemma one_letter_each_witness :
  ∃ targets news, t_rows ex_sent.2 = news ∧ length news = length targets ∧
    ∀ k y a, news !! k = Some y → targets !! k = Some a → r_user y = lower a ∧ r_value y = "look".
Proof.
  destruct (one_letter_each pretty ex_send_cfg ∅ ∅ [] 100 (Some ex_sender) ex_prov ex_round ex_ids "t" empty_table
    ex_receipt ex_sent.2 (proj2 ex_sent_rows)) as (targets & olds & news & _ & Hrows & Hk & Hlen & Hper & _).
  apply Forall2_nil_inv_l in Hk. subst olds. exists targets, news. split_and!; [exact Hrows|exact Hlen|].
  intros k y a Hy Ha. destruct (Hper k y a Hy Ha) as (Hpk & _ & Hv & _). split; [by rewrite Hpk|rewrite Hv; reflexivity].
Defined.

Lemma authority_earned_witness :
  ∃ y, y ∈ t_rows ex_sent.2 ∧ md_get (r_meta y) "from_principal" = Some (jopt (Some (pd_name ex_sender))).
Proof.
  destruct (t_rows ex_sent.2) as [|y rows] eqn:E; [by apply (f_equal length) in E; rewrite (proj1 ex_sent_rows) in E|].
  exists y. split; [by left|].
  destruct (authority_earned pretty ex_send_cfg ∅ ∅ [] 100 (Some ex_sender) ex_prov ex_round ex_ids "t" empty_table y)
    as [(x & Hx & _)|(H & _)]; [|by apply elem_of_nil in Hx|exact H].
  change (y ∈ t_rows ex_sent.2). rewrite E. by left.
Defined.
