(* ===== verification/FenceProps.v ===== *)
(** What the fence promises: whatever a sender writes, the reader sees one
    fence, no badge and no header line that the bridge did not put there. *)

From stdpp Require Import base list strings pretty.
From Stdlib Require Import ZArith Lia Ascii.
From S2P Require Import Prelude PyString Fence.

(** ** Occurrences *)

Definition occurs (p s : text) : Prop := ∃ l r, s = l ++ p ++ r.

Lemma starts_app p s : starts p s = true ↔ ∃ r, s = p ++ r.
Proof.
  revert s. induction p as [|x p IH]; intros s; cbn; [split; [by exists s|done]|].
  destruct s as [|y s]; [split; [done|by intros (r & ?)]|].
  rewrite andb_true_iff, IH, Z.eqb_eq. split.
  - intros [-> [r ->]]. by exists r.
  - intros (r & [= -> ->]). split; [done|]. by exists r.
Qed.

Lemma occurs_cons p c s : p ≠ [] → occurs p (c :: s) ↔ starts p (c :: s) = true ∨ occurs p s.
Proof.
  intros Hp. split.
  - intros (l & r & E). destruct l as [|d l]; cbn in E.
    + left. apply starts_app. by exists r.
    + injection E as -> ->. right. by exists l, r.
  - intros [(r & ->)%starts_app|(l & r & ->)]; [by exists [], r|by exists (c :: l), r].
Qed.

Lemma occurs_nil p : p ≠ [] → ¬ occurs p [].
Proof. intros Hp (l & r & E). symmetry in E. apply app_eq_nil in E as [_ [? _]%app_eq_nil]. done. Qed.

Definition disjoint_chars (p q : text) : Prop := ∀ c, c ∈ p → c ∉ q.

(** A prefix of [l ++ s] made of characters [l] lacks has nothing of [l]. *)
Lemma starts_skip p l s : p ≠ [] → l ≠ [] → disjoint_chars p l → starts p (l ++ s) = false.
Proof.
  intros Hp Hl Hd. destruct p as [|x p]; [done|]. destruct l as [|y l]; [done|]. cbn.
  destruct (Z.eqb_spec x y) as [->|]; [|done]. exfalso. by apply (Hd y); left.
Qed.

Section replacing.
Context (pat new : text) (Hpat : pat ≠ []) (Hnew : new ≠ []).
Implicit Types (p s : text).

(** What starts a replaced text, and is made of characters the replacement
    lacks, started the text. *)
Lemma starts_replace p s :
  disjoint_chars p new → starts p (replace pat new 0 s) = true → starts p s = true.
Proof.
  revert s. induction p as [|x p IH]; intros s Hd Hs; [done|].
  destruct s as [|c s]; [done|]. cbn [replace] in Hs.
  destruct (starts pat (c :: s)).
  - by rewrite starts_skip in Hs.
  - cbn in Hs |- *. apply andb_true_iff in Hs as [Hx Hs]. rewrite Hx. cbn.
    apply IH; [|done]. intros y Hy. apply Hd. by right.
Qed.

Lemma occurs_app_disjoint p l s : p ≠ [] → disjoint_chars p l → occurs p (l ++ s) → occurs p s.
Proof.
  intros Hp Hd. induction l as [|c l IH]; [done|]. cbn. intros [Hs|Ho]%(occurs_cons _ _ _ Hp).
  - pose proof (starts_skip p (c :: l) s Hp ltac:(done) Hd) as E. cbn in E. congruence.
  - apply IH; [|done]. intros x Hx Hl. by apply (Hd x Hx); right.
Qed.

(** The replaced pattern is gone. *)
Lemma replace_gone s k : disjoint_chars pat new → ¬ occurs pat (replace pat new k s).
Proof.
  intros Hd. revert k. induction s as [|c s IH]; intros k; [by apply occurs_nil|].
  cbn [replace]. destruct k as [|k]; [|apply IH]. destruct (starts pat (c :: s)) eqn:E.
  - intros Ho. apply occurs_app_disjoint in Ho; [|done|done]. by apply IH in Ho.
  - intros [Hs|Ho]%(occurs_cons _ _ _ Hpat); [|by apply IH in Ho].
    change (starts pat (c :: s) = false) in E.
    assert (starts pat (replace pat new 0 (c :: s)) = true) as Hs' by (cbn [replace]; by rewrite E).
    apply starts_replace in Hs'; [|done]. congruence.
Qed.

(** Nothing else comes to be. *)
Lemma replace_none p s k : p ≠ [] → disjoint_chars p new → ¬ occurs p s → ¬ occurs p (replace pat new k s).
Proof.
  intros Hp Hd. revert k. induction s as [|c s IH]; intros k Hn; [done|].
  assert (¬ occurs p s) as Hn' by (intros Ho; by apply Hn, occurs_cons; [|right]).
  cbn [replace]. destruct k as [|k]; [|by apply IH]. destruct (starts pat (c :: s)) eqn:E.
  - intros Ho. apply occurs_app_disjoint in Ho; [|done|done]. by apply IH in Ho.
  - intros [Hs|Ho]%(occurs_cons _ _ _ Hp); [|by apply IH in Ho].
    assert (starts p (replace pat new 0 (c :: s)) = true) as Hs' by (cbn [replace]; by rewrite E).
    apply starts_replace in Hs'; [|done]. apply Hn, occurs_cons; [done|by left].
Qed.

(** A text without the pattern is left alone. *)
Lemma replace_id s : ¬ occurs pat s → replace pat new 0 s = s.
Proof.
  induction s as [|c s IH]; [done|]. intros Hn. cbn [replace].
  destruct (starts pat (c :: s)) eqn:E.
  - exfalso. apply Hn, occurs_cons; [done|by left].
  - f_equal. apply IH. intros Ho. apply Hn, occurs_cons; [done|by right].
Qed.
End replacing.

(** One character for another. *)
Lemma replace_char a new s : replace [a] new 0 s = flat_map (λ c, if (c =? a)%Z then new else [c]) s.
Proof.
  induction s as [|c s IH]; [done|]. cbn. rewrite andb_true_r, (Z.eqb_sym c a).
  destruct (a =? c)%Z; cbn; by rewrite IH.
Qed.

Lemma elem_of_replace_char a b c s : c ∈ replace [a] [b] 0 s → c = b ∨ (c ∈ s ∧ c ≠ a).
Proof.
  rewrite replace_char. induction s as [|d s IH]; cbn; [by intros ?%elem_of_nil|].
  destruct (Z.eqb_spec d a) as [->|Hd]; cbn; intros [->|H]%elem_of_cons; try (by left); try (by right; split; [left|]);
    destruct (IH H) as [->|[Hs Ha]]; [by left|right|by left|right]; (split; [by right|done]).
Qed.

Lemma elem_of_replace c pat new k s : c ∈ replace pat new k s → c ∈ new ∨ c ∈ s.
Proof.
  revert k. induction s as [|d s IH]; intros k; [by intros ?%elem_of_nil|]. cbn [replace].
  destruct k as [|k]; [destruct (starts pat (d :: s))|].
  - intros [H|H]%elem_of_app; [by left|]. destruct (IH _ H); [by left|right; by right].
  - intros [->|H]%elem_of_cons; [right; by left|]. destruct (IH _ H); [by left|right; by right].
  - intros H. destruct (IH _ H); [by left|right; by right].
Qed.

(** ** Check marks *)

(** Every check mark is followed by the mark that detaches it. *)
Fixpoint marked (s : text) : bool :=
  match s with
  | [] => true
  | c :: s' => (if (c =? CHECK)%Z then starts [_ZWSP] s' else true) && marked s'
  end.

Lemma marked_spec s l r : marked s = true → s = l ++ CHECK :: r → ∃ r', r = _ZWSP :: r'.
Proof.
  revert s. induction l as [|d l IH]; intros s Hm ->; cbn [marked app] in Hm.
  - rewrite Z.eqb_refl in Hm. apply andb_true_iff in Hm as [(r' & ->)%starts_app _]. by exists r'.
  - apply andb_true_iff in Hm as [_ Hm]. by eapply IH.
Qed.

Lemma marked_check s : marked (replace [CHECK] [CHECK; _ZWSP] 0 s) = true.
Proof.
  rewrite replace_char. induction s as [|c s IH]; [done|]. cbn [flat_map].
  destruct (Z.eqb_spec c CHECK) as [->|Hc]; cbn [app marked]; [exact IH|].
  by rewrite (proj2 (Z.eqb_neq _ _) Hc).
Qed.

Lemma marked_char a b s : a ≠ _ZWSP → b ≠ CHECK → marked s = true → marked (replace [a] [b] 0 s) = true.
Proof.
  intros Ha Hb. rewrite replace_char. induction s as [|c s IH]; [done|]. cbn [marked flat_map].
  intros [Hc Hs]%andb_true_iff. specialize (IH Hs).
  destruct (Z.eqb_spec c a) as [->|Hca]; cbn [app marked]; rewrite IH, andb_true_r.
  - by rewrite (proj2 (Z.eqb_neq _ _) Hb).
  - destruct (c =? CHECK)%Z; [|done]. apply starts_app in Hc as [r ->]. cbn [app flat_map].
    by rewrite (proj2 (Z.eqb_neq _ _) (not_eq_sym Ha)).
Qed.

(** ** Header lines *)

(** What starts a marked text started the text, marks apart. *)
Lemma starts_sub_headers (f : Z → Z) p bol hold s :
  f _ZWSP ∉ p → starts p (f <$> sub_headers bol hold s) = true → starts p (f <$> s) = true.
Proof.
  revert p bol hold. induction s as [|c s IH]; intros p bol hold Hp; [done|]. cbn [sub_headers].
  destruct p as [|x p]; [done|].
  assert (f _ZWSP ∉ p ∧ x ≠ f _ZWSP) as [Hp' Hx] by (rewrite not_elem_of_cons in Hp; naive_solver).
  assert (∀ b h, starts (x :: p) (f <$> c :: sub_headers b h s) = true → starts (x :: p) (f <$> c :: s) = true) as Hgo.
  { intros b h. cbn. intros [-> Hs]%andb_true_iff. by eapply IH. }
  destruct (match hold with Some n => Some n | None => _ end) as [[|n]|]; [|by apply Hgo..].
  cbn. rewrite (proj2 (Z.eqb_neq _ _) Hx). done.
Qed.

Lemma sub_headers_none p bol hold s : p ≠ [] → _ZWSP ∉ p → ¬ occurs p s → ¬ occurs p (sub_headers bol hold s).
Proof.
  intros Hp Hz. revert bol hold. induction s as [|c s IH]; intros bol hold Hn; [done|]. cbn [sub_headers].
  assert (¬ occurs p s) as Hn' by (intros Ho; by apply Hn, occurs_cons; [|right]).
  assert (∀ b h, ¬ occurs p (c :: sub_headers b h s)) as Hgo.
  { intros b h [Hs|Ho]%(occurs_cons _ _ _ Hp); [|by apply IH in Ho].
    apply Hn, occurs_cons; [done|left]. destruct p as [|x p]; [done|]. cbn in Hs |- *.
    apply andb_true_iff in Hs as [-> Hs]. cbn. rewrite <- (list_fmap_id s).
    apply (starts_sub_headers id p b h s); [by rewrite not_elem_of_cons in Hz; naive_solver|].
    by rewrite list_fmap_id. }
  destruct (match hold with Some n => Some n | None => _ end) as [[|n]|]; [|by apply Hgo..].
  intros [Hs|Ho]%(occurs_cons _ _ _ Hp); [|by apply Hgo in Ho].
  destruct p as [|x p]; [done|]. cbn in Hs. apply andb_true_iff in Hs as [->%Z.eqb_eq _]. apply Hz. by left.
Qed.

Lemma elem_of_sub_headers c bol hold s : c ∈ sub_headers bol hold s → c = _ZWSP ∨ c ∈ s.
Proof.
  revert bol hold. induction s as [|d s IH]; intros bol hold; [by intros ?%elem_of_nil|]. cbn [sub_headers].
  assert (∀ b h, c ∈ d :: sub_headers b h s → c = _ZWSP ∨ c ∈ d :: s) as Hgo.
  { intros b h [->|H]%elem_of_cons; [right; by left|]. destruct (IH _ _ H); [by left|right; by right]. }
  destruct (match hold with Some n => Some n | None => _ end) as [[|n]|]; [|by apply Hgo..].
  intros [->|H]%elem_of_cons; [by left|by eapply Hgo].
Qed.

Lemma marked_sub_headers bol hold s : marked s = true → marked (sub_headers bol hold s) = true.
Proof.
  revert bol hold. induction s as [|c s IH]; intros bol hold; [done|]. cbn [sub_headers marked].
  intros [Hc Hs]%andb_true_iff.
  assert (∀ b h, marked (c :: sub_headers b h s) = true) as Hgo.
  { intros b h. cbn [marked]. rewrite IH, andb_true_r by done. destruct (c =? CHECK)%Z; [|done].
    apply starts_app in Hc as [r ->]. cbn [app sub_headers]. by destruct (match h with Some n => Some n | None => _ end) as [[|n]|]. }
  by destruct (match hold with Some n => Some n | None => _ end) as [[|n]|]; [exact (Hgo _ _)|apply Hgo..].
Qed.

(** A header line somewhere, the first line counted when [bol]. *)
Fixpoint headers (bol : bool) (s : text) : bool :=
  match s with
  | [] => false
  | c :: s' => (bol && is_some (header_at s)) || headers (c =? NL)%Z s'
  end.

Lemma headers_spec bol s l r :
  headers bol s = false → s = l ++ r → (l = [] ∧ bol = true) ∨ last l = Some NL → header_at r = None.
Proof.
  revert bol s. induction l as [|d l IH]; intros bol s Hh -> Hl.
  - destruct Hl as [[_ ->]|]; [|done]. destruct r as [|c r]; [done|]. cbn [app headers andb] in Hh.
    apply orb_false_iff in Hh as [Hh _]. by destruct (header_at (c :: r)).
  - cbn in Hh. apply orb_false_iff in Hh as [_ Hh]. apply (IH _ _ Hh eq_refl).
    destruct Hl as [[? _]|Hl]; [done|]. destruct l as [|e l]; [left|by right].
    injection Hl as ->. done.
Qed.

Lemma header_space c s : is_space c = true → header_at (c :: s) = S <$> header_at s.
Proof. intros Hc. unfold header_at. cbn [spaces]. rewrite Hc. cbn [drop]. by destruct (token_at _). Qed.

Lemma header_word c s : is_space c = false → header_at (c :: s) = if token_at (c :: s) then Some 0 else None.
Proof. intros Hc. unfold header_at. cbn [spaces]. by rewrite Hc. Qed.

Lemma header_mark s : header_at (_ZWSP :: s) = None.
Proof. by rewrite header_word. Qed.

Lemma headers_unmarked h : In h HEADERS → _ZWSP ∉ h.
Proof.
  assert (forallb (λ h, bool_decide (_ZWSP ∉ h)) HEADERS = true) as H by (vm_compute; reflexivity).
  intros Hin. rewrite forallb_forall in H. exact (bool_decide_eq_true_1 _ (H h Hin)).
Qed.

Lemma header_sub bol s : header_at s = None → header_at (sub_headers bol None s) = None.
Proof.
  revert bol. induction s as [|c s IH]; intros bol Hn; [done|]. cbn [sub_headers].
  assert ((if bol then header_at (c :: s) else None) = None) as -> by (by destruct bol).
  destruct (is_space c) eqn:Ec.
  - rewrite header_space in * by done. apply fmap_None in Hn. by rewrite IH.
  - rewrite header_word in * by done. destruct (token_at (c :: s)) eqn:Et; [done|].
    destruct (token_at (c :: sub_headers _ None s)) eqn:Eo; [|done]. exfalso.
    apply not_true_iff_false in Et. apply Et. unfold token_at in *. apply existsb_exists in Eo as (h & Hin & Hs).
    apply existsb_exists. exists h. split; [done|].
    pose proof (headers_unmarked h Hin) as Hz.
    destruct h as [|x h]; [done|]. rewrite not_elem_of_cons in Hz. cbn in Hs |- *.
    apply andb_true_iff in Hs as [-> Hs]. cbn. eapply starts_sub_headers, Hs. change (fold_case _ZWSP) with _ZWSP. apply Hz.
Qed.

(** The white space of a match, and the mark behind it, start no header line. *)
Lemma header_held b n s : spaces s = n → header_at (sub_headers b (Some n) s) = None.
Proof.
  revert b n. induction s as [|c s IH]; intros b n Hn; [done|]. cbn [sub_headers spaces] in *.
  destruct n as [|n]; [apply header_mark|]. destruct (is_space c) eqn:Ec; [|done]. injection Hn as Hn.
  rewrite header_space by done. by rewrite IH.
Qed.

(** While a match's white space is copied, and after it. *)
Lemma headers_sub bol hold s :
  match hold with
  | Some n => spaces s = n
  | None => True
  end → headers bol (sub_headers bol hold s) = false.
Proof.
  revert bol hold. induction s as [|c s IH]; intros bol hold Hh; [done|].
  assert (∀ b, headers b (_ZWSP :: c :: sub_headers (c =? NL)%Z None s) = false) as Hmark.
  { intros b. cbn [headers andb orb]. rewrite header_mark, andb_false_r. cbn. by apply IH. }
  assert (∀ n, spaces (c :: s) = S n → headers bol (c :: sub_headers (c =? NL)%Z (Some n) s) = false) as Hcopy.
  { intros n Hn. cbn [spaces] in Hn. destruct (is_space c) eqn:Ec; [injection Hn as Hn|done].
    cbn [headers]. rewrite IH, orb_false_r by done. rewrite header_space by done.
    rewrite header_held by done. by rewrite andb_false_r. }
  cbn [sub_headers]. destruct hold as [[|n]|]; [apply Hmark|by apply Hcopy|].
  destruct bol.
  - destruct (header_at (c :: s)) as [[|n]|] eqn:E; [apply Hmark| |].
    + apply Hcopy. unfold header_at in E. destruct (token_at _); [|done]. by injection E.
    + pose proof (header_sub true (c :: s) E) as Ho. cbn [sub_headers] in Ho. rewrite E in Ho.
      cbn [headers]. rewrite Ho. cbn. by apply IH.
  - cbn [headers andb orb]. by apply IH.
Qed.

(** ** The fence *)

Lemma disjoint_compute p q : forallb (λ c, bool_decide (c ∉ q)) p = true → disjoint_chars p q.
Proof. rewrite forallb_forall. intros H c Hc. apply list_elem_of_In in Hc. exact (bool_decide_eq_true_1 _ (H c Hc)). Qed.

Ltac disjoint := apply disjoint_compute; vm_compute; reflexivity.

(** What neutralizing leaves of a text. *)
Record neutral (s : text) : Prop := {
  nt_badge : ¬ occurs BADGE s;
  nt_checks : marked s = true;
  nt_open : OPEN ∉ s;
  nt_close : CLOSE ∉ s
}.

Lemma neutral_spec s : neutral (_neutralize_framing s).
Proof.
  unfold _neutralize_framing. split.
  - do 3 (apply replace_none; [done..|disjoint|]). apply replace_gone; [done..|disjoint].
  - do 2 (apply marked_char; [done..|]). apply marked_check.
  - intros [?|[[?|[_ ?]]%elem_of_replace_char _]]%elem_of_replace_char; done.
  - intros [?|[_ ?]]%elem_of_replace_char; done.
Qed.

Lemma neutral_sub bol hold s : neutral s → neutral (sub_headers bol hold s).
Proof.
  intros [Hb Hm Ho Hc]. split.
  - apply sub_headers_none; [done| |done]. by apply (bool_decide_eq_false_1 _); vm_compute.
  - by apply marked_sub_headers.
  - intros [?|?]%elem_of_sub_headers; done.
  - intros [?|?]%elem_of_sub_headers; done.
Qed.

(** A text with nothing to hide. *)
Definition plain (s : text) : Prop := ¬ occurs BADGE s ∧ CHECK ∉ s ∧ OPEN ∉ s ∧ CLOSE ∉ s.

Lemma occurs_char c s : occurs [c] s ↔ c ∈ s.
Proof.
  split; [intros (l & r & ->); apply elem_of_app; right; by left|].
  intros (l & r & ->)%list_elem_of_split. by exists l, r.
Qed.

Lemma neutralize_plain s : plain s → _neutralize_framing s = s.
Proof.
  intros (Hb & Hk & Ho & Hc). unfold _neutralize_framing. rewrite (replace_id BADGE) by done.
  rewrite (replace_id [CHECK]), (replace_id [OPEN]), (replace_id [CLOSE]); rewrite ?occurs_char; done.
Qed.

Lemma sub_headers_id bol s : headers bol s = false → sub_headers bol None s = s.
Proof.
  revert bol. induction s as [|c s IH]; intros bol; [done|]. cbn [headers sub_headers].
  intros [Hh Hs]%orb_false_iff. destruct bol; [|by rewrite IH].
  destruct (header_at (c :: s)); [done|]. by rewrite IH.
Qed.

(** In a text with one bracket of each marker, a closing marker is the last thing. *)
Lemma closes_last mid l r :
  OPEN ∉ mid → _FENCE_OPEN ++ mid ++ _FENCE_CLOSE = l ++ _FENCE_CLOSE ++ r → r = [].
Proof.
  intros Hmid E. destruct l as [|c l]; [by vm_compute in E|].
  assert (∃ m, OPEN ∉ m ∧ m ++ _FENCE_CLOSE = l ++ _FENCE_CLOSE ++ r) as (m & Hm & Em).
  { exists (tail _FENCE_OPEN ++ mid). split.
    - intros [Ht|?]%elem_of_app; [|done]. revert Ht. by apply (bool_decide_eq_false_1 _); vm_compute.
    - rewrite <- app_assoc. change _FENCE_OPEN with (OPEN :: tail _FENCE_OPEN) in E. by injection E. }
  clear E Hmid. revert l Em. induction m as [|d m IH]; intros l Em.
  - destruct l as [|d l].
    { cbn [app] in Em. rewrite <- (app_nil_r _FENCE_CLOSE) in Em at 1. by apply app_inv_head in Em. }
    exfalso.
    apply (f_equal tail) in Em. change (tail _FENCE_CLOSE = l ++ _FENCE_CLOSE ++ r) in Em.
    assert (OPEN ∈ tail _FENCE_CLOSE) as Hin
      by (rewrite Em; apply elem_of_app; right; apply elem_of_app; left; by left).
    revert Hin. by apply (bool_decide_eq_false_1 _); vm_compute.
  - rewrite not_elem_of_cons in Hm. destruct l as [|e l].
    { apply (f_equal head) in Em. change (Some d = Some OPEN) in Em. injection Em as ->. by destruct Hm. }
    apply (f_equal tail) in Em. by apply (IH (proj2 Hm) l).
Qed.

(** C3. A body cannot leave its fence or speak as the bridge. A body is shown
    between one opening and one closing marker, and no part of it reads as a
    closing marker before the end; inside there is no bracket of a marker, no
    owner badge, no check mark that is not detached from what follows it, and
    no line that starts like a header, however it is indented and whatever
    its case. A body that holds none of these is shown as it is. *)
Theorem fence_unforgeable body :
  (body = [] → _fence_body body = lit "(empty body)") ∧
  (body ≠ [] → ∃ safe, _fence_body body = _FENCE_OPEN ++ NL :: safe ++ NL :: _FENCE_CLOSE ∧
    OPEN ∉ safe ∧ CLOSE ∉ safe ∧
    (∀ l r, _fence_body body = l ++ _FENCE_CLOSE ++ r → r = []) ∧
    ¬ occurs (lit "VERIFIED OWNER") safe ∧
    (∀ l r, safe = l ++ CHECK :: r → ∃ r', r = _ZWSP :: r') ∧
    (∀ l r, safe = l ++ r → l = [] ∨ last l = Some NL → header_at r = None) ∧
    (plain body → headers true body = false → safe = body)).
Proof.
  split; [by intros ->|]. intros Hne. destruct body as [|c body]; [done|]. clear Hne.
  set (b := c :: body). exists (sub_headers true None (_neutralize_framing b)).
  destruct (neutral_sub true None _ (neutral_spec b)) as [Hb Hm Ho Hc].
  assert (_fence_body b = _FENCE_OPEN ++ NL :: sub_headers true None (_neutralize_framing b) ++ NL :: _FENCE_CLOSE)
    as Hf by reflexivity.
  split_and!; [done..| |done| | |].
  - intros l r E. rewrite Hf in E. eapply (closes_last (NL :: sub_headers _ _ _ ++ [NL])).
    2:{ cbn [app]. rewrite <- app_assoc. exact E. }
    rewrite not_elem_of_cons, not_elem_of_app. split_and!; [done..|]. by intros ?%list_elem_of_singleton.
  - intros l r E. by eapply marked_spec.
  - intros l r E Hl. eapply headers_spec; [by apply (headers_sub true None)|exact E|].
    destruct Hl; [by left|by right].
  - intros Hp Hh. rewrite neutralize_plain by done. by apply sub_headers_id.
Qed.

(** ** Rendered messages *)

Lemma marked_app a b : marked a = true → marked b = true → marked (a ++ b) = true.
Proof.
  induction a as [|c a IH]; [done|]. cbn [marked app]. intros [Hc Ha]%andb_true_iff Hb.
  rewrite IH, andb_true_r by done. destruct (c =? CHECK)%Z; [|done].
  apply starts_app in Hc as [r ->]. done.
Qed.

Lemma marked_cons c s : c ≠ CHECK → marked s = true → marked (c :: s) = true.
Proof. intros Hc Hs. cbn. by rewrite (proj2 (Z.eqb_neq _ _) Hc). Qed.

Lemma marked_none s : CHECK ∉ s → marked s = true.
Proof.
  induction s as [|c s IH]; [done|]. rewrite not_elem_of_cons. intros [Hc Hs].
  apply marked_cons; [by intros ->|by apply IH].
Qed.

Lemma marked_no_badge s : marked s = true → ¬ occurs (CHECK :: lit " ") s.
Proof. intros Hm (l & r & E). eapply marked_spec in Hm as (r' & Hr); [|exact E]. done. Qed.

Record defanged (s : text) : Prop := {
  df_checks : marked s = true;
  df_open : OPEN ∉ s;
  df_close : CLOSE ∉ s;
  df_line : NL ∉ s;
  df_return : CR ∉ s
}.

Lemma defang_spec s : defanged (_defang s).
Proof.
  unfold _defang. destruct s as [|c s]; [split; try done; apply not_elem_of_nil|].
  destruct (neutral_spec (c :: s)) as [_ Hm Ho Hc]. set (n := _neutralize_framing _) in *.
  change (lit " ") with [32%Z]. split.
  - do 2 (apply marked_char; [done..|]). done.
  - intros [?|[[?|[? _]]%elem_of_replace_char _]]%elem_of_replace_char; done.
  - intros [?|[[?|[? _]]%elem_of_replace_char _]]%elem_of_replace_char; done.
  - intros [?|[[?|[_ ?]]%elem_of_replace_char _]]%elem_of_replace_char; done.
  - intros [?|[_ ?]]%elem_of_replace_char; done.
Qed.

Lemma occurs_l p a b : occurs p a → occurs p (a ++ b).
Proof. intros (l & r & ->). exists l, (r ++ b). by rewrite <- !app_assoc. Qed.

Lemma occurs_r p a b : occurs p b → occurs p (a ++ b).
Proof. intros (l & r & ->). exists (a ++ l), r. by rewrite <- !app_assoc. Qed.

Lemma occurs_badge x : occurs (CHECK :: lit " ") (OWNER_BADGE ++ x).
Proof. exists (lit " "), (lit "VERIFIED OWNER (" ++ x). reflexivity. Qed.

(** Texts whose check marks are all detached. *)
Class Marked (s : text) : Prop := is_marked : marked s = true.
#[global] Hint Mode Marked + : typeclass_instances.
#[global] Instance marked_app_instance a b `{!Marked a, !Marked b} : Marked (a ++ b).
Proof. by apply marked_app. Qed.
#[global] Instance marked_nl s `{!Marked s} : Marked (NL :: s).
Proof. by apply marked_cons. Qed.
#[global] Instance marked_arrow s `{!Marked s} : Marked (ARROW :: s).
Proof. by apply marked_cons. Qed.
#[global] Instance marked_dot s `{!Marked s} : Marked (MIDDLE_DOT :: s).
Proof. by apply marked_cons. Qed.
#[global] Instance marked_nil : Marked [].
Proof. done. Qed.
#[global] Instance marked_defang s : Marked (_defang s).
Proof. apply defang_spec. Qed.
#[global] Instance marked_lit s : Marked (lit s).
Proof.
  apply marked_none. induction s as [|c s IH]; cbn; [apply not_elem_of_nil|]. rewrite not_elem_of_cons.
  split; [|done]. intros E. pose proof (N_ascii_bounded c). unfold CHECK in E. lia.
Qed.
#[global] Instance marked_if (b : bool) x y `{!Marked x, !Marked y} : Marked (if b then x else y).
Proof. by destruct b. Qed.
#[global] Instance marked_origin m : Marked (_origin m).
Proof. unfold _origin. destruct (origin_bits m); apply _. Qed.
#[global] Instance marked_fence body : Marked (_fence_body body).
Proof.
  unfold _fence_body. destruct body as [|c body]; [apply _|].
  assert (Marked (sub_headers true None (_neutralize_framing (c :: body))))
    by (apply marked_sub_headers, nt_checks, neutral_spec).
  assert (Marked _FENCE_OPEN) by (vm_compute; reflexivity).
  assert (Marked _FENCE_CLOSE) by (vm_compute; reflexivity). apply _.
Qed.

(** The fields the bridge shows as they are. *)
Definition shown_raw (age : text) (m : shown_message) : Prop :=
  CHECK ∉ sm_id m ∧ CHECK ∉ sm_thread_id m ∧ CHECK ∉ sm_to m ∧ CHECK ∉ sm_intent m ∧ CHECK ∉ age.

(** C4. The owner badge is the server's word. In a rendered message a check
    mark stands before a blank, as in the badge, exactly when the server
    marked the message with the owner's authority, as long as the fields
    shown raw (id, thread, recipient, intent, age) hold no check mark: no
    author label, principal, relay name, model, machine, subject or body can
    put one there. *)
Theorem badge_exact age m :
  shown_raw age m →
  occurs (CHECK :: lit " ") (_format_inbox_message age m) ↔ sm_authority m = true.
Proof.
  intros (Hid & Hth & Hto & Hin & Hage).
  assert (Marked (sm_id m) ∧ Marked (sm_thread_id m) ∧ Marked (sm_to m) ∧ Marked (sm_intent m) ∧ Marked age)
    as (? & ? & ? & ? & ?) by (split_and!; by apply marked_none).
  unfold _format_inbox_message, message_header, sender_badge. split.
  - intros Ho. destruct (sm_authority m); [done|]. exfalso. revert Ho. apply marked_no_badge.
    destruct (full (strip_text (sm_relayed_from m))).
    all: match goal with |- marked ?s = true => change (Marked s) end; apply _.
  - intros ->. destruct (full (strip_text (sm_relayed_from m))).
    all: apply occurs_l; do 4 apply occurs_r; apply (occurs_r _ [NL]); do 2 apply occurs_r; apply occurs_l.
    1: apply occurs_l.
    all: apply occurs_badge.
Qed.

(** ** Lines *)

Definition lines_of (s : text) : nat := length (select (λ c, (c =? NL)%Z) s).

Lemma lines_app a b : lines_of (a ++ b) = lines_of a + lines_of b.
Proof. unfold lines_of. by rewrite select_app, length_app. Qed.

Lemma lines_cons c s : lines_of (c :: s) = (if (c =? NL)%Z then 1 else 0) + lines_of s.
Proof. unfold lines_of. rewrite select_cons. by destruct (c =? NL)%Z. Qed.

Lemma lines_none s : NL ∉ s → lines_of s = 0.
Proof.
  induction s as [|c s IH]; [done|]. rewrite not_elem_of_cons, lines_cons. intros [Hc Hs].
  rewrite IH by done. destruct (Z.eqb_spec c NL) as [->|]; done.
Qed.

Lemma lines_defang s : lines_of (_defang s) = 0.
Proof. apply lines_none, defang_spec. Qed.

Lemma lines_seps sep l :
  lines_of (mjoin ((λ y, sep ++ y) <$> l)) = sum_list (lines_of <$> l) + lines_of sep * length l.
Proof.
  induction l as [|y l IH]; [by rewrite Nat.mul_0_r|]. rewrite !fmap_cons.
  change (mjoin ((sep ++ y) :: ?x)) with ((sep ++ y) ++ mjoin x). rewrite !lines_app, IH.
  cbn [length sum_list_with]. unfold id. lia.
Qed.

Lemma lines_sep sep x l : lines_of (sep_by sep (x :: l)) = sum_list (lines_of <$> x :: l) + lines_of sep * length l.
Proof. cbn [sep_by]. rewrite lines_app, lines_seps, fmap_cons. apply Nat.add_assoc. Qed.

Create Rewrite HintDb lines.
#[local] Hint Rewrite lines_app lines_cons lines_defang : lines.

Lemma lit_app a b : lit (a +:+ b) = lit a ++ lit b.
Proof. induction a as [|c a IH]; [done|]. cbn. by rewrite IH. Qed.

Lemma lines_pretty (z : Z) : lines_of (lit (pretty z)) = 0.
Proof.
  assert (∀ n s, lines_of (lit (pretty_N_go n s)) = lines_of (lit s)) as Hgo.
  { intros n. induction (N.lt_wf_0 n) as [n _ IH]. intros s. destruct (decide (n = 0)%N) as [->|Hn].
    - by rewrite pretty_N_go_0.
    - rewrite pretty_N_go_step by lia. rewrite IH by (apply N.div_lt; lia). cbn [lit]. rewrite lines_cons.
      unfold pretty_N_char. by repeat case_match. }
  assert (∀ n : N, lines_of (lit (pretty n)) = 0) as HN.
  { intros n. unfold pretty, pretty_N. case_decide; [done|]. by rewrite Hgo. }
  destruct z as [|p|p]; [done|apply HN|]. change (pretty (Z.neg p)) with (String "-" (pretty (N.pos p))).
  cbn [lit]. by rewrite lines_cons, HN.
Qed.

(** The literals of one line. *)
Ltac count_lits := repeat match goal with |- context [lines_of (lit ?s)] => change (lines_of (lit s)) with 0 end.

Lemma origin_lines m : lines_of (_origin m) = 0.
Proof. unfold _origin. destruct (origin_bits m); [done|]. by autorewrite with lines. Qed.

Lemma sender_badge_lines m : lines_of (sender_badge m).1 = 0 ∧ lines_of (sender_badge m).2 = 0.
Proof.
  unfold sender_badge, OWNER_BADGE.
  destruct (full (strip_text (sm_relayed_from m))); cbn [fst snd]; (split; [apply lines_defang|]).
  - destruct (sm_authority m), (_ && _); by autorewrite with lines.
  - destruct (sm_authority m), (full (sm_from_principal m)); by autorewrite with lines.
Qed.

(** Inline text stays on its line. Of the fields of a message only those
    the bridge shows as they are can break a line: the header of a message has
    its own lines and no others, three, or four with an intent, before the
    lines of its age; and the banner has one line for itself and one per
    subject it previews, whatever the senders wrote. *)
Lemma inline_text_inline age m count preview :
  lines_of (message_header age m) =
    lines_of (sm_id m) + lines_of (sm_thread_id m) + lines_of (sm_to m) + lines_of (sm_intent m) + lines_of age
    + (if full (sm_intent m) then 3 else 2) ∧
  lines_of (_render_inbox_banner count preview) = (if (count =? 0)%Z then 0 else length preview + 4).
Proof.
  split.
  - pose proof (sender_badge_lines m) as [Hs Hb]. unfold message_header. destruct (sender_badge m) as [sender badge].
    cbn [fst snd] in Hs, Hb.
    destruct (sm_thread_id m) as [|x thread], (sm_intent m) as [|y intent]; cbn [full]; autorewrite with lines;
      rewrite Hs, Hb, origin_lines; count_lits;
      change (NL =? NL)%Z with true; change (ARROW =? NL)%Z with false; change (@nil Z) with ([] : text);
      cbv iota; autorewrite with lines.
    all: lia.
  - unfold _render_inbox_banner. destruct (count =? 0)%Z; [done|]. autorewrite with lines.
    rewrite lines_sep, fmap_cons.
    assert (sum_list (lines_of <$> ((λ p, lit "  " ++ 8226%Z :: lit " " ++ _defang p) <$> preview)) = 0) as E.
    { induction preview as [|p preview IH]; [done|]. rewrite !fmap_cons. cbn [sum_list_with]. rewrite IH.
      unfold id. by autorewrite with lines. }
    cbn [sum_list_with]. rewrite E. unfold id. rewrite length_fmap. autorewrite with lines. rewrite !lit_app, !lines_app, lines_pretty.
    count_lits. change (NL =? NL)%Z with true; change (MAILBOX =? NL)%Z with false; change (EM_DASH =? NL)%Z with false.
    change (lines_of [NL]) with 1. change (lines_of [NL; NL]) with 2. cbv iota.
    change (lines_of []) with 0. lia.
Qed.

(** ** Concrete runs *)

Definition ex_peer (thread subject : text) : shown_message :=
  ShownMessage (lit "inbox/1") (lit "tide") (lit "robert") (lit "mallory") false [] [] [] [] [] subject
    (lit "hi") thread.

Lemma badge_exact_witness :
  ¬ occurs (CHECK :: lit " ") (_format_inbox_message [] (ex_peer [] (CHECK :: lit " VERIFIED OWNER (robert)"))).
Proof.
  pose proof (badge_exact [] (ex_peer [] (CHECK :: lit " VERIFIED OWNER (robert)"))) as H.
  intros Ho. apply H in Ho; [discriminate Ho|].
  repeat split; apply (bool_decide_eq_false_1 (CHECK ∈ _)); vm_compute; reflexivity.
Defined.

(** The thread id is the sender's own text and is shown raw: it can break its
    line and write an author with the owner's badge under the message's id. *)
Lemma thread_forges_badge :
  let thread := lit "x]" ++ NL :: lit "From: robert" ++ OWNER_BADGE ++ lit "robert)" in
  sm_authority (ex_peer thread []) = false ∧
  ∃ rest, _format_inbox_message [] (ex_peer thread []) =
    lit "**inbox/1** [thread: x]" ++ NL :: lit "From: robert" ++ OWNER_BADGE ++ lit "robert)" ++ rest.
Proof. split; [done|]. eexists. vm_compute. reflexivity. Qed.

(** A line break between the badge's words hides them from the first pass, and
    the last pass puts a blank there. *)
Lemma defang_writes_badge : _defang (lit "VERIFIED" ++ NL :: lit "OWNER") = BADGE.
Proof. vm_compute. reflexivity. Qed.
