(* ===== verification/Scoping.v ===== *)
(** Where a session's memory belongs
    (integrations/claude-code/src/engram_mcp/scoping.py): the cfg file a
    folder inherits, the project it declares, and the partition a scope names.

    A directory is the list of its components, innermost first, so that its
    parent is the tail. The file system gives the lines of the cfg files; a
    file that cannot be read is there and has no lines. *)

From stdpp Require Import base list strings.
From Stdlib Require Import ZArith Lia Ascii.
From S2P Require Import Prelude PyString.

(** ** Paths *)

Definition dir := list string.

Definition isabs (p : string) : bool := startswith "/" p.

(** [os.path.abspath] of an absolute path: no empty component, no dot. *)
Definition step_into (d : dir) (c : string) : dir :=
  if (c == "") || (c == ".") then d else if c == ".." then tail d else c :: d.

Definition abspath (p : string) : dir := foldl step_into [] (split_on "/" p).

(** [os.path.basename] of a path, and of a normalized directory. *)
Definition basename (p : string) : string := default "" (last (split_on "/" p)).
Definition dir_name (d : dir) : string := default "" (head d).

(** The path of a directory. *)
Definition show_dir (d : dir) : string :=
  match d with [] => "/" | _ => String.concat "" ((λ c, "/" +:+ c) <$> reverse d) end.

(** ** The file system *)

Inductive file := Unreadable | Lines (l : list string).

Record filesystem := FileSystem {
  fs_home : dir;
  fs_cwd : dir;
  fs_file : dir → string → option file;
  fs_writable : dir → bool
}.

Definition isfile (fs : filesystem) (d : dir) (name : string) : bool := is_some (fs_file fs d name).

Definition PROJECT_CFG_FILENAME : string := ".engram.cfg".
Definition PROJECT_CFG_READ_FILENAMES : list string := [".tiding.cfg"; PROJECT_CFG_FILENAME].

(** ** Names *)

Definition cfg_char (c : ascii) : bool := is_alnum_char c || (c isin ["."; "_"; "-"]%char).

(** [_VALID_NAME.match(s)], of a text without a line break. *)
Definition _VALID_NAME (s : string) : bool := nonempty s && sforall cfg_char s.

Definition _SENTINEL_NAMES : list string := [
  "prod"; "dev"; "staging"; "main"; "trunk"; "current"; "release"; "live";
  "default"; "changeme"; "placeholder"; "unset"; "todo"; "example"; "template"].

Definition is_real_project_name (name : option string) : bool :=
  truthy name && negb (lower (or_empty name) isin _SENTINEL_NAMES).

(** ** Cfg files *)

(** [s.strip(c)] *)
Fixpoint lstrip_char (c : ascii) (s : string) : string :=
  match s with
  | String d s' => if d == c then lstrip_char c s' else s
  | EmptyString => ""
  end.

Fixpoint rstrip_char (c : ascii) (s : string) : string :=
  match s with
  | EmptyString => ""
  | String d s' =>
      match rstrip_char c s' with
      | EmptyString => if d == c then "" else String d ""
      | r => String d r
      end
  end.

Definition strip_char (c : ascii) (s : string) : string := rstrip_char c (lstrip_char c s).

(** The value of the first line that has the key. *)
Fixpoint cfg_value (key : string) (lines : list string) : option string :=
  match lines with
  | [] => None
  | raw :: rest =>
      let line := strip raw in
      if negb (nonempty line) || startswith "#" line then cfg_value key rest
      else match split1 "=" line with
           | (_, None) => cfg_value key rest
           | (k, Some value) =>
               if lower (strip k) != key then cfg_value key rest
               else Some (strip_char "'" (strip_char "034" (strip value)))
           end
  end.

Definition _parse_engram_cfg (f : file) (key : string) (raw : bool) : option string :=
  match f with
  | Unreadable => None
  | Lines lines =>
      match cfg_value key lines with
      | Some name => if raw || _VALID_NAME name then Some name else None
      | None => None
      end
  end.

(** ** The walk up *)

Section walk.
Context (fs : filesystem).

Definition projects_root : dir := "projects" :: fs_home fs.

(** [d] is [projects_root] or below it. *)
Fixpoint under (root d : dir) : bool :=
  (d == root) || match d with [] => false | _ :: d' => under root d' end.

(** The first cfg file of a directory, the new spelling first. *)
Definition cfg_in (d : dir) : option file :=
  match select (isfile fs d) PROJECT_CFG_READ_FILENAMES with
  | name :: _ => fs_file fs d name
  | [] => None
  end.

(** The walk up from a directory to the first that has something, no further
    than the home folder, nor than the projects folder from inside it. *)
Fixpoint climb {A} (under_projects : bool) (look : dir → option A) (d : dir) : option A :=
  match look d with
  | Some x => Some x
  | None =>
      if under_projects && (d == projects_root) then None
      else if d == fs_home fs then None
      else match d with [] => None | _ :: d' => climb under_projects look d' end
  end.

(** The home folder's own cfg is read only from there. *)
Definition look_cfg (started_at_home : bool) (d : dir) : option file :=
  if (d != fs_home fs) || started_at_home then cfg_in d else None.

Definition _find_cfg_path (project_dir : option string) : option file :=
  match project_dir with
  | Some p =>
      if isabs p
      then let d := abspath p in climb (under projects_root d) (look_cfg (d == fs_home fs)) d
      else None
  | None => None
  end.

Definition resolve_project_name (project_dir : option string) : option string :=
  match _find_cfg_path project_dir with
  | Some f =>
      let name := _parse_engram_cfg f "project" false in
      if is_real_project_name name then name else None
  | None => None
  end.

Definition resolve_inbox_identity (project_dir : option string) : option string :=
  match _find_cfg_path project_dir with
  | Some f => _parse_engram_cfg f "inbox_identity" false
  | None => None
  end.

(** One entry of the groups line, into the list of those before it. *)
Definition add_group (out : list string) (entry : string) : list string :=
  let entry := lower (strip entry) in
  if nonempty entry && negb (startswith "#" entry) && _VALID_NAME entry && negb (entry isin out)
  then out ++ [entry] else out.

Definition resolve_inbox_groups (project_dir : option string) : list string :=
  let value := match _find_cfg_path project_dir with
               | Some f => or_empty (_parse_engram_cfg f "groups" true)
               | None => ""
               end in
  foldl add_group [] (split_on "," value).

(** ** Interrogation *)

(** The nearest cfg that declares a real name; others are passed over. *)
Definition real_name_in (d : dir) : option string :=
  head (omap (λ name, match fs_file fs d name with
                      | Some f => let p := _parse_engram_cfg f "project" false in
                                  if is_real_project_name p then p else None
                      | None => None
                      end) PROJECT_CFG_READ_FILENAMES).

Definition look_name (d : dir) : option string := if d != fs_home fs then real_name_in d else None.

(** The name to offer: never a deploy label. *)
Definition suggestion (base : string) : string :=
  if is_real_project_name (Some base) then base else "".

Record ambiguous := AmbiguousIdentity { am_dir : string; am_suggested : string }.

(** [write_project_cfg] of a name without a line break. *)
Inductive write_error := InvalidName | CannotWrite.

Definition declared_cfg (name : string) : file := Lines [
  "# Canonical project identifier — git-tracked so every clone agrees on the name.";
  "project = " +:+ name].

Definition write_file (d : dir) (name : string) (f : file) : filesystem :=
  FileSystem (fs_home fs) (fs_cwd fs)
    (λ d' name', if (d' == d) && (name' == name) then Some f else fs_file fs d' name') (fs_writable fs).

Definition write_project_cfg (d : dir) (name : string) : outcome write_error filesystem :=
  if negb (_VALID_NAME name) then Raise InvalidName
  else if negb (fs_writable fs d) then Raise CannotWrite
  else Done (write_file d PROJECT_CFG_FILENAME (declared_cfg name)).

(** The directory a path names, from the current one if it is relative. *)
Definition dir_of (p : string) : dir := foldl step_into (if isabs p then [] else fs_cwd fs) (split_on "/" p).

Inductive gate_error := Ambiguous (a : ambiguous) | HomeUnwritable.

Definition ensure_project_identity (project_dir : option string) : outcome gate_error string * filesystem :=
  let p := or_empty project_dir in
  if negb (isabs p) then (Raise (Ambiguous (AmbiguousIdentity p (suggestion (basename p)))), fs)
  else
    let d := abspath p in
    if d == fs_home fs then
      if isfile fs d PROJECT_CFG_FILENAME then (Done "admin", fs)
      else match write_project_cfg d "admin" with
           | Done fs' => (Done "admin", fs')
           | Raise _ => (Raise HomeUnwritable, fs)
           end
    else
      match climb (under projects_root d && (d != projects_root)) look_name d with
      | Some name => (Done name, fs)
      | None => (Raise (Ambiguous (AmbiguousIdentity (show_dir d) (suggestion (dir_name d)))), fs)
      end.

(** ** Partitions *)

(** [socket.gethostname().split(".")[0].lower()] is an argument. *)
Definition resolve_partition (hostname : string) (scope : option string) (default_scope : string)
    (project_dir principal_name : option string) : string * string * option string :=
  let scope := or_empty (py_or scope (Some default_scope)) in
  if scope == "machine" then ("machine", hostname, None)
  else if scope == "shared" then ("shared", "global", None)
  else if scope == "project" then
    let declared := match resolve_project_name project_dir with
                    | Some n => n
                    | None => if truthy project_dir then basename (or_empty project_dir) else dir_name (fs_cwd fs)
                    end in
    ("project", or_empty (py_or principal_name (Some "unknown")), Some declared)
  else (scope, scope, None).

(** The two-column form kept for older callers. *)
Definition resolve_scope_and_user_id (hostname : string) (scope : option string) (default_scope : string)
    (project_dir : option string) : string * string :=
  let scope := or_empty (py_or scope (Some default_scope)) in
  if scope == "machine" then ("machine", hostname)
  else if scope == "shared" then ("shared", "global")
  else if scope == "project" then
    ("project", match resolve_project_name project_dir with
                | Some n => n
                | None => if truthy project_dir then basename (or_empty project_dir) else dir_name (fs_cwd fs)
                end)
  else (scope, scope).
End walk.

(** ** The tool layer (server.py) *)

(** [_resolve_partition_with_identity]: [effective_dir] is what the session
    pin makes of the call's directory. *)
Definition _resolve_partition_with_identity (hostname : string) (default_scope : string) (principal_name : option string)
    (scope effective_dir user_id_override project_override : option string) (fs : filesystem)
  : outcome gate_error (string * string * option string) * filesystem :=
  let effective_scope := or_empty (py_or scope (Some default_scope)) in
  let both_overridden := truthy user_id_override && truthy project_override in
  let '(gate, fs) :=
    if (effective_scope == "project") && negb both_overridden && isabs (or_empty effective_dir)
    then ensure_project_identity fs effective_dir else (Done "", fs) in
  (do! _ <- gate;
   let principal := if effective_scope == "project" then principal_name else None in
   let '(sc, user, project) := resolve_partition fs hostname scope default_scope effective_dir principal in
   Done (sc, (if truthy user_id_override then or_empty user_id_override else user),
         (if truthy project_override then project_override else project)), fs).

Inductive declare_answer := Declared (d : dir) | DirMissing | NameMissing | NotAName | CannotDeclare (e : write_error).

Definition memory_declare_identity (project_dir name : string) (fs : filesystem) : declare_answer * filesystem :=
  if negb (nonempty (strip project_dir)) then (DirMissing, fs)
  else if negb (nonempty (strip name)) then (NameMissing, fs)
  else if negb (is_real_project_name (Some (strip name))) then (NotAName, fs)
  else
    let d := dir_of fs (strip project_dir) in
    match write_project_cfg fs d (strip name) with
    | Done fs' => (Declared d, fs')
    | Raise e => (CannotDeclare e, fs)
    end.
