(* ===== verification/ScopingProps.v ===== *)
(** What scoping promises: a folder inherits the nearest cfg within its home,
    a declared name is the one every folder below resolves to, and a
    project's memory is filed under a declared name or not at all - but for a
    placeholder cfg, which the gate passes over and the partition does not. *)

From stdpp Require Import base list strings.
From Stdlib Require Import ZArith Lia Ascii.
From S2P Require Import Prelude PyString Scoping.

Section walk.
Context (fs : filesystem).
Implicit Types (d e l : dir) (f : file).

(** Directories a walk goes through without stopping, from [l ++ d] to above [d]. *)
Definition passed {A} (up : bool) (look : dir → option A) (l d : dir) : Prop :=
  ∀ l1 l2, l = l1 ++ l2 → l2 ≠ [] →
    l2 ++ d ≠ fs_home fs ∧ (up = true → l2 ++ d ≠ projects_root fs) ∧ look (l2 ++ d) = None.

Lemma passed_cons {A} up (look : dir → option A) c l d :
  passed up look (c :: l) d ↔
    (c :: l ++ d ≠ fs_home fs ∧ (up = true → c :: l ++ d ≠ projects_root fs) ∧ look (c :: l ++ d) = None) ∧
    passed up look l d.
Proof.
  split.
  - intros H. split; [exact (H [] (c :: l) eq_refl ltac:(done))|].
    intros l1 l2 -> Hne. by apply (H (c :: l1) l2).
  - intros (H1 & H) l1 l2 E Hne. destruct l1 as [|x l1]; [by cbn in E; subst l2|].
    injection E as -> E. by apply (H l1 l2).
Qed.

Lemma passed_nil {A} up (look : dir → option A) d : passed up look [] d.
Proof. intros l1 l2 E Hne. symmetry in E. by apply app_eq_nil in E as [_ ?]. Qed.

(** The nearest directory that has something, within the bounds. *)
Lemma climb_spec {A} up (look : dir → option A) d x :
  climb fs up look d = Some x ↔ ∃ l d', d = l ++ d' ∧ look d' = Some x ∧ passed up look l d'.
Proof.
  induction d as [|c d IH]; cbn [climb].
  - destruct (look []) as [y|] eqn:E.
    + split; [intros [= ->]; exists [], []; split_and!; [done..|apply passed_nil]|].
      intros (l & d' & Hd & Hx & _). symmetry in Hd. apply app_eq_nil in Hd as [_ ->]. congruence.
    + split; [by repeat case_match|]. intros (l & d' & Hd & Hx & _).
      symmetry in Hd. apply app_eq_nil in Hd as [_ ->]. congruence.
  - destruct (look (c :: d)) as [y|] eqn:E.
    { split; [intros [= ->]; exists [], (c :: d); split_and!; [done..|apply passed_nil]|].
      intros (l & d' & Hd & Hx & Hp). destruct l as [|c' l]; [cbn in Hd; subst d'; congruence|].
      injection Hd as <- ->. apply passed_cons in Hp as [(_ & _ & Hn) _]. cbn in *. congruence. }
    assert ((∃ l d', c :: d = l ++ d' ∧ look d' = Some x ∧ passed up look l d') ↔
      (c :: d ≠ fs_home fs ∧ (up = true → c :: d ≠ projects_root fs)) ∧
      ∃ l d', d = l ++ d' ∧ look d' = Some x ∧ passed up look l d') as ->.
    { split.
      - intros (l & d' & Hd & Hx & Hp). destruct l as [|c' l]; [cbn in Hd; subst d'; congruence|].
        injection Hd as <- ->. apply passed_cons in Hp as [(H1 & H2 & _) Hp]. split; [done|]. by exists l, d'.
      - intros ((H1 & H2) & l & d' & -> & Hx & Hp). exists (c :: l), d'. split_and!; [done..|].
        by apply passed_cons. }
    destruct (decide (up = true ∧ c :: d = projects_root fs)) as [[-> Hr]|Hr].
    { rewrite Hr, bool_decide_eq_true_2 by done. split; [done|]. intros ((_ & H) & _). by destruct H. }
    assert (up && ((c :: d : dir) == projects_root fs) = false) as ->.
    { destruct up; [|done]. cbn. apply bool_decide_eq_false. intros H. by apply Hr. }
    destruct (decide (c :: d = fs_home fs)) as [Hh|Hh].
    + rewrite (bool_decide_eq_true_2 (_ = fs_home fs)) by done. split; [done|]. by intros ((? & _) & _).
    + rewrite (bool_decide_eq_false_2 (_ = fs_home fs)) by done. rewrite IH. split; [|by intros (_ & ?)].
      intros H. split; [|done]. split; [done|]. intros ->. intros H'. by apply Hr.
Qed.
End walk.

(** ** The cfg a declaration writes *)

Lemma cfg_char_plain c : cfg_char c = true → is_space_char c = false ∧ c ≠ "034"%char ∧ c ≠ "'"%char.
Proof.
  unfold cfg_char. intros H. destruct c as [[] [] [] [] [] [] [] []];
    first [discriminate H | by split_and!].
Qed.

(** Stripping keeps a text that ends in a word of kept characters. *)
Lemma rstrip_word s n : nonempty n = true → sforall (λ c, negb (is_space_char c)) n = true → rstrip (s +:+ n) = s +:+ n.
Proof.
  intros Hne Hn. assert (rstrip n = n) as E.
  { induction n as [|c n IH]; [done|]. cbn in Hn |- *. apply andb_true_iff in Hn as [Hc Hn].
    apply negb_true_iff in Hc. destruct n as [|d n]; [cbn; by rewrite Hc|]. by rewrite IH. }
  induction s as [|d s IH]; [done|]. cbn. rewrite IH. by destruct s, n.
Qed.

Lemma rstrip_char_word q n : sforall (λ c, negb (c == q)) n = true → rstrip_char q n = n.
Proof.
  induction n as [|c n IH]; [done|]. cbn. intros [Hc Hn]%andb_true_iff. rewrite IH by done.
  apply negb_true_iff in Hc. destruct n; [|done]. by rewrite Hc.
Qed.

Lemma strip_char_word q n : sforall (λ c, negb (c == q)) n = true → strip_char q n = n.
Proof.
  intros H. unfold strip_char. assert (lstrip_char q n = n) as ->; [|by apply rstrip_char_word].
  destruct n as [|c n]; [done|]. cbn in H |- *. apply andb_true_iff in H as [H _]. apply negb_true_iff in H. by rewrite H.
Qed.

Lemma sforall_impl (p q : ascii → bool) s : (∀ c, p c = true → q c = true) → sforall p s = true → sforall q s = true.
Proof. intros H. induction s as [|c s IH]; [done|]. cbn. rewrite !andb_true_iff. naive_solver. Qed.

Lemma declared_parses n : _VALID_NAME n = true → _parse_engram_cfg (declared_cfg n) "project" false = Some n.
Proof.
  unfold _VALID_NAME. intros Hv. pose proof Hv as [Hne Hn]%andb_true_iff.
  assert (strip ("project = " +:+ n) = "project = " +:+ n) as Hs.
  { unfold strip. change (lstrip ("project = " +:+ n)) with ("project = " +:+ n). apply rstrip_word; [done|].
    eapply sforall_impl, Hn. intros c Hc. by destruct (cfg_char_plain c Hc) as [-> _]. }
  assert (strip (" " +:+ n) = n) as Hs'.
  { unfold strip. assert (lstrip (" " +:+ n) = n) as ->.
    { destruct n as [|c n]; [done|]. cbn in Hn |- *. apply andb_true_iff in Hn as [Hc _].
      by destruct (cfg_char_plain c Hc) as [-> _]. }
    apply (rstrip_word ""); [done|]. eapply sforall_impl, Hn. intros c Hc.
    by destruct (cfg_char_plain c Hc) as [-> _]. }
  assert (cfg_value "project" ["project = " +:+ n] = Some n) as E.
  { cbn [cfg_value]. rewrite Hs. change (split1 "=" ("project = " +:+ n)) with ("project ", Some (" " +:+ n)).
    change (negb (nonempty ("project = " +:+ n)) || startswith "#" ("project = " +:+ n)) with false. cbv iota beta.
    change (lower (strip "project ") != "project") with false. cbv iota. rewrite Hs'.
    rewrite (strip_char_word "034"%char), (strip_char_word "'"%char); [done|..];
      (eapply sforall_impl, Hn; intros c Hc; destruct (cfg_char_plain c Hc) as (_ & ? & ?);
       apply negb_true_iff; by apply bool_decide_eq_false). }
  unfold _parse_engram_cfg, declared_cfg.
  assert (cfg_value "project" ["# Canonical project identifier — git-tracked so every clone agrees on the name.";
    "project = " +:+ n] = Some n) as -> by exact E.
  unfold _VALID_NAME. by rewrite Hv.
Qed.

(** ** Which cfg a folder inherits *)

Lemma under_spec root d : under root d = true ↔ ∃ l, d = l ++ root.
Proof.
  induction d as [|c d IH]; cbn [under].
  - rewrite orb_false_r, bool_decide_eq_true. split; [intros <-; by exists []|].
    intros (l & E). symmetry in E. by apply app_eq_nil in E as [_ ->].
  - rewrite orb_true_iff, bool_decide_eq_true, IH. split.
    + intros [<-|(l & ->)]; [by exists []|by exists (c :: l)].
    + intros ([|x l] & E); [left; by rewrite E|right]. injection E as _ ->. by exists l.
Qed.

Lemma find_cfg_spec fs p f :
  _find_cfg_path fs (Some p) = Some f ↔
    isabs p = true ∧ ∃ l d, abspath p = l ++ d ∧ look_cfg fs (abspath p == fs_home fs) d = Some f ∧
      passed fs (under (projects_root fs) (abspath p)) (look_cfg fs (abspath p == fs_home fs)) l d.
Proof. unfold _find_cfg_path. destruct (isabs p); [|naive_solver]. rewrite climb_spec. naive_solver. Qed.

(** A folder's cfg is the nearest, and never from outside. The cfg a path
    resolves to lies in its directory or in one above it, and no directory
    nearer has one; a path inside the home folder never inherits from the home
    folder itself or from above it, and one inside the projects folder never
    from above that. *)
Lemma cfg_stays_inside fs p f :
  _find_cfg_path fs (Some p) = Some f →
  ∃ l d, abspath p = l ++ d ∧ cfg_in fs d = Some f ∧
    (∀ l1 l2, l = l1 ++ l2 → l2 ≠ [] → cfg_in fs (l2 ++ d) = None) ∧
    (∀ l0, abspath p = l0 ++ fs_home fs → l0 ≠ [] → ∃ e, e ≠ [] ∧ d = e ++ fs_home fs) ∧
    (∀ l0, abspath p = l0 ++ projects_root fs → ∃ e, d = e ++ projects_root fs).
Proof.
  intros (Ha & l & d & Hd & Hl & Hp)%find_cfg_spec. exists l, d. split; [done|].
  assert (cfg_in fs d = Some f ∧ (d = fs_home fs → l = [])) as [Hc Hh].
  { unfold look_cfg in Hl. rewrite Hd in Hl. destruct (decide (d = fs_home fs)) as [E|E].
    - rewrite (bool_decide_eq_true_2 _ E) in Hl. cbn [negb orb] in Hl.
      destruct (decide (l ++ d = fs_home fs)) as [H|H]; [|by rewrite bool_decide_eq_false_2 in Hl].
      rewrite bool_decide_eq_true_2 in Hl by done. split; [done|]. intros _.
      apply (f_equal length) in H. rewrite length_app, E in H. destruct l; [done|cbn in H; lia].
    - by rewrite (bool_decide_eq_false_2 _ E) in Hl. }
  assert (∀ l1 l2, l = l1 ++ l2 → l2 ≠ [] → cfg_in fs (l2 ++ d) = None ∧ l2 ++ d ≠ fs_home fs ∧
    (under (projects_root fs) (abspath p) = true → l2 ++ d ≠ projects_root fs)) as Hbetween.
  { intros l1 l2 El Hne. destruct (Hp l1 l2 El Hne) as (H1 & H2 & H3). split_and!; [|done..].
    unfold look_cfg in H3. by rewrite (bool_decide_eq_false_2 _ H1) in H3. }
  split; [done|]. split; [intros l1 l2 El Hne; by apply (Hbetween l1 l2)|]. rewrite Hd. split.
  - intros l0 E Hne. apply app_eq_inv in E as [(k & -> & E)|(k & -> & ->)].
    + destruct k as [|c k]; [|by destruct (Hbetween l0 (c :: k) eq_refl ltac:(done)) as (_ & ? & _)].
      cbn in E. symmetry in E. rewrite app_nil_r in Hh. by apply Hh in E.
    + destruct k as [|c k]; [|by exists (c :: k)]. rewrite app_nil_r in Hne. by rewrite Hh in Hne.
  - intros l0 E. pose proof E as Hu. rewrite <- Hd in Hu.
    assert (under (projects_root fs) (abspath p) = true) as Hup by (apply under_spec; by exists l0).
    apply app_eq_inv in E as [(k & -> & E)|(k & -> & ->)]; [|by exists k].
    destruct k as [|c k]; [by exists []|]. destruct (Hbetween l0 (c :: k) eq_refl ltac:(done)) as (_ & _ & H).
    by destruct (H Hup).
Qed.

(** ** The gate *)

Lemma climb_none fs {A B} up (look : dir → option A) (look' : dir → option B) d :
  (∀ e, look e = None → look' e = None) → climb fs up look d = None → climb fs up look' d = None.
Proof.
  intros H. induction d as [|c d IH]; cbn [climb]; destruct (look _) eqn:E; try done; rewrite (H _ E);
    repeat case_match; done.
Qed.

Lemma climb_same fs {A B} up (look : dir → option A) (look' : dir → option B) d x y :
  (∀ e, look e = None → look' e = None) → (∀ e, look e = Some x → look' e = Some y) →
  climb fs up look d = Some x → climb fs up look' d = Some y.
Proof.
  intros H H'. induction d as [|c d IH]; cbn [climb]; destruct (look _) as [z|] eqn:E.
  1, 3: intros [= ->]; by rewrite (H' _ E).
  all: rewrite (H _ E); repeat case_match; done.
Qed.

Lemma cfg_in_name fs e : cfg_in fs e = None → real_name_in fs e = None.
Proof.
  unfold cfg_in, real_name_in, PROJECT_CFG_READ_FILENAMES, isfile. rewrite !select_cons. cbn [omap list_omap].
  destruct (fs_file fs e ".tiding.cfg") as [g|] eqn:E1; cbn; rewrite ?E1; [done|].
  destruct (fs_file fs e PROJECT_CFG_FILENAME) as [g|] eqn:E2; cbn; by rewrite ?E2.
Qed.

Lemma cfg_in_ext fs fs' e : (∀ n, fs_file fs' e n = fs_file fs e n) → cfg_in fs' e = cfg_in fs e.
Proof. intros H. unfold cfg_in, PROJECT_CFG_READ_FILENAMES, isfile. rewrite !select_cons, !H.
  by destruct (is_some (fs_file fs e ".tiding.cfg")), (is_some (fs_file fs e PROJECT_CFG_FILENAME)); cbn; rewrite ?H.
Qed.

Lemma cfg_in_real fs e f n :
  cfg_in fs e = Some f → _parse_engram_cfg f "project" false = Some n → is_real_project_name (Some n) = true →
  real_name_in fs e = Some n.
Proof.
  unfold cfg_in, real_name_in, PROJECT_CFG_READ_FILENAMES, isfile. rewrite !select_cons. intros Hc Hf Hn.
  cbn [omap list_omap]. destruct (fs_file fs e ".tiding.cfg") as [g|] eqn:E1; cbn in Hc.
  - rewrite E1 in Hc. injection Hc as ->. by rewrite Hf, Hn.
  - destruct (fs_file fs e PROJECT_CFG_FILENAME) as [g|] eqn:E2; cbn in Hc; [|done].
    rewrite E2 in Hc. injection Hc as ->. by rewrite Hf, Hn.
Qed.

Lemma find_cfg_climb fs p :
  isabs p = true → _find_cfg_path fs (Some p) =
    climb fs (under (projects_root fs) (abspath p)) (look_cfg fs (abspath p == fs_home fs)) (abspath p).
Proof. intros Ha. unfold _find_cfg_path. by rewrite Ha. Qed.

Lemma climb_root fs {A} up (look : dir → option A) :
  look (fs_home fs) = None →
  climb fs up look (projects_root fs) = look (projects_root fs).
Proof.
  intros Hh. change (climb fs up look (projects_root fs)) with
    (match look (projects_root fs) with
     | Some x => Some x
     | None => if up && (projects_root fs == projects_root fs) then None
               else if projects_root fs == fs_home fs then None else climb fs up look (fs_home fs)
     end).
  destruct (look (projects_root fs)); [done|].
  assert (climb fs up look (fs_home fs) = None) as ->; [|by repeat case_match].
  assert (∀ d, d = fs_home fs → climb fs up look d = None) as H; [|by apply H].
  intros d Hd. destruct d as [|c d]; cbn [climb]; rewrite Hd, Hh, (bool_decide_eq_true_2 (fs_home fs = fs_home fs)) by done;
    by repeat case_match.
Qed.

(** The gate's walk against the one that reads: nothing for nothing, and the
    same name where the nearest cfg declares a real one. *)
Lemma gate_walk fs d :
  d ≠ fs_home fs →
  let up := under (projects_root fs) d in
  let gate := climb fs (up && (d != projects_root fs)) (look_name fs) d in
  match climb fs up (look_cfg fs false) d with
  | None => gate = None
  | Some f => ∀ n, _parse_engram_cfg f "project" false = Some n → is_real_project_name (Some n) = true → gate = Some n
  end.
Proof.
  intros Hd up gate.
  assert (∀ e, look_cfg fs false e = None → look_name fs e = None) as Hnone.
  { intros e. unfold look_cfg, look_name. rewrite orb_false_r. destruct (e != fs_home fs); [apply cfg_in_name|done]. }
  assert (∀ e f n, _parse_engram_cfg f "project" false = Some n → is_real_project_name (Some n) = true →
    look_cfg fs false e = Some f → look_name fs e = Some n) as Hreal.
  { intros e f n Hf Hn. unfold look_cfg, look_name. rewrite orb_false_r. destruct (e != fs_home fs); [|done].
    intros Hc. by eapply cfg_in_real. }
  unfold gate. bcase (d = projects_root fs) E.
  - assert (up = true) as -> by (unfold up; apply under_spec; by exists []). rewrite E, !climb_root.
    + destruct (look_cfg fs false (projects_root fs)) as [f|] eqn:Ef; [intros n Hf Hn; by apply (Hreal _ f n)|by apply Hnone].
    + unfold look_name. by rewrite bool_decide_eq_true_2.
    + unfold look_cfg. by rewrite bool_decide_eq_true_2.
  - rewrite andb_true_r. destruct (climb fs up (look_cfg fs false) d) as [f|] eqn:Ef.
    + intros n Hf Hn. by apply (climb_same fs up (look_cfg fs false) _ d f n Hnone (λ e, Hreal e f n Hf Hn)).
    + by apply (climb_none fs up (look_cfg fs false)).
Qed.

Section partition.
Context (hostname default_scope : string) (user : option string) (fs : filesystem).

Definition project_run (p : string) : outcome gate_error (string * string * option string) * filesystem :=
  _resolve_partition_with_identity hostname default_scope user (Some "project") (Some p) None None fs.

Lemma gated p :
  isabs p = true → abspath p ≠ fs_home fs →
  match _find_cfg_path fs (Some p) with
  | None => project_run p = (Raise (Ambiguous (AmbiguousIdentity (show_dir (abspath p)) (suggestion (dir_name (abspath p))))), fs)
  | Some _ =>
      match resolve_project_name fs (Some p) with
      | Some n => project_run p = (Done ("project", or_empty (py_or user (Some "unknown")), Some n), fs)
      | None =>
          project_run p = (Raise (Ambiguous (AmbiguousIdentity (show_dir (abspath p)) (suggestion (dir_name (abspath p))))), fs) ∨
          project_run p = (Done ("project", or_empty (py_or user (Some "unknown")), Some (basename p)), fs)
      end
  end.
Proof.
  intros Ha Hd. pose proof (gate_walk fs (abspath p) Hd) as Hg. cbv zeta in Hg.
  unfold project_run, _resolve_partition_with_identity.
  change (or_empty (py_or (Some "project") (Some default_scope))) with "project".
  change ("project" == "project") with true. cbn [truthy andb negb]. change (or_empty (Some p)) with p. rewrite Ha.
  unfold ensure_project_identity. change (or_empty (Some p)) with p. rewrite Ha. cbn [negb].
  rewrite (bool_decide_eq_false_2 (abspath p = fs_home fs)) by done.
  assert (∀ fs', resolve_partition fs' hostname (Some "project") default_scope (Some p) user =
    ("project", or_empty (py_or user (Some "unknown")), Some (match resolve_project_name fs' (Some p) with
       | Some n => n | None => basename p end))) as Hpart.
  { intros fs'. unfold resolve_partition.
    change (or_empty (py_or (Some "project") (Some default_scope))) with "project".
    change ("project" == "machine") with false. change ("project" == "shared") with false.
    change ("project" == "project") with true. cbv iota.
    assert (truthy (Some p) = true) as -> by (by destruct p). done. }
  assert (resolve_project_name fs (Some p) = match _find_cfg_path fs (Some p) with
    | Some f => if is_real_project_name (_parse_engram_cfg f "project" false) then _parse_engram_cfg f "project" false else None
    | None => None end) as Hname by reflexivity.
  rewrite find_cfg_climb in * by done. rewrite (bool_decide_eq_false_2 (abspath p = fs_home fs)) in * by done.
  destruct (climb fs _ (look_cfg fs false) (abspath p)) as [f|]; [|by rewrite Hg].
  destruct (is_real_project_name (_parse_engram_cfg f "project" false)) eqn:Er.
  - destruct (_parse_engram_cfg f "project" false) as [n|] eqn:En; [|done].
    rewrite Hname, (Hg n) by done. cbn [obind]. by rewrite Hpart, Hname.
  - rewrite Hname. destruct (climb fs _ (look_name fs) (abspath p)) as [m|]; [right|by left].
    cbn [obind]. by rewrite Hpart, Hname.
Qed.
End partition.

(** A project's memory is filed under a declared name, or asked about. For
    a folder below the home: with no cfg in reach the call is refused with
    the folder's own name as the suggestion (none if that is a deploy label)
    and nothing is written; with a nearest cfg that declares a real name it
    is filed under that name, for the caller's login. Otherwise the nearest
    cfg is a placeholder or malformed: either it is refused in the same way,
    or it is filed under the folder's own name. *)
Lemma project_scope_gated hostname default_scope user p fs :
  isabs p = true → abspath p ≠ fs_home fs →
  let run := _resolve_partition_with_identity hostname default_scope user (Some "project") (Some p) None None fs in
  let d := abspath p in
  let refused := (Raise (Ambiguous (AmbiguousIdentity (show_dir d) (suggestion (dir_name d)))), fs) in
  let filed n := (Done ("project", or_empty (py_or user (Some "unknown")), Some n), fs) in
  match _find_cfg_path fs (Some p), resolve_project_name fs (Some p) with
  | None, _ => run = refused
  | Some _, Some n => is_real_project_name (Some n) = true ∧ run = filed n
  | Some _, None => run = refused ∨ run = filed (basename p)
  end.
Proof.
  intros Ha Hd. pose proof (gated hostname default_scope user fs p Ha Hd) as H. cbv zeta.
  unfold project_run in H. destruct (_find_cfg_path fs (Some p)) as [f|] eqn:Ef; [|exact H].
  destruct (resolve_project_name fs (Some p)) as [n|] eqn:En; [|exact H]. split; [|exact H].
  unfold resolve_project_name in En. rewrite Ef in En.
  destruct (is_real_project_name (_parse_engram_cfg f "project" false)) eqn:Er; [|done]. by rewrite En in Er.
Qed.

(** What is declared is what is resolved. After a declaration is written to
    a folder that has no cfg of the new spelling, every path in it or below
    it, up to the next cfg and outside the walk's bounds, resolves to the name
    declared, and a project's memory called from there is filed under it. *)
Lemma declare_then_resolve hostname default_scope user p name fs d fs' q l :
  memory_declare_identity p name fs = (Declared d, fs') →
  isfile fs d ".tiding.cfg" = false →
  isabs q = true → abspath q = l ++ d → abspath q ≠ fs_home fs → d ≠ fs_home fs →
  (∀ l1 l2, l = l1 ++ l2 → l2 ≠ [] →
     cfg_in fs (l2 ++ d) = None ∧ l2 ++ d ≠ fs_home fs ∧ l2 ++ d ≠ projects_root fs) →
  resolve_project_name fs' (Some q) = Some (strip name) ∧
  _resolve_partition_with_identity hostname default_scope user (Some "project") (Some q) None None fs' =
    (Done ("project", or_empty (py_or user (Some "unknown")), Some (strip name)), fs').
Proof.
  unfold memory_declare_identity. intros Hdecl Ht Ha Hq Hqh Hdh Hbetween.
  destruct (negb _); [done|]. destruct (negb _); [done|]. destruct (negb (is_real_project_name _)) eqn:Er; [done|].
  apply negb_false_iff in Er. unfold write_project_cfg in Hdecl.
  destruct (negb (_VALID_NAME _)) eqn:Ev; [done|]. apply negb_false_iff in Ev.
  destruct (negb (fs_writable _ _)); [done|]. injection Hdecl as Hdir <-. rewrite Hdir in *. clear Hdir.
  set (fs' := write_file _ _ _ _).
  assert (∀ e n, e ≠ d → fs_file fs' e n = fs_file fs e n) as Hother.
  { intros e n He. unfold fs', write_file. cbn [fs_file]. by rewrite (bool_decide_eq_false_2 (e = d)). }
  assert (cfg_in fs' d = Some (declared_cfg (strip name))) as Hcfg.
  { unfold cfg_in, PROJECT_CFG_READ_FILENAMES. rewrite !select_cons.
    assert (isfile fs' d ".tiding.cfg" = false) as ->.
    { unfold isfile, fs', write_file in *. cbn [fs_file]. by rewrite andb_false_r. }
    assert (fs_file fs' d PROJECT_CFG_FILENAME = Some (declared_cfg (strip name))) as Hf.
    { unfold fs', write_file. cbn [fs_file]. by rewrite !bool_decide_eq_true_2. }
    unfold isfile at 1. by rewrite Hf. }
  assert (_find_cfg_path fs' (Some q) = Some (declared_cfg (strip name))) as Hfind.
  { apply find_cfg_spec. split; [done|]. exists l, d. split; [done|].
    assert (abspath q ≠ fs_home fs') as Hqh' by done. rewrite (bool_decide_eq_false_2 _ Hqh').
    unfold look_cfg at 1. rewrite (bool_decide_eq_false_2 (d = fs_home fs')) by done. split; [done|].
    intros l1 l2 El Hne. destruct (Hbetween l1 l2 El Hne) as (H1 & H2 & H3). split_and!; [done..|].
    unfold look_cfg. rewrite (bool_decide_eq_false_2 (l2 ++ d = fs_home fs')) by done.
    rewrite (cfg_in_ext fs fs'); [done|]. intros n. apply Hother. intros E.
    apply (f_equal length) in E. rewrite length_app in E. destruct l2; [done|cbn in E; lia]. }
  assert (resolve_project_name fs' (Some q) = Some (strip name)) as Hname.
  { unfold resolve_project_name. by rewrite Hfind, declared_parses, Er. }
  split; [done|]. pose proof (gated hostname default_scope user fs' q Ha Hqh) as Hg.
  rewrite Hfind, Hname in Hg. exact Hg.
Qed.

(** ** Groups *)

(** The team addresses are well formed, lower-case and listed once. *)
Lemma groups_spec fs p :
  NoDup (resolve_inbox_groups fs p) ∧
  ∀ g, g ∈ resolve_inbox_groups fs p → _VALID_NAME g = true ∧ lower g = g.
Proof.
  unfold resolve_inbox_groups. set (l := split_on "," _). clearbody l.
  induction l as [|x l IH] using rev_ind; [split; [apply NoDup_nil_2|]; by intros g ?%elem_of_nil|].
  rewrite foldl_snoc. destruct IH as [Hnd Hg]. unfold add_group at 1 3. set (e := lower (strip x)).
  destruct (nonempty e && _ && _ && _) eqn:E; [|done].
  apply andb_true_iff in E as [[[_ _]%andb_true_iff Hv]%andb_true_iff Hin].
  apply negb_true_iff, bool_decide_eq_false in Hin. split.
  - apply NoDup_app. split_and!; [done| |apply NoDup_singleton]. intros y Hy Hs%list_elem_of_singleton. by subst.
  - intros g [Hin'|Hs%list_elem_of_singleton]%elem_of_app; [by apply Hg|]. subst g. split; [done|apply lower_idem].
Qed.

(** ** Concrete runs *)

Definition ex_home : dir := ["ann"; "home"].
Definition ex_app : dir := "app" :: "projects" :: ex_home.
Definition ex_fs : filesystem := FileSystem ex_home [] (λ d name,
  if name == PROJECT_CFG_FILENAME then
    if d == ex_app then Some (Lines ["# the app"; "project = app"; "groups = app-team, App-Ops"])
    else if d == "dev" :: ex_app then Some (Lines ["project = dev"])
    else None
  else None) (λ _, true).

(** A placeholder cfg below a declared project: the gate passes on the
    project's name, and the memory is filed under the placeholder's folder,
    a deploy label. *)
Lemma gate_bypassed :
  (ensure_project_identity ex_fs (Some "/home/ann/projects/app/dev")).1 = Done "app" ∧
  (_resolve_partition_with_identity "hosta" "machine" (Some "ann") (Some "project") (Some "/home/ann/projects/app/dev")
     None None ex_fs).1 = Done ("project", "ann", Some "dev") ∧
  is_real_project_name (Some "dev") = false.
Proof. split_and!; vm_compute; reflexivity. Qed.
