(* ===== verification/Session.v ===== *)
(** Who a session is (integrations/claude-code/src/engram_mcp/identity.py):
    its anchor directory, its session key, the seat file its processes share,
    the addresses it reads and replies from, and the death of its harness.

    What the operating system answers is an argument: the file system
    (Scoping), the environment variables, the answers of [ps], the host name.
    Seat and process files live in one directory, by file name. *)

From stdpp Require Import base gmap list strings pretty.
From Stdlib Require Import ZArith Lia Ascii.
From S2P Require Import Prelude PyString Scoping.

Definition ADMIN_NAME : string := "admin".
Definition ADMIN_EXEMPT_LANE_PROJECTS : list string := [ADMIN_NAME].
Definition ADMIN_ROLE : string := ADMIN_NAME.
Definition ADMIN_FLEET : string := ADMIN_ROLE +:+ "@fleet".

(** What [ps] says of a process: the exit code and what it printed, or that it
    could not be run. *)
Inductive ps_answer := PsFailed | PsRan (returncode : Z) (stdout : string).

(** [s.split()] *)
Fixpoint split_words (s : string) : list string :=
  match s with
  | EmptyString => []
  | String c s' =>
      if is_space_char c then split_words s'
      else match s' with
           | EmptyString => [String c ""]
           | String d _ =>
               if is_space_char d then String c "" :: split_words s'
               else match split_words s' with
                    | w :: rest => String c w :: rest
                    | [] => [String c ""]
                    end
           end
  end.

Record environ := Environ {
  ev_fs : filesystem;
  ev_host : string;                      (* hostname() *)
  ev_startup : option string;            (* _STARTUP_CWD *)
  ev_identity : option string;           (* ENGRAM_INBOX_IDENTITY *)
  ev_provider : option string;           (* ENGRAM_PROVIDER *)
  ev_session_key : option string;        (* ENGRAM_SESSION_KEY *)
  ev_pid : Z;
  ev_ppid : Z;
  ev_ps : Z → ps_answer;                 (* in UTC and the C locale *)
  ev_ps_local : Z → ps_answer            (* as the box is set, start time only *)
}.

(** The module's globals. *)
Record session := Session {
  se_pin : option string;        (* _SESSION_PROJECT_DIR *)
  se_anchor : option string;     (* _IDENTITY_ANCHOR *)
  se_seat : option string;       (* _SESSION_SEAT *)
  se_found : option string;      (* _DISCOVERED_SEAT_PATH *)
  se_notice : option (string * string)   (* declared, in effect *)
}.

Definition no_session : session := Session None None None None None.

(** The files of the seats directory. *)
Record disk := Disk {
  dk_files : gmap string string;
  dk_writable : bool
}.

(** ** Session keys *)

Definition AUTO_KEY_PREFIX : string := "auto-".

Definition int_of (s : string) : option Z := if isdigit s then Some (Z.of_N (digits 0 s)) else None.

Definition start_of (words : list string) : string := join " " (take 5 (drop 1 words)).

Definition _proc_info (ps : Z → ps_answer) (pid : Z) : option (Z * string) :=
  match ps pid with
  | PsFailed => None
  | PsRan _ stdout =>
      let words := split_words stdout in
      match words with
      | w :: _ => if (length words <? 6)%nat then None else (λ n, (n, start_of words)) <$> int_of w
      | [] => None
      end
  end.

Definition key_char (c : ascii) : bool := is_alnum_char c || (c isin ["-"; "_"; "."]%char).

(** [x.strip("-")] *)
Definition strip_dashes (s : string) : string := strip_char "-" s.

Definition auto_session_key_for (pid : Z) (start host : string) : string :=
  let safe := strip_dashes (smap (λ c, if key_char c then c else "-"%char) start) in
  lower (AUTO_KEY_PREFIX +:+ host +:+ "-" +:+ pretty pid +:+ "-" +:+ safe).

Section environment.
Context (env : environ).

Definition derive_session_key : option string :=
  if (ev_ppid env <=? 1)%Z then None
  else (λ info, auto_session_key_for (ev_ppid env) info.2 (ev_host env)) <$> _proc_info (ev_ps env) (ev_ppid env).

Definition resolve_session_key : option string :=
  let key := norm (ev_session_key env) in
  if nonempty key then Some key else derive_session_key.

(** The file's name in the seats directory, its suffix apart. *)
Definition safe_name (key : string) : string := stake 128 (smap (λ c, if key_char c then c else "_"%char) key).

Definition seat_file_path (session_key : option string) : option string :=
  match (if truthy session_key then session_key else resolve_session_key) with
  | None => None
  | Some key =>
      if negb (nonempty key) then None
      else let safe := safe_name key in if nonempty safe then Some (safe +:+ ".seat") else None
  end.

Definition PROC_FILE_SUFFIX : string := ".proc".

Definition _proc_file_path (session_key : option string) : option string :=
  (λ p, stake (String.length p - 5) p +:+ PROC_FILE_SUFFIX) <$> seat_file_path session_key.

(** ** Seat files *)

Definition seat_char (c : ascii) : bool := is_lower_char c || is_digit_char c || (c isin ["."; "_"; "-"]%char).

Definition _is_valid_seat (value : string) : bool :=
  nonempty value && (String.length value <=? 128)%nat && sforall seat_char value.

Definition _read_seat_at (d : disk) (path : option string) : option string :=
  match path with
  | Some p =>
      match dk_files d !! p with
      | Some raw => let value := lower (strip (stake 256 raw)) in if _is_valid_seat value then Some value else None
      | None => None
      end
  | None => None
  end.

(** The walk up the process tree: at most twelve processes, none twice, for
    the first that has what is looked for. *)
Fixpoint ancestors {A} (look : Z → string → option A) (fuel : nat) (pid : Z) (seen : list Z) : option A :=
  match fuel with
  | O => None
  | S fuel' =>
      if (pid <=? 1)%Z || (pid isin seen) then None
      else match _proc_info (ev_ps env) pid with
           | None => None
           | Some (ppid, start) =>
               match look pid start with
               | Some x => Some x
               | None => ancestors look fuel' ppid (pid :: seen)
               end
           end
  end.

Definition look_seat (d : disk) (pid : Z) (start : string) : option string :=
  match seat_file_path (Some (auto_session_key_for pid start (ev_host env))) with
  | Some p => if is_some (dk_files d !! p) then Some p else None
  | None => None
  end.

Definition discover_seat_file (d : disk) (s : session) : option string * session :=
  match (match se_found s with Some p => if is_some (dk_files d !! p) then Some p else None | None => None end) with
  | Some p => (Some p, s)
  | None =>
      let found := ancestors (look_seat d) 12 (ev_pid env) [] in
      (found, Session (se_pin s) (se_anchor s) (se_seat s) found (se_notice s))
  end.

Definition read_seat_file (d : disk) (s : session) : option string * session :=
  match _read_seat_at d (seat_file_path None) with
  | Some v => (Some v, s)
  | None => let '(path, s) := discover_seat_file d s in (_read_seat_at d path, s)
  end.

Definition newline : string := String "010"%char "".

Definition write_file_at (d : disk) (path : option string) (content : string) : option string * disk :=
  match path with
  | Some p => if dk_writable d then (Some p, Disk (<[p := content]> (dk_files d)) true) else (None, d)
  | None => (None, d)
  end.

Definition _write_seat_file (seat : string) (d : disk) : option string * disk :=
  write_file_at d (seat_file_path None) (seat +:+ newline).

Inductive take_error := SeatRequired | BadSeat.

Definition with_seat (seat : option string) (s : session) : session :=
  Session (se_pin s) (se_anchor s) seat (se_found s) (se_notice s).

Definition clear_seat (s : session) : session := with_seat None s.

Definition assert_local_seat (name : option string) (s : session) : outcome take_error string * session :=
  let name := norm name in
  if negb (nonempty name) then (Raise SeatRequired, s)
  else if negb (_is_valid_seat name) then (Raise BadSeat, s)
  else (Done name, with_seat (Some name) s).

Definition take_seat (name : option string) (s : session) (d : disk) : outcome take_error string * session * disk :=
  match assert_local_seat name s with
  | (Raise e, s) => (Raise e, s, d)
  | (Done name, s) => (Done name, s, (_write_seat_file name d).2)
  end.

(** ** The session's process *)

Definition record_session_process (d : disk) : option string * disk :=
  if (ev_ppid env <=? 1)%Z then (None, d)
  else match _proc_info (ev_ps env) (ev_ppid env) with
       | None => (None, d)
       | Some (_, start) =>
           write_file_at d (_proc_file_path None) (pretty (ev_ppid env) +:+ " " +:+ start +:+ newline)
       end.

Definition _read_proc_at (d : disk) (path : option string) : option (Z * string) :=
  match path with
  | Some p =>
      match dk_files d !! p with
      | Some raw =>
          let raw := strip raw in
          (λ n, (n, strip (default "" (split1 " " raw).2))) <$> int_of (before " " raw)
      | None => None
      end
  | None => None
  end.

Definition discover_session_process (d : disk) : option (Z * string) :=
  match _read_proc_at d (_proc_file_path None) with
  | Some found => Some found
  | None =>
      ancestors (λ pid start, _read_proc_at d (_proc_file_path (Some (auto_session_key_for pid start (ev_host env)))))
        12 (ev_pid env) []
  end.

(** Positive evidence that the process which was [(pid, start)] has exited. *)
Definition process_is_gone (pid : Z) (start : string) : bool :=
  match ev_ps env pid with
  | PsFailed => false
  | PsRan rc stdout =>
      let words := split_words stdout in
      if (6 <=? length words)%nat then
        if start_of words == start then false
        else match ev_ps_local env pid with
             | PsFailed => false
             | PsRan _ printed =>
                 let local := split_words printed in
                 negb ((0 <? length local)%nat
                       && (join " " (take 5 local) == start))
             end
      else (rc =? 1)%Z
  end.
End environment.

(** ** Anchors *)

Definition set_identity_anchor (project_dir : option string) (s : session) : session :=
  if isabs (or_empty project_dir)
  then Session (se_pin s) project_dir (se_seat s) (se_found s) (se_notice s) else s.

Definition remember_project_dir (env : environ) (project_dir : option string) (s : session)
  : option string * session :=
  if isabs (or_empty project_dir)
  then (project_dir, Session project_dir (se_anchor s) (se_seat s) (se_found s) (se_notice s))
  else (py_or (se_pin s) (ev_startup env), s).

Definition reset_session_pin (s : session) : session :=
  Session None (se_anchor s) (se_seat s) (se_found s) (se_notice s).

Definition identity_anchor_dir (env : environ) (s : session) : option string :=
  py_or (py_or (se_anchor s) (ev_startup env)) (se_pin s).

(** ** Addresses *)

(** The component after the first [projects]. *)
Fixpoint after_projects (parts : list string) : option string :=
  match parts with
  | "projects" :: rest => head rest
  | _ :: rest => after_projects rest
  | [] => None
  end.

Definition derive_project_name (env : environ) (project_dir : option string) : string :=
  match resolve_project_name (ev_fs env) project_dir with
  | Some declared => lower declared
  | None =>
      match after_projects (select nonempty (split_on "/" (strip (or_empty project_dir)))) with
      | Some name => lower name
      | None => ADMIN_NAME
      end
  end.

Definition is_admin_context (env : environ) (project_dir : option string) : bool :=
  derive_project_name env project_dir == ADMIN_NAME.

Definition admin_was_fallback (env : environ) (project_dir : option string) : bool :=
  (derive_project_name env project_dir == ADMIN_NAME)
  && negb (truthy (resolve_project_name (ev_fs env) project_dir)).

Definition resolve_provider (env : environ) : string :=
  let p := norm (ev_provider env) in if nonempty p then p else "claude".

(** The session's own name: its runtime seat, the seat its processes share,
    the launcher's, the folder's. *)
Definition resolve_session_identity (env : environ) (d : disk) (project_dir : option string) (s : session)
  : option string * session :=
  let '(from_file, s1) := read_seat_file env d s in
  match from_file with
  | Some f =>
      (Some f, if truthy (se_seat s) && (f != or_empty (se_seat s)) then with_seat (Some f) s1 else s1)
  | None =>
      if truthy (se_seat s) then (se_seat s, s1)
      else
        let e := norm (ev_identity env) in
        let declared := lower <$> resolve_inbox_identity (ev_fs env) project_dir in
        if nonempty e then
          (Some e,
           if truthy declared && (or_empty declared != e)
           then Session (se_pin s1) (se_anchor s1) (se_seat s1) (se_found s1) (Some (or_empty declared, e)) else s1)
        else (declared, s1)
  end.

Definition provider_lane (env : environ) (project : string) : string :=
  if project isin ADMIN_EXEMPT_LANE_PROJECTS then ""
  else let candidate := project +:+ "-" +:+ resolve_provider env in
       if (candidate != project) && _is_valid_seat candidate then candidate else "".

(** The team addresses the folder declares, each with its host's form. *)
Definition group_addresses (env : environ) (anchor : option string) (project override lane : string) : list string :=
  flat_map (λ g, if (g != project) && (g != override) && (g != lane) && _is_valid_seat g
                 then [g; g +:+ "@" +:+ ev_host env] else [])
    (resolve_inbox_groups (ev_fs env) anchor).

(** The reader's identity and the addresses it listens on. *)
Definition addresses (env : environ) (anchor : option string) (override : string) : string * list string :=
  let host := ev_host env in
  let project := derive_project_name env anchor in
  let lane := provider_lane env project in
  let at_host := λ a, a +:+ "@" +:+ host in
  let groups := group_addresses env anchor project override lane in
  if nonempty override && (override != project) then
    let lane_entries := if nonempty lane && (lane != override) then [lane; at_host lane] else [] in
    (at_host override,
     [override] ++ lane_entries ++ [project; at_host project] ++ groups ++ ["machine:" +:+ host; at_host override])
  else
    let lane_entries := if nonempty lane then [lane; at_host lane] else [] in
    let fleet_entries := if project == ADMIN_ROLE then [ADMIN_FLEET] else [] in
    (at_host project,
     [project] ++ lane_entries ++ groups ++ fleet_entries ++ ["machine:" +:+ host; at_host project]).

Definition compute_identity (env : environ) (d : disk) (project_dir : option string) (s : session)
  : (string * list string) * session :=
  let '(_, s) := remember_project_dir env project_dir s in
  let '(override, s1) := resolve_session_identity env d project_dir s in
  (addresses env (identity_anchor_dir env s) (or_empty override), s1).

Definition sender_lane (env : environ) (project_dir : option string) (s : session) : string :=
  provider_lane env (derive_project_name env (py_or (identity_anchor_dir env s) project_dir)).

(** Where a reply to a sender goes. *)
Definition qualify_admin_target (address from_identity : string) : string :=
  if negb (nonempty address) || (lower (strip address) != ADMIN_ROLE) then address
  else
    let src := lower (strip from_identity) in
    if startswith (ADMIN_ROLE +:+ "@") src && (src != ADMIN_FLEET) then src else address.

Definition reader_to_address (reader_identity : string) : string :=
  if startswith "machine:" reader_identity then reader_identity else before "@" reader_identity.

(** ** The tool layer (server.py, client.py) *)

(** The project the session itself is of, from its anchor. *)
Definition _own_project (env : environ) (s : session) : string :=
  derive_project_name env (identity_anchor_dir env s).

(** The provenance header of a call, from its effective directory. *)
Definition origin_project (env : environ) (project_dir : option string) (s : session) : string :=
  derive_project_name env (remember_project_dir env project_dir s).1.

(** The letter a reply answers. *)
Record parent := Parent {
  pt_id : string;
  pt_to : string;
  pt_from : option string;
  pt_from_principal : option string;
  pt_from_project : option string;
  pt_from_lane : option string;
  pt_participants : list string;
  pt_thread_id : option string;
  pt_intent : option string
}.

Definition REPLY_ASK_INTENTS : list string := ["action"; "proceed"; "escalate"; "authority-directive"].

Inductive reply_target := ToOne (a : string) | ToGroup (l : list string).

Record reply := Reply {
  rp_to : reply_target;
  rp_thread : string;
  rp_in_reply_to : string;
  rp_intent : option string
}.

(** [None]: the parent has no author to reply to. *)
Definition memory_reply (env : environ) (s : session) (reader_identity : string) (intent : option string) (p : parent)
  : option reply :=
  let raw_from := if truthy (pt_from p) then or_empty (pt_from p) else strip (or_empty (pt_from_principal p)) in
  if negb (nonempty raw_from) then None
  else
    let participants := select nonempty (pt_participants p) in
    let from_project := norm (pt_from_project p) in
    let '(to, effective) :=
      if startswith "#" (pt_to p) then (ToOne (pt_to p), py_or intent (Some "fyi"))
      else if negb (length participants == 0) then
        let me := [norm (Some reader_identity); norm (Some (reader_to_address reader_identity))] in
        match (λ a, qualify_admin_target a raw_from) <$> select (λ a, negb (norm (Some a) isin me)) participants with
        | [] => (ToOne (qualify_admin_target (reader_to_address raw_from) raw_from), intent)
        | l => (ToGroup l, intent)
        end
      else if truthy (pt_from_project p) && (from_project != _own_project env s) then
        (ToOne (qualify_admin_target from_project raw_from), intent)
      else
        let lane := norm (pt_from_lane p) in
        (ToOne (qualify_admin_target (if nonempty lane then lane else reader_to_address raw_from) raw_from), intent) in
    let effective :=
      if negb (truthy effective) && negb (startswith "#" (pt_to p)) && (norm (pt_intent p) isin REPLY_ASK_INTENTS)
      then Some "action" else effective in
    Some (Reply to (or_empty (py_or (pt_thread_id p) (Some (pt_id p)))) (pt_id p)
            (if truthy effective then effective else None)).
