(* ===== verification/SessionProps.v ===== *)
(** What a session's identity promises: no tool call moves it once it has a
    name of its own, its processes share its seat, a reply to its mail reaches
    it, and its harness is called dead on positive evidence only. *)

From stdpp Require Import base gmap list strings pretty.
From Stdlib Require Import ZArith Lia Ascii.
From S2P Require Import Prelude PyString Scoping ScopingProps Session.

(** ** The seat file *)

Section seat.
Context (env : environ) (d : disk).
Implicit Types (s : session).

Lemma read_seat_globals s :
  let s' := (read_seat_file env d s).2 in
  se_pin s' = se_pin s ∧ se_anchor s' = se_anchor s ∧ se_seat s' = se_seat s ∧ se_notice s' = se_notice s.
Proof.
  cbv zeta. unfold read_seat_file, discover_seat_file. destruct (_read_seat_at d _); [done|].
  destruct (match se_found s with Some p => _ | None => None end); done.
Qed.

(** A process keeps finding the same file. *)
Lemma read_seat_again s s' :
  (se_found s' = se_found s ∨ se_found s' = se_found (read_seat_file env d s).2) →
  (read_seat_file env d s').1 = (read_seat_file env d s).1.
Proof.
  intros Hf. unfold read_seat_file in *. destruct (_read_seat_at d (seat_file_path env None)); [done|].
  unfold discover_seat_file in *.
  remember (ancestors env (look_seat env d) 12 (ev_pid env) []) as found eqn:Hfound. clear Hfound.
  destruct Hf as [->|Hf]; [by destruct (match se_found s with Some p => _ | None => None end)|].
  destruct (se_found s) as [p|] eqn:Es; [destruct (is_some (dk_files d !! p)) eqn:Ep|]; cbn in Hf; rewrite Hf, ?Es, ?Ep;
    try done; (destruct found as [q|]; [|done]); by destruct (is_some (dk_files d !! q)).
Qed.

(** The name a session has of its own: a seat it took, one its processes
    share, or the launcher's. *)
Definition own_name s : option string :=
  match (read_seat_file env d s).1 with
  | Some f => Some f
  | None => if truthy (se_seat s) then se_seat s
            else let e := norm (ev_identity env) in if nonempty e then Some e else None
  end.

Lemma resolve_named s pd n : own_name s = Some n → (resolve_session_identity env d pd s).1 = Some n.
Proof.
  unfold own_name, resolve_session_identity. destruct (read_seat_file env d s) as [[f|] s1]; cbn [fst]; [done|].
  destruct (truthy (se_seat s)); [done|]. cbv zeta. by destruct (nonempty _).
Qed.

(** After a call the session has the same name. *)
Lemma named_again s pd n :
  own_name s = Some n → own_name (resolve_session_identity env d pd s).2 = Some n.
Proof.
  intros Hn. unfold own_name. 
  assert ((read_seat_file env d (resolve_session_identity env d pd s).2).1 = (read_seat_file env d s).1) as ->.
  { apply read_seat_again. right. unfold resolve_session_identity.
    destruct (read_seat_file env d s) as [[f|] s1]; cbn; [by destruct (_ && _)|].
    destruct (truthy (se_seat s)); [done|]. cbv zeta. destruct (nonempty _); [|done]. by destruct (_ && _). }
  pose proof (read_seat_globals s) as (_ & _ & Hs & _). unfold own_name in Hn. unfold resolve_session_identity.
  destruct (read_seat_file env d s) as [[f|] s1]; cbn [fst snd] in *; [done|].
  destruct (truthy (se_seat s)) eqn:Et; cbn [fst snd]; [by rewrite Hs, Et|]. cbv zeta in *.
  destruct (nonempty (norm (ev_identity env))) eqn:Ee; [|done].
  destruct (_ && _); cbn [fst snd se_seat]; by rewrite Hs, Et.
Qed.
End seat.

(** ** Calls *)

(** A call that computes the identity, for the directory it names. *)
Definition call (env : environ) (d : disk) (s : session) (project_dir : option string) : session :=
  (compute_identity env d project_dir s).2.

Lemma remember_globals env pd s :
  let s' := (remember_project_dir env pd s).2 in
  se_anchor s' = se_anchor s ∧ se_seat s' = se_seat s ∧ se_found s' = se_found s.
Proof. unfold remember_project_dir. by destruct (isabs _). Qed.

Lemma own_name_ext env d s s' :
  se_seat s' = se_seat s → se_found s' = se_found s → own_name env d s' = own_name env d s.
Proof. intros Hs Hf. unfold own_name. by rewrite (read_seat_again env d s s' (or_introl Hf)), Hs. Qed.

Lemma resolve_globals env d pd s : se_anchor (resolve_session_identity env d pd s).2 = se_anchor s.
Proof.
  pose proof (read_seat_globals env d s) as (_ & Ha & _). unfold resolve_session_identity.
  destruct (read_seat_file env d s) as [[f|] s1]; cbn [fst snd] in *; [by destruct (_ && _)|].
  destruct (truthy (se_seat s)); [done|]. cbv zeta. destruct (nonempty _); [|done]. by destruct (_ && _).
Qed.

Lemma call_named env d s pd n :
  own_name env d s = Some n →
  own_name env d (call env d s pd) = Some n ∧ se_anchor (call env d s pd) = se_anchor s.
Proof.
  intros Hn. unfold call, compute_identity. pose proof (remember_globals env pd s) as (Ha & Hs & Hf).
  destruct (remember_project_dir env pd s) as [eff s0]. cbn [snd] in *.
  assert (own_name env d s0 = Some n) as Hn0 by (by rewrite (own_name_ext env d s s0)).
  pose proof (named_again env d s0 pd n Hn0) as H. pose proof (resolve_globals env d pd s0) as Hg.
  destruct (resolve_session_identity env d pd s0) as [o s1]. cbn [snd] in *. split; [done|congruence].
Qed.

Lemma py_or_truthy a b : truthy a = true → py_or a b = a.
Proof. unfold py_or. by intros ->. Qed.

Lemma anchor_fixed env s : truthy (py_or (se_anchor s) (ev_startup env)) = true →
  identity_anchor_dir env s = py_or (se_anchor s) (ev_startup env).
Proof. intros H. unfold identity_anchor_dir. by rewrite py_or_truthy. Qed.

(** C22. No call moves a session that has a name. A session with a seat (its
    own, or one its processes share) or a launcher's name, in a process that
    knows its own directory, has one identity, one set of addresses, one lane
    and one project, fixed by that name and that directory: whatever
    directories the calls before, and this one, were made for. *)
Theorem identity_fixed env d s n calls project_dir :
  own_name env d s = Some n → truthy (py_or (se_anchor s) (ev_startup env)) = true →
  let anchor := py_or (se_anchor s) (ev_startup env) in
  let s' := foldl (call env d) s calls in
  (compute_identity env d project_dir s').1 = addresses env anchor n ∧
  sender_lane env project_dir s' = provider_lane env (derive_project_name env anchor) ∧
  _own_project env s' = derive_project_name env anchor.
Proof.
  intros Hn Ha. cbv zeta.
  assert (own_name env d (foldl (call env d) s calls) = Some n ∧ se_anchor (foldl (call env d) s calls) = se_anchor s)
    as [Hn' Ha'].
  { induction calls as [|pd calls IH] using rev_ind; [done|]. rewrite foldl_snoc. destruct IH as [IH1 IH2].
    destruct (call_named env d _ pd n IH1) as [? ?]. split; [done|congruence]. }
  set (s' := foldl _ s calls) in *. rewrite <- Ha' in Ha |- *. clearbody s'. clear Ha' Hn s.
  unfold sender_lane, _own_project. rewrite !anchor_fixed by done. rewrite (py_or_truthy _ project_dir) by done.
  split_and!; [|done|done]. unfold compute_identity. pose proof (remember_globals env project_dir s') as (H1 & H2 & H3).
  destruct (remember_project_dir env project_dir s') as [eff s0]. cbn [snd] in *.
  assert (own_name env d s0 = Some n) as Hn0 by (by rewrite (own_name_ext env d s' s0)).
  pose proof (resolve_named env d s0 project_dir n Hn0) as Hr.
  destruct (resolve_session_identity env d project_dir s0) as [o s1]. cbn [fst] in *. subst o.
  rewrite anchor_fixed by (by rewrite H1). by rewrite H1.
Qed.

(** ** Replies *)

Definition address_char (c : ascii) : bool := seat_char c || (c == "@"%char).

Lemma address_char_plain c : address_char c = true → is_space_char c = false ∧ lower_char c = c.
Proof.
  unfold address_char. intros H. destruct c as [[] [] [] [] [] [] [] []]; first [discriminate H|by split].
Qed.

Lemma seat_char_plain c : seat_char c = true → c ≠ "@"%char ∧ c ≠ ":"%char.
Proof. intros H. by split; intros ->. Qed.

Lemma norm_address v : sforall address_char v = true → norm (Some v) = v.
Proof.
  intros H. unfold norm. change (or_empty (Some v)) with v.
  assert (lower v = v) as Hl.
  { induction v as [|c v IH]; [done|]. cbn in H |- *. apply andb_true_iff in H as [Hc H].
    destruct (address_char_plain c Hc) as [_ ->]. f_equal. by apply IH. }
  assert (strip v = v) as ->; [|done]. unfold strip. destruct v as [|c v]; [done|].
  assert (lstrip (String c v) = String c v) as ->.
  { cbn in H |- *. apply andb_true_iff in H as [Hc _]. by destruct (address_char_plain c Hc) as [-> _]. }
  apply (rstrip_word ""); [done|]. eapply sforall_impl, H. intros x Hx. by destruct (address_char_plain x Hx) as [-> _].
Qed.

Lemma seat_address v : sforall seat_char v = true → sforall address_char v = true.
Proof. apply sforall_impl. intros c Hc. unfold address_char. by rewrite Hc. Qed.

Lemma seat_no_at v : sforall seat_char v = true → has_char "@" v = false.
Proof.
  induction v as [|c v IH]; [done|]. cbn. intros [Hc Hv]%andb_true_iff. rewrite IH by done.
  destruct (seat_char_plain c Hc) as [Hat _]. rewrite orb_false_r. apply bool_decide_eq_false. congruence.
Qed.

Lemma valid_seat_chars v : _is_valid_seat v = true → nonempty v = true ∧ sforall seat_char v = true.
Proof. unfold _is_valid_seat. rewrite !andb_true_iff. tauto. Qed.

Lemma lane_valid env project : nonempty (provider_lane env project) = true → _is_valid_seat (provider_lane env project) = true.
Proof.
  unfold provider_lane. destruct (_ isin _); [done|]. destruct (_ && _) eqn:E; [|done].
  by apply andb_true_iff in E as [_ E].
Qed.

Lemma lane_not_project env project : provider_lane env project ≠ project ∨ provider_lane env project = "".
Proof.
  unfold provider_lane. destruct (_ isin _); [by right|]. destruct (_ && _) eqn:E; [left|by right].
  apply andb_true_iff in E as [E _]. by apply negb_true_iff, bool_decide_eq_false in E.
Qed.

Section replies.
Context (env : environ) (anchor : option string) (override : string).
Let project := derive_project_name env anchor.
Let reader := (addresses env anchor override).1.
Let listen := (addresses env anchor override).2.

(** What every listening set holds. *)
Lemma listen_members :
  reader ∈ listen ∧ project ∈ listen ∧
  (nonempty (provider_lane env project) = true → provider_lane env project ∈ listen) ∧
  ∃ x, reader = x +:+ "@" +:+ ev_host env ∧ x ∈ listen ∧ x = (if nonempty override && (override != project) then override else project).
Proof.
  unfold reader, listen, addresses. fold project.
  destruct (nonempty override && (override != project)) eqn:E; cbn [fst snd].
  - split_and!; [set_solver..| |exists override; split_and!; [done|set_solver|done]].
    intros Hl. rewrite Hl. cbn [andb]. bcase (provider_lane env project = override) El; [set_solver|].
    cbn [negb]. set_solver.
  - split_and!; [set_solver..| |exists project; split_and!; [done|set_solver|done]].
    intros Hl. rewrite Hl. set_solver.
Qed.
End replies.

(** A reply's target, if the sender listens on it, is qualified to one it listens on. *)
Lemma qualify_in a r (listen : list string) :
  norm (Some r) = r → r ∈ listen → a ∈ listen → qualify_admin_target a r ∈ listen.
Proof.
  unfold qualify_admin_target, norm. change (or_empty (Some r)) with r. intros Hr Hin Ha.
  destruct (_ || _); [done|]. cbv zeta. rewrite Hr. by destruct (_ && _).
Qed.

Lemma string_app_inj_r (x y z : string) : x +:+ z = y +:+ z → x = y.
Proof.
  revert y. induction x as [|c x IH]; intros [|d y] E; [done| | |].
  - apply (f_equal String.length) in E. cbn in E. rewrite !string_length_app in E. lia.
  - apply (f_equal String.length) in E. cbn in E. rewrite !string_length_app in E. lia.
  - cbn in E. injection E as -> E. f_equal. by apply IH.
Qed.

(** C23. A reply reaches the sender, if the sender's pin did not move. A letter
    carries the identity of the session that sends it, its lane and the
    project its call was made for. Suppose that project is the session's own
    (it is not, after a call for another project's folder: see
    [pin_misroutes_reply]), its directory is known, its name, project and host
    are plain names, and the letter is no channel's and has no participants.
    Then any reply to it, by whomever and from whatever project, goes to one
    address, and that is one the sender listens on. *)
Theorem reply_reaches_sender env d project_dir s er sr replier intent p :
  let '(reader, listen) := (compute_identity env d project_dir s).1 in
  truthy (py_or (se_anchor s) (ev_startup env)) = true →
  (∃ x, reader = x +:+ "@" +:+ ev_host env ∧ _is_valid_seat x = true) →
  _is_valid_seat (_own_project env s) = true → _is_valid_seat (ev_host env) = true →
  origin_project env project_dir s = _own_project env s →
  pt_from p = Some reader →
  (∀ l, pt_from_lane p = Some l → l = sender_lane env project_dir s) →
  (∀ o, pt_from_project p = Some o → o = origin_project env project_dir s) →
  startswith "#" (pt_to p) = false → pt_participants p = [] →
  ∃ rp a, memory_reply er sr replier intent p = Some rp ∧ rp_to rp = ToOne a ∧ a ∈ listen ∧ rp_in_reply_to rp = pt_id p.
Proof.
  assert (∃ o, (compute_identity env d project_dir s).1 = addresses env (identity_anchor_dir env (remember_project_dir env project_dir s).2) o)
    as [o Ho].
  { unfold compute_identity. destruct (remember_project_dir env project_dir s) as [eff s0]. cbn [snd].
    destruct (resolve_session_identity env d project_dir s0) as [x s1]. by exists (or_empty x). }
  pose proof (remember_globals env project_dir s) as (Hanc & _). rewrite Ho. clear Ho.
  set (s0 := (remember_project_dir env project_dir s).2) in *.
  destruct (addresses env (identity_anchor_dir env s0) o) as [reader listen] eqn:Ea.
  intros Ha (x & Hx & Hvx) Hvp Hvh Horig Hfrom Hlane Hproj Hto Hpart.
  assert (identity_anchor_dir env s0 = identity_anchor_dir env s) as Heq by (rewrite !anchor_fixed; congruence).
  rewrite Heq in Ea. clearbody s0. clear Heq Hanc s0.
  pose proof (listen_members env (identity_anchor_dir env s) o) as Hmem. rewrite Ea in Hmem. cbn [fst snd] in Hmem.
  fold (_own_project env s) in Hmem. destruct Hmem as (Hr & Hp & Hl & y & Hy & Hyl & _).
  assert (y = x) as -> by (rewrite Hx in Hy; by eapply string_app_inj_r).
  apply valid_seat_chars in Hvx as [Hxne Hxc], Hvp as [Hpne Hpc], Hvh as [Hhne Hhc].
  assert (norm (Some reader) = reader) as Hnr.
  { apply norm_address. rewrite Hx, !sforall_app. cbn. by rewrite !seat_address. }
  assert (reader_to_address reader ∈ listen) as Hra.
  { unfold reader_to_address. assert (before "@" reader = x) as Hb by (rewrite Hx; apply before_app, seat_no_at, Hxc).
    rewrite Hb. by destruct (startswith "machine:" reader). }
  assert (truthy (pt_from p) = true) as Hft.
  { rewrite Hfrom, Hx. by destruct x. }
  unfold memory_reply. rewrite Hft, Hpart, Hto. cbn [select]. rewrite Hfrom. change (or_empty (Some reader)) with reader.
  assert (nonempty reader = true) as Hrn by (rewrite Hfrom in Hft; by destruct reader). rewrite Hrn. cbn [negb].
  change (negb (length (select nonempty []) == 0)) with false. cbv iota zeta.
  destruct (truthy (pt_from_project p) && _) eqn:Ep.
  - apply andb_true_iff in Ep as [Et _]. destruct (pt_from_project p) as [q|]; [|done].
    assert (q = _own_project env s) as -> by (rewrite <- Horig; by apply Hproj).
    rewrite (norm_address (_own_project env s)) by (by apply seat_address).
    eexists _, _. split; [reflexivity|]. split; [reflexivity|]. split; [by apply qualify_in|done].
  - eexists _, _. split; [reflexivity|]. split; [reflexivity|]. split; [|done]. apply qualify_in; [done..|].
    destruct (nonempty (norm (pt_from_lane p))) eqn:El; [|done].
    destruct (pt_from_lane p) as [l|]; [|done]. rewrite (Hlane l eq_refl) in *. clear Hlane.
    assert (sender_lane env project_dir s = provider_lane env (_own_project env s)) as Hs.
    { unfold sender_lane, _own_project. rewrite py_or_truthy; [done|]. by rewrite anchor_fixed. }
    rewrite Hs in *. assert (nonempty (provider_lane env (_own_project env s)) = true) as Hln.
    { destruct (nonempty (provider_lane env (_own_project env s))) eqn:E; [done|].
      apply not_true_iff_false in E. rewrite nonempty_true in E. apply dec_stable in E. by rewrite E in El. }
    assert (sforall address_char (provider_lane env (_own_project env s)) = true) as Hlc
      by (by apply seat_address, valid_seat_chars, lane_valid).
    rewrite (norm_address _ Hlc) in *. by apply Hl.
Qed.

(** ** The seat, shared *)

Lemma stake_le n s : String.length s <= n → stake n s = s.
Proof.
  revert n. induction s as [|c s IH]; intros [|n] Hn; cbn in *; try done; [lia|]. by rewrite IH by lia.
Qed.

(** A seat file reads back what was written. *)
Lemma read_written seat d p :
  _is_valid_seat seat = true →
  _read_seat_at (Disk (<[p := seat +:+ newline]> (dk_files d)) true) (Some p) = Some seat.
Proof.
  intros Hv. unfold _read_seat_at. cbn [dk_files]. rewrite lookup_insert_eq.
  pose proof Hv as [[Hne Hlen]%andb_true_iff Hc]%andb_true_iff. apply Nat.leb_le in Hlen.
  rewrite stake_le by (rewrite string_length_app; cbn; lia).
  assert (lower (strip (seat +:+ newline)) = seat) as ->; [|by rewrite Hv].
  assert (strip (seat +:+ newline) = strip seat) as ->.
  { assert (∀ s, rstrip (s +:+ newline) = rstrip s) as Hr.
    { intros s. induction s as [|c s IH]; [done|]. cbn. by rewrite IH. }
    unfold strip. destruct seat as [|c seat]; [done|]. cbn [sforall] in Hc. apply andb_true_iff in Hc as [Hc _].
    destruct (address_char_plain c) as [Hs _]; [unfold address_char; by rewrite Hc|].
    change (String c seat +:+ newline) with (String c (seat +:+ newline)). cbn [lstrip]. rewrite Hs.
    change (String c (seat +:+ newline)) with (String c seat +:+ newline). apply Hr. }
  change (lower (strip seat)) with (norm (Some seat)). by apply norm_address, seat_address.
Qed.

(** A seat taken is a seat shared. A name that can be a seat is taken
    lower-cased and trimmed; any other is refused and changes nothing. Once
    taken, with a seats directory that can be written, every process that has
    the session's key goes by it, whatever seat it had before: the session's
    own tools, and its watcher. *)
Lemma seat_shared env name s d :
  let seat := norm name in
  match take_seat env name s d with
  | (Done n, s', d') => n = seat ∧ _is_valid_seat seat = true ∧ se_seat s' = Some seat ∧
      ∀ key, resolve_session_key env = Some key → key ≠ "" → dk_writable d = true →
      ∀ env' s0 project_dir, resolve_session_key env' = Some key →
        (resolve_session_identity env' d' project_dir s0).1 = Some seat
  | (Raise _, s', d') => s' = s ∧ d' = d ∧ _is_valid_seat seat = false
  end.
Proof.
  cbv zeta. unfold take_seat, assert_local_seat. set (seat := norm name).
  destruct (nonempty seat) eqn:Hne; cbn [negb]; [|by split_and!; [..|unfold _is_valid_seat; rewrite Hne]].
  destruct (_is_valid_seat seat) eqn:Hv; cbn [negb]; [|done].
  split_and!; [done..|]. intros key Hk Hkne Hw env' s0 pd Hk'.
  assert (∃ p, seat_file_path env None = Some p ∧ seat_file_path env' None = Some p) as (p & Hp & Hp').
  { unfold seat_file_path. cbn [truthy]. rewrite Hk, Hk'. destruct key as [|c key]; [done|].
    change (negb (nonempty (String c key))) with false. cbv iota.
    change (safe_name (String c key)) with (String (if key_char c then c else "_"%char) (stake 127 (smap (λ c, if key_char c then c else "_"%char) key))).
    cbn [nonempty]. by eexists. }
  unfold resolve_session_identity, read_seat_file, _write_seat_file, write_file_at. rewrite Hp, Hp', Hw. cbn [snd].
  by rewrite read_written.
Qed.

(** ** The harness *)

Lemma digits_pretty_go n s : digits 0 (pretty_N_go n s) = digits n s.
Proof.
  revert s. induction (N.lt_wf_0 n) as [n _ IH]. intros s. destruct (decide (n = 0)%N) as [->|Hn]; [by rewrite pretty_N_go_0|].
  rewrite pretty_N_go_step by lia. rewrite IH by (apply N.div_lt; lia). cbn [digits].
  assert (∀ k, (k < 10)%N → (N_of_ascii (pretty_N_char k) - 48)%N = k) as Hc.
  { intros k Hk. destruct k as [|k]; [done|]. do 4 (destruct k as [k|k|]; try done; try (exfalso; lia)). }
  rewrite Hc by (apply N.mod_lt; lia). f_equal. rewrite N.mul_comm. symmetry. apply N.div_mod. lia.
Qed.

Lemma digit_pretty_go n s : sforall is_digit_char (pretty_N_go n s) = sforall is_digit_char s.
Proof.
  revert s. induction (N.lt_wf_0 n) as [n _ IH]. intros s. destruct (decide (n = 0)%N) as [->|Hn]; [by rewrite pretty_N_go_0|].
  rewrite pretty_N_go_step by lia. rewrite IH by (apply N.div_lt; lia). cbn [sforall].
  assert (is_digit_char (pretty_N_char (n mod 10)) = true) as ->; [|done].
  unfold pretty_N_char. by repeat case_match.
Qed.

Lemma pretty_pos (n : Z) :
  (0 < n)%Z → nonempty (pretty n) = true ∧ sforall is_digit_char (pretty n) = true ∧ int_of (pretty n) = Some n.
Proof.
  intros Hn. destruct n as [|p|p]; [lia| |lia].
  change (pretty (Z.pos p)) with (if decide (N.pos p = 0)%N then "0" else pretty_N_go (N.pos p) "").
  rewrite decide_False by done. pose proof (digits_pretty_go (N.pos p) "") as Hd.
  pose proof (digit_pretty_go (N.pos p) "") as Hs. set (t := pretty_N_go _ _) in *. clearbody t.
  destruct t as [|c t]; [done|]. unfold int_of, isdigit. rewrite Hs. cbn [sforall] in *. by rewrite Hd.
Qed.

Definition word (w : string) : Prop := nonempty w = true ∧ sforall (λ c, negb (is_space_char c)) w = true.

Lemma split_words_words s : Forall word (split_words s).
Proof.
  induction s as [|c s IH]; [constructor|]. cbn [split_words]. destruct (is_space_char c) eqn:Ec; [done|].
  destruct s as [|d s]; [repeat constructor; cbn; by rewrite Ec|].
  destruct (is_space_char d); [constructor; [split; [done|]; cbn; by rewrite Ec|done]|].
  destruct (split_words (String d s)) as [|w ws]; [repeat constructor; cbn; by rewrite Ec|].
  inversion_clear IH as [|? ? [_ Hw] Hws]. constructor; [split; [done|]; cbn; by rewrite Ec, Hw|done].
Qed.

Lemma rstrip_newline s : rstrip (s +:+ newline) = rstrip s.
Proof. induction s as [|c s IH]; [done|]. cbn. by rewrite IH. Qed.

Lemma lstrip_word w s : word w → lstrip (w +:+ s) = w +:+ s.
Proof.
  intros [Hne Hw]. destruct w as [|c w]; [done|]. cbn in Hw |- *. apply andb_true_iff in Hw as [Hc _].
  apply negb_true_iff in Hc. by rewrite Hc.
Qed.

(** What is recorded of a process reads back. *)
Lemma read_recorded env pid ppid start p d :
  _proc_info (ev_ps env) pid = Some (ppid, start) → (0 < pid)%Z →
  _read_proc_at (Disk (<[p := pretty pid +:+ " " +:+ start +:+ newline]> (dk_files d)) true) (Some p) = Some (pid, start).
Proof.
  intros Hi Hpid. unfold _proc_info in Hi. destruct (ev_ps env pid) as [|rc out]; [done|].
  pose proof (split_words_words out) as Hws. cbv zeta in Hi.
  destruct (split_words out) as [|w0 words]; [done|]. destruct (length (w0 :: words) <? 6) eqn:El; [done|].
  apply Nat.ltb_ge in El. destruct (int_of w0); [|done]. injection Hi as _ Hstart.
  destruct words as [|a [|b [|c [|e [|f rest]]]]]; cbn in El; try lia.
  change (join " " [a; b; c; e; f] = start) in Hstart. subst start.
  rewrite !Forall_cons in Hws. destruct Hws as (_ & Ha & Hb & Hc & He & Hf & _).
  set (pre := a +:+ " " +:+ b +:+ " " +:+ c +:+ " " +:+ e +:+ " ").
  assert (join " " [a; b; c; e; f] = pre +:+ f) as -> by (unfold pre; cbn [join]; by rewrite !string_app_assoc).
  destruct (pretty_pos pid Hpid) as (Hne & Hdig & Hint). unfold _read_proc_at. cbn [dk_files]. rewrite lookup_insert_eq.
  assert (word (pretty pid)) as Hw.
  { split; [done|]. eapply sforall_impl, Hdig. intros x Hx. by destruct x as [[] [] [] [] [] [] [] []]. }
  assert (strip (pretty pid +:+ " " +:+ (pre +:+ f) +:+ newline) = pretty pid +:+ " " +:+ pre +:+ f) as ->.
  { unfold strip. rewrite lstrip_word by done.
    replace (pretty pid +:+ " " +:+ (pre +:+ f) +:+ newline) with ((pretty pid +:+ " " +:+ pre +:+ f) +:+ newline)
      by (by rewrite !string_app_assoc).
    rewrite rstrip_newline. replace (pretty pid +:+ " " +:+ pre +:+ f) with ((pretty pid +:+ " " +:+ pre) +:+ f)
      by (by rewrite !string_app_assoc). destruct Hf. by apply rstrip_word. }
  cbv zeta. assert (has_char " " (pretty pid) = false) as Hsp.
  { clear -Hdig. induction (pretty pid) as [|x s IH]; [done|]. cbn in *. apply andb_true_iff in Hdig as [Hx Hs].
    rewrite IH by done. destruct x as [[] [] [] [] [] [] [] []]; done. }
  change (" " +:+ pre +:+ f) with (String " " (pre +:+ f)). rewrite before_app, Hint, split1_app by done.
  cbn [snd default fmap option_fmap option_map]. do 2 f_equal. unfold default, id. unfold strip.
  assert (lstrip (pre +:+ f) = pre +:+ f) as ->; [|by destruct Hf; apply rstrip_word].
  unfold pre. rewrite !string_app_assoc. by apply lstrip_word.
Qed.

(** A harness is called dead on positive evidence only. What the bridge
    records of its harness is what every process with the session's key finds
    to watch; and that process is reported gone only when [ps] could be asked
    and did not show it: never while it is listed with the recorded start
    time, under the pinned rendering or the box's own, and never because [ps]
    could not be run. *)
Lemma harness_watched env d p d' :
  record_session_process env d = (Some p, d') →
  ∃ parent start, _proc_info (ev_ps env) (ev_ppid env) = Some (parent, start) ∧
    ∀ env', resolve_session_key env' = resolve_session_key env →
      discover_session_process env' d' = Some (ev_ppid env, start) ∧
      (process_is_gone env' (ev_ppid env) start = true →
         ev_ps env' (ev_ppid env) ≠ PsFailed ∧
         (∀ parent', _proc_info (ev_ps env') (ev_ppid env) ≠ Some (parent', start)) ∧
         (∀ rc stdout, ev_ps env' (ev_ppid env) = PsRan rc stdout → 6 <= length (split_words stdout) →
            ∃ rc' printed, ev_ps_local env' (ev_ppid env) = PsRan rc' printed ∧
              (split_words printed = [] ∨ join " " (take 5 (split_words printed)) ≠ start))).
Proof.
  unfold record_session_process. destruct (Z.leb_spec (ev_ppid env) 1) as [|Hpp]; [done|].
  destruct (_proc_info (ev_ps env) (ev_ppid env)) as [[parent start]|] eqn:Ei; [|done].
  unfold write_file_at. destruct (_proc_file_path env None) as [path|] eqn:Ep; [|done].
  destruct (dk_writable d); [|done]. intros [= <- <-]. exists parent, start. split; [done|]. intros env' Hkey.
  assert (_proc_file_path env' None = Some path) as Hp'.
  { rewrite <- Ep. unfold _proc_file_path, seat_file_path. cbn [truthy]. by rewrite Hkey. }
  split.
  - unfold discover_session_process. rewrite Hp'.
    change (String " " (start +:+ newline)) with (" " +:+ start +:+ newline).
    by rewrite (read_recorded env (ev_ppid env) parent start path d Ei ltac:(lia)).
  - unfold process_is_gone, _proc_info. destruct (ev_ps env' (ev_ppid env)) as [|rc out]; [done|]. cbv zeta.
    intros Hg. split_and!; [done| |].
    + intros parent'. destruct (split_words out) as [|w words]; [done|].
      destruct (length (w :: words) <? 6) eqn:El; [done|]. apply Nat.ltb_ge, Nat.leb_le in El. rewrite El in Hg.
      bcase (start_of (w :: words) = start) Es; [done|]. destruct (int_of w); [|done].
      intros E. injection E as _ E. by apply Es.
    + intros rc' out' [= <- <-] Hlen. apply Nat.leb_le in Hlen. rewrite Hlen in Hg.
      destruct (start_of _ == start); [done|]. destruct (ev_ps_local env' (ev_ppid env)) as [|rc'' printed]; [done|].
      exists rc'', printed. split; [done|]. destruct (split_words printed) as [|w words]; [by left|right].
      cbn [length Nat.ltb Nat.leb andb] in Hg. apply negb_true_iff, bool_decide_eq_false in Hg. done.
Qed.

(** ** The listening set *)

(** Two lists made of the same pieces. *)
Ltac perm_by_count :=
  apply (Permutation_count_occ String.string_dec); intros ?; cbn [app];
  rewrite ?fmap_app; cbn [fmap list_fmap app];
  repeat (rewrite count_occ_app || (progress cbn [count_occ app])); repeat case_match; lia.


Lemma pairs_perm (f : string → string) (c : string → bool) l :
  flat_map (λ g, if c g then [g; f g] else []) l ≡ₚ select c l ++ (f <$> select c l).
Proof.
  induction l as [|g l IH]; [done|]. cbn [flat_map]. rewrite select_cons, IH. destruct (c g); [|done].
  cbn [app fmap list_fmap]. constructor. by rewrite Permutation_middle.
Qed.

Lemma seat_no_char c v : seat_char c = false → sforall seat_char v = true → has_char c v = false.
Proof.
  intros Hc. induction v as [|d v IH]; [done|]. cbn. intros [Hd Hv]%andb_true_iff. rewrite IH by done.
  rewrite orb_false_r. apply bool_decide_eq_false. congruence.
Qed.

Lemma listening_nodup names host (fleet : bool) :
  NoDup names → (∀ a, a ∈ names → sforall seat_char a = true) → _is_valid_seat host = true → host ≠ "fleet" →
  NoDup (names ++ ((λ a, a +:+ "@" +:+ host) <$> names) ++ ["machine:" +:+ host] ++ (if fleet then ["admin@fleet"] else [])).
Proof.
  intros Hnd Hc Hhost Hfl. apply valid_seat_chars in Hhost as [_ Hh].
  assert (∀ c a, a ∈ names → seat_char c = false → has_char c a = false) as Hn by (intros; apply seat_no_char; auto).
  assert (∀ c, seat_char c = false → has_char c host = false) as Hnh by (intros; by apply seat_no_char).
  assert (∀ x, x ∈ ["machine:" +:+ host] ++ (if fleet then ["admin@fleet"] else []) →
    x = "machine:" +:+ host ∨ x = "admin@fleet") as Hlast by (destruct fleet; set_solver).
  apply NoDup_app. split_and!; [done| |apply NoDup_app; split_and!].
  - intros a Ha [(b & -> & Hb)%list_elem_of_fmap|[->| ->]%Hlast]%elem_of_app.
    + specialize (Hn "@"%char _ Ha eq_refl). rewrite has_char_app in Hn. cbn in Hn. by rewrite orb_true_r in Hn.
    + specialize (Hn ":"%char _ Ha eq_refl). by rewrite has_char_app in Hn.
    + by specialize (Hn "@"%char _ Ha eq_refl).
  - apply NoDup_fmap_2; [|done]. intros x y E. by eapply string_app_inj_r.
  - intros x (a & -> & Ha)%list_elem_of_fmap [E|E]%Hlast.
    + apply (f_equal (has_char ":")) in E. rewrite !has_char_app, (Hn _ _ Ha), Hnh in E by done. done.
    + apply Hfl. apply (f_equal (split1 "@")) in E. change ("@" +:+ host) with (String "@" host) in E.
      rewrite split1_app in E by (by apply Hn). by injection E.
  - destruct fleet; [|apply NoDup_singleton]. constructor; [|apply NoDup_singleton].
    intros E%list_elem_of_singleton. by apply (f_equal (has_char ":")) in E.
Qed.

(** The names a session goes by: its own and its project's, its provider's
    lane, and the groups of its folder that are fit to be addresses. *)
Section listened_names.
Context (env : environ) (anchor : option string) (override : string).

Let project := derive_project_name env anchor.
Let own := if nonempty override && (override != project) then override else project.
Let lane := provider_lane env project.
Let groups := resolve_inbox_groups (ev_fs env) anchor.
Let at_host := λ a, a +:+ "@" +:+ ev_host env.

Definition group_kept (g : string) : bool := (g != project) && (g != override) && (g != lane) && _is_valid_seat g.

Definition listened_names : list string :=
  (if own == project then [project] else [own; project]) ++ (if nonempty lane && (lane != own) then [lane] else [])
  ++ select group_kept groups.

Lemma own_cases : own = override ∨ own = project.
Proof. unfold own. destruct (_ && _); tauto. Qed.

Lemma elem_of_listened a : a ∈ listened_names ↔ a = own ∨ a = project ∨ (a = lane ∧ a ≠ "") ∨ (a ∈ groups ∧ _is_valid_seat a = true).
Proof.
  unfold listened_names. rewrite !elem_of_app, elem_of_select.
  assert (a ∈ (if own == project then [project] else [own; project]) ↔ a = own ∨ a = project) as ->
    by (bcase (own = project) E; set_solver).
  assert (a ∈ (if nonempty lane && (lane != own) then [lane] else []) ↔ a = lane ∧ a ≠ "" ∧ a ≠ own) as ->.
  { destruct (nonempty lane) eqn:El; cbn [andb].
    - apply nonempty_true in El. bcase (lane = own) E; cbn [negb]; set_solver.
    - apply not_true_iff_false in El. rewrite nonempty_true in El. set_solver. }
  unfold group_kept. rewrite !andb_true_iff, !negb_true_iff, !bool_decide_eq_false.
  assert (_is_valid_seat a = true → a ≠ "") as Hav by (by intros ? ->).
  assert (a = override → a ≠ "" → a = own ∨ a = project) as Hov.
  { intros -> Hne. unfold own. apply nonempty_true in Hne. rewrite Hne. cbn [andb].
    bcase (override = project) E; [by right|by left]. }
  destruct (decide (a = own)), (decide (a = project)), (decide (a = lane)), (decide (a = override)); tauto.
Qed.

Lemma listened_NoDup : NoDup listened_names.
Proof.
  pose proof own_cases as Hown. unfold listened_names. apply NoDup_app. split_and!.
  - bcase (own = project) E; [apply NoDup_singleton|]. constructor; [set_solver|apply NoDup_singleton].
  - intros a Ha [Hl|[Hk _]%elem_of_select]%elem_of_app.
    + destruct (nonempty lane && (lane != own)) eqn:E; [|set_solver]. apply list_elem_of_singleton in Hl as ->.
      apply andb_true_iff in E as [En E]. apply negb_true_iff, bool_decide_eq_false in E. apply nonempty_true in En.
      assert (lane ≠ project) by (by destruct (lane_not_project env project)). bcase (own = project) E'; set_solver.
    + unfold group_kept in Hk. rewrite !andb_true_iff, !negb_true_iff, !bool_decide_eq_false in Hk.
      destruct Hk as [[[? ?] ?] ?]. bcase (own = project) E'; [set_solver|]. destruct Hown; set_solver.
  - apply NoDup_app. split_and!; [destruct (nonempty lane && (lane != own)); [apply NoDup_singleton|apply NoDup_nil_2]| |].
    + intros a Ha [Hk _]%elem_of_select. destruct (nonempty lane && (lane != own)); [|set_solver].
      apply list_elem_of_singleton in Ha as ->. unfold group_kept in Hk.
      rewrite (bool_decide_eq_true_2 (lane = lane)) in Hk by done. cbn [negb] in Hk. by rewrite andb_false_r in Hk.
    + apply NoDup_filter, groups_spec.
Qed.

(** The addresses are these names, bare and at the host, and the machine. *)
Lemma addresses_perm : (addresses env anchor override).2 ≡ₚ listened_names ++ (at_host <$> listened_names) ++ ["machine:" +:+ ev_host env]
    ++ (if (own == project) && (project == "admin") then ["admin@fleet"] else []).
Proof.
  unfold addresses. fold project lane. unfold group_addresses. fold groups.
  change (λ g, if (g != project) && _ && _ && _ then _ else _) with (λ g, if group_kept g then [g; at_host g] else []).
  unfold listened_names. destruct (nonempty override && (override != project)) eqn:E.
  - assert (own = override ∧ own ≠ project) as [-> Hop].
    { split; [reflexivity|]. unfold own. apply andb_true_iff in E as [_ E]. by apply negb_true_iff, bool_decide_eq_false in E. }
    rewrite (bool_decide_eq_false_2 (override = project)) by done. cbn [andb snd].
    rewrite pairs_perm. destruct (nonempty lane && (lane != override)); unfold at_host; perm_by_count.
  - assert (own = project) as -> by reflexivity.
    rewrite (bool_decide_eq_true_2 (project = project)) by done. cbn [andb snd].
    rewrite pairs_perm. assert (nonempty lane && (lane != project) = nonempty lane) as ->.
    { destruct (lane_not_project env project) as [Hl|Hl]; fold lane in Hl; [|by rewrite Hl].
      by rewrite (bool_decide_eq_false_2 _ Hl), andb_true_r. }
    change ADMIN_ROLE with "admin". change ADMIN_FLEET with "admin@fleet".
    destruct (nonempty lane), (project == "admin"); unfold at_host; perm_by_count.
Qed.
End listened_names.

(** C39. A session listens on its names, each alone and at its host. The
    listening set is made of some bare names, without repetition, of the same
    names at the host, of the machine's address, and for the unseated
    administrator of the fleet's; nothing is in it twice. The names are the
    session's own (if it has one that is not its project's), its lane, its
    project and the teams its folder declares; its identity is its own name,
    or else its project's, at the host. *)
Theorem listening_set_sound env anchor override :
  let project := derive_project_name env anchor in
  let host := ev_host env in
  let own := if nonempty override && (override != project) then override else project in
  let at_host := λ a, a +:+ "@" +:+ host in
  _is_valid_seat project = true → _is_valid_seat own = true → _is_valid_seat host = true → host ≠ "fleet" →
  ∃ names, NoDup names ∧
    (∀ a, a ∈ names ↔ a = own ∨ a = project ∨
       (a = provider_lane env project ∧ a ≠ "") ∨ (a ∈ resolve_inbox_groups (ev_fs env) anchor ∧ _is_valid_seat a = true)) ∧
    (addresses env anchor override).1 = at_host own ∧
    (addresses env anchor override).2 ≡ₚ names ++ (at_host <$> names) ++ ["machine:" +:+ host]
      ++ (if (own == project) && (project == "admin") then ["admin@fleet"] else []) ∧
    NoDup (addresses env anchor override).2.
Proof.
  intros project host own at_host Hp Hown Hhost Hfleet. exists (listened_names env anchor override).
  pose proof (elem_of_listened env anchor override) as Hin. pose proof (addresses_perm env anchor override) as Hperm. cbv zeta in Hin, Hperm.
  split_and!; [apply listened_NoDup|exact Hin| |exact Hperm|].
  - unfold addresses, at_host, own. fold project host. by destruct (nonempty override && (override != project)).
  - rewrite Hperm. apply listening_nodup; [apply listened_NoDup| |done|done].
    intros a [->|[->|[[-> Hne]|[_ H]]]]%Hin; apply valid_seat_chars; [done..| |done]. by apply lane_valid, nonempty_true.
Qed.

(** ** Concrete runs *)

Definition ex_two : filesystem := FileSystem ex_home [] (λ d name,
  if name == PROJECT_CFG_FILENAME then
    if d == ex_app then Some (Lines ["project = app"; "groups = app-team"])
    else if d == "web" :: "projects" :: ex_home then Some (Lines ["project = web"; "inbox_identity = web-lead"])
    else None
  else None) (λ _, true).

Definition ex_bridge (identity : option string) : environ :=
  Environ ex_two "hosta" (Some "/home/ann/projects/app") identity None (Some "app-7") 200 100
    (λ pid, if (pid =? 100)%Z then PsRan 0 "   90 Mon Oct  6 09:00:00 2025" else PsRan 1 "")
    (λ pid, if (pid =? 100)%Z then PsRan 0 "Mon Oct  6 05:00:00 2025" else PsRan 1 "").
Definition ex_disk : disk := Disk ∅ true.
Definition ex_web : option string := Some "/home/ann/projects/web".

Lemma identity_fixed_witness :
  (compute_identity (ex_bridge (Some "App-Claude-2")) ex_disk ex_web
     (foldl (call (ex_bridge (Some "App-Claude-2")) ex_disk) no_session [None; ex_web])).1.1 = "app-claude-2@hosta".
Proof.
  rewrite (proj1 (identity_fixed (ex_bridge (Some "App-Claude-2")) ex_disk no_session "app-claude-2" [None; ex_web] ex_web
    ltac:(vm_compute; reflexivity) eq_refl)).
  vm_compute. reflexivity.
Defined.

Definition ex_question : parent :=
  Parent "inbox/1" "web" (Some "app@hosta") None (Some "app") (Some "app-claude") [] None (Some "action").

Lemma reply_reaches_sender_witness :
  ∃ rp a, memory_reply (ex_bridge None) no_session "web@hosta" None ex_question = Some rp ∧ rp_to rp = ToOne a ∧
    a ∈ (compute_identity (ex_bridge None) ex_disk None no_session).1.2.
Proof.
  pose proof (reply_reaches_sender (ex_bridge None) ex_disk None no_session (ex_bridge None) no_session "web@hosta" None
    ex_question) as H.
  destruct (compute_identity (ex_bridge None) ex_disk None no_session).1 as [reader listen] eqn:E.
  assert (reader = "app@hosta") as -> by (vm_compute in E; by injection E).
  destruct H as (rp & a & H1 & H2 & H3 & _); [reflexivity|by exists "app"|vm_compute; reflexivity..| | | | |].
  - intros l [= <-]. vm_compute. reflexivity.
  - intros o [= <-]. vm_compute. reflexivity.
  - reflexivity.
  - reflexivity.
  - exists rp, a. split; [exact H1|]. split; [exact H2|exact H3].
Defined.

Lemma listening_set_sound_witness :
  NoDup (addresses (ex_bridge None) (Some "/home/ann/projects/app") "app-claude-2").2.
Proof.
  destruct (listening_set_sound (ex_bridge None) (Some "/home/ann/projects/app") "app-claude-2")
    as (names & _ & _ & _ & _ & H); [vm_compute; reflexivity..|done|exact H].
Defined.

(** A session without a name of its own takes the name the folder of the call
    declares: one call for another project's folder, and it signs and listens
    as that project's agent. *)
Lemma call_moves_identity :
  (compute_identity (ex_bridge None) ex_disk None no_session).1.1 = "app@hosta" ∧
  (compute_identity (ex_bridge None) ex_disk ex_web no_session).1.1 = "web-lead@hosta".
Proof. split; vm_compute; reflexivity. Qed.

(** The provenance header follows the last directory a call named. After one
    call for another project's folder, a letter says it is of that project,
    and an answer from a third project goes there, where the sender does not
    listen. *)
Lemma pin_misroutes_reply :
  let env := ex_bridge (Some "app-claude-2") in
  let s := call env ex_disk no_session ex_web in
  let listen := (compute_identity env ex_disk None s).1.2 in
  _own_project env s = "app" ∧ origin_project env None s = "web" ∧
  ∃ rp, memory_reply (ex_bridge None) no_session "ops@hostb" None
    (Parent "inbox/1" "ops" (Some "app-claude-2@hosta") None (Some (origin_project env None s)) (Some (sender_lane env None s)) []
       None None) = Some rp ∧ rp_to rp = ToOne "web" ∧ "web" ∉ listen.
Proof.
  cbv zeta. split_and!; [vm_compute; reflexivity..|]. eexists. split_and!; [reflexivity|vm_compute; reflexivity|].
  by apply (bool_decide_eq_false_1 _); vm_compute.
Qed.

(** Two session keys can share one seat file. *)
Lemma seat_files_collide :
  safe_name "app/7" = safe_name "app_7".
Proof. reflexivity. Qed.
