(* ===== verification/Watcher.v ===== *)
(** The inbox watcher (integrations/claude-code/src/engram_mcp/inbox_wait.py):
    the process beside a session that polls its mail, holds the watch claim of
    its seat and writes wake lines to a pipe.

    A run is a function of what the watcher is told: the answers of the server,
    of [ps] and of the pipe, the identity resolved at each poll and the clock,
    gathered in one [tick] per turn of the loop. It yields the calls it made
    and the lines it wrote, in order. Advice inside lines and log texts are
    left out. Instants of mail are the texts the server sent; the monotonic
    clock counts tenths of a second. *)

From stdpp Require Import base gmap sets list strings.
From Stdlib Require Import ZArith Lia Ascii.
From S2P Require Import Prelude PyString Session Fence.

Definition EXIT_AUTH_FAILED : Z := 2.
Definition EXIT_IDENTITY_CONFLICT : Z := 3.
Definition EXIT_DISPLACED : Z := 4.
Definition EXIT_PARTIAL_CLAIM : Z := 5.
Definition FAREWELL_ON_SIGNAL_WINDOW : Z := 80.

(** Whether a resolved identity contradicts the folder it was resolved for. *)
Definition _identity_conflict (reader_identity project : string) (explicit : bool) : bool :=
  if explicit then false
  else let name := before "@" reader_identity in
       negb ((name == project) || startswith (project +:+ "-") name).

(** What an HTTP call raises. *)
Inductive exn := HttpStatus (code : Z) | OtherError.

Definition _auth_error_code (e : exn) : option Z :=
  match e with
  | HttpStatus code => if (code =? 401)%Z || (code =? 403)%Z then Some code else None
  | OtherError => None
  end.

(** ** What arrives *)

(** A message, as the server's JSON lists it. *)
Record mail := Mail {
  ml_id : string;
  ml_to : option string;
  ml_from : option string;
  ml_subject : string;
  ml_thread_id : option string;
  ml_created_at : option string;
  ml_intent : option string;
  ml_body : text
}.

Record wake := Wake {
  wk_id : string;
  wk_ref : option string;
  wk_from : option string;
  wk_from_principal : option string;
  wk_relayed_from : option string;
  wk_note : string;
  wk_at : option string
}.

(** An entry of the address register, as far as the survey reads it. *)
Record estate := Estate {
  es_address : option string;
  es_entry_type : option string;
  es_undrained : Z;
  es_reason : option string;
  es_death : bool;
  es_farewell : bool
}.

(** ** The lines it writes *)

Inductive owner_fact := OwnerLive | OwnerDead | OwnerNone | OwnerUnknown.

Record estate_node := EstateNode { nd_open_mail : Z; nd_kind : option string; nd_owner : owner_fact }.

Record address_digest := AddressDigest {
  ad_unread_count : nat;
  ad_oldest_at : option string;
  ad_newest_at : option string;
  ad_senders : list (string * nat)
}.

Inductive gasp_reason :=
| GaspCredentials (code : Z) (on_wake_socket : bool)
| GaspTimeout
| GaspSignal (name : string)
| GaspCrash.

Inductive line :=
| MailLine (m : mail) (body_truncated : bool) (body : text)
| WakeLine (w : wake)
| SurveyLine (project : string) (total_open : Z) (nodes : list (option string * estate_node))
| DigestLine (addresses : list (string * nat * option string * option string * list string))
    (directive_count : nat)
| AuthorityLine (count : nat) (newest : mail)
| GaspLine (why : gasp_reason).

Definition _emit (m : mail) : line :=
  let '(truncated, body) := wake_body (ml_body m) in MailLine m truncated body.

Definition _emit_wake (w : wake) : line := WakeLine w.

(** [d[k] = f(d.get(k))] in a dictionary in insertion order. *)
Fixpoint dict_update {K V} `{EqDecision K} (k : K) (f : option V → V) (d : list (K * V)) : list (K * V) :=
  match d with
  | [] => [(k, f None)]
  | (k', v) :: d' => if bool_decide (k = k') then (k', f (Some v)) :: d' else (k', v) :: dict_update k f d'
  end.

Definition intent_of (m : mail) : string := norm (ml_intent m).

Definition _DIGEST_DIRECTIVE_INTENTS : list string := ["action"; "proceed"; "escalate"].
Definition _AUTHORITY_INTENT : string := "authority-directive".

Definition _is_immortal_address (to occupant project : string) : bool :=
  nonempty to && negb (startswith "machine:" to)
  && negb ((before "@" to == occupant) && (occupant != project)).

Definition owner_of (e : estate) : owner_fact :=
  if es_reason e == Some "live-holder" then OwnerLive
  else if es_death e then OwnerDead
  else if es_farewell e then OwnerDead
  else if es_entry_type e == Some "mail-only" then OwnerNone
  else OwnerUnknown.

(** The register's nodes with open mail, and the total. *)
Definition survey_nodes (entries : list estate) : list (option string * estate_node) * Z :=
  foldl (λ '(nodes, total) e,
    if (es_undrained e =? 0)%Z then (nodes, total)
    else (dict_update (es_address e) (λ _, EstateNode (es_undrained e) (es_entry_type e) (owner_of e)) nodes,
          (total + es_undrained e)%Z)) ([], 0%Z) entries.

Definition _emit_estate_survey (entries : list estate) (project : string) : list line :=
  let '(nodes, total) := survey_nodes entries in
  match nodes with
  | [] => []
  | _ => [SurveyLine project total nodes]
  end.

(** [a < b] on texts. *)
Definition before_text (a b : string) : bool := negb (String.leb b a).

(** [min(filter(None, [a, c]))], [max(filter(None, [a, c]))] *)
Definition oldest (a : option string) (c : string) : option string :=
  match a with
  | Some x => Some (if nonempty x && negb (before_text c x) then x else c)
  | None => Some c
  end.

Definition newest_text (a : option string) (c : string) : option string :=
  match a with
  | Some x => Some (if nonempty x && negb (before_text x c) then x else c)
  | None => Some c
  end.

Definition digest_one (m : mail) (a : option address_digest) : address_digest :=
  let a := default (AddressDigest 0 None None []) a in
  let frm := default "?" (py_or (ml_from m) (Some "?")) in
  let dated := truthy (ml_created_at m) in
  let c := or_empty (ml_created_at m) in
  AddressDigest (S (ad_unread_count a))
    (if dated then oldest (ad_oldest_at a) c else ad_oldest_at a)
    (if dated then newest_text (ad_newest_at a) c else ad_newest_at a)
    (dict_update frm (λ n, S (default 0 n)) (ad_senders a)).

(** [sorted(senders, key=senders.get, reverse=True)[:3]] *)
Definition top_senders (senders : list (string * nat)) : list string :=
  take 3 (fst <$> sort_by (λ x y, y.2 <=? x.2)%nat senders).

(** [max(l, key=created_at)]: the first of the newest. *)
Definition created_key (m : mail) : string := or_empty (ml_created_at m).

Definition newest_mail (m0 : mail) (l : list mail) : mail :=
  foldl (λ m x, if before_text (created_key m) (created_key x) then x else m) m0 l.

Definition digest_addresses (immortal : list mail) : list (string * address_digest) :=
  foldl (λ d m, dict_update (or_empty (ml_to m)) (digest_one m) d) [] immortal.

Definition digest_line (immortal : list mail) : line :=
  DigestLine
    ((λ '(to, a), (to, ad_unread_count a, ad_oldest_at a, ad_newest_at a, top_senders (ad_senders a)))
       <$> digest_addresses immortal)
    (length (select (λ m, intent_of m isin _DIGEST_DIRECTIVE_INTENTS) immortal)).

(** The lines of the backlog, and how many messages they stand for. *)
Definition _emit_backlog_digest (backlog : list mail) (occupant project : string) : list line * nat :=
  let immortal := select (λ m, _is_immortal_address (or_empty (ml_to m)) occupant project) backlog in
  let authority := select (λ m, intent_of m == _AUTHORITY_INTENT) backlog in
  ((if length immortal =? 0 then [] else [digest_line immortal])
   ++ match authority with
      | [] => []
      | m0 :: rest => [AuthorityLine (length authority) (newest_mail m0 rest)]
      end,
   length immortal + length authority)%nat.

Definition _dying_gasp (why : gasp_reason) : line := GaspLine why.

(** ** The wake stream

    The pipe is a list of what [os.write] and [os.open] answer. A consumer is
    what one reader of the pipe received; the current one is first. *)

Inductive io :=
| Wrote (n : nat)          (* os.write took n bytes *)
| BrokenPipe
| Opened                   (* a reader is there *)
| NoReader (orphaned : bool).

Inductive out_result :=
| OutSent (consumers : list text) (rest : list io)
| OutDropped (consumers : list text) (rest : list io)
| OutExit (consumers : list text)        (* SystemExit: orphaned while waiting *)
| OutWaiting (consumers : list text).    (* still blocked *)

Definition feed (bytes : text) (consumers : list text) : list text :=
  match consumers with
  | got :: older => (got ++ bytes) :: older
  | [] => [bytes]
  end.

(** [opening]: blocked in [_reattach_fifo]; [view] is what is left of [data]. *)
Fixpoint write_line (block_on_detach opening : bool) (data view : text) (consumers : list text) (script : list io)
    : out_result :=
  match script with
  | e :: script' =>
      if opening then
        match e with
        | Opened => write_line block_on_detach false data data ([] :: consumers) script'
        | NoReader true => OutExit consumers
        | _ => write_line block_on_detach true data view consumers script'
        end
      else
        match view with
        | [] => OutSent consumers script
        | _ =>
            match e with
            | Wrote n => write_line block_on_detach false data (drop n view) (feed (take n view) consumers) script'
            | BrokenPipe =>
                if block_on_detach then write_line block_on_detach true data view consumers script'
                else OutDropped consumers script'
            | _ => write_line block_on_detach false data view consumers script'
            end
        end
  | [] => if opening then OutWaiting consumers
          else match view with [] => OutSent consumers [] | _ => OutWaiting consumers end
  end.

Definition _out (line : text) (block_on_detach : bool) (consumers : list text) (script : list io) : out_result :=
  write_line block_on_detach false (line ++ [NL]) (line ++ [NL]) consumers script.

(** ** Polls *)

Definition _own_addresses (reader_identity : string) : list string :=
  if nonempty reader_identity
  then select nonempty [lower (strip reader_identity); lower (strip (reader_to_address reader_identity))]
  else [].

Definition is_own (own : list string) (m : mail) : bool :=
  let sender := norm (ml_from m) in nonempty sender && (sender isin own).

Definition wakes (own : list string) (m : mail) : bool := negb (is_own own m) && negb (intent_of m == "fyi").

(** The messages not seen before that wake; every one is seen from now on. *)
Fixpoint fresh_mail (own : list string) (ms : list mail) (seen : gset string) : list mail * gset string :=
  match ms with
  | [] => ([], seen)
  | m :: ms' =>
      if negb (nonempty (ml_id m)) || bool_decide (ml_id m ∈ seen) then fresh_mail own ms' seen
      else let '(fresh, seen') := fresh_mail own ms' ({[ml_id m]} ∪ seen) in
           (if wakes own m then m :: fresh else fresh, seen')
  end.

Inductive inbox_answer := InboxFails (e : exn) | InboxSays (status : option string) (messages : list mail).

Definition _poll (reader_identity : string) (ans : inbox_answer) (seen : gset string)
    : outcome exn (list mail * gset string) :=
  match ans with
  | InboxFails e => Raise e
  | InboxSays status ms =>
      if status == Some "ok" then Done (fresh_mail (_own_addresses reader_identity) ms seen)
      else Raise OtherError
  end.

Inductive wake_answer := WakesFail (e : exn) | WakesSay (wakes : list wake).

Fixpoint fresh_wakes (ws : list wake) (seen : gset string) : list wake * gset string :=
  match ws with
  | [] => ([], seen)
  | w :: ws' =>
      if negb (nonempty (wk_id w)) || bool_decide (wk_id w ∈ seen) then fresh_wakes ws' seen
      else let '(fresh, seen') := fresh_wakes ws' ({[wk_id w]} ∪ seen) in (w :: fresh, seen')
  end.

(** ** The claim *)

Record claim_state := ClaimState {
  cs_seat : string;
  cs_nonce : string;
  cs_seat_nonce : option string;
  cs_held : bool;
  cs_unheld_mode : bool;
  cs_emission_paused : bool;
  cs_fetched_through : option string;
  cs_catch_up_after : option string
}.

(** [seat_nonce]: the environment's ENGRAM_SEAT_NONCE. *)
Definition new_claim (seat nonce : string) (seat_nonce : option string) : claim_state :=
  let n := strip (or_empty seat_nonce) in
  ClaimState seat nonce (if nonempty n then Some n else None) false false false None None.

Definition granted_to (c : claim_state) (catch_up_after : option string) : claim_state :=
  ClaimState (cs_seat c) (cs_nonce c) (cs_seat_nonce c) true (cs_unheld_mode c) (cs_emission_paused c)
    (cs_fetched_through c) catch_up_after.

Definition run_unheld (c : claim_state) : claim_state :=
  ClaimState (cs_seat c) (cs_nonce c) (cs_seat_nonce c) (cs_held c) true (cs_emission_paused c)
    (cs_fetched_through c) (cs_catch_up_after c).

Definition pause (p : bool) (c : claim_state) : claim_state :=
  ClaimState (cs_seat c) (cs_nonce c) (cs_seat_nonce c) (cs_held c) (cs_unheld_mode c) p
    (cs_fetched_through c) (cs_catch_up_after c).

(** The watermark moves to the newest message emitted. *)
Definition fetched (m : mail) (c : claim_state) : claim_state :=
  if truthy (ml_created_at m) then
    let at_ := created_key m in
    ClaimState (cs_seat c) (cs_nonce c) (cs_seat_nonce c) (cs_held c) (cs_unheld_mode c) (cs_emission_paused c)
      (match cs_fetched_through c with
       | Some ft => Some (if before_text ft at_ then at_ else ft)
       | None => Some at_
       end) (cs_catch_up_after c)
  else c.

Inductive claim_answer :=
| ClaimUnreachable
| ClaimSays (verdict : option string) (catch_up_after : option string) (retry_after_seconds : option Z).

Inductive beat_answer := BeatLost | BeatSays (verdict : option string).

Inductive act :=
| Attach
| ClaimWatch (seat nonce : string) (seat_nonce : option string) (listen_set : list string)
| Wait (seconds : Z)
| BeatWatch (seat nonce : string) (fetched_through : option string)
| ReleaseWatch (seat nonce : string)
| Beat (identity project : string)
| Farewell (identity project : string)
| ReadInbox (listen_set : list string) (reader_identity : string)
| PollWakes (listen_set : list string) (reader_identity : string)
| ReadRegister (project : string)
| Emit (l : line).

(** [float(r.get("retry_after_seconds") or 150)] *)
Definition retry_wait (retry : option Z) : Z :=
  match retry with
  | Some s => if (s =? 0)%Z then 150 else s
  | None => 150
  end.

(** The claims made; the outcome is absent while the watcher still waits. *)
Fixpoint acquire (answers : list claim_answer) (listen_set : list string) (c : claim_state)
    : list act * option (claim_state * option Z) :=
  match answers with
  | [] => ([], None)
  | ans :: answers' =>
      let ask := ClaimWatch (cs_seat c) (cs_nonce c) (cs_seat_nonce c) listen_set in
      match ans with
      | ClaimUnreachable => ([ask], Some (run_unheld c, None))
      | ClaimSays verdict catch_up_after retry =>
          if verdict == Some "granted" then ([ask], Some (granted_to c catch_up_after, None))
          else if verdict == Some "partial-refused" then ([ask], Some (c, Some EXIT_PARTIAL_CLAIM))
          else let '(acts, r) := acquire answers' listen_set c in
               (ask :: Wait (retry_wait retry) :: acts, r)
      end
  end.

Inductive beat_word := HolderWord | DisplacedWord | UnknownWord.

Definition beat (ans : beat_answer) (c : claim_state) : list act * claim_state * beat_word :=
  if cs_unheld_mode c then ([], c, HolderWord)
  else
    let call := [BeatWatch (cs_seat c) (cs_nonce c) (cs_fetched_through c)] in
    match ans with
    | BeatLost => (call, pause true c, UnknownWord)
    | BeatSays verdict =>
        if verdict == Some "holder" then (call, pause false c, HolderWord)
        else (call, c, DisplacedWord)
    end.

(** ** Watching the session *)

(** The polls of an exit window: each is the clock after it and whether the
    process was gone. Nothing is said while more polls are to come. *)
Fixpoint gone_twice (deadline : Z) (polls : list (Z * bool)) (gone_seen : nat) : option bool :=
  match polls with
  | [] => None
  | (clock, gone) :: polls' =>
      let gone_seen := if gone then S gone_seen else 0 in
      if (2 <=? gone_seen)%nat then Some true
      else if (deadline <=? clock)%Z then Some false
      else gone_twice deadline polls' gone_seen
  end.

(** ** A run *)

Record args := Args {
  a_address : option (list string);      (* --address *)
  a_identity : bool;                     (* --identity was given *)
  a_follow : bool;
  a_include_existing : bool;
  a_timeout : option Z;
  a_claim : bool;
  a_fifo : bool;
  a_seat_nonce : option string           (* ENGRAM_SEAT_NONCE *)
}.

Record watcher := Watcher {
  w_reader : string;
  w_listen : list string;
  w_claim : option claim_state;
  w_active : option (string * string);   (* _ACTIVE_CLAIM, while held *)
  w_seen : gset string;
  w_gone_seen : nat;
  w_watched : option (Z * string);       (* _WATCHED *)
  w_watched_reader : string              (* _WATCHED_READER_IDENTITY *)
}.

(** How a run ends: it returns a code, the interpreter is told to exit, it
    raises, or it still waits for an answer. *)
Inductive ending := Returns (code : Z) | SystemExit0 | Crash | StillWaiting.

(** State, the calls made, and the end of the run. *)
Definition M (A : Type) : Type := watcher → list act * watcher * (A + ending).

Definition ret {A} (x : A) : M A := λ w, ([], w, inl x).
Definition stop {A} (e : ending) : M A := λ w, ([], w, inr e).
Definition get : M watcher := λ w, ([], w, inl w).
Definition put (w : watcher) : M unit := λ _, ([], w, inl tt).
Definition tell (l : list act) : M unit := λ w, (l, w, inl tt).

Definition bind {A B} (m : M A) (k : A → M B) : M B := λ w,
  match m w with
  | (l, w', inl x) => let '(l', w'', r) := k x w' in (l ++ l', w'', r)
  | (l, w', inr e) => (l, w', inr e)
  end.

Notation "x ⇐ m ;; k" := (bind m (λ x, k)) (at level 100, m at next level, right associativity) : tiding_scope.
Notation "m ;;; k" := (bind m (λ _, k)) (at level 100, right associativity) : tiding_scope.

Definition with_identity (reader : string) (listen : list string) (w : watcher) : watcher :=
  Watcher reader listen (w_claim w) (w_active w) (w_seen w) (w_gone_seen w) (w_watched w) (w_watched_reader w).
Definition with_claim (c : option claim_state) (w : watcher) : watcher :=
  Watcher (w_reader w) (w_listen w) c (w_active w) (w_seen w) (w_gone_seen w) (w_watched w) (w_watched_reader w).
Definition with_active (a : option (string * string)) (w : watcher) : watcher :=
  Watcher (w_reader w) (w_listen w) (w_claim w) a (w_seen w) (w_gone_seen w) (w_watched w) (w_watched_reader w).
Definition with_seen (s : gset string) (w : watcher) : watcher :=
  Watcher (w_reader w) (w_listen w) (w_claim w) (w_active w) s (w_gone_seen w) (w_watched w) (w_watched_reader w).
Definition with_gone (n : nat) (w : watcher) : watcher :=
  Watcher (w_reader w) (w_listen w) (w_claim w) (w_active w) (w_seen w) n (w_watched w) (w_watched_reader w).
Definition with_watched (p : option (Z * string)) (w : watcher) : watcher :=
  Watcher (w_reader w) (w_listen w) (w_claim w) (w_active w) (w_seen w) (w_gone_seen w) p (w_reader w).

Definition identity_name (reader : string) : string := before "@" reader.

(** A new claim on the reader's seat; a grant becomes the active claim. *)
Definition claim_watch (a : args) (nonce : string) (answers : list claim_answer) : M unit :=
  w ⇐ get ;;
  let c := new_claim (identity_name (w_reader w)) nonce (a_seat_nonce a) in
  let '(acts, r) := acquire answers (w_listen w) c in
  tell acts ;;;
  match r with
  | None => put (with_claim (Some c) w) ;;; stop StillWaiting
  | Some (c', code) =>
      put (with_claim (Some c') (if cs_held c' then with_active (Some (cs_seat c', cs_nonce c')) w else w)) ;;;
      match code with
      | Some n => stop (Returns n)
      | None => ret tt
      end
  end.

(** One line each, the watermark following. *)
Definition emit_mail (ms : list mail) : M unit :=
  w ⇐ get ;;
  tell ((λ m, Emit (_emit m)) <$> ms) ;;;
  put (with_claim ((λ c, foldl (λ c m, fetched m c) c ms) <$> w_claim w) w).

Definition refused (code : Z) (on_wake_socket : bool) : M unit :=
  tell [Emit (_dying_gasp (GaspCredentials code on_wake_socket))] ;;; stop (Returns EXIT_AUTH_FAILED).

(** What the watcher is told during one turn of its loop. *)
Inductive reader_probe := Reading | Reattached | OrphanedWaiting | OpenFailed.

Record tick := Tick {
  tk_identity : string * list string;     (* compute_identity *)
  tk_project : string;                    (* derive_project_name(args.project_dir) *)
  tk_nonce : string;                      (* a fresh nonce *)
  tk_claims : list claim_answer;          (* answers to a claim made this turn *)
  tk_orphaned : bool;                     (* os.getppid() == 1 *)
  tk_window : Z * list (Z * bool);        (* the clock and the polls of an exit window *)
  tk_pipe : reader_probe;                 (* the probe of the pipe, and what the wait for a reader came to *)
  tk_beat : beat_answer;
  tk_inbox : inbox_answer;
  tk_wakes : wake_answer;
  tk_clock : Z;
  tk_gone : bool                          (* process_is_gone *)
}.

(** The identity is followed at every turn, unless it contradicts the folder. *)
Definition follow_identity (a : args) (tk : tick) : M unit :=
  match a_address a with
  | Some _ => ret tt
  | None =>
      w ⇐ get ;;
      let '(who, listen) := tk_identity tk in
      if (who == w_reader w) || _identity_conflict who (tk_project tk) (a_identity a) then ret tt
      else
        put (with_identity who listen w) ;;;
        match w_claim w with
        | None => ret tt
        | Some c => tell [ReleaseWatch (cs_seat c) (cs_nonce c)] ;;; claim_watch a (tk_nonce tk) (tk_claims tk)
        end
  end.

Definition held (c : option claim_state) : option claim_state :=
  match c with
  | Some s => if cs_held s then Some s else None
  | None => None
  end.

(** The bridge is gone: look whether the session is, release, leave. *)
Definition leave_if_orphaned (a : args) (tk : tick) : M unit :=
  if negb (a_fifo a && tk_orphaned tk) then ret tt
  else
    w ⇐ get ;;
    match w_watched w with
    | Some _ =>
        if nonempty (w_reader w) then
          match gone_twice (fst (tk_window tk) + FAREWELL_ON_SIGNAL_WINDOW) (snd (tk_window tk)) 0 with
          | Some true => tell [Farewell (identity_name (w_reader w)) (tk_project tk)]
          | Some false => ret tt
          | None => stop StillWaiting
          end
        else ret tt
    | None => ret tt
    end ;;;
    tell (match held (w_claim w) with Some c => [ReleaseWatch (cs_seat c) (cs_nonce c)] | None => [] end) ;;;
    stop (Returns 0).

Definition wait_for_reader (a : args) (tk : tick) : M unit :=
  if a_fifo a then
    match tk_pipe tk with
    | Reading => ret tt
    | Reattached => tell [Attach]
    | OrphanedWaiting => stop SystemExit0
    | OpenFailed => stop Crash
    end
  else ret tt.

(** Whether this turn may emit. *)
Definition beat_claim (tk : tick) : M bool :=
  w ⇐ get ;;
  match w_claim w with
  | None => ret true
  | Some c =>
      let '(acts, c', word) := beat (tk_beat tk) c in
      tell acts ;;; put (with_claim (Some c') w) ;;;
      match word with
      | HolderWord => ret true
      | UnknownWord => ret false
      | DisplacedWord => stop (Returns EXIT_DISPLACED)
      end
  end.

Definition read_mail (tk : tick) : M (list mail) :=
  w ⇐ get ;;
  tell [ReadInbox (w_listen w) (w_reader w)] ;;;
  match _poll (w_reader w) (tk_inbox tk) (w_seen w) with
  | Done (fresh, seen) => put (with_seen seen w) ;;; ret fresh
  | Raise e =>
      match _auth_error_code e with
      | Some code => refused code false ;;; ret []
      | None => ret []
      end
  end.

Definition take_mail (tk : tick) : M (list mail) :=
  fresh ⇐ read_mail tk ;;
  emit_mail fresh ;;;
  ret fresh.

Definition read_wakes (tk : tick) : M (list wake) :=
  w ⇐ get ;;
  tell [PollWakes (w_listen w) (w_reader w)] ;;;
  match tk_wakes tk with
  | WakesSay ws =>
      let '(fresh, seen) := fresh_wakes ws (w_seen w) in
      put (with_seen seen w) ;;; tell ((λ x, Emit (_emit_wake x)) <$> fresh) ;;; ret fresh
  | WakesFail e =>
      match _auth_error_code e with
      | Some code => refused code true ;;; ret []
      | None => ret []
      end
  end.

(** The session is reported gone at the second poll in a row that saw it so. *)
Definition observe_session (tk : tick) : M unit :=
  w ⇐ get ;;
  if is_some (w_watched w) && tk_gone tk then
    put (with_gone (S (w_gone_seen w)) w) ;;;
    if (2 <=? S (w_gone_seen w))%nat
    then tell [Farewell (identity_name (w_reader w)) (tk_project tk)] ;;; stop (Returns 0)
    else ret tt
  else put (with_gone 0 w).

Definition is_empty {A} (l : list A) : bool := match l with [] => true | _ => false end.

(** The first half of a turn: whether the second may run. *)
Definition prepare (a : args) (tk : tick) : M bool :=
  follow_identity a tk ;;;
  leave_if_orphaned a tk ;;;
  wait_for_reader a tk ;;;
  beat_claim tk.

Definition check_deadline (deadline : option Z) (tk : tick) : M unit :=
  match deadline with
  | Some d => if (d <=? tk_clock tk)%Z then tell [Emit (_dying_gasp GaspTimeout)] ;;; stop (Returns 0)
              else ret tt
  | None => ret tt
  end.

Definition serve (a : args) (deadline : option Z) (tk : tick) : M unit :=
  w ⇐ get ;;
  tell [Beat (identity_name (w_reader w)) (tk_project tk)] ;;;
  fresh ⇐ take_mail tk ;;
  wakes ⇐ read_wakes tk ;;
  if negb (is_empty fresh && is_empty wakes) && negb (a_follow a) then stop (Returns 0)
  else check_deadline deadline tk ;;; observe_session tk.

(** One turn of the loop. *)
Definition turn (a : args) (deadline : option Z) (tk : tick) : M unit :=
  may_emit ⇐ prepare a tk ;;
  if (may_emit : bool) then serve a deadline tk else ret tt.

Fixpoint turns (a : args) (deadline : option Z) (tks : list tick) : M unit :=
  match tks with
  | [] => ret tt
  | tk :: tks' => turn a deadline tk ;;; turns a deadline tks'
  end.

(** ** Arming and leaving *)

Record arming := Arming {
  ar_identity : string * list string;     (* compute_identity at the start *)
  ar_attached : option bool;              (* the wait for a reader: attached, or orphaned; absent while waiting *)
  ar_identity_later : string * list string;  (* compute_identity after the wait *)
  ar_project : string;
  ar_nonce : string;
  ar_claims : list claim_answer;
  ar_watched : option (Z * string);       (* discover_session_process *)
  ar_backlog : inbox_answer;
  ar_register : option (list estate);     (* session_addresses, absent when it failed *)
  ar_clock : Z
}.

(** [listen_set = --address or the computed one] *)
Definition listening (a : args) (computed : list string) : list string :=
  default computed (a_address a).

(** The wait for a reader of the pipe. *)
Definition attach (a : args) (ar : arming) : M unit :=
  if a_fifo a then
    match ar_attached ar with
    | Some true => tell [Attach]
    | Some false => stop SystemExit0
    | None => stop StillWaiting
    end
  else ret tt.

(** The claim, for the identity resolved after the wait. *)
Definition first_claim (a : args) (ar : arming) : M unit :=
  if a_claim a then
    w ⇐ get ;;
    put (match a_address a with
         | Some _ => w
         | None => with_identity (fst (ar_identity_later ar)) (snd (ar_identity_later ar)) w
         end) ;;;
    claim_watch a (ar_nonce ar) (ar_claims ar)
  else ret tt.

(** Attach, claim, then look up the session. *)
Definition arm (a : args) (ar : arming) : M unit :=
  let '(reader, listen) := ar_identity ar in
  if _identity_conflict reader (ar_project ar) (a_identity a) then stop (Returns EXIT_IDENTITY_CONFLICT)
  else
    w ⇐ get ;;
    put (with_identity reader (listening a listen) w) ;;;
    attach a ar ;;;
    first_claim a ar ;;;
    w ⇐ get ;;
    put (with_watched (ar_watched ar) w).

(** The backlog of a stolen claim that its former holder did not emit, and the rest. *)
Definition in_gap (cua : option string) (m : mail) : bool :=
  truthy cua && before_text (or_empty cua) (created_key m).

Definition split_backlog (cua : option string) (backlog : list mail) : list mail * list mail :=
  (select (in_gap cua) backlog, select (λ m, negb (in_gap cua m)) backlog).

Definition seed (a : args) (ar : arming) : M unit :=
  if a_include_existing a then ret tt
  else
    w ⇐ get ;;
    tell [ReadInbox (w_listen w) (w_reader w)] ;;;
    match _poll (w_reader w) (ar_backlog ar) (w_seen w) with
    | Raise e =>
        match _auth_error_code e with
        | Some code => refused code false
        | None => ret tt
        end
    | Done (backlog, seen) =>
        put (with_seen seen w) ;;;
        let cua := c ← w_claim w; cs_catch_up_after c in
        let '(gap, rest) := split_backlog cua backlog in
        let '(lines, hits) :=
          _emit_backlog_digest rest (reader_to_address (w_reader w)) (ar_project ar) in
        emit_mail gap ;;;
        tell (Emit <$> lines) ;;;
        tell [ReadRegister (ar_project ar)] ;;;
        match ar_register ar with
        | Some entries => tell (Emit <$> _emit_estate_survey entries (ar_project ar))
        | None => ret tt
        end ;;;
        if negb (hits =? 0)%nat && negb (a_follow a) then stop (Returns 0) else ret tt
    end.

(** The [finally] of the run. *)
Definition release_held (w : watcher) : list act * watcher :=
  match held (w_claim w) with
  | Some c =>
      ([ReleaseWatch (cs_seat c) (cs_nonce c)],
       with_active (if w_active w == Some (cs_seat c, cs_nonce c) then None else w_active w)
         (with_claim (Some (ClaimState (cs_seat c) (cs_nonce c) (cs_seat_nonce c) false (cs_unheld_mode c)
            (cs_emission_paused c) (cs_fetched_through c) (cs_catch_up_after c))) w))
  | None => ([], w)
  end.

Definition crash_gasp (e : ending) : list act :=
  match e with
  | Crash => [Emit (_dying_gasp GaspCrash)]
  | _ => []
  end.

Definition initial : watcher := Watcher "" [] None None ∅ 0 None "".

Definition watch (a : args) (ar : arming) (tks : list tick) : M unit :=
  seed a ar ;;; turns a ((λ t, (ar_clock ar + t)%Z) <$> a_timeout a) tks.

(** [_run]: the calls made, and how it ended if it did. *)
Definition _run (a : args) (ar : arming) (tks : list tick) : list act * watcher * option ending :=
  let '(armed, w, r) := arm a ar initial in
  match r with
  | inr e => (armed, w, Some e)
  | inl _ =>
      let '(acts, w', r') := watch a ar tks w in
      match r' with
      | inl _ => (armed ++ acts, w', None)
      | inr StillWaiting => (armed ++ acts, w', Some StillWaiting)
      | inr e =>
          let '(last, w'') := release_held w' in
          (armed ++ acts ++ crash_gasp e ++ last, w'', Some e)
      end
  end.

(** A signal arrives while the watcher is in [w]: the run is unwound, which
    may or may not have released the claim, then [main] takes over. *)
Definition _release_after_signal (w : watcher) : list act :=
  match w_active w with
  | Some (seat, nonce) => [ReleaseWatch seat nonce]
  | None => []
  end.

(** The farewell, if the session was seen gone; nothing while polls are to come. *)
Definition _farewell_after_signal (project : string) (start : Z) (polls : list (Z * bool)) (w : watcher)
    : option (list act) :=
  match w_watched w with
  | Some _ =>
      if nonempty (w_watched_reader w) then
        gone ← gone_twice (start + FAREWELL_ON_SIGNAL_WINDOW) polls 0;
        Some (if (gone : bool) then [Farewell (identity_name (w_watched_reader w)) project] else [])
      else Some []
  | None => Some []
  end.

Definition on_signal (name : string) (unwound : bool) (project : string) (start : Z)
    (polls : list (Z * bool)) (w : watcher) : option (list act) :=
  let '(first, w) := if unwound then release_held w else ([], w) in
  farewell ← _farewell_after_signal project start polls w;
  Some (first ++ _release_after_signal w
        ++ match farewell with
           | [] => [Emit (_dying_gasp (GaspSignal name))]
           | _ => farewell
           end).
