(* ===== verification/WatcherProps.v ===== *)
(** What the watcher guarantees: a message wakes once, a watcher that lost its
    claim is silent, a farewell is earned, a line is whole, a claim is given
    back. *)

From stdpp Require Import base gmap sets list strings.
From Stdlib Require Import ZArith Lia Ascii.
From S2P Require Import Prelude PyString Json Store Inbox WatchClaim WatchClaimProps Session Fence Watcher.

(** ** Reasoning about runs *)

Definition wp {A} (m : M A) (w : watcher) (Q : list act → watcher → A + ending → Prop) : Prop :=
  let '(l, w', r) := m w in Q l w' r.

Lemma wp_bind {A B} (m : M A) (k : A → M B) w Q :
  wp m w (λ l w' r, match r with
                    | inl x => wp (k x) w' (λ l' w'' r', Q (l ++ l') w'' r')
                    | inr e => Q l w' (inr e)
                    end) → wp (bind m k) w Q.
Proof.
  unfold wp, bind. destruct (m w) as [[l w'] [x|e]]; [|done]. by destruct (k x w') as [[l' w''] r].
Qed.

Lemma wp_mono {A} (m : M A) w (Q Q' : list act → watcher → A + ending → Prop) :
  wp m w Q → (∀ l w' r, Q l w' r → Q' l w' r) → wp m w Q'.
Proof. unfold wp. destruct (m w) as [[l w'] r]. eauto. Qed.

Lemma wp_and {A} (m : M A) w (Q Q' : list act → watcher → A + ending → Prop) :
  wp m w Q → wp m w Q' → wp m w (λ l w' r, Q l w' r ∧ Q' l w' r).
Proof. unfold wp. destruct (m w) as [[l w'] r]. eauto. Qed.

Lemma wp_ret {A} (x : A) w Q : Q [] w (inl x) → wp (ret x) w Q.
Proof. done. Qed.
Lemma wp_stop {A} e w (Q : list act → watcher → A + ending → Prop) : Q [] w (inr e) → wp (stop e) w Q.
Proof. done. Qed.
Lemma wp_tell l w Q : Q l w (inl tt) → wp (tell l) w Q.
Proof. done. Qed.
Lemma wp_put w' w Q : Q [] w' (inl tt) → wp (put w') w Q.
Proof. done. Qed.
Lemma wp_get w Q : Q [] w (inl w) → wp get w Q.
Proof. done. Qed.

(** Run the straight-line part of a program. *)
Ltac run1 :=
  lazymatch goal with
  | |- wp (bind _ _) _ _ => apply wp_bind
  | |- wp (ret _) _ _ => apply wp_ret
  | |- wp (stop _) _ _ => apply wp_stop
  | |- wp (tell _) _ _ => apply wp_tell
  | |- wp (put _) _ _ => apply wp_put
  | |- wp get _ _ => apply wp_get
  end; cbn beta iota.
Ltac run := repeat run1; cbn [app].

(** ** What is said *)

Definition mails (l : list act) : list mail :=
  omap (λ x, match x with Emit (MailLine m _ _) => Some m | _ => None end) l.
Definition wake_lines (l : list act) : list wake :=
  omap (λ x, match x with Emit (WakeLine w) => Some w | _ => None end) l.
Definition farewells (l : list act) : list string :=
  omap (λ x, match x with Farewell who _ => Some who | _ => None end) l.
Definition woken (l : list act) : list string := (ml_id <$> mails l) ++ (wk_id <$> wake_lines l).

Lemma mails_app l k : mails (l ++ k) = mails l ++ mails k.
Proof. apply omap_app. Qed.
Lemma wake_lines_app l k : wake_lines (l ++ k) = wake_lines l ++ wake_lines k.
Proof. apply omap_app. Qed.
Lemma farewells_app l k : farewells (l ++ k) = farewells l ++ farewells k.
Proof. apply omap_app. Qed.

Lemma mails_emit ms : mails ((λ m, Emit (_emit m)) <$> ms) = ms.
Proof.
  induction ms as [|m ms IH]; [done|]. rewrite fmap_cons.
  by apply (f_equal (cons m)).
Qed.
Lemma wake_lines_emit ms : wake_lines ((λ m, Emit (_emit m)) <$> ms) = [].
Proof. by induction ms as [|m ms IH]; [|rewrite fmap_cons]. Qed.
Lemma farewells_emit {A} (f : A → line) ms : farewells ((λ m, Emit (f m)) <$> ms) = [].
Proof. by induction ms. Qed.
Lemma mails_wakes ws : mails ((λ m, Emit (_emit_wake m)) <$> ws) = [].
Proof. by induction ws. Qed.
Lemma wake_lines_wakes ws : wake_lines ((λ m, Emit (_emit_wake m)) <$> ws) = ws.
Proof. induction ws as [|w ws IH]; [done|]. rewrite fmap_cons. by apply (f_equal (cons w)). Qed.

(** Nothing is said and nobody is reported gone. *)
Definition quiet (l : list act) : Prop := mails l = [] ∧ wake_lines l = [].

Lemma quiet_app l k : quiet l → quiet k → quiet (l ++ k).
Proof. intros [H1 H2] [H3 H4]. split; [rewrite mails_app, H1, H3|rewrite wake_lines_app, H2, H4]; done. Qed.

Lemma farewells_none l k : farewells l = [] → farewells k = [] → farewells (l ++ k) = [].
Proof. intros H1 H2. by rewrite farewells_app, H1, H2. Qed.

Lemma acquire_quiet answers listen c : quiet (acquire answers listen c).1.
Proof.
  induction answers as [|ans answers IH]; [done|]. cbn.
  destruct ans as [|v cua retry]; [done|]. repeat case_match; done.
Qed.

(** What a turn keeps until it reads. *)
Definition same (w w' : watcher) : Prop :=
  w_seen w' = w_seen w ∧ w_gone_seen w' = w_gone_seen w ∧
  w_watched w' = w_watched w ∧ w_watched_reader w' = w_watched_reader w.

#[global] Instance same_preorder : PreOrder same.
Proof. split; unfold same; [done|]. intros ???; intuition congruence. Qed.

Lemma claim_watch_spec a nonce answers w :
  wp (claim_watch a nonce answers) w (λ l w' _,
    quiet l ∧ same w w' ∧ farewells l = [] ∧ w_reader w' = w_reader w ∧ w_listen w' = w_listen w).
Proof.
  unfold claim_watch. run. pose proof (acquire_quiet answers (w_listen w)
    (new_claim (identity_name (w_reader w)) nonce (a_seat_nonce a))) as Hq.
  assert (farewells (acquire answers (w_listen w)
    (new_claim (identity_name (w_reader w)) nonce (a_seat_nonce a))).1 = []) as Hf.
  { generalize (new_claim (identity_name (w_reader w)) nonce (a_seat_nonce a)). intros c. clear Hq.
    induction answers as [|[|v cua retry] answers IH]; [done..|]. cbn. repeat case_match; done. }
  destruct (acquire _ _ _) as [acts [[c' [n|]]|]]; cbn [fst] in *; run; rewrite ?app_nil_r.
  all: split_and!; try done; destruct (cs_held _); done.
Qed.

Lemma follow_identity_spec a tk w :
  wp (follow_identity a tk) w (λ l w' _, quiet l ∧ same w w' ∧ farewells l = []).
Proof.
  unfold follow_identity. destruct (a_address a); [by run|]. run.
  destruct (tk_identity tk) as [who listen]. destruct ((_ == _) || _)%bool; [by run|]. run.
  destruct (w_claim w) as [c|]; [|by run]. run.
  eapply wp_mono; [apply claim_watch_spec|]. intros l w' _ (Hq & Hs & Hf & _). by split_and!.
Qed.

(** A farewell of an orphan is two polls in a row that saw the session gone. *)
Lemma gone_twice_true deadline polls n :
  n ≤ 1 → gone_twice deadline polls n = Some true →
  (n = 1 ∧ ∃ c rest, polls = (c, true) :: rest) ∨
  ∃ front c1 c2 rest, polls = front ++ (c1, true) :: (c2, true) :: rest.
Proof.
  revert n. induction polls as [|[clock gone] polls IH]; intros n Hn; [done|]. cbn.
  destruct gone; cbn.
  - destruct n as [|[|n]]; [|left; eauto|lia]. cbn. destruct (deadline <=? clock)%Z; [done|].
    intros [(_ & c & rest & ->)|(front & c1 & c2 & rest & ->)]%IH; [..|lia].
    + right. by exists [], clock, c, rest.
    + right. by exists ((clock, true) :: front), c1, c2, rest.
  - destruct (deadline <=? clock)%Z; [done|]. intros [(? & _)|(front & c1 & c2 & rest & ->)]%IH; [lia| |lia].
    right. by exists ((clock, false) :: front), c1, c2, rest.
Qed.

(** The window saw it gone twice in a row. *)
Definition seen_leaving (tk : tick) : Prop :=
  ∃ front c1 c2 rest, snd (tk_window tk) = front ++ (c1, true) :: (c2, true) :: rest.

Lemma leave_spec a tk w :
  wp (leave_if_orphaned a tk) w (λ l w' r, quiet l ∧ w' = w ∧
    (farewells l = [] ∨ farewells l = [identity_name (w_reader w)] ∧ is_some (w_watched w) = true ∧
                         tk_orphaned tk = true ∧ seen_leaving tk ∧ r = inr (Returns 0))).
Proof.
  unfold leave_if_orphaned. destruct (a_fifo a && tk_orphaned tk)%bool eqn:E; cbn [negb]; [|run; by split_and!; [| |left]].
  apply andb_true_iff in E as [_ Eo]. run.
  assert (∀ c : option claim_state, let l := match c with Some c => [ReleaseWatch (cs_seat c) (cs_nonce c)] | None => [] end in
    quiet l ∧ farewells l = []) as Hrel by (by intros [c|]).
  destruct (Hrel (held (w_claim w))) as [Hq Hf]. set (last := match held _ with Some _ => _ | None => _ end) in *.
  clearbody last. clear Hrel.
  destruct (w_watched w) as [p|]; [destruct (nonempty (w_reader w))|]; try (run; rewrite ?app_nil_r; by split_and!; [..|left]).
  destruct (gone_twice _ _ 0) as [[|]|] eqn:Eg; run; rewrite ?app_nil_r; try (by split_and!; [..|left]).
  apply gone_twice_true in Eg as [(? & _)|Hs]; [done| |lia].
  split_and!; [split; [exact (proj1 Hq)|exact (proj2 Hq)]|done|]. right. split_and!; [|done..].
  change (farewells (?x :: last)) with (identity_name (w_reader w) :: farewells last). by rewrite Hf.
Qed.

Lemma wait_spec a tk w : wp (wait_for_reader a tk) w (λ l w' _, quiet l ∧ w' = w ∧ farewells l = []).
Proof. unfold wait_for_reader. destruct (a_fifo a); [destruct (tk_pipe tk)|]; by run. Qed.

(** Cleared to speak: no claim, running without one, or told to hold it. *)
Definition cleared (tk : tick) (l : list act) (w' : watcher) : Prop :=
  match w_claim w' with
  | None => True
  | Some c => cs_unheld_mode c = true ∨
      tk_beat tk = BeatSays (Some "holder") ∧ ∃ ft, BeatWatch (cs_seat c) (cs_nonce c) ft ∈ l
  end.

Lemma beat_spec tk w :
  wp (beat_claim tk) w (λ l w' r, quiet l ∧ same w w' ∧ farewells l = [] ∧
    w_reader w' = w_reader w ∧ w_listen w' = w_listen w ∧ (r = inl true → cleared tk l w')).
Proof.
  unfold beat_claim. run. destruct (w_claim w) as [c|] eqn:Ec; [|run; split_and!; try done; intros _; unfold cleared; by rewrite Ec].
  unfold beat. destruct (cs_unheld_mode c) eqn:Eu.
  - run. split_and!; try done. intros _. unfold cleared. cbn. by left.
  - destruct (tk_beat tk) as [|verdict] eqn:Eb; [by run|].
    bcase (verdict = Some "holder") Ev; run; rewrite ?app_nil_r; split_and!; try done.
    intros _. unfold cleared. cbn [w_claim with_claim]. right. rewrite Eb, Ev. split; [done|].
    exists (cs_fetched_through c). by left.
Qed.

Lemma prepare_spec a tk w :
  wp (prepare a tk) w (λ l w' r, quiet l ∧ same w w' ∧ (r = inl true → cleared tk l w') ∧
    (farewells l = [] ∨ ∃ who, farewells l = [who] ∧ is_some (w_watched w) = true ∧
                          tk_orphaned tk = true ∧ seen_leaving tk ∧ r = inr (Returns 0))).
Proof.
  unfold prepare. apply wp_bind. eapply wp_mono; [apply follow_identity_spec|].
  intros l1 w1 r1 (Hq1 & Hs1 & Hf1). destruct r1 as [[]|e]; [|by split_and!; [| | |left]].
  apply wp_bind. eapply wp_mono; [apply leave_spec|]. intros l2 w2 r2 (Hq2 & -> & Hf2).
  destruct r2 as [[]|e].
  - destruct Hf2 as [Hf2|(? & ? & ? & ? & ?)]; [|done].
    apply wp_bind. eapply wp_mono; [apply wait_spec|]. intros l3 w3 r3 (Hq3 & -> & Hf3). destruct r3 as [[]|e].
    + eapply wp_mono; [apply beat_spec|]. intros l4 w4 r4 (Hq4 & Hs4 & Hf4 & _ & _ & Hc).
      split_and!; [auto using quiet_app|by etrans| |left; auto using farewells_none].
      intros Hr. specialize (Hc Hr). unfold cleared in *. destruct (w_claim w4) as [c|]; [|done].
      destruct Hc as [?|(? & ft & Hin)]; [by left|]. right. split; [done|]. exists ft. set_solver.
    + split_and!; [auto using quiet_app|done|done|left; auto using farewells_none].
  - split_and!; [auto using quiet_app|done|done|]. destruct Hf2 as [Hf2|(Hf2 & ? & ? & ? & He)].
    + left. auto using farewells_none.
    + right. destruct Hs1 as (_ & _ & Hw & _). rewrite <- Hw. exists (identity_name (w_reader w1)).
      rewrite farewells_app, Hf1, Hf2. injection He as He. by rewrite He.
Qed.

(** ** One wake per message *)

(** The items of an answer that are new: those with an id that was not seen
    before, each at its first place. *)
Fixpoint firsts {A} (id : A → string) (l : list A) (seen : gset string) : list A :=
  match l with
  | [] => []
  | x :: l' =>
      if negb (nonempty (id x)) || bool_decide (id x ∈ seen) then firsts id l' seen
      else x :: firsts id l' ({[id x]} ∪ seen)
  end.

Abbreviation first_seen := (firsts ml_id).

Lemma firsts_ext {A} (id : A → string) l (s s' : gset string) :
  (∀ x, nonempty x = true → x ∈ s ↔ x ∈ s') → firsts id l s = firsts id l s'.
Proof.
  revert s s'. induction l as [|x l IH]; intros s s' H; [done|]. cbn.
  destruct (nonempty (id x)) eqn:En; cbn [negb orb]; [|by apply IH].
  rewrite (bool_decide_ext _ _ (H _ En)). destruct (bool_decide _); [by apply IH|]. f_equal. apply IH. set_solver.
Qed.

Lemma fresh_mail_first own ms seen : (fresh_mail own ms seen).1 = select (wakes own) (first_seen ms seen).
Proof.
  revert seen. induction ms as [|m ms IH]; intros seen; [done|]. cbn [fresh_mail firsts].
  destruct (_ || _)%bool; [apply IH|]. rewrite select_cons. specialize (IH ({[ml_id m]} ∪ seen)).
  destruct (fresh_mail own ms _) as [fresh seen']. cbn [fst] in *. rewrite IH. by destruct (wakes own m).
Qed.

Lemma fresh_wakes_first ws seen : (fresh_wakes ws seen).1 = firsts wk_id ws seen.
Proof.
  revert seen. induction ws as [|x ws IH]; intros seen; [done|]. cbn [fresh_wakes firsts].
  destruct (_ || _)%bool; [apply IH|]. specialize (IH ({[wk_id x]} ∪ seen)).
  destruct (fresh_wakes ws _) as [fresh seen']. cbn [fst] in *. by rewrite IH.
Qed.

Lemma fresh_mail_seen own ms seen x :
  x ∈ (fresh_mail own ms seen).2 ↔ x ∈ seen ∨ nonempty x = true ∧ x ∈ ml_id <$> ms.
Proof.
  revert seen. induction ms as [|m ms IH]; intros seen; [set_solver|]. cbn.
  destruct (negb (nonempty (ml_id m))) eqn:En; [|bcase (ml_id m ∈ seen) Es]; cbn [orb].
  - rewrite IH. apply negb_true_iff in En. split; [set_solver|].
    intros [?|(? & Hx)]; [by left|]. apply elem_of_cons in Hx as [->|Hx]; [congruence|by right].
  - rewrite IH. split; [set_solver|]. intros [?|(? & Hx)]; [by left|].
    apply elem_of_cons in Hx as [->|Hx]; [by left|by right].
  - specialize (IH ({[ml_id m]} ∪ seen)). destruct (fresh_mail own ms _) as [fresh seen']. cbn in *.
    apply negb_false_iff in En. rewrite IH. set_solver.
Qed.

Lemma elem_of_first_seen ms seen m :
  m ∈ first_seen ms seen → m ∈ ms ∧ nonempty (ml_id m) = true ∧ ml_id m ∉ seen.
Proof.
  revert seen. induction ms as [|m' ms IH]; intros seen; [set_solver|]. cbn.
  destruct (negb (nonempty (ml_id m'))) eqn:En; [|bcase (ml_id m' ∈ seen) Es]; cbn [orb].
  - intros ?%IH. set_solver.
  - intros ?%IH. set_solver.
  - intros [->|Hm]%elem_of_cons.
    + apply negb_false_iff in En. set_solver.
    + apply IH in Hm. set_solver.
Qed.

Lemma first_seen_nodup ms seen : NoDup (ml_id <$> first_seen ms seen).
Proof.
  revert seen. induction ms as [|m ms IH]; intros seen; [constructor|]. cbn.
  destruct (_ || _)%bool; [apply IH|]. rewrite fmap_cons. constructor; [|apply IH].
  intros (x & Hx & Hin)%list_elem_of_fmap. apply elem_of_first_seen in Hin. set_solver.
Qed.

Lemma fresh_wakes_spec ws seen :
  NoDup (wk_id <$> (fresh_wakes ws seen).1) ∧
  (∀ x, x ∈ wk_id <$> (fresh_wakes ws seen).1 → x ∉ seen ∧ x ∈ (fresh_wakes ws seen).2) ∧
  seen ⊆ (fresh_wakes ws seen).2.
Proof.
  revert seen. induction ws as [|w ws IH]; intros seen; [split; [constructor|set_solver]|]. cbn.
  destruct (negb (nonempty (wk_id w))) eqn:En; [|bcase (wk_id w ∈ seen) Es]; cbn [orb]; [apply IH..|].
  destruct (IH ({[wk_id w]} ∪ seen)) as (H1 & H2 & H3). destruct (fresh_wakes ws _) as [fresh seen'].
  cbn [fst snd] in *. rewrite fmap_cons. split_and!; [|set_solver..].
  constructor; [|done]. intros Hin. apply H2 in Hin. set_solver.
Qed.

(** The ids a run wakes for are new, recorded, and each there once. *)
Definition once (w : watcher) (l : list act) (w' : watcher) : Prop :=
  NoDup (woken l) ∧ (∀ x, x ∈ woken l → x ∉ w_seen w ∧ x ∈ w_seen w') ∧ w_seen w ⊆ w_seen w'.

Lemma woken_app l k : woken (l ++ k) ≡ₚ woken l ++ woken k.
Proof.
  unfold woken. rewrite mails_app, wake_lines_app, !fmap_app, <- !(assoc_L (++)). f_equiv.
  rewrite !(assoc_L (++)). f_equiv. by rewrite (comm (++)).
Qed.

Lemma once_app w l w1 k w2 : once w l w1 → once w1 k w2 → once w (l ++ k) w2.
Proof.
  intros (H1 & H2 & H3) (H4 & H5 & H6). split_and!; [|intros x|set_solver].
  - rewrite woken_app. apply NoDup_app. split_and!; [done| |done]. intros x Hx Hy. apply H2 in Hx. apply H5 in Hy. tauto.
  - rewrite woken_app. intros [Hx|Hx]%elem_of_app; [apply H2 in Hx|apply H5 in Hx]; set_solver.
Qed.

Lemma once_quiet w l w' : quiet l → w_seen w' = w_seen w → once w l w'.
Proof. intros [H1 H2] Hs. unfold once, woken. rewrite H1, H2, Hs. by split_and!; [constructor|set_solver|]. Qed.

(** The messages of the answer to a poll, when there was one. *)
Definition answered (ans : inbox_answer) : list mail :=
  match ans with
  | InboxSays status ms => if status == Some "ok" then ms else []
  | InboxFails _ => []
  end.

Lemma poll_cases reader ans seen :
  match _poll reader ans seen with
  | Done (fresh, seen') =>
      fresh = select (wakes (_own_addresses reader)) (first_seen (answered ans) seen) ∧
      ∀ x, x ∈ seen' ↔ x ∈ seen ∨ nonempty x = true ∧ x ∈ ml_id <$> answered ans
  | Raise _ => answered ans = []
  end.
Proof.
  unfold _poll, answered. destruct ans as [e|status ms]; [done|]. destruct (_ == _); [|done].
  pose proof (fresh_mail_first (_own_addresses reader) ms seen) as Hf.
  pose proof (λ x, fresh_mail_seen (_own_addresses reader) ms seen x) as Hs.
  by destruct (fresh_mail _ ms seen).
Qed.

Lemma mails_once (p : mail → bool) ms (seen seen' : gset string) :
  (∀ x, x ∈ seen' ↔ x ∈ seen ∨ nonempty x = true ∧ x ∈ ml_id <$> ms) →
  NoDup (ml_id <$> select p (first_seen ms seen)) ∧
  (∀ x, x ∈ ml_id <$> select p (first_seen ms seen) → x ∉ seen ∧ x ∈ seen') ∧ seen ⊆ seen'.
Proof.
  intros Hs. split_and!; [apply NoDup_fmap_select, first_seen_nodup| |set_solver].
  intros x (m & -> & [_ Hm]%elem_of_select)%list_elem_of_fmap.
  apply elem_of_first_seen in Hm as (? & ? & ?). split; [done|]. apply Hs. right. split; [done|].
  apply list_elem_of_fmap. eauto.
Qed.

(** Who the turn is for does not change while it reads. *)
Definition same_session (w w' : watcher) : Prop :=
  w_reader w' = w_reader w ∧ w_watched w' = w_watched w ∧ w_gone_seen w' = w_gone_seen w ∧
  w_watched_reader w' = w_watched_reader w.

Lemma take_mail_spec tk w :
  wp (take_mail tk) w (λ l w' r,
    mails l = select (wakes (_own_addresses (w_reader w))) (first_seen (answered (tk_inbox tk)) (w_seen w)) ∧
    wake_lines l = [] ∧ farewells l = [] ∧ ReadInbox (w_listen w) (w_reader w) ∈ l ∧
    (∀ x, x ∈ w_seen w' ↔ x ∈ w_seen w ∨ nonempty x = true ∧ x ∈ ml_id <$> answered (tk_inbox tk)) ∧
    same_session w w' ∧ (∀ fresh, r = inl fresh → fresh = mails l)).
Proof.
  unfold take_mail, read_mail. run. pose proof (poll_cases (w_reader w) (tk_inbox tk) (w_seen w)) as Hp.
  destruct (_poll _ _ _) as [[fresh seen]|e].
  - destruct Hp as [Hf Hs]. run. unfold emit_mail. run. rewrite ?app_nil_r.
    split_and!; [..|by intros ? [= <-]; symmetry; apply mails_emit].
    + rewrite <- Hf. apply mails_emit.
    + apply wake_lines_emit.
    + apply (farewells_emit _emit).
    + by left.
    + exact Hs.
    + done.
  - rewrite Hp. unfold refused. destruct (_auth_error_code e) as [code|]; run; unfold emit_mail; run.
    all: (split_and!; [try done|try done|try done|by left|set_solver|done|try done]).
    by intros ? [= <-].
Qed.

Lemma read_wakes_spec tk w :
  wp (read_wakes tk) w (λ l w' r, once w l w' ∧ mails l = [] ∧ farewells l = [] ∧ same_session w w').
Proof.
  unfold read_wakes. run. destruct (tk_wakes tk) as [e|ws].
  - unfold refused. destruct (_auth_error_code e); run; (split_and!; [by apply once_quiet|done..]).
  - pose proof (fresh_wakes_spec ws (w_seen w)) as (H1 & H2 & H3). destruct (fresh_wakes ws _) as [fresh seen]. run.
    rewrite ?app_nil_r. cbn [fst snd] in *.
    assert (woken (PollWakes (w_listen w) (w_reader w) :: ((λ x, Emit (_emit_wake x)) <$> fresh)) = wk_id <$> fresh) as Hw.
    { unfold woken. change (mails (?x :: ?l)) with (mails l). change (wake_lines (?x :: ?l)) with (wake_lines l).
      rewrite mails_wakes. exact (f_equal (fmap wk_id) (wake_lines_wakes fresh)). }
    split_and!; [|apply mails_wakes|apply (farewells_emit _emit_wake)|done].
    unfold once. rewrite Hw. by split_and!.
Qed.

Lemma check_deadline_spec d tk w :
  wp (check_deadline d tk) w (λ l w' _, quiet l ∧ farewells l = [] ∧ w' = w).
Proof. unfold check_deadline. destruct d; [destruct (_ <=? _)%Z|]; by run. Qed.

(** A farewell inside the loop is the second poll in a row that saw the session gone. *)
Lemma observe_spec tk w :
  wp (observe_session tk) w (λ l w' r, quiet l ∧ w_seen w' = w_seen w ∧ w_watched w' = w_watched w ∧
    w_reader w' = w_reader w ∧
    w_gone_seen w' = (if is_some (w_watched w) && tk_gone tk then S (w_gone_seen w) else 0) ∧
    farewells l = (if (2 <=? w_gone_seen w')%nat then [identity_name (w_reader w)] else []) ∧
    (if (2 <=? w_gone_seen w')%nat then r = inr (Returns 0) else r = inl tt)).
Proof.
  unfold observe_session. run. destruct (is_some (w_watched w) && tk_gone tk) eqn:E; run; [|by split_and!].
  destruct (2 <=? S (w_gone_seen w))%nat eqn:E2; run; cbn [w_gone_seen with_gone]; rewrite E2; by split_and!.
Qed.

Lemma serve_spec a d tk w :
  wp (serve a d tk) w (λ l w' r,
    once w l w' ∧ w_watched w' = w_watched w ∧
    mails l = select (wakes (_own_addresses (w_reader w))) (first_seen (answered (tk_inbox tk)) (w_seen w)) ∧
    ReadInbox (w_listen w) (w_reader w) ∈ l ∧
    (farewells l = [] ∨
     farewells l = [identity_name (w_reader w)] ∧ is_some (w_watched w) = true ∧ tk_gone tk = true ∧
       1 ≤ w_gone_seen w ∧ r = inr (Returns 0)) ∧
    (r = inl tt → w_gone_seen w' = (if is_some (w_watched w) && tk_gone tk then S (w_gone_seen w) else 0)
                  ∧ w_gone_seen w' ≤ 1)).
Proof.
  unfold serve. run. eapply wp_mono; [apply take_mail_spec|].
  intros l1 w1 r1 (Hm & Hw1 & Hf1 & Hin1 & Hs1 & (Hr & Hwd & Hg & _) & _).
  assert (once w l1 w1) as Ho1.
  { destruct (mails_once (wakes (_own_addresses (w_reader w))) _ _ _ Hs1) as (H1 & H2 & H3).
    unfold once, woken. rewrite Hm, Hw1, fmap_nil, app_nil_r. by split_and!. }
  destruct r1 as [fresh|e].
  2: { cbn [app]. split_and!; [by apply (once_app _ [_] w); [apply once_quiet|]|done|done|by right|by left|done]. }
  apply wp_bind. eapply wp_mono; [apply read_wakes_spec|]. intros l2 w2 r2 (Ho2 & Hm2 & Hf2 & (Hr2 & Hwd2 & Hg2 & _)).
  assert (∀ l3 w3 (r3 : unit + ending), quiet l3 → w_seen w3 = w_seen w2 →
    once w (Beat (identity_name (w_reader w)) (tk_project tk) :: l1 ++ l2 ++ l3) w3 ∧
    mails (Beat (identity_name (w_reader w)) (tk_project tk) :: l1 ++ l2 ++ l3) =
      select (wakes (_own_addresses (w_reader w))) (first_seen (answered (tk_inbox tk)) (w_seen w)) ∧
    farewells (Beat (identity_name (w_reader w)) (tk_project tk) :: l1 ++ l2 ++ l3) = farewells l3) as Hall.
  { intros l3 w3 r3 Hq Hs. split_and!.
    - apply (once_app _ [_] w); [by apply once_quiet|]. eapply once_app; [done|]. eapply once_app; [done|].
      by apply once_quiet.
    - change (mails (?x :: ?l)) with (mails l). rewrite !mails_app, Hm, Hm2, (proj1 Hq). by rewrite !app_nil_r.
    - change (farewells (?x :: ?l)) with (farewells l). by rewrite !farewells_app, Hf1, Hf2. }
  assert (∀ k, ReadInbox (w_listen w) (w_reader w) ∈ Beat (identity_name (w_reader w)) (tk_project tk) :: l1 ++ k) as Hin.
  { intros k. right. apply elem_of_app. by left. }
  destruct r2 as [ws|e].
  2: { destruct (Hall [] w2 (inl tt)) as (H1 & H2 & H3); [done..|]. rewrite !app_nil_r in *. cbn [app].
       split_and!; [done|congruence|done|apply Hin|by left|done]. }
  destruct (negb _ && negb _).
  { run. destruct (Hall [] w2 (inl tt)) as (H1 & H2 & H3); [done..|].
    split_and!; [done|congruence|done|apply Hin|by left|done]. }
  apply wp_bind. eapply wp_mono; [apply check_deadline_spec|]. intros l3 w3 r3 (Hq3 & Hf3 & ->).
  destruct r3 as [[]|e].
  2: { destruct (Hall l3 w2 (inl tt)) as (H1 & H2 & H3); [done..|]. cbn [app].
       split_and!; [done|congruence|done|apply Hin|left; congruence|done]. }
  eapply wp_mono; [apply observe_spec|]. intros l4 w4 r4 (Hq4 & Hs4 & Hwd4 & Hr4 & Hg4 & Hf4 & Hret).
  destruct (Hall (l3 ++ l4) w4 (inl tt)) as (H1 & H2 & H3); [auto using quiet_app|done|]. cbn [app].
  split_and!; [done|congruence|done|apply Hin| |].
  - rewrite H3, farewells_app, Hf3, Hf4. cbn [app]. destruct (2 <=? w_gone_seen w4)%nat eqn:E; [|by left]. right.
    apply Nat.leb_le in E. rewrite Hg4 in E. rewrite <- Hwd, <- Hwd2, <- Hg, <- Hg2, <- Hr, <- Hr2.
    destruct (is_some (w_watched w2)); [|cbn in E; lia]. destruct (tk_gone tk); [|cbn in E; lia]. cbn in E.
    split_and!; [done..|lia|done].
  - intros ->. rewrite <- Hwd, <- Hwd2, <- Hg, <- Hg2. destruct (2 <=? w_gone_seen w4)%nat eqn:E; [done|].
    apply Nat.leb_gt in E. split; [done|lia].
Qed.

(** A message that wakes is foreign to the reader it was read for, and asks for attention. *)
Definition told (l : list act) : Prop := ∀ m, m ∈ mails l →
  nonempty (ml_id m) = true ∧ intent_of m ≠ "fyi" ∧
  ∃ listen reader, ReadInbox listen reader ∈ l ∧ is_own (_own_addresses reader) m = false.

Lemma told_app l k : told l → told k → told (l ++ k).
Proof.
  intros H1 H2 m. rewrite mails_app. intros [Hm|Hm]%elem_of_app; [apply H1 in Hm|apply H2 in Hm].
  all: destruct Hm as (? & ? & listen & reader & ? & ?); split_and!; [done..|]; exists listen, reader; set_solver.
Qed.

Lemma told_quiet l : quiet l → told l.
Proof. intros [Hm _] m. rewrite Hm. set_solver. Qed.

Lemma told_mails reader listen ms seen (p : mail → bool) l :
  mails l = select p (select (wakes (_own_addresses reader)) (first_seen ms seen)) → ReadInbox listen reader ∈ l → told l.
Proof.
  intros Hm Hin m. rewrite Hm. intros [_ [Hw Hf]%elem_of_select]%elem_of_select.
  apply elem_of_first_seen in Hf as (_ & Hn & _). unfold wakes in Hw. apply andb_true_iff in Hw as [Ho Hi].
  apply negb_true_iff in Ho. apply negb_true_iff, bool_decide_eq_false in Hi. eauto 10.
Qed.

(** The news of a turn: of the answer to its poll the messages that are new,
    foreign to the reader and no [fyi], of the answer about wakes those that
    are new, unless the poll was refused for its credentials, which ends the
    run first. *)
Definition new_mail (reader : string) (tk : tick) (seen : gset string) : list mail :=
  select (wakes (_own_addresses reader)) (first_seen (answered (tk_inbox tk)) seen).

Definition turned_away (ans : inbox_answer) : bool :=
  match ans with InboxFails e => is_some (_auth_error_code e) | InboxSays _ _ => false end.

Definition new_wakes (tk : tick) (seen : gset string) : list wake :=
  match tk_wakes tk with
  | WakesSay ws => if turned_away (tk_inbox tk) then []
                   else firsts wk_id ws (list_to_set (ml_id <$> answered (tk_inbox tk)) ∪ seen)
  | WakesFail _ => []
  end.

Definition announces (reader : string) (tk : tick) (l : list act) (w : watcher) : Prop :=
  mails l = new_mail reader tk (w_seen w) ∧ wake_lines l = new_wakes tk (w_seen w).

(** What a turn says: nothing, or its news. *)
Definition said (tk : tick) (l : list act) (w w' : watcher) : Prop :=
  quiet l ∨ ∃ listen reader, ReadInbox listen reader ∈ l ∧ announces reader tk l w ∧
    ∀ x, x ∈ ml_id <$> answered (tk_inbox tk) → nonempty x = true → x ∈ w_seen w'.

(** A turn that nothing keeps from polling: the watcher keeps its identity, its
    bridge lives, its pipe is read, and its claim, if it has one, is held. *)
Definition unhindered (a : args) (tk : tick) (w : watcher) : bool :=
  (is_some (a_address a) || (fst (tk_identity tk) == w_reader w)
     || _identity_conflict (fst (tk_identity tk)) (tk_project tk) (a_identity a))
  && negb (a_fifo a && tk_orphaned tk)
  && (negb (a_fifo a) || match tk_pipe tk with Reading | Reattached => true | _ => false end)
  && match w_claim w with
     | None => true
     | Some c => cs_unheld_mode c || match tk_beat tk with BeatSays v => v == Some "holder" | BeatLost => false end
     end.

Lemma prepare_unhindered a tk w :
  unhindered a tk w = true → wp (prepare a tk) w (λ _ w' r, r = inl true ∧ w_reader w' = w_reader w).
Proof.
  unfold unhindered. intros [[[Hid Ho]%andb_true_iff Hp]%andb_true_iff Hc]%andb_true_iff. unfold prepare. apply wp_bind.
  assert (wp (follow_identity a tk) w (λ _ w' r, w' = w ∧ r = inl tt)) as Hf.
  { unfold follow_identity. destruct (a_address a); [by run|]. run. destruct (tk_identity tk) as [who listen].
    cbn [fst is_some orb] in Hid. rewrite Hid. by run. }
  eapply wp_mono; [exact Hf|]. intros l1 w1 r1 (-> & ->). apply wp_bind.
  unfold leave_if_orphaned. rewrite Ho. run. unfold wait_for_reader.
  assert (wp (if a_fifo a then match tk_pipe tk with Reading => ret tt | Reattached => tell [Attach]
      | OrphanedWaiting => stop SystemExit0 | OpenFailed => stop Crash end else ret tt) w (λ _ w' r, w' = w ∧ r = inl tt)) as Hr.
  { destruct (a_fifo a); [destruct (tk_pipe tk); try done|]; by run. }
  eapply wp_mono; [exact Hr|]. intros l2 w2 r2 (-> & ->). unfold beat_claim. run.
  destruct (w_claim w) as [c|]; [|by run]. unfold beat. destruct (cs_unheld_mode c); [by run|]. cbn [orb] in Hc.
  destruct (tk_beat tk) as [|v]; [done|]. rewrite Hc. by run.
Qed.

Lemma take_mail_ends tk w : wp (take_mail tk) w (λ _ _ r, turned_away (tk_inbox tk) = match r with inl _ => false | inr _ => true end).
Proof.
  unfold take_mail, read_mail. run. unfold _poll, turned_away. destruct (tk_inbox tk) as [e|status ms].
  - unfold refused. destruct (_auth_error_code e); run; [done|]. unfold emit_mail. by run.
  - destruct (status == Some "ok"); [destruct (fresh_mail _ _ _)|cbn [_auth_error_code]]; run; unfold emit_mail; by run.
Qed.

Lemma serve_wakes a d tk w : wp (serve a d tk) w (λ l _ _, wake_lines l = new_wakes tk (w_seen w)).
Proof.
  unfold serve. run. eapply wp_mono; [apply wp_and; [apply take_mail_spec|apply take_mail_ends]|].
  intros l1 w1 r1 [(_ & Hw1 & _ & _ & Hs & _) He]. unfold new_wakes. rewrite He.
  change (wake_lines (?x :: ?l)) with (wake_lines l). destruct r1 as [fresh|e]; [|rewrite Hw1; by destruct (tk_wakes tk)].
  apply wp_bind.
  assert (wp (read_wakes tk) w1 (λ l _ _, wake_lines l =
    match tk_wakes tk with WakesSay ws => firsts wk_id ws (list_to_set (ml_id <$> answered (tk_inbox tk)) ∪ w_seen w) | WakesFail _ => [] end)) as Hk.
  { unfold read_wakes. run. destruct (tk_wakes tk) as [e|ws].
    - unfold refused. by destruct (_auth_error_code e); run.
    - pose proof (fresh_wakes_first ws (w_seen w1)) as Hf. destruct (fresh_wakes ws _) as [new seen]. run.
      change (wake_lines (?x :: ?l)) with (wake_lines l). rewrite app_nil_r, wake_lines_wakes. cbn in Hf. rewrite Hf.
      apply firsts_ext. intros x Hx. rewrite Hs, elem_of_union, elem_of_list_to_set. tauto. }
  eapply wp_mono; [exact Hk|]. intros l2 w2 r2 Hl2.
  assert (∀ l3, quiet l3 → wake_lines (Beat (identity_name (w_reader w)) (tk_project tk) :: l1 ++ l2 ++ l3) =
    match tk_wakes tk with WakesSay ws => firsts wk_id ws (list_to_set (ml_id <$> answered (tk_inbox tk)) ∪ w_seen w) | WakesFail _ => [] end) as Hall.
  { intros l3 [_ Hq]. change (wake_lines (?x :: ?l)) with (wake_lines l). rewrite !wake_lines_app, Hw1, Hl2, Hq. by rewrite app_nil_r. }
  destruct r2 as [ws|e]; [|specialize (Hall [] ltac:(done)); by rewrite app_nil_r in Hall].
  destruct (negb _ && negb _); [run; by apply (Hall [])|]. apply wp_bind. eapply wp_mono; [apply check_deadline_spec|].
  intros l3 w3 r3 (Hq3 & _ & _). destruct r3 as [[]|e]; [|by apply Hall].
  eapply wp_mono; [apply observe_spec|]. intros l4 w4 r4 (Hq4 & _). apply Hall. by apply quiet_app.
Qed.

Lemma serve_seen a d tk w :
  wp (serve a d tk) w (λ _ w' _, ∀ x, x ∈ ml_id <$> answered (tk_inbox tk) → nonempty x = true → x ∈ w_seen w').
Proof.
  unfold serve. run. eapply wp_mono; [apply take_mail_spec|]. intros l1 w1 r1 (_ & _ & _ & _ & Hs & _ & _).
  assert (∀ w2, w_seen w1 ⊆ w_seen w2 → ∀ x, x ∈ ml_id <$> answered (tk_inbox tk) → nonempty x = true → x ∈ w_seen w2) as Hsub.
  { intros w2 Hw x Hx Hn. apply Hw, Hs. by right. }
  destruct r1 as [fresh|e]; [|by apply Hsub].
  apply wp_bind. eapply wp_mono; [apply read_wakes_spec|]. intros l2 w2 r2 (Ho2 & _). pose proof (proj2 (proj2 Ho2)) as Hsub2.
  destruct r2 as [ws|e]; [|by apply Hsub]. destruct (negb _ && negb _); [by run; apply Hsub|].
  apply wp_bind. eapply wp_mono; [apply check_deadline_spec|]. intros l3 w3 r3 (_ & _ & ->).
  destruct r3 as [[]|e]; [|by apply Hsub].
  eapply wp_mono; [apply observe_spec|]. intros l4 w4 r4 (_ & Hs4 & _). apply Hsub. by rewrite Hs4.
Qed.

Lemma turn_spec a d tk w :
  wp (turn a d tk) w (λ l w' r, once w l w' ∧ told l ∧ said tk l w w' ∧
    (unhindered a tk w = true → announces (w_reader w) tk l w)).
Proof.
  unfold turn. apply wp_bind.
  assert (wp (prepare a tk) w (λ _ w' r, unhindered a tk w = true → r = inl true ∧ w_reader w' = w_reader w)) as Hun.
  { destruct (unhindered a tk w) eqn:E; [|by unfold wp; destruct (prepare a tk w) as [[? ?] ?]].
    eapply wp_mono; [by apply prepare_unhindered|]. auto. }
  eapply wp_mono; [apply wp_and; [apply prepare_spec|exact Hun]|].
  intros l1 w1 r1 [(Hq & (Hs & _) & _) Hu]. assert (once w l1 w1) by (by apply once_quiet).
  destruct r1 as [[|]|e]; cbn [app];
    [|run; rewrite ?app_nil_r; split_and!; [done|by apply told_quiet|by left|by intros ?; destruct Hu]..].
  eapply wp_mono; [apply wp_and; [apply wp_and; [apply serve_spec|apply serve_seen]|apply serve_wakes]|].
  intros l2 w2 r2 [[(Ho & _ & Hm & Hin & _) Hseen] Hwk].
  assert (∀ reader, reader = w_reader w1 → announces reader tk (l1 ++ l2) w) as Han.
  { intros ? ->. unfold announces, new_mail. by rewrite mails_app, wake_lines_app, (proj1 Hq), (proj2 Hq), Hm, Hwk, Hs. }
  split_and!.
  - by eapply once_app.
  - apply told_app; [by apply told_quiet|]. eapply (told_mails _ _ _ _ (λ _, true)); [|done]. rewrite Hm.
    symmetry. by apply select_all.
  - right. exists (w_listen w1), (w_reader w1). split_and!; [set_solver|by apply Han|done].
  - intros [_ Hr]%Hu. by apply Han.
Qed.

Lemma turns_spec a d tks w :
  wp (turns a d tks) w (λ l w' r, once w l w' ∧ told l).
Proof.
  revert w. induction tks as [|tk tks IH]; intros w; cbn [turns].
  { run. split; [by apply once_quiet|by apply told_quiet]. }
  apply wp_bind. eapply wp_mono; [apply turn_spec|]. intros l1 w1 r1 (Ho & Ht & _).
  destruct r1 as [[]|e]; [|done]. eapply wp_mono; [apply IH|]. intros l2 w2 r2 [Ho2 Ht2].
  split; [by eapply once_app|by apply told_app].
Qed.

Lemma attach_spec a ar w : wp (attach a ar) w (λ l w' _, quiet l ∧ w' = w ∧ farewells l = []).
Proof. unfold attach. destruct (a_fifo a); [destruct (ar_attached ar) as [[|]|]|]; by run. Qed.

Lemma first_claim_spec a ar w :
  wp (first_claim a ar) w (λ l w' _, quiet l ∧ w_seen w' = w_seen w ∧ w_gone_seen w' = w_gone_seen w ∧ farewells l = []).
Proof.
  unfold first_claim. destruct (a_claim a); [|by run]. run.
  eapply wp_mono; [apply claim_watch_spec|]. intros l w' _ (Hq & (Hs & Hg & _) & Hf & _).
  split_and!; [done| | |done]; destruct (a_address a); done.
Qed.

Lemma arm_spec a ar w :
  wp (arm a ar) w (λ l w' _, quiet l ∧ w_seen w' = w_seen w ∧ w_gone_seen w' = w_gone_seen w ∧ farewells l = []).
Proof.
  unfold arm. destruct (ar_identity ar) as [reader listen]. destruct (_identity_conflict _ _ _); [by run|]. run.
  eapply wp_mono; [apply attach_spec|]. intros l1 w1 r1 (Hq1 & -> & Hf1). destruct r1 as [[]|e]; [|done].
  apply wp_bind. eapply wp_mono; [apply first_claim_spec|]. intros l2 w2 r2 (Hq2 & Hs2 & Hg2 & Hf2).
  destruct r2 as [[]|e]; run; rewrite ?app_nil_r; split_and!; auto using quiet_app, farewells_none.
Qed.

Lemma digest_quiet backlog occupant project : quiet (Emit <$> (_emit_backlog_digest backlog occupant project).1).
Proof. unfold _emit_backlog_digest. cbn [fst]. destruct (_ =? 0)%nat, (select (λ m, intent_of m == _AUTHORITY_INTENT) backlog); done. Qed.

Lemma survey_quiet entries project : quiet (Emit <$> _emit_estate_survey entries project).
Proof. unfold _emit_estate_survey. destruct (survey_nodes entries) as [[|] ?]; done. Qed.

(** What arming says: the gap a stolen claim left, nothing else of the backlog. *)
Definition backlog_of (ar : arming) (w : watcher) : list mail :=
  select (wakes (_own_addresses (w_reader w))) (first_seen (answered (ar_backlog ar)) (w_seen w)).

Lemma survey_farewells entries project : farewells (Emit <$> _emit_estate_survey entries project) = [].
Proof. unfold _emit_estate_survey. by destruct (survey_nodes entries) as [[|] ?]. Qed.

(** The acts of a seeding: the gap, the digest's lines, the survey. *)
Lemma seed_acts (listen : list string) (project : string) w w1 cua ms lines acts :
  let reader := w_reader w in
  let gap := select (in_gap cua) (select (wakes (_own_addresses reader)) (first_seen ms (w_seen w))) in
  let l := ReadInbox listen reader :: ((λ m, Emit (_emit m)) <$> gap)
           ++ (Emit <$> lines) ++ ReadRegister project :: acts in
  (∀ x, x ∈ w_seen w1 ↔ x ∈ w_seen w ∨ nonempty x = true ∧ x ∈ ml_id <$> ms) →
  quiet (Emit <$> lines) → quiet acts → farewells acts = [] →
  once w l w1 ∧ told l ∧ farewells l = [] ∧ mails l = gap.
Proof.
  cbv zeta. set (gap := select _ (select _ _)). intros Hs [Hql Hwl] [Hqa Hwa] Hf. set (l := ReadInbox _ _ :: _).
  assert (mails l = gap) as Hm.
  { unfold l. change (mails (?x :: ?l)) with (mails l). rewrite !mails_app, mails_emit, Hql.
    change (mails (?x :: ?l)) with (mails l). by rewrite Hqa, app_nil_r. }
  assert (wake_lines l = []) as Hw.
  { unfold l. change (wake_lines (?x :: ?l)) with (wake_lines l). rewrite !wake_lines_app, wake_lines_emit, Hwl.
    change (wake_lines (?x :: ?l)) with (wake_lines l). by rewrite Hwa. }
  split_and!; [| | |done].
  - unfold once, woken. rewrite Hm, Hw, app_nil_r. destruct (mails_once (wakes (_own_addresses (w_reader w))) _ _ _ Hs) as (H1 & H2 & H3).
    split_and!; [by apply NoDup_fmap_select| |done]. intros x (m & -> & [_ Hg]%elem_of_select)%list_elem_of_fmap.
    apply H2, list_elem_of_fmap. eauto.
  - eapply (told_mails _ _ _ _ (in_gap cua)); [exact Hm|by left].
  - unfold l. change (farewells (?x :: ?l)) with (farewells l). rewrite !farewells_app, (farewells_emit _emit).
    change (farewells (?x :: ?l)) with (farewells l). rewrite Hf, app_nil_r. clear. by induction lines.
Qed.

Lemma seed_spec a ar w :
  wp (seed a ar) w (λ l w' _, once w l w' ∧ told l ∧ farewells l = [] ∧ w_gone_seen w' = w_gone_seen w ∧
    w_watched w' = w_watched w ∧
    mails l = (if a_include_existing a then []
               else select (in_gap (c ← w_claim w; cs_catch_up_after c)) (backlog_of ar w)) ∧
    (a_include_existing a = false → ∀ m, m ∈ backlog_of ar w → ml_id m ∈ w_seen w')).
Proof.
  unfold seed. destruct (a_include_existing a) eqn:Ei.
  { run. split_and!; [by apply once_quiet|by apply told_quiet|done..]. }
  run. unfold backlog_of. pose proof (poll_cases (w_reader w) (ar_backlog ar) (w_seen w)) as Hp.
  destruct (_poll _ _ _) as [[backlog seen]|e].
  2: { rewrite Hp. unfold refused. destruct (_auth_error_code e); run.
       all: split_and!; [by apply once_quiet|by apply told_quiet|done..|set_solver]. }
  destruct Hp as [-> Hs]. run. unfold split_backlog. set (cua := w_claim w ≫= _).
  destruct (_emit_backlog_digest _ _ _) as [lines hits] eqn:Ed.
  apply (f_equal fst) in Ed. cbn [fst] in Ed. pose proof (digest_quiet (select (λ m, negb (in_gap cua m))
    (select (wakes (_own_addresses (w_reader w))) (first_seen (answered (ar_backlog ar)) (w_seen w))))
    (reader_to_address (w_reader w)) (ar_project ar)) as Hq1. rewrite Ed in Hq1.
  assert (∀ m, m ∈ select (wakes (_own_addresses (w_reader w))) (first_seen (answered (ar_backlog ar)) (w_seen w)) →
    ml_id m ∈ seen) as Hids.
  { intros m [_ Hm]%elem_of_select. apply elem_of_first_seen in Hm as (? & ? & _). apply Hs. right. split; [done|].
    apply list_elem_of_fmap. eauto. }
  pose proof (λ acts, seed_acts (w_listen w) (ar_project ar) w (with_seen seen w) cua
    (answered (ar_backlog ar)) lines acts Hs Hq1) as Hacts. cbv zeta in Hacts.
  unfold emit_mail. run. destruct (ar_register ar) as [entries|].
  - destruct (Hacts (Emit <$> _emit_estate_survey entries (ar_project ar))) as (H1 & H2 & H3 & H4);
      [apply survey_quiet|apply survey_farewells|].
    destruct (negb _ && negb _); run; rewrite ?app_nil_r; split_and!; auto.
  - destruct (Hacts []) as (H1 & H2 & H3 & H4); [done..|].
    destruct (negb _ && negb _); run; rewrite ?app_nil_r; split_and!; auto.
Qed.

(** [_run] as its stages. *)
Lemma run_cases a ar tks :
  let '(acts, w, e) := _run a ar tks in
  (∃ e', arm a ar initial = (acts, w, inr e') ∧ e = Some e') ∨
  (∃ l1 w1 l2 w2 l3, arm a ar initial = (l1, w1, inl tt) ∧ acts = l1 ++ l2 ++ l3 ∧
     (watch a ar tks w1 = (l2, w2, inl tt) ∧ e = None ∧ l3 = [] ∧ w = w2 ∨
      ∃ e', watch a ar tks w1 = (l2, w2, inr e') ∧ e = Some e' ∧
        (e' = StillWaiting ∧ l3 = [] ∧ w = w2 ∨
         e' ≠ StillWaiting ∧ l3 = crash_gasp e' ++ (release_held w2).1 ∧ w = (release_held w2).2))).
Proof.
  unfold _run. destruct (arm a ar initial) as [[l1 w1] [[]|e']]; [|by left; eauto].
  destruct (watch a ar tks w1) as [[l2 w2] [[]|e']] eqn:Ew.
  - right. exists l1, w1, l2, w2, []. rewrite app_nil_r. by eauto 10.
  - assert (e' = StillWaiting ∨ e' ≠ StillWaiting) as [->|Hne] by (destruct e'; auto).
    + right. exists l1, w1, l2, w2, []. rewrite app_nil_r. split_and!; [done..|]. right. eauto 10.
    + destruct (release_held w2) as [last w3] eqn:Er.
      destruct e'; try done; right; do 5 eexists; (split_and!; [done..|]); right; eexists; (split_and!; [exact Ew|done|]);
        right; by rewrite Er.
Qed.

Lemma held_release_quiet w : quiet (release_held w).1 ∧ w_seen (release_held w).2 = w_seen w ∧ farewells (release_held w).1 = [].
Proof. unfold release_held. by destruct (held _). Qed.

Lemma crash_quiet e : quiet (crash_gasp e) ∧ farewells (crash_gasp e) = [].
Proof. by destruct e. Qed.

Lemma watch_spec a ar tks w :
  wp (watch a ar tks) w (λ l w' _, once w l w' ∧ told l).
Proof.
  unfold watch. apply wp_bind. eapply wp_mono; [apply seed_spec|]. intros l1 w1 r1 (Ho & Ht & _).
  destruct r1 as [[]|e]; [|done]. eapply wp_mono; [apply turns_spec|]. intros l2 w2 r2 [Ho2 Ht2].
  split; [by eapply once_app|by apply told_app].
Qed.

(** C38. A message wakes once, and does wake. Over a whole run, however long,
    each message and each wake is announced at most once; none is announced
    that lacks an id, that the reader sent itself, or that is [fyi]. A turn
    that nothing keeps from polling announces exactly its news: of the server's
    answer the messages not seen before, not sent by the reader and not [fyi],
    and the wakes not seen before, in the order of the answers. Any other turn
    announces either nothing or its news, and what was announced is seen from
    then on. *)
Theorem wake_once a ar tks :
  let acts := (_run a ar tks).1.1 in
  NoDup (woken acts) ∧ told acts ∧
  ∀ d tk w, let '(l, w', _) := turn a d tk w in
    said tk l w w' ∧ (unhindered a tk w = true → announces (w_reader w) tk l w).
Proof.
  cbv zeta. enough (NoDup (woken (_run a ar tks).1.1) ∧ told (_run a ar tks).1.1) as [H1 H2].
  { split_and!; [done..|]. intros d tk w. pose proof (turn_spec a d tk w) as H. unfold wp in H. destruct (turn a d tk w) as [[l w'] r]. tauto. }
  pose proof (run_cases a ar tks) as Hc. destruct (_run a ar tks) as [[acts w] e]. cbn [fst].
  pose proof (arm_spec a ar initial) as Ha. unfold wp in Ha.
  destruct Hc as [(e' & He & _)|(l1 & w1 & l2 & w2 & l3 & He & -> & Hc)]; rewrite He in Ha; destruct Ha as (Hq & Hs & _ & _).
  { split; [by destruct (once_quiet initial acts w)|by apply told_quiet]. }
  pose proof (watch_spec a ar tks w1) as Hw. unfold wp in Hw.
  assert (quiet l3 ∧ once w1 l2 w2 ∧ told l2) as (Hq3 & Ho & Ht).
  { destruct Hc as [(Er & _ & -> & _)|(e' & Er & _ & Hc)]; rewrite Er in Hw; [done|]. split; [|done].
    destruct Hc as [(_ & -> & _)|(_ & -> & _)]; [done|]. apply quiet_app; [apply crash_quiet|apply held_release_quiet]. }
  split; [|by apply told_app; [apply told_quiet|apply told_app; [done|apply told_quiet]]].
  assert (once initial (l1 ++ l2 ++ l3) w2) as [? _]; [|done].
  eapply once_app; [by apply (once_quiet initial l1 w1)|]. eapply once_app; [exact Ho|by apply once_quiet].
Qed.

(** ** Silence without the claim *)

(** Whether a turn announced anything. *)
Definition speaks (l : list act) : bool := negb (is_empty (woken l)).

Lemma quiet_silent l : quiet l → speaks l = false.
Proof. intros [H1 H2]. unfold speaks, woken. by rewrite H1, H2. Qed.

(** The claim a turn is made under does not change once it may speak. *)
Definition claim_id (w : watcher) : option (string * string * bool) :=
  (λ c, (cs_seat c, cs_nonce c, cs_unheld_mode c)) <$> w_claim w.

Lemma fetched_id ms (c : claim_state) :
  let c' := foldl (λ c m, fetched m c) c ms in
  cs_seat c' = cs_seat c ∧ cs_nonce c' = cs_nonce c ∧ cs_unheld_mode c' = cs_unheld_mode c.
Proof.
  revert c. induction ms as [|m ms IH]; intros c; [done|]. cbv zeta in *. cbn [foldl].
  destruct (IH (fetched m c)) as (-> & -> & ->). unfold fetched. by destruct (truthy _).
Qed.

Lemma serve_claim a d tk w : wp (serve a d tk) w (λ _ w' _, claim_id w' = claim_id w).
Proof.
  assert (wp (take_mail tk) w (λ _ w' _, claim_id w' = claim_id w)) as Hh.
  { unfold take_mail, read_mail. run. destruct (_poll _ _ _) as [[fresh seen]|e].
    - run. unfold emit_mail. run. unfold claim_id. cbn. destruct (w_claim w) as [c|]; [|done]. cbn.
      by destruct (fetched_id fresh c) as (-> & -> & ->).
    - unfold refused. destruct (_auth_error_code e); run; [done|]. unfold emit_mail. run. unfold claim_id. cbn.
      by destruct (w_claim w). }
  assert (∀ w, wp (read_wakes tk) w (λ _ w' _, claim_id w' = claim_id w)) as Hk.
  { clear. intros w. unfold read_wakes. run. destruct (tk_wakes tk) as [e|ws].
    - unfold refused. destruct (_auth_error_code e); by run.
    - destruct (fresh_wakes _ _). by run. }
  unfold serve. run. eapply wp_mono; [exact Hh|]. intros l1 w1 [fresh|e] H1; [|done].
  apply wp_bind. eapply wp_mono; [apply Hk|]. intros l2 w2 [ws|e] H2; [|congruence].
  destruct (negb _ && negb _); [run; congruence|]. apply wp_bind. eapply wp_mono; [apply check_deadline_spec|].
  intros l3 w3 [[]|e] (_ & _ & ->); [|congruence]. unfold observe_session. run.
  destruct (is_some _ && _); run; [destruct (2 <=? _)%nat; run|]; unfold claim_id in *; cbn in *; congruence.
Qed.

Lemma turn_cleared a d tk w :
  wp (turn a d tk) w (λ l w' _, speaks l = true → cleared tk l w').
Proof.
  unfold turn. apply wp_bind. eapply wp_mono; [apply prepare_spec|].
  intros l1 w1 r1 (Hq & _ & Hc & _). destruct r1 as [[|]|e]; [|run; rewrite ?app_nil_r; by rewrite quiet_silent..].
  eapply wp_mono; [apply serve_claim|]. intros l2 w2 r2 Hid _. cbn beta in Hid. specialize (Hc eq_refl). unfold cleared, claim_id in *.
  destruct (w_claim w2) as [c2|]; [|done]. destruct (w_claim w1) as [c1|]; [|done].
  assert (cs_seat c2 = cs_seat c1 ∧ cs_nonce c2 = cs_nonce c1 ∧ cs_unheld_mode c2 = cs_unheld_mode c1) as (-> & -> & ->)
    by (cbn in Hid; split_and!; congruence).
  destruct Hc as [?|(? & ft & Hin)]; [by left|]. right. split; [done|]. exists ft. set_solver.
Qed.

(** The server's word on a beat. *)
Definition verdict_text (v : beat_verdict) : string := match v with Holder => "holder" | Displaced => "displaced" end.

(** The turn keeps the identity it has. *)
Definition stays (a : args) (tk : tick) (w : watcher) : Prop :=
  is_some (a_address a) = true ∨ fst (tk_identity tk) = w_reader w.

Lemma prepare_displaced a tk w cl :
  stays a tk w → w_claim w = Some cl → cs_unheld_mode cl = false →
  tk_beat tk = BeatLost ∨ tk_beat tk = BeatSays (Some "displaced") →
  wp (prepare a tk) w (λ _ w' r, (∃ e, r = inr e) ∨
    r = inl false ∧ tk_beat tk = BeatLost ∧ w_reader w' = w_reader w ∧ w_claim w' = Some (pause true cl)).
Proof.
  intros Hs Hcl Hu Hb. unfold prepare. apply wp_bind.
  assert (wp (follow_identity a tk) w (λ l w' r, l = [] ∧ w' = w ∧ r = inl tt)) as Hf.
  { unfold follow_identity, stays in *. destruct (a_address a); [by run|]. destruct Hs as [|Hs]; [done|]. run.
    destruct (tk_identity tk) as [who listen]. cbn in Hs. rewrite (bool_decide_eq_true_2 _ Hs). by run. }
  eapply wp_mono; [exact Hf|]. intros ? ? ? (-> & -> & ->). apply wp_bind. eapply wp_mono; [apply leave_spec|].
  intros l2 w2 r2 (_ & -> & _). destruct r2 as [[]|e]; [|left; by exists e]. apply wp_bind. eapply wp_mono; [apply wait_spec|].
  intros l3 w3 r3 (_ & -> & _). destruct r3 as [[]|e]; [|left; by exists e].
  unfold beat_claim. run. rewrite Hcl. unfold beat. rewrite Hu. destruct Hb as [->| ->]; [by run; right|].
  rewrite (bool_decide_eq_false_2 (Some "displaced" = Some "holder")) by done. run. left. by eexists.
Qed.

(** What the beats of a watcher are told once [t1] came about: nothing, or the
    server's word at some later table, no statement in between being a claim
    under the watcher's own nonce. *)
Definition beats_after (t1 : table) (cl : claim_state) (tk : tick) : Prop :=
  tk_beat tk = BeatLost ∨ ∃ es t2 beat_at ft,
    watch_trace t1 es t2 ∧ Forall (λ e, claims_with (cs_nonce cl) e = false) es ∧
    tk_beat tk = BeatSays (Some (verdict_text (watch_beat beat_at (Some (cs_seat cl)) (cs_nonce cl) ft t2).1)).

Lemma turns_displaced a d tks w cl :
  w_claim w = Some cl → cs_unheld_mode cl = false →
  Forall (λ tk, (tk_beat tk = BeatLost ∨ tk_beat tk = BeatSays (Some "displaced")) ∧ stays a tk w) tks →
  wp (turns a d tks) w (λ l _ r, quiet l ∧ ∀ tk, tk ∈ tks → tk_beat tk ≠ BeatLost → ∃ e, r = inr e).
Proof.
  revert w cl. induction tks as [|tk tks IH]; intros w cl Hcl Hu Hall; cbn [turns].
  { run. split; [done|]. by intros tk ?%elem_of_nil. }
  apply Forall_cons in Hall as [[Hb Hs] Hall]. apply wp_bind. unfold turn at 1. apply wp_bind.
  eapply wp_mono; [apply wp_and; [apply prepare_spec|by apply prepare_displaced]|].
  intros l1 w1 r1 [(Hq & _) Hr]. destruct Hr as [[e ->]|(-> & Hlost & Hw & Hcl1)].
  { split; [done|]. intros _ _ _. by exists e. }
  run. rewrite app_nil_r. eapply wp_mono; [apply (IH w1 (pause true cl)); [done..|]|].
  - eapply Forall_impl; [exact Hall|]. intros tk' [Hb' Hs']. split; [done|]. unfold stays in *. by rewrite Hw.
  - intros l2 w2 r2 [Hq2 He]. split; [by apply quiet_app|]. intros tk' [->|Hin]%elem_of_cons Hne; [done|by eapply He].
Qed.

(** C6. One voice per seat. Once another watcher has been granted the claim
    this one held, whatever the order in which the clients' statements and
    everything else the server does follow, this watcher announces nothing any
    more, and the first beat that gets an answer ends its run; on a beat that
    is lost the turn says nothing and the loop goes on. Assumed: the watcher
    keeps its identity (following the session to another seat is a new claim),
    and no later statement is a claim under its nonce, which it drew for
    itself. *)
Theorem displaced_silent now c t t1 a d tks w cl :
  watch_wf t → granted now c t t1 →
  w_claim w = Some cl → cs_unheld_mode cl = false → cs_nonce cl ≠ c_nonce c →
  (∀ r, r ∈ t_rows t → held_by (cs_nonce cl) r = true → r_key r = claim_key c) →
  Forall (λ tk, beats_after t1 cl tk ∧ stays a tk w) tks →
  speaks (turns a d tks w).1.1 = false ∧
  ∀ tk, tk ∈ tks → tk_beat tk ≠ BeatLost → ∃ e, (turns a d tks w).2 = inr e.
Proof.
  intros Hwf Hg Hcl Hu Hne Honly Hall.
  assert (Forall (λ tk, (tk_beat tk = BeatLost ∨ tk_beat tk = BeatSays (Some "displaced")) ∧ stays a tk w) tks) as Hall'.
  { eapply Forall_impl; [exact Hall|]. intros tk [Hb Hs]. split; [|done].
    destruct Hb as [Hb|(es & t2 & at_ & ft & Htr & Hes & Hb)]; [by left|right].
    assert (watch_beat at_ (Some (cs_seat cl)) (cs_nonce cl) ft t2 = (Displaced, t2)) as Hd.
    { apply not_held_displaced. exact (trace_no_regain _ t1 es t2 Htr Hes (granted_displaces now c t t1 _ Hwf Hg Hne Honly)). }
    by rewrite Hd in Hb. }
  pose proof (turns_displaced a d tks w cl Hcl Hu Hall') as Hq. unfold wp in Hq.
  destruct (turns a d tks w) as [[l w'] r]. destruct Hq as [Hq He]. split; [by apply quiet_silent|exact He].
Qed.

(** ** Farewells *)

Lemma beat_false tk w : wp (beat_claim tk) w (λ _ _ r, r = inl false → tk_beat tk = BeatLost).
Proof.
  unfold beat_claim. run. destruct (w_claim w) as [c|]; [|by run]. unfold beat.
  destruct (cs_unheld_mode c); [by run|]. destruct (tk_beat tk) as [|v]; [by run|]. destruct (v == _); by run.
Qed.

Lemma prepare_false a tk w : wp (prepare a tk) w (λ _ _ r, r = inl false → tk_beat tk = BeatLost).
Proof.
  unfold prepare. apply wp_bind. eapply wp_mono; [apply follow_identity_spec|]. intros l1 w1 [[]|e] _; [|done].
  apply wp_bind. eapply wp_mono; [apply leave_spec|]. intros l2 w2 [[]|e] _; [|done].
  apply wp_bind. eapply wp_mono; [apply wait_spec|]. intros l3 w3 [[]|e] _; [|done]. apply beat_false.
Qed.

(** Two polls in a row of the loop saw the session gone; no poll was made in between. *)
Definition gone_in_a_row (tks : list tick) : Prop :=
  ∃ front tk1 muted tk2 rest, tks = front ++ tk1 :: muted ++ tk2 :: rest ∧
    tk_gone tk1 = true ∧ tk_gone tk2 = true ∧ Forall (λ tk, tk_beat tk = BeatLost) muted.

(** The next poll of the loop saw it gone. *)
Definition gone_next (tks : list tick) : Prop :=
  ∃ muted tk rest, tks = muted ++ tk :: rest ∧ tk_gone tk = true ∧ Forall (λ tk, tk_beat tk = BeatLost) muted.

Lemma turn_farewell a d tk w :
  wp (turn a d tk) w (λ l w' r,
    w_watched w' = w_watched w ∧
    (farewells l = [] ∨ ∃ who, farewells l = [who] ∧ is_some (w_watched w) = true ∧ r = inr (Returns 0) ∧
       (tk_orphaned tk = true ∧ seen_leaving tk ∨ tk_gone tk = true ∧ 1 ≤ w_gone_seen w)) ∧
    (r = inl tt → tk_beat tk = BeatLost ∧ w_gone_seen w' = w_gone_seen w ∨
       w_gone_seen w' = (if is_some (w_watched w) && tk_gone tk then S (w_gone_seen w) else 0) ∧ w_gone_seen w' ≤ 1)).
Proof.
  unfold turn. apply wp_bind. eapply wp_mono; [apply wp_and; [apply prepare_spec|apply prepare_false]|].
  intros l1 w1 r1 [(_ & (_ & Hg & Hw & _) & _ & Hf) Hb]. destruct r1 as [[|]|e].
  - destruct Hf as [Hf|(who & _ & _ & _ & _ & ?)]; [|done].
    eapply wp_mono; [apply serve_spec|]. intros l2 w2 r2 (_ & Hw2 & _ & _ & Hf2 & Hr). rewrite farewells_app, Hf, Hw2, Hw.
    rewrite <- Hw, <- Hg. split_and!; [done| |by intros ?; right; apply Hr].
    destruct Hf2 as [Hf2|(Hf2 & ? & ? & ? & ?)]; [by left|right]. eexists. split_and!; [exact Hf2|done..|]. by right.
  - destruct Hf as [Hf|(who & _ & _ & _ & _ & ?)]; [|done]. run. rewrite app_nil_r.
    split_and!; [done|by left|]. intros _. left. split; [by apply Hb|done].
  - split_and!; [done| |done]. destruct Hf as [Hf|(who & Hf & ? & ? & ? & He)]; [by left|right].
    exists who. injection He as ->. split_and!; [done..|]. by left.
Qed.

Lemma turns_farewell a d tks w :
  w_gone_seen w ≤ 1 →
  wp (turns a d tks) w (λ l w' r,
    (farewells l = [] ∨ ∃ who, farewells l = [who] ∧ is_some (w_watched w) = true ∧ r = inr (Returns 0) ∧
       ((∃ tk, tk ∈ tks ∧ tk_orphaned tk = true ∧ seen_leaving tk) ∨ gone_in_a_row tks ∨
        w_gone_seen w = 1 ∧ gone_next tks)) ∧
    (r = inl tt → is_some (w_watched w) = true → ∀ front tk1 tk2 rest, tks = front ++ tk1 :: tk2 :: rest →
       tk_gone tk1 = true → tk_gone tk2 = true → tk_beat tk1 ≠ BeatLost → tk_beat tk2 ≠ BeatLost → False) ∧
    (r = inl tt → is_some (w_watched w) = true → w_gone_seen w = 1 → ∀ tk2 rest, tks = tk2 :: rest →
       tk_gone tk2 = true → tk_beat tk2 ≠ BeatLost → False)).
Proof.
  revert w. induction tks as [|tk tks IH]; intros w Hg; cbn [turns].
  { run. split_and!; [by left|by intros _ _ [|? []]|done]. }
  apply wp_bind. eapply wp_mono; [apply turn_farewell|]. intros l1 w1 r1 (Hw1 & Hf1 & Hg1). destruct r1 as [[]|e].
  - destruct Hf1 as [Hf1|(who & _ & _ & ? & _)]; [|done]. specialize (Hg1 eq_refl).
    eapply wp_mono; [apply IH; destruct Hg1 as [[_ ->]|[_ ?]]; done|].
    intros l2 w2 r2 (Hf2 & Hc & Hn). rewrite farewells_app, Hf1. rewrite Hw1 in *. cbn [app]. split_and!.
    + destruct Hf2 as [Hf2|(who & Hf2 & Hs & -> & Hwhy)]; [by left|right]. exists who. split_and!; [done..|].
      destruct Hwhy as [(tk' & ? & ? & ?)|[(front & tk1 & muted & tk2 & rest & -> & ? & ? & ?)|[H1 (muted & tk2 & rest & -> & ? & ?)]]].
      * left. exists tk'. split_and!; [by right|done..].
      * right; left. by exists (tk :: front), tk1, muted, tk2, rest.
      * rewrite Hs in Hg1. cbn [andb] in Hg1. destruct Hg1 as [[? ?]|[Hg1 _]].
        -- right; right. split; [congruence|]. exists (tk :: muted), tk2, rest. split_and!; [done..|by constructor].
        -- right; left. exists [], tk, muted, tk2, rest. split_and!; [done| |done..].
           destruct (tk_gone tk); [done|congruence].
    + intros -> Hs [|x front] tk1 tk2 rest [= -> ->] Ht1 Ht2 Hb1 Hb2; [|by eapply (Hc eq_refl Hs front)].
      destruct Hg1 as [[? _]|[Hg1 Hle]]; [done|]. rewrite Hs, Ht1 in Hg1. cbn in Hg1.
      by eapply (Hn eq_refl Hs); [lia|reflexivity|..].
    + intros -> Hs H1 tk2 rest [= -> ->] Ht2 Hb2. destruct Hg1 as [[? _]|[Hg1 Hle]]; [done|].
      rewrite Hs, Ht2 in Hg1. cbn in Hg1. lia.
  - split_and!; [|done..]. destruct Hf1 as [Hf1|(who & Hf1 & Hs & He & Hwhy)]; [by left|right]. exists who.
    injection He as ->. split_and!; [done..|]. destruct Hwhy as [[? ?]|[? ?]].
    + left. exists tk. split_and!; [by left|done..].
    + right; right. split; [lia|]. by exists [], tk, tks.
Qed.

Lemma arm_watched a ar w : wp (arm a ar) w (λ _ w' r, r = inl tt → w_watched w' = ar_watched ar).
Proof.
  unfold arm. destruct (ar_identity ar) as [reader listen]. destruct (_identity_conflict _ _ _); [by run|]. run.
  eapply wp_mono; [apply attach_spec|]. intros l1 w1 r1 (_ & -> & _). destruct r1 as [[]|e]; [|done].
  apply wp_bind. eapply wp_mono; [apply first_claim_spec|]. intros l2 w2 [[]|e] _; by run.
Qed.

(** A farewell is earned. A run reports its session's exit at most once,
    only if the session's process was identified when it armed, and then ends
    with code 0; it does so only when [ps] showed the process gone at two
    polls in a row: two turns of the loop with no poll between them, or two
    polls of the window it opens when its bridge is gone. A run that goes on
    has no two adjacent turns that both polled and saw it gone. *)
Lemma farewell_earned a ar tks :
  let '(acts, _, e) := _run a ar tks in
  (farewells acts = [] ∨ ∃ who, farewells acts = [who] ∧ is_some (ar_watched ar) = true ∧ e = Some (Returns 0) ∧
     ((∃ tk, tk ∈ tks ∧ tk_orphaned tk = true ∧ seen_leaving tk) ∨ gone_in_a_row tks)) ∧
  (e = None → is_some (ar_watched ar) = true → ∀ front tk1 tk2 rest, tks = front ++ tk1 :: tk2 :: rest →
     tk_gone tk1 = true → tk_gone tk2 = true → tk_beat tk1 ≠ BeatLost → tk_beat tk2 ≠ BeatLost → False).
Proof.
  pose proof (run_cases a ar tks) as Hc. destruct (_run a ar tks) as [[acts w] e].
  pose proof (wp_and _ _ _ _ (arm_spec a ar initial) (arm_watched a ar initial)) as Ha. unfold wp in Ha.
  destruct Hc as [(e' & He & ->)|(l1 & w1 & l2 & w2 & l3 & He & -> & Hc)]; rewrite He in Ha.
  { split; [left; tauto|done]. }
  destruct Ha as [(_ & _ & Hg & Hf1) Hw]. specialize (Hw eq_refl).
  assert (wp (watch a ar tks) w1 (λ l _ r,
    (farewells l = [] ∨ ∃ who, farewells l = [who] ∧ is_some (ar_watched ar) = true ∧ r = inr (Returns 0) ∧
       ((∃ tk, tk ∈ tks ∧ tk_orphaned tk = true ∧ seen_leaving tk) ∨ gone_in_a_row tks)) ∧
    (r = inl tt → is_some (ar_watched ar) = true → ∀ front tk1 tk2 rest, tks = front ++ tk1 :: tk2 :: rest →
       tk_gone tk1 = true → tk_gone tk2 = true → tk_beat tk1 ≠ BeatLost → tk_beat tk2 ≠ BeatLost → False))) as Hrun.
  { unfold watch. apply wp_bind. eapply wp_mono; [apply seed_spec|].
    intros k1 v1 r1 (_ & _ & Hfk & Hgk & Hwk & _). destruct r1 as [[]|er]; [|by split; [left|]].
    eapply wp_mono; [apply turns_farewell; rewrite Hgk, Hg; cbn; lia|]. intros k2 v2 r2 (Hf2 & Hn & _).
    rewrite farewells_app, Hfk, <- Hw, <- Hwk. cbn [app]. split; [|exact Hn].
    destruct Hf2 as [?|(who & ? & ? & ? & [?|[?|[H1 _]]])]; [by left|right; eauto 10..|].
    exfalso. rewrite Hgk, Hg in H1. done. }
  unfold wp in Hrun. destruct Hc as [(Er & -> & -> & _)|(e' & Er & -> & Hc)]; rewrite Er in Hrun.
  - rewrite app_nil_r, farewells_app, Hf1. destruct Hrun as [[?|(who & _ & _ & ? & _)] Hn]; [|done].
    split; [by left|]. intros _. by apply Hn.
  - assert (farewells l3 = []) as Hf3.
    { destruct Hc as [(_ & -> & _)|(_ & -> & _)]; [done|]. apply farewells_none; [apply crash_quiet|apply held_release_quiet]. }
    rewrite !farewells_app, Hf1, Hf3, app_nil_r. cbn [app]. split; [|done].
    destruct Hrun as [[?|(who & ? & ? & He' & ?)] _]; [by left|right]. injection He' as ->. eauto 10.
Qed.

(** ** The claim's life *)

(** No claim is made before a reader of the pipe is there. *)
Definition is_claim (x : act) : bool := match x with ClaimWatch _ _ _ _ => true | _ => false end.

Lemma arm_attaches a ar w :
  a_fifo a = true →
  wp (arm a ar) w (λ l _ r, existsb is_claim l = true ∨ r = inl tt →
    ar_attached ar = Some true ∧ ∃ rest, l = Attach :: rest).
Proof.
  intros Hfifo. unfold arm. destruct (ar_identity ar) as [reader listen].
  destruct (_identity_conflict _ _ _); [run; by intros [?|?]|]. run. unfold attach. rewrite Hfifo.
  destruct (ar_attached ar) as [[|]|]; run; [|by intros [?|?]..].
  eapply wp_mono; [apply first_claim_spec|]. intros l2 w2 [[]|e] _; run; eauto.
Qed.

(** A claim follows a reader and does not outlive the run. A run that
    writes to a pipe asks for no claim before a reader is attached; and a run
    that armed and ended holds no claim: if it held one when it left its loop,
    the release of that claim is the last thing it did. *)
Lemma claim_follows_attach a ar tks :
  let '(acts, w, e) := _run a ar tks in
  (a_fifo a = true → existsb is_claim acts = true → ar_attached ar = Some true ∧ ∃ rest, acts = Attach :: rest) ∧
  (∀ l1 w1 l2 w2 e', arm a ar initial = (l1, w1, inl tt) → watch a ar tks w1 = (l2, w2, inr e') → e' ≠ StillWaiting →
     held (w_claim w) = None ∧
     ∀ c, held (w_claim w2) = Some c → last acts = Some (ReleaseWatch (cs_seat c) (cs_nonce c))).
Proof.
  pose proof (run_cases a ar tks) as Hc. destruct (_run a ar tks) as [[acts w] e]. split.
  - intros Hfifo Hcl. pose proof (arm_attaches a ar initial Hfifo) as Ha. unfold wp in Ha.
    destruct Hc as [(e' & He & _)|(l1 & w1 & l2 & w2 & l3 & He & -> & _)]; rewrite He in Ha.
    + apply Ha. by left.
    + destruct Ha as [Ha (rest & ->)]; [by right|]. split; [done|]. by exists (rest ++ l2 ++ l3).
  - intros l1 w1 l2 w2 e' Ha Hw Hne.
    destruct Hc as [(e1 & He & _)|(k1 & v1 & k2 & v2 & l3 & He & -> & Hc)]; [congruence|].
    rewrite Ha in He. injection He as <- <-. rewrite Hw in Hc.
    destruct Hc as [(? & _)|(e1 & [= <- <- <-] & _ & [(? & _)|(_ & -> & ->)])]; [done..|]. unfold release_held.
    destruct (held (w_claim w2)) as [c|] eqn:Eh; [|done]. split; [done|]. intros ? [= <-].
    cbn [fst]. by rewrite !(assoc_L (++)), last_snoc.
Qed.

(** ** The wake stream *)

(** A consumer lost in the middle of the line got a proper beginning of it. *)
Definition torn (data p : text) : Prop := p `prefix_of` data ∧ p ≠ data.

Lemma write_line_sent data : ∀ script opening view got older cs rest,
  (∃ sent, data = sent ++ view ∧ (opening = true → view ≠ []) ∧
   write_line true opening data view ((got ++ sent) :: older) script = OutSent cs rest) →
  (opening = false ∧ cs = (got ++ data) :: older) ∨
  ∃ partials p0, cs = data :: partials ++ (got ++ p0) :: older ∧ ∀ p, p ∈ p0 :: partials → torn data p.
Proof.
  induction script as [|e script IH]; intros opening view got older cs rest (sent & -> & Hop & H).
  { destruct opening; [done|]. destruct view; [|done]. cbn in H. injection H as <- <-. rewrite app_nil_r. by left. }
  assert (view ≠ [] → torn (sent ++ view) sent) as Htorn.
  { intros Hv. split; [by exists view|]. intros Heq. apply (f_equal length) in Heq. rewrite length_app in Heq.
    destruct view; [done|]. cbn in Heq. lia. }
  cbn [write_line] in H. destruct opening.
  - specialize (Hop eq_refl). destruct e as [n| | |[|]]; try done.
    1,2,4: apply (IH true view got older cs rest); exists sent; done.
    assert (_) as H' by (apply (IH false (sent ++ view) [] ((got ++ sent) :: older) cs rest); exists []; split_and!; [done|done|exact H]).
    right. destruct H' as [[_ ->]|(partials & p0 & -> & Hp)].
    + exists [], sent. split; [done|]. intros p ->%list_elem_of_singleton. by apply Htorn.
    + exists (partials ++ [p0]), sent. rewrite <- (assoc_L (++)). split; [done|].
      intros p [-> |[Hp'| ->%list_elem_of_singleton]%elem_of_app]%elem_of_cons; [by apply Htorn|..]; apply Hp; set_solver.
  - destruct view as [|x view']; [cbn in H; injection H as <- <-; rewrite app_nil_r; by left|].
    set (view := x :: view') in *. destruct e as [n| | |o].
    + cbn [feed] in H. apply (IH false (drop n view) got older cs rest). exists (sent ++ take n view).
      rewrite <- !(assoc_L (++)), take_drop in *. split_and!; [done|done|exact H].
    + right. edestruct (IH true view got older cs rest) as [[? _]|?]; [|done|done]. exists sent. split_and!; [done..|exact H].
    + apply (IH false view got older cs rest). exists sent. split_and!; [done..|exact H].
    + apply (IH false view got older cs rest). exists sent. split_and!; [done..|exact H].
Qed.

(** A line is delivered whole. When the writer of the wake stream goes on,
    however often its reader vanished meanwhile and however the system cut
    its writes, the reader attached then has received the line from its first
    byte to its last, after what it had before; each reader that vanished got
    a proper beginning of the line and nothing else. *)
Lemma line_whole line got older script cs rest :
  let data := line ++ [NL] in
  _out line true (got :: older) script = OutSent cs rest →
  cs = (got ++ data) :: older ∨
  ∃ partials p0, cs = data :: partials ++ (got ++ p0) :: older ∧ ∀ p, p ∈ p0 :: partials → torn data p.
Proof.
  cbv zeta. unfold _out. intros H. destruct (write_line_sent (line ++ [NL]) script false (line ++ [NL]) got older cs rest)
    as [[_ ?]|?]; [|by left|by right]. exists []. rewrite app_nil_r. by split_and!.
Qed.

(** Last words never wait for a reader. *)
Lemma gasp_never_waits line consumers script cs : _out line false consumers script ≠ OutExit cs.
Proof.
  unfold _out. generalize (line ++ [NL]) at 2 as view. revert consumers. induction script as [|e script IH]; intros cons view.
  - cbn. by destruct view.
  - cbn. destruct view; [done|]. destruct e; try done; apply IH.
Qed.

(** ** The backlog *)

Section dict.
Context {K V : Type} `{EqDecision K}.
Implicit Types (d : list (K * V)).

Lemma dict_update_keys k f d :
  fst <$> dict_update k f d = if bool_decide (k ∈ fst <$> d) then fst <$> d else (fst <$> d) ++ [k].
Proof.
  induction d as [|[k' v] d IH]; [done|]. cbn. destruct (decide (k = k')) as [->|Hne].
  - rewrite !bool_decide_eq_true_2; [done|by left|done].
  - rewrite (bool_decide_eq_false_2 (k = k')) by done. cbn. rewrite IH.
    bcase (k ∈ fst <$> d) E; [rewrite bool_decide_eq_true_2; [done|by right]|].
    rewrite bool_decide_eq_false_2; [done|]. by intros [?|?]%elem_of_cons.
Qed.

(** The entries of a dictionary after an update. *)
Lemma elem_of_dict_update k f d x v :
  NoDup (fst <$> d) → (x, v) ∈ dict_update k f d →
  x ≠ k ∧ (x, v) ∈ d ∨ x = k ∧ ((∃ v0, (k, v0) ∈ d ∧ v = f (Some v0)) ∨ k ∉ fst <$> d ∧ v = f None).
Proof.
  induction d as [|[k' v'] d IH]; cbn.
  { intros _ [= -> ->]%list_elem_of_singleton. right. split; [done|right; split; [set_solver|done]]. }
  intros [Hn Hd]%NoDup_cons. destruct (decide (k = k')) as [->|Hne].
  - rewrite bool_decide_eq_true_2 by done. intros [[= -> ->]|Hin]%elem_of_cons.
    + right. split; [done|]. left. exists v'. split; [by left|done].
    + left. split; [|by right]. intros ->. apply Hn, list_elem_of_fmap. by exists (k', v).
  - rewrite bool_decide_eq_false_2 by done. intros [[= -> ->]|Hin]%elem_of_cons.
    + left. split; [congruence|by left].
    + apply IH in Hin as [[? ?]|[-> [(v0 & ? & ->)|[? ->]]]]; [left; split; [done|by right]|right..|done].
      * split; [done|]. left. exists v0. split; [by right|done].
      * split; [done|]. right. split; [|done]. by intros [?|?]%elem_of_cons.
Qed.
End dict.

Definition addressee (m : mail) : string := or_empty (ml_to m).

(** The digest of one address's messages. *)
Definition digest_of (l : list mail) : option address_digest := foldl (λ o m, Some (digest_one m o)) None l.

Lemma digest_of_snoc l m : digest_of (l ++ [m]) = Some (digest_one m (digest_of l)).
Proof. unfold digest_of. by rewrite foldl_snoc. Qed.

Lemma digest_of_nonempty l : l ≠ [] → ∃ a, digest_of l = Some a.
Proof. destruct l as [|m l _] using rev_ind; [done|]. rewrite digest_of_snoc. eauto. Qed.

Lemma digest_addresses_spec l :
  NoDup (fst <$> digest_addresses l) ∧ (∀ to, to ∈ fst <$> digest_addresses l ↔ to ∈ addressee <$> l) ∧
  ∀ to a, (to, a) ∈ digest_addresses l → digest_of (select (λ m, addressee m == to) l) = Some a.
Proof.
  induction l as [|m l IH] using rev_ind; [split_and!; [constructor|done|set_solver]|].
  destruct IH as (H1 & H2 & H3). unfold digest_addresses in *. rewrite foldl_snoc.
  set (d := foldl _ [] l) in *. assert (addressee m ∈ fst <$> d ↔ addressee m ∈ addressee <$> l) as Hm by apply H2.
  rewrite dict_update_keys, fmap_app. change (or_empty (ml_to m)) with (addressee m). split_and!.
  - bcase (addressee m ∈ fst <$> d) E; [done|]. apply NoDup_app. split_and!; [done|set_solver|by apply NoDup_singleton].
  - intros to. bcase (addressee m ∈ fst <$> d) E; set_solver.
  - intros to a Hin. rewrite select_app, select_cons.
    apply elem_of_dict_update in Hin as [[Hne Hin]|[-> Hin]]; [..|done].
    + rewrite bool_decide_eq_false_2 by congruence. rewrite app_nil_r. by apply H3.
    + rewrite bool_decide_eq_true_2 by done. cbn. rewrite digest_of_snoc.
      destruct Hin as [(v0 & Hin & ->)|[Hni ->]]; [by rewrite (H3 _ _ Hin)|].
      assert (select (λ m0, addressee m0 == addressee m) l = []) as ->; [|done].
      apply select_nil. intros x Hx. apply bool_decide_eq_false. intros Heq. apply Hni, H2, list_elem_of_fmap. eauto.
Qed.

Definition bounded (a : address_digest) (c : string) : Prop :=
  ∃ x y, ad_oldest_at a = Some x ∧ ad_newest_at a = Some y ∧ String.le x c ∧ String.le c y.

Definition dated_ends (a : address_digest) : Prop :=
  (∀ x, ad_oldest_at a = Some x → nonempty x = true) ∧ (∀ y, ad_newest_at a = Some y → nonempty y = true).

Lemma oldest_min x c : nonempty x = true → oldest (Some x) c = Some (if String.leb x c then x else c).
Proof. intros Hx. unfold oldest, before_text. rewrite Hx, negb_involutive. by destruct (String.leb x c). Qed.

Lemma newest_max x c : nonempty x = true → newest_text (Some x) c = Some (if String.leb c x then x else c).
Proof. intros Hx. unfold newest_text, before_text. rewrite Hx, negb_involutive. by destruct (String.leb c x). Qed.

(** The smaller of two texts is below both, the greater above. *)
Lemma text_min x c : let m := if String.leb x c then x else c in String.le m x ∧ String.le m c.
Proof.
  cbv zeta. destruct (String.leb x c) eqn:E; [split; [done|]; unfold String.le; by rewrite E|].
  split; [|done]. destruct (total String.le x c) as [H|H]; [|done]. unfold String.le in H. by rewrite E in H.
Qed.

Lemma text_max y c : let m := if String.leb c y then y else c in String.le y m ∧ String.le c m.
Proof.
  cbv zeta. destruct (String.leb c y) eqn:E; [split; [done|]; unfold String.le; by rewrite E|].
  split; [|done]. destruct (total String.le c y) as [H|H]; [|done]. unfold String.le in H. by rewrite E in H.
Qed.

(** One more message: the bounds widen to it and keep what they held. *)
Lemma digest_one_bounds m o :
  let a0 := default (AddressDigest 0 None None []) o in
  let a := digest_one m o in
  dated_ends a0 → (ad_oldest_at a0 = None ↔ ad_newest_at a0 = None) →
  dated_ends a ∧ (ad_oldest_at a = None ↔ ad_newest_at a = None) ∧ ad_unread_count a = S (ad_unread_count a0) ∧
  (∀ c, bounded a0 c → bounded a c) ∧ (truthy (ml_created_at m) = true → bounded a (created_key m)).
Proof.
  cbv zeta. unfold digest_one. set (a0 := default _ o). intros [Ho Hn] Hiff.
  destruct (truthy (ml_created_at m)) eqn:Et; cbn [ad_unread_count]; [|by split_and!].
  change (or_empty (ml_created_at m)) with (created_key m). set (c := created_key m).
  assert (nonempty c = true) as Hc by (unfold c, created_key; by destruct (ml_created_at m)).
  unfold dated_ends, bounded. cbn [ad_oldest_at ad_newest_at].
  destruct (ad_oldest_at a0) as [x|]; [|destruct (ad_newest_at a0) as [y|]; [by destruct Hiff as [Hiff _]; specialize (Hiff eq_refl)|]].
  - destruct (ad_newest_at a0) as [y|]; [|by destruct Hiff as [_ Hiff]; specialize (Hiff eq_refl)].
    rewrite oldest_min, newest_max by auto.
    destruct (text_min x c) as [Hx1 Hx2], (text_max y c) as [Hy1 Hy2].
    split_and!; [intros ? [= <-]; destruct (String.leb x c); auto|intros ? [= <-]; destruct (String.leb c y); auto|done|done|..].
    + intros c' (? & ? & [= <-] & [= <-] & H1 & H2). do 2 eexists. split_and!; [done|done|by transitivity x|by transitivity y].
    + intros _. do 2 eexists. by split_and!.
  - split_and!; [by intros ? [= <-]|by intros ? [= <-]|done|done|by intros c' (? & ? & ? & _)|].
    intros _. exists c, c. split_and!; [done|done|done..].
Qed.

(** An address's entry: how many messages, and the instants they lie between. *)
Lemma digest_of_bounds l a :
  digest_of l = Some a →
  ad_unread_count a = length l ∧
  ∀ m, m ∈ l → truthy (ml_created_at m) = true → bounded a (created_key m).
Proof.
  set (a0 := default (AddressDigest 0 None None [])).
  enough (dated_ends (a0 (digest_of l)) ∧ (ad_oldest_at (a0 (digest_of l)) = None ↔ ad_newest_at (a0 (digest_of l)) = None) ∧
    ad_unread_count (a0 (digest_of l)) = length l ∧
    ∀ m, m ∈ l → truthy (ml_created_at m) = true → bounded (a0 (digest_of l)) (created_key m)) as H.
  { intros Ha. rewrite Ha in H. tauto. }
  induction l as [|m l (H1 & H2 & H3 & H4)] using rev_ind; [by split_and!; [done|..|set_solver]|].
  rewrite digest_of_snoc, length_app. destruct (digest_one_bounds m (digest_of l) H1 H2) as (? & ? & Hn & Hk & Hm).
  split_and!; [done|done|cbn [a0 default]; unfold id; rewrite Hn; unfold a0 in H3; rewrite H3; cbn; lia|].
  intros m' [Hin| ->%list_elem_of_singleton]%elem_of_app Ht; [by apply Hk, H4|by apply Hm].
Qed.

(** Counting by address counts everything once. *)
Lemma count_by_key (f : mail → string) (keys : list string) (l : list mail) :
  NoDup keys → (∀ m, m ∈ l → f m ∈ keys) →
  sum_list ((λ k, length (select (λ m, f m == k) l)) <$> keys) = length l.
Proof.
  intros Hn. induction l as [|m l IH]; intros Hk.
  { clear. by induction keys. }
  cbn [length]. rewrite <- IH by set_solver. assert (f m ∈ keys) as Hm by set_solver. clear IH Hk.
  induction keys as [|k keys IH]; [set_solver|]. apply NoDup_cons in Hn as [Hk Hn]. cbn [fmap list_fmap sum_list].
  rewrite select_cons. destruct (decide (f m = k)) as [<-|Hne].
  - rewrite bool_decide_eq_true_2 by done. cbn [length].
    assert (∀ k', k' ∈ keys → length (select (λ m0, f m0 == k') (m :: l)) = length (select (λ m0, f m0 == k') l)) as Hrest.
    { intros k' Hk'. rewrite select_cons, bool_decide_eq_false_2; [done|]. by intros <-. }
    assert ((λ k', length (select (λ m0, f m0 == k') (m :: l))) <$> keys = (λ k', length (select (λ m0, f m0 == k') l)) <$> keys) as ->; [|unfold id; lia].
    apply list_fmap_ext. intros i k' Hi. apply Hrest. by eapply list_elem_of_lookup_2.
  - rewrite bool_decide_eq_false_2 by done. apply elem_of_cons in Hm as [?|Hm]; [done|]. rewrite (IH Hn Hm). lia.
Qed.

(** What arming leaves for the digest: the backlog outside the gap, at addresses that outlive sessions. *)
Definition waiting (a : args) (ar : arming) (w : watcher) : list mail :=
  if a_include_existing a then []
  else select (λ m, _is_immortal_address (addressee m) (reader_to_address (w_reader w)) (ar_project ar))
         (select (λ m, negb (in_gap (c ← w_claim w; cs_catch_up_after c) m)) (backlog_of ar w)).

Lemma seed_digest a ar w :
  wp (seed a ar) w (λ l _ _, ∀ d k, Emit (DigestLine d k) ∈ l ↔
    waiting a ar w ≠ [] ∧ DigestLine d k = digest_line (waiting a ar w)).
Proof.
  unfold seed, waiting. destruct (a_include_existing a).
  { run. intros d k. split; [set_solver|]. by intros [? _]. }
  run. unfold backlog_of. pose proof (poll_cases (w_reader w) (ar_backlog ar) (w_seen w)) as Hp.
  destruct (_poll _ _ _) as [[backlog seen]|e].
  2: { rewrite Hp. unfold refused. destruct (_auth_error_code e); run; intros d k; (split; [|by intros [? _]]);
       intros Hin; repeat (apply elem_of_cons in Hin as [?|Hin]; [done|]); by apply elem_of_nil in Hin. }
  destruct Hp as [-> _]. run. unfold split_backlog. set (cua := w_claim w ≫= _).
  set (rest := select (λ m, negb (in_gap cua m)) _). unfold _emit_backlog_digest.
  change (λ m : mail, _is_immortal_address (or_empty (ml_to m)) (reader_to_address (w_reader w)) (ar_project ar))
    with (λ m : mail, _is_immortal_address (addressee m) (reader_to_address (w_reader w)) (ar_project ar)).
  set (immortal := select (λ m, _is_immortal_address (addressee m) _ _) rest).
  set (authority := match select (λ m, intent_of m == _AUTHORITY_INTENT) rest with [] => [] | _ => _ end).
  assert (∀ acts (gap : list mail) w1, (∀ d k, Emit (DigestLine d k) ∉ acts) → ∀ d k,
    Emit (DigestLine d k) ∈ ReadInbox (w_listen w) w1 :: ((λ m, Emit (_emit m)) <$> gap) ++
      (Emit <$> ((if length immortal =? 0 then [] else [digest_line immortal])%nat ++ authority)) ++ ReadRegister (ar_project ar) :: acts ↔
    immortal ≠ [] ∧ DigestLine d k = digest_line immortal) as Hall.
  { intros acts gap w1 Ha d k. assert (∀ x, x ∈ authority → x ≠ DigestLine d k) as Haut.
    { unfold authority. intros x. destruct (select (λ m, intent_of m == _AUTHORITY_INTENT) rest); [by intros ?%elem_of_nil|]. by intros ->%list_elem_of_singleton. }
    rewrite elem_of_cons, !elem_of_app, !list_elem_of_fmap, elem_of_cons. setoid_rewrite elem_of_app.
    specialize (Ha d k). split.
    - intros [?|[(m & Hm & _)|[(x & [= <-] & [Hx|Hx])|[?|?]]]]; [done|..|done|done].
      + exfalso. unfold _emit in Hm. by destruct (wake_body _).
      + destruct immortal as [|m0 im]; [by apply elem_of_nil in Hx|]. cbn in Hx.
        apply list_elem_of_singleton in Hx. by split.
      + by apply Haut in Hx.
    - intros [Hne Hd]. right; right; left. exists (DigestLine d k). split; [done|]. left. rewrite Hd.
      destruct immortal; [done|]. by left. }
  unfold emit_mail. run. destruct (ar_register ar) as [entries|]; destruct (negb _ && negb _); run; rewrite ?app_nil_r.
  all: apply Hall; intros d k; try set_solver.
  all: unfold _emit_estate_survey; destruct (survey_nodes entries) as [[|] ?]; cbn; [set_solver|].
  all: by intros ?%list_elem_of_singleton.
Qed.

(** The backlog is accounted for. When it arms, the watcher announces one
    by one exactly the unread messages of a stolen claim's gap, newer than
    what the former holder delivered; every other one that is addressed to a
    name that outlives sessions is counted in one digest line, once, under its
    address, between the oldest and the newest instant shown there; the line
    appears exactly when there is such a message, and no message of the
    backlog wakes later. *)
Lemma backlog_accounted a ar w :
  let '(l, w', _) := seed a ar w in
  let gap := c ← w_claim w; cs_catch_up_after c in
  mails l = (if a_include_existing a then [] else select (in_gap gap) (backlog_of ar w)) ∧
  (if a_include_existing a then True else ∀ m, m ∈ backlog_of ar w → ml_id m ∈ w_seen w') ∧
  (waiting a ar w ≠ [] ↔ ∃ d k, Emit (DigestLine d k) ∈ l) ∧
  ∀ d k, Emit (DigestLine d k) ∈ l →
    NoDup ((λ e, e.1.1.1.1) <$> d) ∧
    sum_list ((λ e, e.1.1.1.2) <$> d) = length (waiting a ar w) ∧
    ∀ to n oldest newest top, (to, n, oldest, newest, top) ∈ d →
      n = length (select (λ m, addressee m == to) (waiting a ar w)) ∧
      ∀ m, m ∈ waiting a ar w → addressee m = to → truthy (ml_created_at m) = true →
        ∃ x y, oldest = Some x ∧ newest = Some y ∧ String.le x (created_key m) ∧ String.le (created_key m) y.
Proof.
  pose proof (wp_and _ _ _ _ (seed_spec a ar w) (seed_digest a ar w)) as H. unfold wp in H.
  destruct (seed a ar w) as [[l w'] r]. destruct H as [(_ & _ & _ & _ & _ & Hm & Hs) Hd]. cbv zeta.
  split_and!; [done|destruct (a_include_existing a); auto|..].
  { split; [|intros (d & k & Hin); by apply Hd in Hin as [? _]]. intros Hne. unfold digest_line in Hd. do 2 eexists. apply Hd. by split. }
  intros d k [_ [= -> _]]%Hd. set (ms := waiting a ar w). destruct (digest_addresses_spec ms) as (Hn & Hk & Ha).
  assert (∀ to a0, (to, a0) ∈ digest_addresses ms → ad_unread_count a0 = length (select (λ m, addressee m == to) ms)) as Hc.
  { intros to a0 Hin. apply Ha in Hin. by apply digest_of_bounds in Hin as [? _]. }
  rewrite <- !list_fmap_compose. split_and!.
  - erewrite list_fmap_ext; [exact Hn|]. by intros ? [? ?] _.
  - rewrite <- (count_by_key addressee (fst <$> digest_addresses ms) ms Hn).
    2: { intros m Hin. apply Hk, list_elem_of_fmap. eauto. }
    f_equal. rewrite <- list_fmap_compose. apply list_fmap_ext. intros i [to a0] Hi. cbn. apply Hc.
    by eapply list_elem_of_lookup_2.
  - intros to n o nw top ([to' a0] & [= -> -> -> -> ->] & Hin)%list_elem_of_fmap. split; [by apply Hc|].
    intros m Hin' <- Ht. apply Ha in Hin. apply digest_of_bounds in Hin as [_ Hb]. apply Hb; [|done].
    apply elem_of_select. by rewrite bool_decide_eq_true_2.
Qed.

(** ** Examples *)

Definition ex_args : args := Args None false true false None true true None.
Definition ex_mail (id from : string) (intent : option string) : mail :=
  Mail id (Some "tide") (Some from) "s" None (Some "2026-08-21T11:53:00") intent (lit "body").
Definition ex_arming : arming :=
  Arming ("tide-claude@hosta", ["tide-claude"; "tide"]) (Some true) ("tide-claude@hosta", ["tide-claude"; "tide"]) "tide" "nonce-1"
    [ClaimSays (Some "granted") None None] (Some (77%Z, "start")) (InboxSays (Some "ok") []) None 0.
Definition ex_tick (who : string) (beat_says : beat_answer) (ms : list mail) (gone : bool) : tick :=
  Tick (who, [before "@" who; "tide"]) "tide" "nonce-2" [ClaimSays (Some "granted") None None] false (0%Z, []) Reading beat_says
    (InboxSays (Some "ok") ms) (WakesSay []) 0 gone.
Definition ex_holder : beat_answer := BeatSays (Some "holder").

(** A message is announced at the first poll that lists it and not again. *)
Example ex_run :
  mails (_run ex_args ex_arming [ex_tick "tide-claude@hosta" ex_holder [ex_mail "inbox/1" "moon@hosta" None] false;
                                 ex_tick "tide-claude@hosta" ex_holder [ex_mail "inbox/1" "moon@hosta" None;
                                   ex_mail "inbox/2" "tide-claude@hosta" None; ex_mail "inbox/3" "moon" (Some "FYI")] false]).1.1
  = [ex_mail "inbox/1" "moon@hosta" None].
Proof. vm_compute. reflexivity. Qed.

(** The watcher after arming and following its session to another seat. *)
Definition ex_moved : watcher :=
  (_run ex_args ex_arming [ex_tick "tide-claude-2@hosta" ex_holder [] false]).1.2.

(** After a re-seat, the farewell of the signal path names the seat the
    session had when the watcher armed, not the one it has. *)
Lemma signal_farewell_stale :
  w_reader ex_moved = "tide-claude-2@hosta" ∧
  farewells <$> on_signal "SIGTERM" true "tide" 0 [(0%Z, true); (5%Z, true)] ex_moved = Some ["tide-claude"].
Proof. split; vm_compute; reflexivity. Qed.

(** A watcher that learns it was orphaned while it waits for a reader leaves
    without looking whether its session is gone: no farewell is filed. *)
Definition ex_orphaned : tick :=
  Tick ("tide-claude@hosta", ["tide-claude"; "tide"]) "tide" "nonce-2" [] false (0%Z, [(0%Z, true); (5%Z, true)])
    OrphanedWaiting ex_holder (InboxSays (Some "ok") []) (WakesSay []) 0 true.

Lemma orphan_unobserved :
  (_run ex_args ex_arming [ex_orphaned]).2 = Some SystemExit0 ∧ farewells (_run ex_args ex_arming [ex_orphaned]).1.1 = [].
Proof. split; vm_compute; reflexivity. Qed.

(** A displaced watcher leaves without a last word on the wake stream. *)
Lemma displaced_unannounced :
  let run := _run ex_args ex_arming [ex_tick "tide-claude@hosta" (BeatSays (Some "displaced")) [] false] in
  run.2 = Some (Returns EXIT_DISPLACED) ∧
  existsb (λ x, match x with Emit (GaspLine _) => true | _ => false end) run.1.1 = false.
Proof. split; vm_compute; reflexivity. Qed.

(** A watcher that held its seat for two hundred seconds without a beat, the
    rival that then took the claim over, and two turns after that: one whose
    beat is lost, one whose beat is answered after another refused claim. *)
Definition ex_claim_state : claim_state := new_claim "tide-claude-2" "n1" None.
Definition ex_holding : watcher :=
  Watcher "tide-claude-2@hosta" ["tide-claude-2"] (Some (granted_to ex_claim_state None)) (Some ("tide-claude-2", "n1")) ∅ 0
    None "tide-claude-2@hosta".
Definition ex_news : list mail := [ex_mail "inbox/1" "moon" None].

Lemma displaced_silent_witness :
  let tks := [ex_tick "tide-claude-2@hosta" BeatLost ex_news false;
              ex_tick "tide-claude-2@hosta" (BeatSays (Some "displaced")) ex_news false] in
  (watch_beat 100 (Some "tide-claude-2") "n1" None ex_held).1 = Holder ∧
  speaks (turns ex_args None [ex_tick "tide-claude-2@hosta" ex_holder ex_news false] ex_holding).1.1 = true ∧
  speaks (turns ex_args None tks ex_holding).1.1 = false ∧
  ∃ e, (turns ex_args None tks ex_holding).2 = inr e.
Proof.
  intros tks. split; [vm_compute; reflexivity|]. split; [vm_compute; reflexivity|].
  assert (watch_wf ex_held) as Hwf by exact ex_held_wf.
  assert (speaks (turns ex_args None tks ex_holding).1.1 = false ∧
    ∀ tk, tk ∈ tks → tk_beat tk ≠ BeatLost → ∃ e, (turns ex_args None tks ex_holding).2 = inr e) as [Hs He].
  { apply (displaced_silent 200 ex_second ex_held ex_stolen ex_args None tks ex_holding (granted_to ex_claim_state None) Hwf).
    - right. vm_compute. reflexivity.
    - reflexivity.
    - reflexivity.
    - discriminate.
    - intros r Hr _. apply list_elem_of_singleton in Hr as ->. reflexivity.
    - apply Forall_cons. split; [split; [left; reflexivity|right; reflexivity]|]. apply Forall_singleton. split; [right|right; reflexivity].
      exists [ERelease (Some "tide-claude-2") "n1"], (watch_release (Some "tide-claude-2") "n1" ex_stolen).2, 300%Z, None.
      split; [econstructor; [apply step_release|constructor]|]. split; [repeat constructor|]. vm_compute. reflexivity. }
  split; [exact Hs|]. apply (He (ex_tick "tide-claude-2@hosta" (BeatSays (Some "displaced")) ex_news false)); [|discriminate].
  apply list_elem_of_further, list_elem_of_here.
Defined.
