(* ===== verification/Search.v ===== *)
(** Ranked search (src/server/services/memory_service.py, [memory_search]):
    the shortlist of the nearest rows, the thresholds, the combined score and
    the instants of use it refreshes; and the trimming of a hit for display
    (src/server/routers/memory.py, [_snippet]).

    What pgvector computes and the similarity of pg_trgm are parameters,
    rationals for the database's floating-point numbers. The index on the
    embeddings is an approximate one (db.py, HNSW): a scan in order of distance
    need not reach every row, so which rows it reaches is a parameter too.
    Rows at the same distance, and hits of the same score, are left in the
    order of the table. *)

From stdpp Require Import base gmap list strings.
From Stdlib Require Import ZArith QArith Qround Lia Ascii.
From S2P Require Import Prelude PyString Json Store Memory.

Open Scope Z_scope.
Open Scope tiding_scope.

Record search_settings := SearchSettings {
  ss_trigram_weight : Q;
  ss_vector_threshold : Q;
  ss_trigram_threshold : Q
}.

Record search_args := SearchArgs {
  q_namespaces : list string;
  q_query : string;
  q_scope : string;
  q_user_id : string;
  q_project : option string;
  q_limit : nat;
  q_include_superseded : bool
}.

Record search_hit := SearchHit {
  h_pk : pkey;
  h_value : string;
  h_tags : string;
  h_tags_search : string;
  h_score : Q;
  h_created_at : Z;
  h_status : option string
}.

(** What pgvector answers: the distance between the query's embedding and a
    row's, absent where the row has none, and whether the scan for the nearest
    so many rows of a table reaches a row. An exact scan reaches them all. *)
Record vectors := Vectors {
  vx_distance :> string → row → option Q;
  vx_reaches : string → nat → table → row → bool
}.

Definition exact_scan (distance : string → row → option Q) : vectors := Vectors distance (λ _ _ _ _, true).

(** Python's [round(x, 4)]: to the nearest, ties to the even neighbour. *)
Definition round4 (x : Q) : Q :=
  let scaled := Qmult x (10000 # 1) in
  let below := Qfloor scaled in
  let rest := Qminus scaled (inject_Z below) in
  let n := match Qcompare rest (1 # 2) with
           | Lt => below
           | Gt => below + 1
           | Eq => if Z.even below then below else below + 1
           end in
  Qdiv (inject_Z n) (10000 # 1).

(** [d.setdefault(ns, []).append(key)] on a dictionary kept as its items. *)
Fixpoint setdefault_append (ns key : string) (d : list (string * list string)) : list (string * list string) :=
  match d with
  | [] => [(ns, [key])]
  | (ns', keys) :: d' =>
      if ns' == ns then (ns', keys ++ [key]) :: d' else (ns', keys) :: setdefault_append ns key d'
  end.

Definition keys_to_update (rows : list row) : list (string * list string) :=
  foldl (λ d r, setdefault_append (r_ns r) (r_key r) d) [] rows.

(** [WHERE namespace = $1 AND key = ANY($2) AND scope = ... ] of the UPDATE. *)
Definition use_match (all_writers : bool) (scope user_id : string) (project : option string)
    (g : string * list string) (r : row) : bool :=
  (r_ns r == g.1) && (r_key r isin g.2) && (r_scope r == scope) && (all_writers || (r_user r == user_id)) &&
  (r_project r == project).

Section search.
Context (distance : vectors) (similarity : string → string → Q) (cfg : search_settings).

(** The WHERE clause of the shortlist. *)
Definition search_match (now : Z) (all_writers : bool) (namespaces : list string) (scope user_id : string)
    (project : option string) (include_superseded : bool) (r : row) : bool :=
  unexpired now r && (r_ns r isin namespaces) && (r_scope r == scope) && (r_scope r != "inbox") &&
  (all_writers || (r_user r == user_id)) && (r_project r == project) && (include_superseded || live r).

(** Ascending distances, the rows without one last. *)
Definition nearer (query : string) (x r : row) : bool :=
  match distance query x, distance query r with
  | Some a, Some b => Qle_bool a b
  | _, None => true
  | None, Some _ => false
  end.

Definition vec_score (query : string) (r : row) : option Q := Qminus 1 <$> distance query r.
Definition trgm_score (query : string) (r : row) : Q := similarity (r_search r) query.

Definition combined_score (query : string) (r : row) : option Q :=
  (λ v, Qplus v (Qmult (ss_trigram_weight cfg) (trgm_score query r))) <$> vec_score query r.

(** [vec_score >= $9 OR trgm_score >= $10] *)
Definition over_threshold (query : string) (r : row) : bool :=
  match vec_score query r with Some v => Qle_bool (ss_vector_threshold cfg) v | None => false end ||
  Qle_bool (ss_trigram_threshold cfg) (trgm_score query r).

(** Descending scores; PostgreSQL puts a NULL first. *)
Definition better (query : string) (x r : row) : bool :=
  match combined_score query x, combined_score query r with
  | Some a, Some b => Qle_bool b a
  | None, _ => true
  | Some _, None => false
  end.

Definition hit_of (query : string) (r : row) : option search_hit :=
  (λ s, SearchHit (r_pk r) (r_value r) (r_tags r) (r_tags_search r) (round4 s) (r_created r) (status_of r))
    <$> combined_score query r.

(** [ORDER BY embedding <=> $1 LIMIT $7 * 3], over the rows the scan reaches. *)
Definition shortlist (now : Z) (a : search_args) (t : table) : list row :=
  let k := _normalize_key_fields "" "" (q_scope a) (q_user_id a) (q_project a) in
  let all_writers := (k_user k == "*") && (k_scope k == "project") in
  let n := (q_limit a * 3)%nat in
  take n (sort_by (nearer (q_query a)) (sql_select
    (λ r, search_match now all_writers (lower <$> q_namespaces a) (k_scope k) (k_user k) (k_project k)
            (q_include_superseded a) r && vx_reaches distance (q_query a) n t r) t)).

(** The rows the statement returns. *)
Definition search_rows (now : Z) (a : search_args) (t : table) : list row :=
  take (q_limit a) (sort_by (better (q_query a)) (select (over_threshold (q_query a)) (shortlist now a t))).

(** [None] is the [TypeError] of [float(None)], before any update. *)
Definition memory_search (now : Z) (a : search_args) (t : table) : option (list search_hit * table) :=
  let k := _normalize_key_fields "" "" (q_scope a) (q_user_id a) (q_project a) in
  let all_writers := (k_user k == "*") && (k_scope k == "project") in
  let rows := search_rows now a t in
  hits ← mapM (hit_of (q_query a)) rows;
  Some (hits, foldl (λ t g, sql_update (use_match all_writers (k_scope k) (k_user k) (k_project k) g)
                              (set_used now) t) t (keys_to_update rows)).
End search.

(** ** A hit cut for display *)

(** [s.splitlines()] of a text whose only line ends are newlines. *)
Fixpoint splitlines (s : string) : list string :=
  match s with
  | EmptyString => []
  | String c s' =>
      if c == "010"%char then "" :: splitlines s'
      else match splitlines s' with
           | l :: ls => String c l :: ls
           | [] => [String c ""]
           end
  end.

(** The trailing line names the call that reads the rest: the key, and the
    writer of a project row. *)
Record snippet := Snippet {
  sn_body : string;
  sn_hidden : nat;
  sn_key : string;
  sn_writer : option string
}.

Definition _snippet (h : search_hit) (max_lines : nat) : option snippet :=
  let lines := splitlines (h_value h) in
  if (length lines <=? max_lines)%nat then None
  else Some (Snippet (join (String "010"%char "") (take max_lines lines)) (length lines - max_lines) (k_key (h_pk h))
               (if (k_scope (h_pk h) == "project") && nonempty (k_user (h_pk h)) then Some (k_user (h_pk h)) else None)).
