(* ===== verification/SearchProps.v ===== *)
(** What a ranked search promises: every hit is one the caller may see and
    scores above a threshold, the best come first, a row left out was beaten,
    and nothing but instants of use changes. *)

From stdpp Require Import base gmap list strings.
From Stdlib Require Import ZArith QArith Qround Lia Sorted Ascii.
From S2P Require Import Prelude PyString Json Store Memory Search.

Open Scope Z_scope.
Open Scope tiding_scope.

(** ** The first of a sorted list *)

Lemma take_strong {A} (R : A → A → Prop) n l : StronglySorted R l → StronglySorted R (take n l).
Proof.
  intros H. revert n. induction H as [|x l Hs IH Hall]; intros [|n]; cbn; try constructor; [done|].
  by apply Forall_take.
Qed.

Lemma in_take {A} n (l : list A) x : x ∈ take n l → x ∈ l.
Proof. intros (i & H & _)%elem_of_take. by eapply list_elem_of_lookup_2. Qed.

Lemma beaten {A} (leb : A → A → bool) n l x :
  (∀ x y, leb x y = true ∨ leb y x = true) → (∀ x y z, leb x y = true → leb y z = true → leb x z = true) →
  x ∈ l → x ∉ take n (sort_by leb l) →
  length (take n (sort_by leb l)) = n ∧ ∀ y, y ∈ take n (sort_by leb l) → leb y x = true.
Proof.
  intros Ht Htr Hx Hn. pose proof (sort_by_sorted leb Ht Htr l) as Hs.
  rewrite <- (elem_of_sort_by leb x l) in Hx. revert Hx Hn. generalize (sort_by leb l) as k, Hs. clear l Hs.
  intros k Hs. revert n. induction Hs as [|y k Hs IH Hall]; intros n Hx Hn; [by apply elem_of_nil in Hx|].
  destruct n as [|n]; [split; [done|intros ? []%elem_of_nil]|]. cbn [take] in *.
  apply not_elem_of_cons in Hn as [Hne Hn]. apply elem_of_cons in Hx as [->|Hx]; [done|].
  destruct (IH n Hx Hn) as [Hl Hb]. split; [by rewrite <- Hl at 2|].
  intros z [->|Hz]%elem_of_cons; [|by apply Hb]. rewrite Forall_forall in Hall. by apply Hall.
Qed.

Lemma Qle_bool_total a b : Qle_bool a b = true ∨ Qle_bool b a = true.
Proof. destruct (Q_dec a b) as [[H|H]|H]; [left|right|left]; apply Qle_bool_iff; [by apply Qlt_le_weak..|by rewrite H; apply Qle_refl]. Qed.

Lemma Qle_bool_trans a b c : Qle_bool a b = true → Qle_bool b c = true → Qle_bool a c = true.
Proof. rewrite !Qle_bool_iff. apply Qle_trans. Qed.

Section search.
Context (distance : vectors) (similarity : string → string → Q) (cfg : search_settings).

Lemma nearer_total q x y : nearer distance q x y = true ∨ nearer distance q y x = true.
Proof. unfold nearer. destruct (distance q x), (distance q y); auto using Qle_bool_total. Qed.

Lemma nearer_trans q x y z : nearer distance q x y = true → nearer distance q y z = true → nearer distance q x z = true.
Proof. unfold nearer. destruct (distance q x), (distance q y), (distance q z); try done. apply Qle_bool_trans. Qed.

Lemma better_total q x y : better distance similarity cfg q x y = true ∨ better distance similarity cfg q y x = true.
Proof.
  unfold better. destruct (combined_score distance similarity cfg q x), (combined_score distance similarity cfg q y); auto using Qle_bool_total.
Qed.

Lemma better_trans q x y z : better distance similarity cfg q x y = true → better distance similarity cfg q y z = true →
  better distance similarity cfg q x z = true.
Proof.
  unfold better. destruct (combined_score distance similarity cfg q x), (combined_score distance similarity cfg q y), (combined_score distance similarity cfg q z); try done.
  intros H1 H2. exact (Qle_bool_trans _ _ _ H2 H1).
Qed.

(** ** The instants of use *)

(** The rows a search marks as used: those of a hit's namespace and key in the
    partition searched. *)
Definition touched (a : search_args) (hits : list row) (r : row) : bool :=
  let k := _normalize_key_fields "" "" (q_scope a) (q_user_id a) (q_project a) in
  existsb (λ h, (r_ns r == r_ns h) && (r_key r == r_key h)) hits && (r_scope r == k_scope k) &&
  (((k_user k == "*") && (k_scope k == "project")) || (r_user r == k_user k)) && (r_project r == k_project k).

Definition in_group (r : row) (g : string * list string) : bool := (r_ns r == g.1) && (r_key r isin g.2).

Lemma in_group_pair r ns keys : in_group r (ns, keys) = (r_ns r == ns) && (r_key r isin keys).
Proof. done. Qed.

Lemma isin_snoc (x y : string) l : (x isin l ++ [y]) = (x isin l) || (x == y).
Proof. rewrite <- bool_decide_or. apply bool_decide_ext. set_solver. Qed.

Lemma setdefault_in r ns key d :
  existsb (in_group r) (setdefault_append ns key d) = ((r_ns r == ns) && (r_key r == key)) || existsb (in_group r) d.
Proof.
  induction d as [|[ns' keys] d IH]; cbn [setdefault_append existsb].
  - rewrite in_group_pair. f_equal. f_equal. apply bool_decide_ext. set_solver.
  - destruct (decide (ns' = ns)) as [->|Hne].
    + rewrite bool_decide_eq_true_2 by done. cbn [existsb]. rewrite !in_group_pair, isin_snoc.
      by destruct (bool_decide (r_ns r = ns)), (bool_decide (r_key r ∈ keys)), (bool_decide (r_key r = key)).
    + rewrite bool_decide_eq_false_2 by done. cbn [existsb]. rewrite IH, !orb_assoc. f_equal. apply orb_comm.
Qed.

Lemma keys_to_update_in r rows :
  existsb (in_group r) (keys_to_update rows) = existsb (λ h, (r_ns r == r_ns h) && (r_key r == r_key h)) rows.
Proof.
  unfold keys_to_update. assert (∀ d, existsb (in_group r) (foldl (λ d r, setdefault_append (r_ns r) (r_key r) d) d rows) =
    existsb (λ h, (r_ns r == r_ns h) && (r_key r == r_key h)) rows || existsb (in_group r) d) as H.
  { induction rows as [|h rows IH]; intros d; [done|]. cbn [foldl existsb]. rewrite IH, setdefault_in.
    rewrite !orb_assoc. f_equal. apply orb_comm. }
  by rewrite H, orb_false_r.
Qed.

(** Updates that commute with their own conditions are one update. *)
Lemma updates_once {B} (p : B → row → bool) (f : row → row) gs t :
  (∀ g r, p g (f r) = p g r) → (∀ r, f (f r) = f r) →
  foldl (λ t g, sql_update (p g) f t) t gs = sql_update (λ r, existsb (λ g, p g r) gs) f t.
Proof.
  intros Hp Hf. revert t. induction gs as [|g gs IH]; intros [rows seq].
  - unfold sql_update, update_where. cbn. f_equal. symmetry. by apply map_id.
  - cbn [foldl]. rewrite IH. unfold sql_update, update_where. cbn. f_equal. rewrite map_map. apply map_ext. intros r.
    cbn. destruct (p g r) eqn:E; cbn; [|done]. rewrite Hf.
    by destruct (existsb _ gs).
Qed.

Lemma marked_rows a rows now t :
  let k := _normalize_key_fields "" "" (q_scope a) (q_user_id a) (q_project a) in
  foldl (λ t g, sql_update (use_match ((k_user k == "*") && (k_scope k == "project")) (k_scope k) (k_user k) (k_project k) g)
    (set_used now) t) t (keys_to_update rows) = sql_update (touched a rows) (set_used now) t.
Proof.
  cbv zeta. rewrite updates_once by done. unfold sql_update, update_where. f_equal. apply map_ext. intros r.
  unfold touched. rewrite <- keys_to_update_in. set (g := keys_to_update rows). clearbody g.
  enough (∀ b1 b2 b3, existsb (λ g, in_group r g && b1 && b2 && b3) g = existsb (in_group r) g && b1 && b2 && b3) as H by (by rewrite <- H).
  intros b1 b2 b3. induction g as [|x g IH]; [done|]. cbn. rewrite IH.
  by destruct (in_group r x), (existsb (in_group r) g), b1, b2, b3.
Qed.

(** ** The search *)

(** The rows of the partition searched, live unless asked otherwise. *)
Definition eligible (now : Z) (a : search_args) (r : row) : bool :=
  let k := _normalize_key_fields "" "" (q_scope a) (q_user_id a) (q_project a) in
  search_match now ((k_user k == "*") && (k_scope k == "project")) (lower <$> q_namespaces a) (k_scope k) (k_user k)
    (k_project k) (q_include_superseded a) r.

Lemma in_shortlist now a t r : r ∈ shortlist distance now a t → r ∈ t_rows t ∧ eligible now a r = true.
Proof.
  intros Hr%in_take. rewrite elem_of_sort_by in Hr. apply elem_of_select in Hr as [[Hm _]%andb_true_iff Hr]. by split.
Qed.

Lemma mapM_hits q rows : match mapM (hit_of distance similarity cfg q) rows with
  | Some hits => Some <$> hits = hit_of distance similarity cfg q <$> rows
  | None => ∃ r, r ∈ rows ∧ distance q r = None
  end.
Proof.
  destruct (mapM _ rows) as [hits|] eqn:E.
  - apply mapM_Some_1 in E. induction E as [|r h rows hits Hh _ IH]; [done|]. rewrite !fmap_cons, IH. by f_equal.
  - apply mapM_None_1 in E. apply Exists_exists in E as (r & Hr & Hn). exists r. split; [done|].
    unfold hit_of, combined_score, vec_score in Hn. by destruct (distance q r).
Qed.

Lemma rows_in_reach now a t r : r ∈ search_rows distance similarity cfg now a t →
  r ∈ t_rows t ∧ eligible now a r = true ∧ over_threshold distance similarity cfg (q_query a) r = true.
Proof.
  intros Hr%in_take. rewrite elem_of_sort_by in Hr. apply elem_of_select in Hr as [Ho Hs]. apply in_shortlist in Hs. tauto.
Qed.

Lemma search_outcome now a t : let rows := search_rows distance similarity cfg now a t in
  match memory_search distance similarity cfg now a t with
  | Some (hits, t') =>
      Some <$> hits = hit_of distance similarity cfg (q_query a) <$> rows ∧
      t' = sql_update (touched a rows) (set_used now) t
  | None => ∃ r, r ∈ rows ∧ distance (q_query a) r = None
  end.
Proof.
  cbv zeta. set (rows := search_rows _ _ _ now a t). unfold memory_search.
  pose proof (mapM_hits (q_query a) rows) as Hm. fold rows.
  destruct (mapM _ rows) as [hits|]; [|done]. cbn [mbind option_bind]. split; [done|]. apply marked_rows.
Qed.

(** C30. A search returns what it should. Every hit is an unexpired row of the
    namespaces, scope and project searched, by the writer named (by any
    writer, in project scope, for "*"), never mail, never superseded or
    awaiting deletion unless history was asked for, and above a threshold;
    hits come best first, at most [limit]; an eligible row above a threshold
    that is missing was not reached by the scan for the nearest rows (an
    approximate index may leave rows out, an exact scan reaches all), or is no
    nearer than three times [limit] others, or scores no better than each of
    [limit] hits. The rows are served as they are and only
    the instant of use of the hits' keys changes; no answer at all is given
    exactly when a hit has no embedding. *)
Theorem search_exact now a t :
  let q := q_query a in let rows := search_rows distance similarity cfg now a t in
  (length rows <= q_limit a)%nat ∧
  (∀ r, r ∈ rows → r ∈ t_rows t ∧ eligible now a r = true ∧ over_threshold distance similarity cfg q r = true) ∧
  StronglySorted (λ x r, better distance similarity cfg q x r = true) rows ∧
  (∀ r, r ∈ t_rows t → eligible now a r = true → over_threshold distance similarity cfg q r = true → r ∉ rows →
     vx_reaches distance q (q_limit a * 3) t r = false ∨
     (length (shortlist distance now a t) = q_limit a * 3 ∧ ∀ x, x ∈ shortlist distance now a t → nearer distance q x r = true)%nat ∨
     (length rows = q_limit a ∧ ∀ x, x ∈ rows → better distance similarity cfg q x r = true)) ∧
  match memory_search distance similarity cfg now a t with
  | Some (hits, t') =>
      Some <$> hits = hit_of distance similarity cfg q <$> rows ∧
      t' = sql_update (touched a rows) (set_used now) t
  | None => ∃ r, r ∈ rows ∧ distance q r = None
  end.
Proof.
  pose proof (search_outcome now a t) as Ho. cbv zeta in *. set (rows := search_rows _ _ _ now a t) in *. split_and!; [..|exact Ho].
  - unfold rows, search_rows. rewrite length_take. lia.
  - intros r. apply rows_in_reach.
  - apply take_strong, sort_by_sorted; intros *; [apply better_total|apply better_trans].
  - intros r Hr He Hover Hn. destruct (decide (r ∈ shortlist distance now a t)) as [Hs|Hs].
    + right; right. apply beaten; [apply better_total|apply better_trans|by apply elem_of_select|done].
    + destruct (vx_reaches distance (q_query a) (q_limit a * 3) t r) eqn:Ev; [right; left|by left].
      apply beaten; [apply nearer_total|apply nearer_trans|apply elem_of_select; split; [by apply andb_true_iff|done]|done].
Qed.
End search.

(** ** On concrete tables *)

Definition ex_search_cfg : search_settings := SearchSettings (15 # 100) (35 # 100) (1 # 10).

Definition ex_row (key value : string) (id : Z) : row :=
  Row id (PKey "notes" key "project" "ana" (Some "tide")) value "" "" value 10 10 None None (Some "ana") None.

Definition ex_table : table := Table [ex_row "a" "near" 1; ex_row "b" "far" 2; ex_row "c" "middle" 3] 4.

Definition ex_distance : vectors := exact_scan (λ _ r,
  Some (if r_key r == "a" then (1 # 10)%Q else if r_key r == "c" then (3 # 10)%Q else (9 # 10)%Q)).

Definition ex_args : search_args := SearchArgs ["Notes"] "near" "project" "*" (Some "Tide") 5 false.

(** The two rows near enough, the nearer first. *)
Lemma search_exact_witness :
  (λ r, r_key r) <$> search_rows ex_distance (λ _ _, 0%Q) ex_search_cfg 20 ex_args ex_table = ["a"; "c"] ∧
  match memory_search ex_distance (λ _ _, 0%Q) ex_search_cfg 20 ex_args ex_table with
  | Some (hits, _) => length hits = 2%nat
  | None => False
  end ∧
  StronglySorted (λ x r, better ex_distance (λ _ _, 0%Q) ex_search_cfg "near" x r = true)
    (search_rows ex_distance (λ _ _, 0%Q) ex_search_cfg 20 ex_args ex_table).
Proof.
  split_and!; [vm_compute; reflexivity..|].
  exact (proj1 (proj2 (proj2 (search_exact ex_distance (λ _ _, 0%Q) ex_search_cfg 20 ex_args ex_table)))).
Defined.

(** Seat rows are stored without an embedding. A search of their scope whose
    text is similar has a null score, which the handler cannot convert: the
    request fails instead of answering. *)
Lemma search_of_seats_fails :
  let seat := Row 1 (PKey "fleet" "seat/tide-claude-1" "seat" "global" (Some "tide")) "tide-claude-1" "" ""
                "tide-claude-1" 10 10 None None None None in
  memory_search (exact_scan (λ _ _, None)) (λ _ _, 1%Q) ex_search_cfg 20
    (SearchArgs ["fleet"] "tide-claude-1" "seat" "global" (Some "tide") 5 false) (Table [seat] 2) = None.
Proof. vm_compute. reflexivity. Qed.

(** A cut hit shows the lines it starts with, and says how many it hides. *)
Lemma snippet_lines h n s :
  _snippet h n = Some s →
  sn_body s = join (String "010"%char "") (take n (splitlines (h_value h))) ∧
  (n + sn_hidden s)%nat = length (splitlines (h_value h)) ∧ (0 < sn_hidden s)%nat.
Proof. unfold _snippet. case_match eqn:E; [done|]. apply Nat.leb_gt in E. intros [= <-]. cbn. split_and!; [done|lia|lia]. Qed.
