(* ===== verification/Frame.v ===== *)
(** Frames: what a statement on the memories table leaves alone. A frame is a
    set of keys; the rows under it, up to their instants of use, are compared
    before and after. Every statement leaves alone each frame its condition
    does not meet. *)

From stdpp Require Import base gmap list strings.
From Stdlib Require Import ZArith Lia.
From S2P Require Import Prelude PyString Json Store.

Open Scope Z_scope.
Open Scope tiding_scope.

(** ** Conditions in sequence *)

Lemma select_comm {A} (p q : A → bool) l : select p (select q l) = select q (select p l).
Proof.
  induction l as [|x l IH]; [done|]. rewrite !select_cons.
  destruct (p x) eqn:Ep, (q x) eqn:Eq; rewrite ?select_cons, ?Ep, ?Eq, IH; done.
Qed.

Lemma select_and {A} (p q : A → bool) l : (∀ x, x ∈ l → q x = false → p x = false) → select p (select q l) = select p l.
Proof.
  induction l as [|x l IH]; intros H; [done|]. rewrite !select_cons. destruct (q x) eqn:Eq.
  - rewrite select_cons, IH; [done|]. intros y Hy. apply H. by right.
  - rewrite (H x) by (done || by left). apply IH. intros y Hy. apply H. by right.
Qed.

(** ** Frames *)

(** The rows under the keys [f], in order, without their instants of use. *)
Definition rows_at (f : pkey → bool) (t : table) : list row :=
  set_used 0 <$> select (λ r, f (r_pk r)) (t_rows t).

(** Nothing under [f] differs but instants of use. *)
Definition untouched (f : pkey → bool) (t t' : table) : Prop := rows_at f t' = rows_at f t.

#[global] Instance untouched_preorder f : PreOrder (untouched f).
Proof. split; [done|]. intros t1 t2 t3 H1 H2. unfold untouched in *. congruence. Qed.

#[global] Instance set_used_keeps n : KeepsKeys (set_used n).
Proof. by split. Qed.

Lemma untouched_update f p g t `{!KeepsKeys g} :
  (∀ r, r ∈ t_rows t → p r = true → f (r_pk r) = true → set_used 0 (g r) = set_used 0 r) →
  untouched f t (sql_update p g t).
Proof.
  intros Hp. unfold untouched, rows_at, sql_update, update_where. cbn [t_rows].
  induction (t_rows t) as [|r l IH]; [done|]. cbn [map]. rewrite !select_cons.
  assert (f (r_pk (if p r then g r else r)) = f (r_pk r)) as -> by (destruct (p r); [by rewrite keeps_pk|done]).
  destruct (f (r_pk r)) eqn:Ef; [|apply IH; intros; apply Hp; [by right|done..]].
  rewrite !fmap_cons, IH by (intros; apply Hp; [by right|done..]). f_equal.
  destruct (p r) eqn:E; [|done]. apply Hp; [by left|done..].
Qed.

(** An update outside the frame. *)
Lemma untouched_outside f p g t `{!KeepsKeys g} :
  (∀ r, p r = true → f (r_pk r) = false) → untouched f t (sql_update p g t).
Proof. intros Hp. apply untouched_update; [done|]. intros r _ H1 H2. rewrite Hp in H2 by done. done. Qed.

(** An update of the instants of use. *)
Lemma untouched_used f p now t : untouched f t (sql_update p (set_used now) t).
Proof. by apply untouched_update; [apply _|]. Qed.

Lemma untouched_delete f p t : (∀ r, p r = true → f (r_pk r) = false) → untouched f t (sql_delete p t).
Proof.
  intros Hp. unfold untouched, rows_at. f_equal. unfold sql_delete. cbn [t_rows].
  induction (t_rows t) as [|r l IH]; [done|]. rewrite !select_cons. destruct (p r) eqn:E; cbn [negb].
  - by rewrite (Hp r E).
  - rewrite select_cons, IH. done.
Qed.

Lemma untouched_append f now n t : f (n_pk n) = false → untouched f t (sql_append now n t).
Proof.
  intros Hf. unfold untouched, rows_at. f_equal. unfold sql_append. cbn [t_rows].
  rewrite select_app, select_cons. cbn. rewrite Hf. by rewrite app_nil_r.
Qed.

Lemma untouched_insert f now n t : f (n_pk n) = false → untouched f t (sql_insert_nothing now n t).2.
Proof.
  intros Hf. unfold sql_insert_nothing. destruct (sql_find _ t); [done|]. cbn. by apply untouched_append.
Qed.

Lemma untouched_upsert f now n g t `{!KeepsKeys g} : f (n_pk n) = false → untouched f t (sql_upsert now n g t).2.
Proof.
  intros Hf. unfold sql_upsert. destruct (sql_find _ t); cbn; [|by apply untouched_append].
  apply untouched_outside; [done|]. intros x Hx%has_pk_true. by rewrite Hx.
Qed.

(** What no statement short of a deletion may change: which row it is, what it
    says, who wrote it and when. *)
Definition author (r : row) : Z * string * option string * Z := (r_id r, r_value r, r_owner r, r_created r).

(** A frame no key of which lies in the partition (ns, scope). *)
Definition away (ns scope : string) (f : pkey → bool) : Prop :=
  ∀ k, k_ns k = ns → k_scope k = scope → f k = false.

Lemma away_key ns scope f r : away ns scope f → r_ns r = ns → r_scope r = scope → f (r_pk r) = false.
Proof. intros Hf. apply Hf. Qed.

#[export] Hint Resolve untouched_used untouched_insert untouched_upsert : tiding.
