(* ===== verification/Requests.v ===== *)
(** What every route of the server shares: the request bodies of the memory
    verbs with the checks their models make (src/server/models.py), the
    answers that are refusals, the audit trail
    (src/server/services/audit_service.py), and the two reads that find the
    namespaces a caller may look into (src/server/services/admin_service.py,
    src/server/routers/memory.py).

    A body is what reaches a model once its fields have the declared types: a
    field the client left out is [None]. A length is that of the text's bytes.
    A route is a function of the memories table and the audit trail, kept
    also when it refuses. The trail is that of the inserts tried: an insert is
    best effort, and [audit_log] is what is stored when some of them fail. *)

From stdpp Require Import base gmap list strings.
From Stdlib Require Import ZArith Lia Ascii.
From S2P Require Import Prelude PyString Json Store Identity ProjectAlias Principals Auth Memory.

Open Scope Z_scope.
Open Scope tiding_scope.

(** ** Limits *)

Definition MAX_VALUE : Z := 256000.
Definition MAX_KEY : Z := 512.
Definition MAX_TAGS : Z := 4000.
Definition MAX_ADDR : Z := 256.
Definition MAX_LIST : Z := 64.
Definition MAX_SEARCH_LIMIT : Z := 200.
Definition MAX_INBOX_LIMIT : Z := 500.
Definition MAX_KEYS_LIMIT : Z := 2000.
Definition MAX_EXPIRY_DAYS : Z := 36500.

(** [Field(max_length=n)] *)
Definition at_most (n : Z) (s : string) : bool := (Z.of_nat (String.length s) <=? n)%Z.
Definition at_most_opt (n : Z) (s : option string) : bool := match s with Some s => at_most n s | None => true end.
Definition few (l : option (list string)) : bool :=
  match l with Some l => (Z.of_nat (length l) <=? MAX_LIST)%Z | None => true end.
(** [Field(ge=lo, le=hi)] *)
Definition between (lo hi n : Z) : bool := (lo <=? n)%Z && (n <=? hi)%Z.

(** [Field(min_length=3, max_length=2000)] *)
Definition reason_ok (s : string) : bool := (3 <=? Z.of_nat (String.length s))%Z && at_most 2000 s.

(** [x if ok else 422] *)
Definition checked {A} (ok : bool) (x : A) : option A := if ok then Some x else None.

(** ** Bodies *)

Inductive tags_field := TagText (s : string) | TagList (l : list string).

Definition coerce_tags (v : option tags_field) : string :=
  match v with
  | None => ""
  | Some (TagText s) => s
  | Some (TagList l) => join ", " l
  end.

Record set_body := SetBody {
  bs_namespace : string;
  bs_key : string;
  bs_value : string;
  bs_scope : option string;
  bs_user_id : option string;
  bs_project : option string;
  bs_tags : option tags_field;
  bs_tags_search : option string;
  bs_expiration_days : option Z;
  bs_listen_set : option (list string);
  bs_reader_identity : option string;
  bs_if_match : option string;
  bs_extra : list string             (* names of unknown fields *)
}.

Record set_request := SetRequest {
  st_namespace : string;
  st_key : string;
  st_value : string;
  st_scope : string;
  st_user_id : string;
  st_project : option string;
  st_tags : string;
  st_tags_search : string;
  st_expiration_days : Z;
  st_listen_set : option (list string);
  st_reader_identity : option string;
  st_if_match : option string;
  st_extra : list string
}.

(** The body of a get or a forget. *)
Record row_body := RowBody {
  bg_namespace : string;
  bg_key : string;
  bg_scope : option string;
  bg_user_id : option string;
  bg_project : option string
}.

Record row_request := RowRequest {
  gt_namespace : string;
  gt_key : string;
  gt_scope : string;
  gt_user_id : string;
  gt_project : option string
}.

Record search_body := SearchBody {
  bq_namespace : option string;
  bq_namespaces : option (list string);
  bq_query : string;
  bq_scope : option string;
  bq_user_id : option string;
  bq_project : option string;
  bq_limit : option Z;
  bq_listen_set : option (list string);
  bq_reader_identity : option string;
  bq_snippet_lines : option Z;
  bq_include_superseded : bool
}.

Record search_request := SearchRequest {
  sh_namespace : option string;
  sh_namespaces : option (list string);
  sh_query : string;
  sh_scope : string;
  sh_user_id : string;
  sh_project : option string;
  sh_limit : Z;
  sh_listen_set : option (list string);
  sh_reader_identity : option string;
  sh_snippet_lines : option Z;
  sh_include_superseded : bool
}.

Record keys_body := KeysBody {
  bk_namespace : option string;
  bk_namespaces : option (list string);
  bk_prefix : option string;
  bk_scope : option string;
  bk_user_id : option string;
  bk_project : option string;
  bk_limit : option Z
}.

Record keys_request := KeysRequest {
  kq_namespace : option string;
  kq_namespaces : option (list string);
  kq_prefix : string;
  kq_scope : string;
  kq_user_id : string;
  kq_project : option string;
  kq_limit : Z
}.

Record flag_body := FlagBody {
  bf_namespace : string;
  bf_key : string;
  bf_scope : option string;
  bf_user_id : option string;
  bf_project : option string;
  bf_reason : string
}.

Record flag_request := FlagRequest {
  fl_namespace : string;
  fl_key : string;
  fl_scope : string;
  fl_user_id : string;
  fl_project : option string;
  fl_reason : string
}.

Record supersede_body := SupersedeBody {
  bu_namespace : string;
  bu_key : string;
  bu_scope : option string;
  bu_project : option string;
  bu_target_user_id : string;
  bu_reason : string;
  bu_replacement_key : option string
}.

Record supersede_request := SupersedeRequest {
  su_namespace : string;
  su_key : string;
  su_scope : string;
  su_project : option string;
  su_target_user_id : string;
  su_reason : string;
  su_replacement_key : option string
}.

(** [explicit_namespaces]: the list, else the one name, else the server's choice. *)
Definition explicit_namespaces (namespace : option string) (namespaces : option (list string))
  : option (list string) :=
  match namespaces with
  | Some (ns :: rest) => Some (ns :: rest)
  | _ => match namespace with
         | Some ns => if nonempty ns then Some [ns] else None
         | None => None
         end
  end.

(** ** Checks; [None] is the answer 422 *)

Section validation.
Context (cfg : auth_settings) (aliases : gmap string string).

Definition _canon_ns (ns : string) : string := canonical_namespace cfg ns.

(** A renamed project is served from its current name. *)
Definition _canonicalize_project (project : option string) : option string :=
  match project with
  | Some p => if nonempty (strip p) then canonical aliases project else project
  | None => None
  end.

(** [_shared_scope_means_global], for the models that have a [user_id]. *)
Definition user_or_default (scope : string) (given : option string) : string :=
  match given with
  | Some u => u
  | None => if scope == "shared" then "global" else "default"
  end.

Definition validate_set (b : set_body) : option set_request :=
  let scope := default "user" (bs_scope b) in
  let project := _canonicalize_project (bs_project b) in
  let days := default 0 (bs_expiration_days b) in
  checked (at_most MAX_KEY (bs_key b) && at_most MAX_VALUE (bs_value b) && at_most_opt MAX_ADDR (bs_user_id b) &&
           at_most_opt MAX_ADDR project && at_most MAX_TAGS (coerce_tags (bs_tags b)) &&
           at_most_opt MAX_TAGS (bs_tags_search b) && between 0 MAX_EXPIRY_DAYS days && few (bs_listen_set b) &&
           at_most_opt MAX_ADDR (bs_reader_identity b) && at_most_opt 64 (bs_if_match b))
    (SetRequest (_canon_ns (bs_namespace b)) (bs_key b) (bs_value b) scope (user_or_default scope (bs_user_id b)) project
       (coerce_tags (bs_tags b)) (or_empty (bs_tags_search b)) days (bs_listen_set b) (bs_reader_identity b)
       (bs_if_match b) (bs_extra b)).

Definition validate_row (b : row_body) : option row_request :=
  let scope := default "user" (bg_scope b) in
  Some (RowRequest (_canon_ns (bg_namespace b)) (bg_key b) scope (user_or_default scope (bg_user_id b))
          (_canonicalize_project (bg_project b))).

Definition validate_search (b : search_body) : option search_request :=
  let scope := default "user" (bq_scope b) in
  let project := _canonicalize_project (bq_project b) in
  let limit := default 5 (bq_limit b) in
  checked (nonempty (strip (bq_query b)) && at_most MAX_VALUE (bq_query b) && at_most_opt MAX_ADDR (bq_user_id b) &&
           at_most_opt MAX_ADDR project && between 1 MAX_SEARCH_LIMIT limit && few (bq_listen_set b) &&
           at_most_opt MAX_ADDR (bq_reader_identity b) &&
           match bq_snippet_lines b with Some n => between 1 500 n | None => true end)
    (SearchRequest (_canon_ns <$> bq_namespace b) (map _canon_ns <$> bq_namespaces b) (bq_query b) scope
       (user_or_default scope (bq_user_id b)) project limit (bq_listen_set b) (bq_reader_identity b)
       (bq_snippet_lines b) (bq_include_superseded b)).

Definition validate_keys (b : keys_body) : option keys_request :=
  let scope := default "user" (bk_scope b) in
  let project := _canonicalize_project (bk_project b) in
  let limit := default 500 (bk_limit b) in
  checked (at_most_opt MAX_KEY (bk_prefix b) && at_most_opt MAX_ADDR (bk_user_id b) && at_most_opt MAX_ADDR project &&
           between 1 MAX_KEYS_LIMIT limit)
    (KeysRequest (_canon_ns <$> bk_namespace b) (map _canon_ns <$> bk_namespaces b) (or_empty (bk_prefix b)) scope
       (user_or_default scope (bk_user_id b)) project limit).

Definition validate_flag (b : flag_body) : option flag_request :=
  let scope := default "project" (bf_scope b) in
  let project := _canonicalize_project (bf_project b) in
  checked ((scope isin ["project"; "shared"; "user"; "machine"]) && at_most_opt MAX_ADDR (bf_user_id b) &&
           at_most_opt MAX_ADDR project && reason_ok (bf_reason b))
    (FlagRequest (_canon_ns (bf_namespace b)) (bf_key b) scope (user_or_default scope (bf_user_id b)) project (bf_reason b)).

Definition validate_supersede (b : supersede_body) : option supersede_request :=
  let scope := default "project" (bu_scope b) in
  let project := _canonicalize_project (bu_project b) in
  checked ((scope isin ["project"; "shared"]) && at_most_opt MAX_ADDR project && at_most MAX_ADDR (bu_target_user_id b) &&
           reason_ok (bu_reason b) && at_most_opt MAX_KEY (bu_replacement_key b))
    (SupersedeRequest (_canon_ns (bu_namespace b)) (bu_key b) scope project (bu_target_user_id b) (bu_reason b)
       (bu_replacement_key b)).
End validation.

(** ** The audit trail *)

Record audit_row := AuditRow {
  lg_principal_id : option Z;
  lg_action : string;
  lg_target_principal_id : option Z;
  lg_detail : jobj
}.

(** [principal.get("name")] of the caller, when there is one. *)
Definition name_of (p : option principal) : option string := pd_name <$> p.

(** The row [audit] appends; the caller's name rides in the detail. *)
Definition audit_entry (action : string) (p : option principal) (detail : jobj) (target : option Z) : audit_row :=
  AuditRow (pd_id <$> p) action target
    (if truthy (name_of p) then <["by" := jopt (name_of p)]> detail else detail).

(** ** Answers *)

Inductive detail :=
| Because (what : string)
| ReservedScope (scope : string)
| NoNamespaceAccess (e : access_error)
| OwnedBy (owner : string) (attempted : option string)
| ChangedSince (current : option string) (version : string)
| ControlledBy (controller : string)
| AlreadyRetired (stamp : stamp_info)
| NotThere (key : string)
| Internal.

Record refusal := Refusal { rf_status : Z; rf_detail : detail }.

Definition internal_error : refusal := Refusal 500 Internal.

Definition of_access (e : access_error) : refusal :=
  match e with
  | Http status => Refusal status (NoNamespaceAccess e)
  | ValueError _ => Refusal 500 (NoNamespaceAccess e)
  end.

(** ** Routes *)

(** [rs_log] is the inserts into the table [audit_log] that were tried, in order. *)
Record rstate := RState { rs_table : table; rs_log : list audit_row }.

(** What that table holds of them: an insert that fails is logged and dropped,
    nobody is told, and no part of the server reads the table. [stored n] says
    whether the insert number [n] went through. *)
Definition audit_log (stored : nat → bool) (tried : list audit_row) : list audit_row :=
  omap id (imap (λ n e, if stored n then Some e else None) tried).

Definition route (A : Type) : Type := rstate → outcome refusal A * rstate.

Definition answer {A} (x : A) : route A := λ s, (Done x, s).
Definition refuse {A} (status : Z) (why : detail) : route A := λ s, (Raise (Refusal status why), s).
Definition fail_with {A} (r : refusal) : route A := λ s, (Raise r, s).

Definition rbind {A B} (m : route A) (k : A → route B) : route B := λ s,
  match m s with
  | (Done x, s') => k x s'
  | (Raise r, s') => (Raise r, s')
  end.

Definition table_of : route table := λ s, (Done (rs_table s), s).
Definition store (t : table) : route unit := λ s, (Done tt, RState t (rs_log s)).
(** Never raises, whether or not the insert it tries goes through. *)
Definition audit (action : string) (p : option principal) (detail : jobj) (target : option Z) : route unit :=
  λ s, (Done tt, RState (rs_table s) (rs_log s ++ [audit_entry action p detail target])).

(** A check that raises an answer. *)
Definition lift {A} (o : outcome access_error A) : route A := λ s,
  match o with Done x => (Done x, s) | Raise e => (Raise (of_access e), s) end.

(** [except Exception: raise HTTPException(500)] around a body that has no
    [except HTTPException: raise] before it. *)
Definition masked {A} (m : route A) : route A := λ s,
  match m s with
  | (Raise _, s') => (Raise internal_error, s')
  | r => r
  end.

Notation "x '⇐' m ;; k" := (rbind m (λ x, k)) (at level 100, m at next level, k at level 200, right associativity)
  : tiding_scope.
Notation "m ';;;' k" := (rbind m (λ _, k)) (at level 100, k at level 200, right associativity) : tiding_scope.

(** ** Namespaces a caller may look into *)

(** [SELECT DISTINCT namespace FROM memories ORDER BY namespace] *)
Definition list_namespaces (t : table) : list string := sorted (dedup ((λ r, r_ns r) <$> t_rows t)).

Definition _probe_namespaces (cfg : auth_settings) (p : option principal) (fallback_ns : string) : route (list string) :=
  match p with
  | None => answer [fallback_ns]
  | Some _ => t ⇐ table_of ;; lift (resolve_read_namespaces cfg p (list_namespaces t))
  end.
