(* ===== verification/MemoryRoutes.v ===== *)
(** The routes of the memory verbs (src/server/routers/memory.py): write,
    read, search, enumerate, delete, ask for deletion, retire. Each is the
    whole handler: its refusals in the order of the code, the service it
    calls, the rows it adds to the audit trail, and the warnings of its
    answer as data (the namespace, writer or field they name). The texts, the
    banner's preview lines and the log are not modelled. *)

From stdpp Require Import base gmap list strings.
From Stdlib Require Import ZArith QArith Lia Ascii.
From S2P Require Import Prelude PyString Json Store Identity ProjectAlias Principals Auth Memory Search Inbox.
From S2P Require Import WatchClaim Seats Presence Delivery Requests.

Open Scope Z_scope.
Open Scope tiding_scope.

Definition _RESERVED_SCOPES : list string := [INBOX_SCOPE; PRESENCE_SCOPE; SEAT_SCOPE; WAKE_SCOPE].
Definition _READ_REJECTED_SCOPES : list string := [WAKE_SCOPE].

Definition _reject_wake_read (scope : string) : route unit :=
  if scope isin _READ_REJECTED_SCOPES then refuse 400 (ReservedScope scope) else answer tt.

Definition _reject_reserved_scope (scope : string) : route unit :=
  if scope isin _RESERVED_SCOPES then refuse 400 (ReservedScope scope) else answer tt.

(** [bool(principal and principal.get("is_admin"))] *)
Definition is_admin (p : option principal) : bool := match p with Some p => pd_is_admin p | None => false end.

(** The banner's true count and the messages it lists. *)
Record banner := Banner { bn_unread_count : nat; bn_shown : list inbox_message }.

Record set_response := SetResponse {
  ro_key : string;
  ro_namespace : string;
  ro_created : bool;
  ro_version : string;
  ro_forks : list string;             (* the writers named in partition_warnings *)
  ro_if_match_applied : bool;
  ro_unknown_fields : list string;    (* named in [warning] *)
  ro_banner : option banner
}.

Inductive get_response := GetFound (m : mem_item) | GetNotFound (writers : list string).

Record search_result := SearchResult {
  rh_hit : search_hit;
  rh_version : string;
  rh_snippet : option snippet
}.

(** Where an empty search looked. *)
Record partition := Partition {
  pt_namespaces : list string;
  pt_scope : string;
  pt_user_id : string;
  pt_project : option string
}.

Record search_response := SearchResponse {
  rr_results : list search_result;
  rr_banner : option banner;
  rr_nothing_in : option partition
}.

Record keys_response := KeysResponse { rk_keys : list key_entry; rk_total : nat }.
Record forget_response := ForgetResponse { rg_deleted : bool; rg_key : string; rg_survivors : list string }.
Record row_response := RowResponse { rw_key : string; rw_user_id : string; rw_namespace : string }.

(** Details of the audit rows. *)
Definition jbool (b : bool) : json := JBool b.

Section routes.
Context (sha256 : string → string) (expand : list string → list string).
Context (distance : vectors) (similarity : string → string → Q) (scfg : search_settings).
Context (cfg : auth_settings).

Definition access (p : option principal) (namespace mode : string) : route unit :=
  lift (check_namespace_access cfg p namespace mode false).

(** A malformed listen set only costs the banner. *)
Definition banner_of (listen_set : option (list string)) (reader : option string) : route (option banner) :=
  t ⇐ table_of ;;
  match listen_set with
  | Some (_ :: _) =>
      match validate_listen_set listen_set with
      | Done (a :: rest) => answer ((λ b, Banner b.1 b.2) <$> inbox_banner expand (a :: rest) reader 5 t)
      | _ => answer None
      end
  | _ => answer None
  end.

(** The other writers of the key in the caller's reach, for a project row. *)
Definition other_writers (now : Z) (p : option principal) (namespace key scope user_id : string) (project : option string)
  : route (list string) :=
  if scope == "project" then
    readable ⇐ _probe_namespaces cfg p namespace ;;
    t ⇐ table_of ;;
    answer (partition_siblings now readable key project (Some user_id) t)
  else answer [].

(** ** Writing *)

(** [metadata[k] = v] when the header has one. *)
Definition with_header (k : string) (v : option string) (m : jobj) : jobj :=
  if truthy v then <[k := jopt v]> m else m.

Definition write_metadata (p : option principal) (header : string → option string) : jobj :=
  with_header "model" (header "x-engram-model")
    (with_header "model_source" (header "x-engram-model-source")
      (with_header "cwd" (header "x-engram-cwd")
        (with_header "project" (header "x-engram-project")
          (with_header "machine" (header "x-engram-machine")
            (match p with Some p => {["principal" := JStr (pd_name p)]} | None => ∅ end))))).

Definition set_args_of (p : option principal) (header : string → option string) (rq : set_request) : set_args :=
  SetArgs (st_namespace rq) (st_key rq) (st_value rq) (st_scope rq) (st_user_id rq) (st_project rq) (st_tags rq)
    (st_tags_search rq) (st_expiration_days rq) (Some (write_metadata p header)) (name_of p) (st_if_match rq) (is_admin p).

Definition set_detail (rq : set_request) (created : bool) : jobj := list_to_map [
  ("namespace", JStr (st_namespace rq)); ("key", JStr (st_key rq)); ("scope", JStr (st_scope rq));
  ("user_id", JStr (st_user_id rq)); ("project", jopt (st_project rq)); ("created", jbool created)].

Definition refused_detail (rq : set_request) (owner : string) (attempted : option string) : jobj := list_to_map [
  ("namespace", JStr (st_namespace rq)); ("key", JStr (st_key rq)); ("scope", JStr (st_scope rq));
  ("project", jopt (st_project rq)); ("owner", JStr owner); ("attempted_by", jopt attempted)].

Definition set_memory (now : Z) (p : option principal) (header : string → option string) (rq : set_request)
  : route set_response :=
  _reject_reserved_scope (st_scope rq) ;;;
  access p (st_namespace rq) "write" ;;;
  t ⇐ table_of ;;
  match memory_set sha256 now (set_args_of p header rq) t with
  | Raise (OwnershipConflict owner attempted) =>
      audit "memory.set.refused" p (refused_detail rq owner attempted) None ;;;
      refuse 409 (OwnedBy owner attempted)
  | Raise (VersionConflict current version) => refuse 409 (ChangedSince current version)
  | Raise _ => fail_with internal_error
  | Done (key, created, version, t') =>
      store t' ;;;
      audit "memory.set" p (set_detail rq created) None ;;;
      banner ⇐ banner_of (st_listen_set rq) (st_reader_identity rq) ;;
      forks ⇐ other_writers now p (st_namespace rq) (st_key rq) (st_scope rq) (st_user_id rq) (st_project rq) ;;
      answer (SetResponse key (st_namespace rq) created version forks (is_some (st_if_match rq))
                (sorted (st_extra rq)) banner)
  end.

(** ** Reading *)

Definition get_memory (now : Z) (p : option principal) (rq : row_request) : route get_response :=
  _reject_wake_read (gt_scope rq) ;;;
  access p (gt_namespace rq) "read" ;;;
  masked (
    t ⇐ table_of ;;
    let '(item, t') := memory_get sha256 now (gt_namespace rq) (gt_key rq) (gt_scope rq) (gt_user_id rq) (gt_project rq) t in
    store t' ;;;
    match item with
    | Some m => answer (GetFound m)
    | None =>
        writers ⇐ other_writers now p (gt_namespace rq) (gt_key rq) (gt_scope rq) (gt_user_id rq) (gt_project rq) ;;
        answer (GetNotFound writers)
    end).

(** The namespaces asked for, checked, or all the caller may read. *)
Definition read_namespaces (p : option principal) (namespace : option string) (namespaces : option (list string))
  : route (list string) :=
  match explicit_namespaces namespace namespaces with
  | None => t ⇐ table_of ;; lift (resolve_read_namespaces cfg p (list_namespaces t))
  | Some l => lift (check_namespaces_access cfg p l "read") ;;; answer l
  end.

Definition search_memory (now : Z) (p : option principal) (rq : search_request) : route search_response :=
  _reject_wake_read (sh_scope rq) ;;;
  namespaces ⇐ read_namespaces p (sh_namespace rq) (sh_namespaces rq) ;;
  t ⇐ table_of ;;
  match memory_search distance similarity scfg now
          (SearchArgs namespaces (sh_query rq) (sh_scope rq) (sh_user_id rq) (sh_project rq)
             (Z.to_nat (sh_limit rq)) (sh_include_superseded rq)) t with
  | None => fail_with internal_error
  | Some (hits, t') =>
      store t' ;;;
      banner ⇐ banner_of (sh_listen_set rq) (sh_reader_identity rq) ;;
      answer (SearchResponse
        ((λ h, SearchResult h (compute_version sha256 (Some (h_value h)))
                 (match sh_snippet_lines rq with Some n => _snippet h (Z.to_nat n) | None => None end)) <$> hits)
        banner
        (match hits with
         | [] => Some (Partition namespaces (sh_scope rq) (sh_user_id rq) (sh_project rq))
         | _ => None
         end))
  end.

Definition list_keys (now : Z) (p : option principal) (rq : keys_request) : route keys_response :=
  _reject_wake_read (kq_scope rq) ;;;
  namespaces ⇐ read_namespaces p (kq_namespace rq) (kq_namespaces rq) ;;
  t ⇐ table_of ;;
  let '(entries, total) := memory_keys now namespaces (kq_prefix rq) (kq_scope rq) (kq_user_id rq) (kq_project rq)
                             (Z.to_nat (kq_limit rq)) t in
  answer (KeysResponse entries total).

(** ** Destroying and retiring *)

Definition row_detail (rq : row_request) (extra : list (string * json)) : jobj := list_to_map (extra ++ [
  ("namespace", JStr (gt_namespace rq)); ("key", JStr (gt_key rq)); ("scope", JStr (gt_scope rq));
  ("user_id", JStr (gt_user_id rq)); ("project", jopt (gt_project rq))]).

Definition forget_memory (now : Z) (p : option principal) (rq : row_request) : route forget_response :=
  _reject_reserved_scope (gt_scope rq) ;;;
  access p (gt_namespace rq) "write" ;;;
  t ⇐ table_of ;;
  match memory_forget (gt_namespace rq) (gt_key rq) (gt_scope rq) (gt_user_id rq) (gt_project rq) (name_of p) (is_admin p) t with
  | Raise (ForgetDenied controller _) =>
      audit "memory.forget.denied" p (row_detail rq [("controller", JStr controller)]) None ;;;
      refuse 403 (ControlledBy controller)
  | Raise _ => fail_with internal_error
  | Done (deleted, t') =>
      store t' ;;;
      survivors ⇐ other_writers now p (gt_namespace rq) (gt_key rq) (gt_scope rq) (gt_user_id rq) (gt_project rq) ;;
      audit "memory.forget" p (row_detail rq [("deleted", jbool deleted)]) None ;;;
      answer (ForgetResponse deleted (gt_key rq) survivors)
  end.

Definition flag_detail (rq : flag_request) (found : bool) : jobj := list_to_map [
  ("namespace", JStr (fl_namespace rq)); ("key", JStr (fl_key rq)); ("scope", JStr (fl_scope rq));
  ("user_id", JStr (fl_user_id rq)); ("project", jopt (fl_project rq)); ("reason", JStr (fl_reason rq));
  ("found", jbool found)].

Definition row_answer (r : row) : row_response := RowResponse (r_key r) (r_user r) (r_ns r).

Definition flag_deletion (now : Z) (p : option principal) (rq : flag_request) : route row_response :=
  access p (fl_namespace rq) "write" ;;;
  t ⇐ table_of ;;
  match memory_flag_deletion now (fl_namespace rq) (fl_key rq) (Some (fl_scope rq)) (fl_user_id rq) (fl_project rq)
          (name_of p) (Some (fl_reason rq)) t with
  | Raise (BadRequest what) => refuse 422 (Because what)
  | Raise _ => fail_with internal_error
  | Done (found, t') =>
      store t' ;;;
      audit "memory.flag_deletion" p (flag_detail rq (is_some found)) None ;;;
      match found with
      | Some r => answer (row_answer r)
      | None => refuse 404 (NotThere (fl_key rq))
      end
  end.

Definition supersede_detail (rq : supersede_request) (found : bool) : jobj := list_to_map [
  ("key", JStr (su_key rq)); ("scope", JStr (su_scope rq)); ("project", jopt (su_project rq));
  ("target_user_id", JStr (su_target_user_id rq)); ("reason", JStr (su_reason rq));
  ("replacement_key", jopt (su_replacement_key rq)); ("found", jbool found)].

Definition supersede_memory (now : Z) (p : option principal) (rq : supersede_request) : route row_response :=
  access p (su_namespace rq) "read" ;;;
  t ⇐ table_of ;;
  match memory_supersede now [su_namespace rq] (su_key rq) (su_project rq) (su_target_user_id rq) (name_of p)
          (Some (su_reason rq)) (su_replacement_key rq) (Some (su_scope rq)) t with
  | Raise (BadRequest what) => refuse 422 (Because what)
  | Raise _ => fail_with internal_error
  | Done (found, t') =>
      store t' ;;;
      audit "memory.supersede" p (supersede_detail rq (is_some found)) None ;;;
      match found with
      | Some r => answer (row_answer r)
      | None =>
          match supersede_stamp [su_namespace rq] (su_key rq) (su_project rq) (su_target_user_id rq) (Some (su_scope rq)) t' with
          | Some stamp => refuse 404 (AlreadyRetired stamp)
          | None => refuse 404 (NotThere (su_key rq))
          end
      end
  end.
End routes.
