(* ===== verification/MemoryRoutesProps.v ===== *)
(** What the memory routes guarantee, whoever calls and in whatever state: a
    call reaches one namespace and scope, and only past its gate; what it
    changes it records; what it serves the caller may read; a lost race can
    be retried; a retirement leaves a receipt. *)

From stdpp Require Import base gmap list strings.
From Stdlib Require Import ZArith QArith Lia Ascii.
From S2P Require Import Prelude PyString Json Store Frame Identity ProjectAlias Principals Auth Memory MemoryProps Search SearchProps.
From S2P Require Import Inbox WatchClaim Seats Presence Delivery Requests MemoryRoutes.

Open Scope Z_scope.
Open Scope tiding_scope.

(** ** The services, framed *)

Section services.
Context (f : pkey → bool).

Lemma set_framed sha256 now a t key created version t' :
  away (lower (a_namespace a)) (lower (a_scope a)) f →
  memory_set sha256 now a t = Done (key, created, version, t') → untouched f t t'.
Proof.
  intros Hf. unfold memory_set. set (k := _normalize_key_fields _ _ _ _ _). set (n := new_of now a k).
  assert (f k = false) as Hk by (by apply Hf). assert (untouched f t (_upsert_memory now n t).2) as Hu.
  { apply untouched_upsert; [apply _|done]. }
  assert (untouched f t (_insert_if_absent now n t).2) as Hi by (by apply untouched_insert).
  assert (∀ t1, untouched f t1 (collapse_twins now (a_owner a) k t1)) as Hc.
  { intros t1. apply untouched_outside; [by split|]. intros r Hr. unfold same_logical in Hr. bprop.
    destruct Hr as [[[[[Hn _] Hs] _] _] _]. by apply Hf. }
  cbv zeta. destruct (_upsert_memory now n t) as [c t1], (_insert_if_absent now n t) as [i t2]. cbn [snd] in *.
  repeat case_match; try done; intros [= <- <- <- <-]; try done; (etransitivity; [exact Hu|apply Hc]).
Qed.

Lemma get_framed sha256 now ns key scope user project t :
  untouched f t (memory_get sha256 now ns key scope user project t).2.
Proof. unfold memory_get. case_match; cbn; auto with tiding. done. Qed.

Lemma forget_framed ns key scope user project actor adm t deleted t' :
  away (lower ns) (lower scope) f → memory_forget ns key scope user project actor adm t = Done (deleted, t') → untouched f t t'.
Proof.
  intros Hf. unfold memory_forget. case_match; [done|]. intros [= _ <-].
  apply untouched_delete. intros r Hr%has_pk_true. rewrite Hr. by apply Hf.
Qed.

Lemma flag_framed now ns key scope user project actor reason t found t' :
  away (lower ns) (lower (lower scope)) f →
  memory_flag_deletion now ns key (Some scope) user project actor reason t = Done (found, t') → untouched f t t'.
Proof.
  intros Hf. unfold memory_flag_deletion. case_match; [done|]. case_match; [done|]. intros [= _ <-].
  apply untouched_outside; [by split|]. intros r Hr. bprop. destruct Hr as [Hr%has_pk_true _]. rewrite Hr. by apply Hf.
Qed.

Lemma supersede_framed now ns key project target actor reason rk scope t found t' :
  away (lower ns) (lower scope) f → scope ≠ "" →
  memory_supersede now [ns] key project target actor reason rk (Some scope) t = Done (found, t') → untouched f t t'.
Proof.
  intros Hf Hne. unfold memory_supersede.
  assert (or_empty (py_or (Some scope) (Some "project")) = scope) as -> by (by destruct scope).
  case_match; [done|]. case_match; [done|]. intros [= _ <-]. apply untouched_outside; [by split|].
  intros r Hr. unfold supersede_target in Hr. bprop. destruct Hr as [[[[[Hn _] Hs] _] _] _].
  apply list_elem_of_singleton in Hn. by apply Hf.
Qed.

Lemma search_framed distance similarity cfg now a t hits t' :
  memory_search distance similarity cfg now a t = Some (hits, t') → untouched f t t'.
Proof.
  pose proof (search_outcome distance similarity cfg now a t) as H.
  intros Hs. rewrite Hs in H. destruct H as [_ ->]. apply untouched_used.
Qed.
End services.

(** ** Running a route *)

Definition ends {A} (m : route A) (s : rstate) (Q : outcome refusal A → rstate → Prop) : Prop :=
  let '(r, s') := m s in Q r s'.

Lemma ends_bind {A B} (m : route A) (k : A → route B) s Q :
  ends m s (λ r s', match r with Done x => ends (k x) s' Q | Raise e => Q (Raise e) s' end) → ends (rbind m k) s Q.
Proof. unfold ends, rbind. by destruct (m s) as [[x|e] s']. Qed.

Lemma ends_mono {A} (m : route A) s (Q Q' : outcome refusal A → rstate → Prop) :
  ends m s Q → (∀ r s', Q r s' → Q' r s') → ends m s Q'.
Proof. unfold ends. destruct (m s). eauto. Qed.

Lemma ends_fst {A} (m : route A) s (Q : outcome refusal A → Prop) : ends m s (λ r _, Q r) → Q (m s).1.
Proof. unfold ends. by destruct (m s). Qed.

Lemma ends_masked {A} (m : route A) s Q :
  ends m s (λ r s', match r with Done x => Q (Done x) s' | Raise _ => Q (Raise internal_error) s' end) → ends (masked m) s Q.
Proof. unfold ends, masked. by destruct (m s) as [[x|e] s']. Qed.

(** A check that neither reads nor changes the state. *)
Definition check {A} (m : route A) : Prop := ∀ s, ends m s (λ _ s', s' = s).

Lemma lift_check {A} (o : outcome access_error A) : check (lift o).
Proof. intros s. by destruct o. Qed.

Lemma ends_answer {A} (x : A) s (Q : outcome refusal A → rstate → Prop) : Q (Done x) s → ends (answer x) s Q.
Proof. done. Qed.
Lemma ends_refuse {A} n why s (Q : outcome refusal A → rstate → Prop) : Q (Raise (Refusal n why)) s → ends (refuse n why) s Q.
Proof. done. Qed.
Lemma ends_fail {A} e s (Q : outcome refusal A → rstate → Prop) : Q (Raise e) s → ends (fail_with e) s Q.
Proof. done. Qed.
Lemma ends_table s (Q : outcome refusal table → rstate → Prop) : Q (Done (rs_table s)) s → ends table_of s Q.
Proof. done. Qed.
Lemma ends_store t s (Q : outcome refusal unit → rstate → Prop) : Q (Done tt) (RState t (rs_log s)) → ends (store t) s Q.
Proof. done. Qed.
Lemma ends_audit action p d tg s (Q : outcome refusal unit → rstate → Prop) :
  Q (Done tt) (RState (rs_table s) (rs_log s ++ [audit_entry action p d tg])) → ends (audit action p d tg) s Q.
Proof. done. Qed.

(** Run the straight-line part of a route. *)
Ltac go1 :=
  lazymatch goal with
  | |- ends (rbind _ _) _ _ => apply ends_bind
  | |- ends (answer _) _ _ => apply ends_answer
  | |- ends (refuse _ _) _ _ => apply ends_refuse
  | |- ends (fail_with _) _ _ => apply ends_fail
  | |- ends table_of _ _ => apply ends_table
  | |- ends (store _) _ _ => apply ends_store
  | |- ends (audit _ _ _ _) _ _ => apply ends_audit
  | |- ends (masked _) _ _ => apply ends_masked
  end; cbn [rs_table rs_log].
Ltac go := repeat go1.

(** ** The calls *)

Inductive call :=
| SetCall (header : string → option string) (rq : set_request)
| GetCall (rq : row_request)
| SearchCall (rq : search_request)
| KeysCall (rq : keys_request)
| ForgetCall (rq : row_request)
| FlagCall (rq : flag_request)
| SupersedeCall (rq : supersede_request).

(** The namespace, scope and right of a call that changes rows. *)
Definition aim (c : call) : option (string * string * string) :=
  match c with
  | SetCall _ rq => Some (st_namespace rq, st_scope rq, "write")
  | ForgetCall rq => Some (gt_namespace rq, gt_scope rq, "write")
  | FlagCall rq => Some (fl_namespace rq, fl_scope rq, "write")
  | SupersedeCall rq => Some (su_namespace rq, su_scope rq, "read")
  | _ => None
  end.

Definition guarded (c : call) : bool :=
  match c with
  | SetCall _ rq => negb (st_scope rq isin _RESERVED_SCOPES)
  | ForgetCall rq => negb (gt_scope rq isin _RESERVED_SCOPES)
  | FlagCall rq => fl_scope rq isin DATA_SCOPES
  | SupersedeCall rq => su_scope rq isin ["project"; "shared"]
  | _ => true
  end.

(** The action a call is recorded under. *)
Definition action_of (c : call) : list string :=
  match c with
  | SetCall _ _ => ["memory.set"; "memory.set.refused"]
  | ForgetCall _ => ["memory.forget"; "memory.forget.denied"]
  | FlagCall _ => ["memory.flag_deletion"]
  | SupersedeCall _ => ["memory.supersede"]
  | _ => []
  end.

(** A body its model lets through names a scope it allows. *)
Definition validated (c : call) : bool :=
  match c with
  | FlagCall rq => fl_scope rq isin DATA_SCOPES
  | SupersedeCall rq => su_scope rq isin ["project"; "shared"]
  | _ => true
  end.

Section calls.
Context (sha256 : string → string) (expand : list string → list string).
Context (distance : vectors) (similarity : string → string → Q) (scfg : search_settings).
Context (cfg : auth_settings).

Definition silent {A} (m : route A) : route unit := m ;;; answer tt.

Definition handle (now : Z) (p : option principal) (c : call) : route unit :=
  match c with
  | SetCall header rq => silent (set_memory sha256 expand cfg now p header rq)
  | GetCall rq => silent (get_memory sha256 cfg now p rq)
  | SearchCall rq => silent (search_memory sha256 expand distance similarity scfg cfg now p rq)
  | KeysCall rq => silent (list_keys cfg now p rq)
  | ForgetCall rq => silent (forget_memory cfg now p rq)
  | FlagCall rq => silent (flag_deletion cfg now p rq)
  | SupersedeCall rq => silent (supersede_memory cfg now p rq)
  end.

Lemma banner_spec ls reader s : ends (banner_of expand ls reader) s (λ r s', s' = s ∧ ∃ b, r = Done b).
Proof. unfold banner_of. go. repeat case_match; go; eauto. Qed.

(** The caller has a name but may read no namespace. *)
Definition reads_nothing (p : option principal) (t : table) : option access_error :=
  match p with
  | Some _ => match resolve_read_namespaces cfg p (list_namespaces t) with Raise e => Some e | Done _ => None end
  | None => None
  end.

Lemma other_writers_spec now p ns key scope user project s :
  ends (other_writers cfg now p ns key scope user project) s (λ r s', s' = s ∧
    ∀ e, r = Raise e → scope = "project" ∧ ∃ a, reads_nothing p (rs_table s) = Some a ∧ e = of_access a).
Proof.
  unfold other_writers. case_match eqn:Es; [|by go]. bprop. go. unfold _probe_namespaces. destruct p as [pr|]; [|by go].
  go. unfold lift, ends, reads_nothing. destruct (resolve_read_namespaces _ _ _) as [l|a]; cbn; [done|].
  split; [done|]. intros e [= <-]. eauto.
Qed.

(** A gate passed: the state is as before. *)
Lemma access_spec p ns mode s :
  ends (access cfg p ns mode) s (λ r s', s' = s ∧ (r = Done tt → check_namespace_access cfg p ns mode false = Done tt)).
Proof. unfold access, lift, ends. by destruct (check_namespace_access _ _ _ _ _) as [[]|]. Qed.

(** ** What one call does *)

(** Where a write or a forget stops halfway: the row is already changed when
    the look for other writers refuses a caller that may read nothing. *)
Definition halfway (p : option principal) (c : call) (t' : table) (r : outcome refusal unit) : Prop :=
  ∃ a, reads_nothing p t' = Some a ∧ r = Raise (of_access a) ∧
    match c with
    | SetCall _ rq => st_scope rq = "project"
    | ForgetCall rq => gt_scope rq = "project"
    | _ => False
    end.

(** A call reaches rows of its aim only, past its guard and its access check. *)
Definition confined (p : option principal) (c : call) (t t' : table) : Prop :=
  ∀ f, (∀ ns scope mode, aim c = Some (ns, scope, mode) → guarded c = true →
          check_namespace_access cfg p ns mode false = Done tt → away (lower ns) (lower scope) f) → untouched f t t'.

Definition unchanged (t t' : table) : Prop := ∀ f, untouched f t t'.

Definition recorded (p : option principal) (c : call) (t t' : table) (r : outcome refusal unit) (new : list audit_row) : Prop :=
  (new = [] ∨ ∃ action d, new = [audit_entry action p d None] ∧ action ∈ action_of c) ∧
  (unchanged t t' ∨ new ≠ [] ∨ halfway p c t' r).

Definition effect (p : option principal) (c : call) (s : rstate) (r : outcome refusal unit) (s' : rstate) : Prop :=
  confined p c (rs_table s) (rs_table s') ∧
  (∃ new, rs_log s' = rs_log s ++ new ∧ recorded p c (rs_table s) (rs_table s') r new) ∧
  (∀ e, r = Raise e → unchanged (rs_table s) (rs_table s') ∨ halfway p c (rs_table s') r).

Lemma effect_none p c s r : effect p c s r s.
Proof.
  split; [done|]. split; [|by left]. exists []. rewrite app_nil_r. split; [done|]. split; by left.
Qed.

(** A call that changed at most instants of use and recorded nothing. *)
Lemma effect_used p c s r s' :
  rs_log s' = rs_log s → unchanged (rs_table s) (rs_table s') → effect p c s r s'.
Proof.
  intros Hl Hu. split; [by intros f _|]. split; [|by left]. exists []. rewrite app_nil_r. split; [done|]. split; [by left|by left].
Qed.

(** A call that only recorded. *)
Lemma effect_noted p c s r action d :
  action ∈ action_of c → effect p c s r (RState (rs_table s) (rs_log s ++ [audit_entry action p d None])).
Proof.
  intros Ha. split; [done|]. split; [|by left]. eexists. split; [done|]. split; [right; by eexists _, _|by left].
Qed.

(** A call that changed rows of its aim and recorded it. *)
Lemma effect_wrote p c s (r : outcome refusal unit) t' action d :
  action ∈ action_of c → confined p c (rs_table s) t' →
  (∀ e, r = Raise e → unchanged (rs_table s) t' ∨ halfway p c t' r) →
  effect p c s r (RState t' (rs_log s ++ [audit_entry action p d None])).
Proof.
  intros Ha Hc Hr. split; [done|]. split; [|done]. eexists. split; [done|]. split; [right; by eexists _, _|right; by left].
Qed.

Lemma set_effect now p header rq s : ends (silent (set_memory sha256 expand cfg now p header rq)) s (effect p (SetCall header rq) s).
Proof.
  unfold silent, set_memory, _reject_reserved_scope. go. case_match eqn:Er; [go; apply effect_none|]. go.
  eapply ends_mono; [apply access_spec|]. intros [[]|e] s1 [-> Ha]; [|apply effect_none]. specialize (Ha eq_refl). go.
  destruct (memory_set _ _ _ _) as [[[[key created] version] t']|[]] eqn:Em; go; try apply effect_none;
    [|apply effect_noted; right; by left].
  assert (confined p (SetCall header rq) (rs_table s) t') as Hc.
  { intros f Hf. eapply set_framed; [|exact Em]. eapply Hf; [done| |exact Ha]. cbn. by rewrite Er. }
  eapply ends_mono; [apply banner_spec|]. intros r s1 [-> [b ->]]. go.
  eapply ends_mono; [apply other_writers_spec|]. intros [w|e] s1 [-> He]; go; (apply effect_wrote; [by left|done|]); [done|].
  intros e' [= <-]. right. destruct (He e eq_refl) as (Hs & a & Ha' & ->). by exists a.
Qed.

Lemma read_spec p ns nss s :
  ends (read_namespaces cfg p ns nss) s (λ r s', s' = s ∧ ∀ l, r = Done l →
    match explicit_namespaces ns nss with
    | Some l' => l = l' ∧ check_namespaces_access cfg p l "read" = Done tt
    | None => resolve_read_namespaces cfg p (list_namespaces (rs_table s)) = Done l
    end).
Proof.
  unfold read_namespaces. destruct (explicit_namespaces ns nss) as [l|]; go.
  - unfold lift, ends. destruct (check_namespaces_access cfg p l "read") as [[]|] eqn:E; cbn; [|done].
    split; [done|]. by intros l' [= <-].
  - unfold lift, ends. destruct (resolve_read_namespaces _ _ _) as [l|] eqn:E; cbn; [|done]. split; [done|]. by intros l' [= <-].
Qed.

Lemma get_effect now p rq s : ends (silent (get_memory sha256 cfg now p rq)) s (effect p (GetCall rq) s).
Proof.
  unfold silent, get_memory, _reject_wake_read. go. case_match eqn:Er; [go; apply effect_none|]. go.
  eapply ends_mono; [apply access_spec|]. intros [[]|e] s1 [-> _]; [|apply effect_none]. go.
  pose proof (λ f, get_framed f sha256 now (gt_namespace rq) (gt_key rq) (gt_scope rq) (gt_user_id rq) (gt_project rq) (rs_table s)) as Hf.
  destruct (memory_get _ _ _ _ _ _ _ _) as [[m|] t']; go; [by apply effect_used|].
  eapply ends_mono; [apply other_writers_spec|]. intros [w|e] s1 [-> _]; go; by apply effect_used.
Qed.

Lemma search_effect now p rq s :
  ends (silent (search_memory sha256 expand distance similarity scfg cfg now p rq)) s (effect p (SearchCall rq) s).
Proof.
  unfold silent, search_memory, _reject_wake_read. go. case_match eqn:Er; [go; apply effect_none|]. go.
  eapply ends_mono; [apply read_spec|]. intros [l|e] s1 [-> _]; [|apply effect_none]. go.
  destruct (memory_search _ _ _ _ _ _) as [[hits t']|] eqn:E; go; [|apply effect_none].
  eapply ends_mono; [apply banner_spec|]. intros r s1 [-> [b ->]]. go. apply effect_used; [done|].
  intros f. by eapply search_framed.
Qed.

Lemma keys_effect now p rq s : ends (silent (list_keys cfg now p rq)) s (effect p (KeysCall rq) s).
Proof.
  unfold silent, list_keys, _reject_wake_read. go. case_match eqn:Er; [go; apply effect_none|]. go.
  eapply ends_mono; [apply read_spec|]. intros [l|e] s1 [-> _]; [|apply effect_none]. go.
  destruct (memory_keys _ _ _ _ _ _ _ _). go. apply effect_none.
Qed.

(** A delete that answered that nothing was there deleted nothing. *)
Lemma forget_effect now p rq s : ends (silent (forget_memory cfg now p rq)) s (effect p (ForgetCall rq) s).
Proof.
  unfold silent, forget_memory, _reject_reserved_scope. go. case_match eqn:Er; [go; apply effect_none|]. go.
  eapply ends_mono; [apply access_spec|]. intros [[]|e] s1 [-> Ha]; [|apply effect_none]. specialize (Ha eq_refl). go.
  destruct (memory_forget _ _ _ _ _ _ _ _) as [[deleted t']|[]] eqn:Em; go; try apply effect_none;
    [|apply effect_noted; right; by left].
  assert (confined p (ForgetCall rq) (rs_table s) t') as Hc.
  { intros f Hf. eapply forget_framed; [|exact Em]. eapply Hf; [done| |exact Ha]. cbn. by rewrite Er. }
  eapply ends_mono; [apply other_writers_spec|]. intros [w|e] s1 [-> He]; go; [by apply effect_wrote; [left| |]|].
  destruct (He e eq_refl) as (Hs & a & Ha' & ->).
  assert (halfway p (ForgetCall rq) t' (Raise (of_access a))) as Hh by (by exists a).
  split; [done|]. split; [|intros ? [= <-]; by right]. exists []. rewrite app_nil_r. split; [done|]. split; [by left|right; by right].
Qed.

(** An update of no row is no change. *)
Lemma none_updated (q : row → bool) (g : row → row) t : g <$> head (sql_select q t) = None → sql_update q g t = t.
Proof.
  intros H. apply sql_update_nop. intros x Hx. destruct (q x) eqn:E; [|done]. exfalso.
  assert (x ∈ sql_select q t) as Hs by (by apply elem_of_sql_select). unfold sql_select in *.
  destruct (select q (t_rows t)); [by apply elem_of_nil in Hs|done].
Qed.

Lemma flag_none now ns key scope user project actor reason t t' :
  memory_flag_deletion now ns key scope user project actor reason t = Done (None, t') → t' = t.
Proof.
  unfold memory_flag_deletion. case_match; [done|]. case_match; [done|]. intros [= Hq <-]. by apply none_updated.
Qed.

Lemma supersede_none now nss key project target actor reason rk scope t t' :
  memory_supersede now nss key project target actor reason rk scope t = Done (None, t') → t' = t.
Proof.
  unfold memory_supersede. case_match; [done|]. case_match; [done|]. intros [= Hq <-]. by apply none_updated.
Qed.

Lemma data_lower scope : scope isin DATA_SCOPES = true → lower scope = scope.
Proof. intros H. bprop. set_unfold in H. by destruct_or!; subst; vm_compute. Qed.

Lemma data_unreserved scope : scope isin DATA_SCOPES = true → (scope isin _RESERVED_SCOPES) = false.
Proof. intros H%bool_decide_eq_true. set_unfold in H. by destruct_or!; subst; vm_compute. Qed.

Lemma flag_effect now p rq s :
  fl_scope rq isin DATA_SCOPES = true → ends (silent (flag_deletion cfg now p rq)) s (effect p (FlagCall rq) s).
Proof.
  intros Hv. unfold silent, flag_deletion. go.
  eapply ends_mono; [apply access_spec|]. intros [[]|e] s1 [-> Ha]; [|apply effect_none]. specialize (Ha eq_refl). go.
  destruct (memory_flag_deletion _ _ _ _ _ _ _ _) as [[found t']|[]] eqn:Em; go; try apply effect_none.
  assert (confined p (FlagCall rq) (rs_table s) t') as Hc.
  { intros f Hf. eapply flag_framed; [|exact Em]. rewrite lower_idem. by eapply Hf. }
  destruct found as [r|]; go; (apply effect_wrote; [by left|done|]); [done|].
  intros e _. left. apply flag_none in Em as ->. done.
Qed.

Lemma supersede_effect now p rq s :
  su_scope rq isin ["project"; "shared"] = true → ends (silent (supersede_memory cfg now p rq)) s (effect p (SupersedeCall rq) s).
Proof.
  intros Hv. unfold silent, supersede_memory. go.
  eapply ends_mono; [apply access_spec|]. intros [[]|e] s1 [-> Ha]; [|apply effect_none]. specialize (Ha eq_refl). go.
  destruct (memory_supersede _ _ _ _ _ _ _ _ _) as [[found t']|[]] eqn:Em; go; try apply effect_none.
  assert (confined p (SupersedeCall rq) (rs_table s) t') as Hc.
  { intros f Hf. eapply supersede_framed; [by eapply Hf| |exact Em]. intros E. by rewrite E in Hv. }
  destruct found as [r|]; go; [by apply effect_wrote; [left| |]|]. apply supersede_none in Em as ->.
  case_match; go; (apply effect_wrote; [by left|done|]); by left.
Qed.

Lemma serve_effect now p c s : validated c = true → ends (handle now p c) s (effect p c s).
Proof.
  intros Hv. destruct c; cbn [handle validated] in *;
    [apply set_effect|apply get_effect|apply search_effect|apply keys_effect|apply forget_effect|by apply flag_effect|by apply supersede_effect].
Qed.
End calls.

(** ** A write tried again *)

Section again.
Context (sha256 : string → string).

Definition with_if_match (version : string) (rq : set_request) : set_request :=
  SetRequest (st_namespace rq) (st_key rq) (st_value rq) (st_scope rq) (st_user_id rq) (st_project rq) (st_tags rq)
    (st_tags_search rq) (st_expiration_days rq) (st_listen_set rq) (st_reader_identity rq) (Some version) (st_extra rq).

Lemma memory_set_owned now a t o :
  enforces a = true → owned_by_other (a_owner a) (sql_find (key_of a) t) = Some o →
  memory_set sha256 now a t = Raise (OwnershipConflict o (a_owner a)).
Proof.
  intros He Ho. unfold memory_set. fold (key_of a). change ((k_scope (key_of a) == "project") && negb (a_is_admin a)) with (enforces a).
  cbv zeta. rewrite He. cbn [orb]. by rewrite Ho.
Qed.

Lemma version_nonempty v : (∀ x, sha256 x ≠ "") → compute_version sha256 (Some v) ≠ "".
Proof. intros H. unfold compute_version. specialize (H v). by destruct (sha256 v). Qed.

Lemma value_found k t v : value_at k t = Some v ↔ ∃ r, sql_find k t = Some r ∧ r_value r = v.
Proof. unfold value_at. rewrite fmap_Some. naive_solver. Qed.

(** The version a conflict reports is one the next write passes with. *)
Lemma retry_passes now now' p header rq t current version :
  wf t → (∀ v, sha256 v ≠ "") →
  memory_set sha256 now (set_args_of p header rq) t = Raise (VersionConflict current version) →
  current = value_at (key_of (set_args_of p header rq)) t ∧
  ∃ key created version' t', memory_set sha256 now' (set_args_of p header (with_if_match version rq)) t =
    Done (key, created, version', t') ∧ value_at (key_of (set_args_of p header rq)) t' = Some (st_value rq).
Proof.
  intros Hwf Hsha E. set (a := set_args_of p header rq) in *. set (a' := set_args_of p header (with_if_match version rq)).
  assert (current = value_at (key_of a) t ∧ version = compute_version sha256 (value_at (key_of a) t)) as [-> ->].
  { destruct (memory_set_Raise _ _ _ _ _ E) as [(r & o & ? & _)|[[= <- <-] _]]; [done|done]. }
  split; [done|]. destruct (memory_set sha256 now' a' t) as [[[[key created] version'] t']|e] eqn:E'.
  - exists key, created, version', t'. split; [done|].
    destruct (memory_set_Done _ _ _ _ _ _ _ _ Hwf E') as (_ & _ & _ & _ & _ & _ & t1 & Hw1 & _ & (r & Hr & Hv & _) & ->).
    apply value_found. exists r. change (key_of a') with (key_of a) in *. split; [|done].
    case_match; [by rewrite collapse_same|done].
  - exfalso. destruct (memory_set_Raise _ _ _ _ _ E') as [(r & o & -> & He & Hf & Ho & Hne & Hd)|[-> [[Hi Hs]|(v & Hi & Hv & Hne)]]].
    + assert (owned_by_other (a_owner a) (sql_find (key_of a) t) = Some o) as Hown.
      { change (key_of a) with (key_of a'). rewrite Hf. unfold owned_by_other. rewrite Ho, Hd.
        rewrite (bool_decide_eq_false_2 (Some o = a_owner a)); [done|]. intros Hq. by apply Hne. }
      by rewrite (memory_set_owned now a t o He Hown) in E.
    + injection Hi as Hi. destruct Hs as [r Hr]. change (key_of a') with (key_of a) in Hr.
      unfold value_at in Hi. rewrite Hr in Hi. by apply (version_nonempty (r_value r)).
    + injection Hi as <-. by apply Hne.
Qed.

End again.

(** ** The theorems *)

Section theorems.
Context (sha256 : string → string) (expand : list string → list string).
Context (distance : vectors) (similarity : string → string → Q) (scfg : search_settings).
Context (cfg : auth_settings).

(** A caller with no right in a namespace, where rights are enforced. *)
Definition powerless (p : option principal) : Prop :=
  s_require_auth cfg = true ∧ ∃ pr, p = Some pr ∧ pd_is_admin pr = false ∧
    pd_read_namespaces pr = [] ∧ pd_write_namespaces pr = [].

Lemma powerless_denied p ns mode : powerless p → check_namespace_access cfg p ns mode false ≠ Done tt.
Proof.
  intros (Hr & pr & -> & Ha & Hrd & Hw). unfold check_namespace_access. rewrite Hr, Ha, Hrd, Hw. cbn [negb andb].
  case_match; [done|]. by destruct (mode == "read").
Qed.

(** C12. A call stays where it aims. Whatever its outcome, a call of a memory
    verb changes, instants of use apart, only rows of the one namespace and
    scope it names, and only after its guard and its namespace check passed:
    the right to write for a write, a forget and a deletion request, to read
    for a retirement. So mail, presence, seats and wakes are out of its reach
    as long as it spells its scope in small letters, and a login without
    rights changes nothing. *)
Theorem call_confined now p c s :
  validated c = true →
  let t := rs_table s in
  let t' := rs_table (handle sha256 expand distance similarity scfg cfg now p c s).2 in
  (∀ f, (∀ ns scope mode, aim c = Some (ns, scope, mode) → guarded c = true →
           check_namespace_access cfg p ns mode false = Done tt → away (lower ns) (lower scope) f) → untouched f t t') ∧
  ((∀ ns scope mode, aim c = Some (ns, scope, mode) → lower scope = scope) →
     untouched (λ k, k_scope k isin _RESERVED_SCOPES) t t') ∧
  (powerless p → ∀ f, untouched f t t').
Proof.
  intros Hv t t'. assert (confined cfg p c t t') as Hc.
  { pose proof (serve_effect sha256 expand distance similarity scfg cfg now p c s Hv) as H. unfold ends in H. subst t t'.
    destruct (handle _ _ _ _ _ _ _ _ _ _) as [r s']. exact (proj1 H). }
  split; [exact Hc|]. split.
  - intros Hl. apply Hc. intros ns scope mode Ha Hg _ k _ Hk. rewrite (Hl _ _ _ Ha) in Hk. rewrite Hk.
    destruct c; try done; cbn in Ha, Hg; injection Ha as <- <- <-.
    + by apply negb_true_iff in Hg.
    + by apply negb_true_iff in Hg.
    + by apply data_unreserved.
    + apply data_unreserved. bprop. set_solver.
  - intros Hp f. apply Hc. intros ns scope mode _ _ Ha. by apply powerless_denied in Ha.
Qed.

(** C17. What is changed is recorded. A call adds at most one row to the trail,
    under its own verb and the caller's name, and changes nothing but instants
    of use without adding it; a refused call changes nothing. The one
    exception is a write or a forget in project scope by a login that may
    read no namespace: it takes effect, and the look for other writers then
    refuses it; the forget goes unrecorded. The trail is that of the inserts
    tried; each is best effort, and the stored trail is [audit_log] of it. *)
Theorem call_recorded now p c s :
  validated c = true →
  let '(r, s') := handle sha256 expand distance similarity scfg cfg now p c s in
  let t := rs_table s in let t' := rs_table s' in
  ∃ new, rs_log s' = rs_log s ++ new ∧
    (new = [] ∨ ∃ action d, new = [audit_entry action p d None] ∧ action ∈ action_of c) ∧
    ((∀ f, untouched f t t') ∨ new ≠ [] ∨ halfway cfg p c t' r) ∧
    (∀ e, r = Raise e → (∀ f, untouched f t t') ∨ halfway cfg p c t' r).
Proof.
  intros Hv. pose proof (serve_effect sha256 expand distance similarity scfg cfg now p c s Hv) as H. unfold ends in H.
  destruct (handle _ _ _ _ _ _ _ _ _ _) as [r s']. destruct H as (_ & (new & Hl & Hn & Hr) & He). by exists new.
Qed.

(** ** What is served *)

(** A namespace a login may be served from: one it asked for and passed the
    check of, or one its grants stand for. *)
Definition servable (pr : principal) (ns : string) : Prop :=
  ∃ n, ns = lower n ∧
    (canonical_namespace cfg n ∈ canonical_namespace cfg <$> pd_read_namespaces pr ∨
     n ∈ canonical_namespace cfg <$> pd_read_namespaces pr).

(** A login held to its grants, and granted by name. *)
Definition bounded (pr : principal) : Prop :=
  s_require_auth cfg = true ∧ pd_is_admin pr = false ∧ "*" ∉ pd_read_namespaces pr.

Lemma passed_canonical pr ns :
  bounded pr → check_namespace_access cfg (Some pr) ns "read" false = Done tt →
  canonical_namespace cfg ns ∈ canonical_namespace cfg <$> pd_read_namespaces pr.
Proof.
  intros (Hr & Ha & Hw). unfold check_namespace_access. rewrite Hr, Ha. cbn [negb andb].
  rewrite (bool_decide_eq_true_2 ("read" ∈ _)) by set_solver. cbn [negb].
  rewrite (bool_decide_eq_true_2 ("read" = "read")) by done. rewrite (bool_decide_eq_false_2 _ Hw). cbn [orb].
  case_match eqn:E; [|done]. by bprop.
Qed.

Lemma passed_all pr l : bounded pr → check_namespaces_access cfg (Some pr) l "read" = Done tt →
  ∀ ns, ns ∈ l → canonical_namespace cfg ns ∈ canonical_namespace cfg <$> pd_read_namespaces pr.
Proof.
  intros Hb. induction l as [|x l IH]; [by intros _ ? ?%elem_of_nil|]. cbn [check_namespaces_access].
  destruct (check_namespace_access _ _ _ _ _) as [[]|] eqn:E; [|done]. cbn [obind].
  intros Hl ns [->|Hin]%elem_of_cons; [by apply passed_canonical|auto].
Qed.

Lemma read_searched pr ns nss s :
  bounded pr → ends (read_namespaces cfg (Some pr) ns nss) s (λ r _, ∀ l, r = Done l → ∀ x, x ∈ l → servable pr (lower x)).
Proof.
  intros Hb. eapply ends_mono; [apply read_spec|]. intros r s' [-> Hr] l Hl x Hx. specialize (Hr l Hl). exists x. split; [done|].
  destruct (explicit_namespaces ns nss) as [l'|].
  - destruct Hr as [_ Hr]. left. by eapply passed_all.
  - destruct Hb as (Hreq & Ha & Hw). right. unfold resolve_read_namespaces in Hr. rewrite (bool_decide_eq_false_2 _ Hw), Ha in Hr.
    cbn [orb] in Hr. case_match; [done|]. injection Hr as <-. by rewrite elem_of_dedup in Hx.
Qed.

Lemma got_namespace now ns key scope user project t m t' :
  memory_get sha256 now ns key scope user project t = (Some m, t') → k_ns (i_pk m) = lower ns.
Proof.
  unfold memory_get. destruct (get_row now _ t) as [r|] eqn:E; [|done]. intros [= <- _]. cbn [i_pk].
  apply get_row_spec in E as (_ & E & _). unfold same_logical in E. bprop. tauto.
Qed.

Lemma hits_in now a t hits t' h :
  memory_search distance similarity scfg now a t = Some (hits, t') → h ∈ hits →
  ∃ r, r ∈ t_rows t ∧ eligible now a r = true ∧ h_pk h = r_pk r ∧ h_value h = r_value r.
Proof.
  intros E Hh. pose proof (search_outcome distance similarity scfg now a t) as H. rewrite E in H.
  pose proof (rows_in_reach distance similarity scfg now a t) as Hin.
  destruct H as [H _]. assert (Some h ∈ Some <$> hits) as Hs by (apply list_elem_of_fmap; eauto). rewrite H in Hs.
  apply list_elem_of_fmap in Hs as (r & Hr & Hrow). apply Hin in Hrow as (Ht & He & _). exists r. split_and!; [done..| |].
  all: unfold hit_of in Hr; destruct (combined_score _ _ _ _ _); [|done]; by injection Hr as ->.
Qed.

(** C13. No row is answered from outside the grants. Where rights are enforced,
    a login that is no admin and holds no "*" gets rows only of namespaces its
    read grants stand for: the row a get answers, every result row of a
    search, every key of a listing, whether it named namespaces or left the
    choice to the server. The banner of unread mail that answers carry is not
    among them: it is not gated ([banner_ungated]). *)
Theorem served_within_grants now pr s :
  bounded pr →
  (∀ rq m, (get_memory sha256 cfg now (Some pr) rq s).1 = Done (GetFound m) → servable pr (k_ns (i_pk m))) ∧
  (∀ rq a h, (search_memory sha256 expand distance similarity scfg cfg now (Some pr) rq s).1 = Done a →
     h ∈ rr_results a → servable pr (k_ns (h_pk (rh_hit h)))) ∧
  (∀ rq a e, (list_keys cfg now (Some pr) rq s).1 = Done a → e ∈ rk_keys a → servable pr (k_ns (e_pk e))).
Proof.
  intros Hb. split_and!.
  - intros rq m. apply (ends_fst _ _ (λ r, r = Done (GetFound m) → _)). unfold get_memory, _reject_wake_read. go.
    case_match; go; [done|]. eapply ends_mono; [apply access_spec|]. intros [[]|e] s1 [-> Ha]; [|done]. specialize (Ha eq_refl). go.
    destruct (memory_get _ _ _ _ _ _ _ _) as [[m'|] t'] eqn:E; go.
    + intros [= <-]. apply got_namespace in E. rewrite E. exists (gt_namespace rq). split; [done|]. left. by apply passed_canonical.
    + eapply ends_mono; [apply other_writers_spec|]. by intros [w|e] s1 _; go.
  - intros rq a h. apply (ends_fst _ _ (λ r, r = Done a → _ → _)). unfold search_memory, _reject_wake_read. go.
    case_match; go; [done|]. eapply ends_mono; [apply read_searched; exact Hb|]. intros [l|e] s1 Hl; [|done]. specialize (Hl l eq_refl). go.
    destruct (memory_search _ _ _ _ _ _) as [[hits t']|] eqn:E; go; [|done].
    eapply ends_mono; [apply banner_spec|]. intros r s2 [-> [b ->]]. go. intros [= <-] (h0 & -> & Hh)%list_elem_of_fmap.
    cbn [rh_hit]. destruct (hits_in _ _ _ _ _ _ E Hh) as (r & _ & He & -> & _).
    unfold eligible, search_match in He. bprop. destruct He as [[[[[[_ He] _] _] _] _] _].
    apply list_elem_of_fmap in He as (n & Hn & Hin). fold (r_ns r). rewrite Hn. by apply Hl.
  - intros rq a e. apply (ends_fst _ _ (λ r, r = Done a → _ → _)). unfold list_keys, _reject_wake_read. go.
    case_match; go; [done|]. eapply ends_mono; [apply read_searched; exact Hb|]. intros [l|x] s1 Hl; [|done]. specialize (Hl l eq_refl). go.
    unfold memory_keys. go. intros [= <-] (r & -> & Hr)%list_elem_of_fmap.
    apply in_take in Hr. unfold order_by_key in Hr. rewrite elem_of_sort_by in Hr.
    apply elem_of_sql_select in Hr as [Hr _]. unfold keys_match in Hr. bprop. destruct Hr as [[[[[[_ Hr] _] _] _] _] _].
    apply list_elem_of_fmap in Hr as (n & Hn & Hin). cbn [e_pk entry_of]. fold (r_ns r). rewrite Hn. by apply Hl.
Qed.

(** ** The trail, as it is stored *)

Lemma audit_log_snoc stored tried e :
  audit_log stored (tried ++ [e]) = audit_log stored tried ++ (if stored (length tried) then [e] else []).
Proof.
  unfold audit_log. rewrite imap_app, omap_app. f_equal. cbn. rewrite Nat.add_0_r. by destruct (stored (length tried)).
Qed.

(** With every insert going through the trail is what was tried; one that fails
    is missing from it, and changes nothing else: the call that tried it
    answers as it would have. *)
Lemma audit_log_all stored tried : (∀ n, stored n = true) → audit_log stored tried = tried.
Proof.
  intros H. induction tried as [|e tried IH] using rev_ind; [done|]. by rewrite audit_log_snoc, IH, H.
Qed.

Lemma audit_log_part stored tried : audit_log stored tried `sublist_of` tried.
Proof.
  induction tried as [|e tried IH] using rev_ind; [done|]. rewrite audit_log_snoc. apply sublist_app; [done|].
  destruct (stored _); [done|apply sublist_nil_l].
Qed.

(** ** Losing a race, and trying again *)

(** What a refusal for the version says of the call. *)
Definition conflicted (now : Z) (p : option principal) (header : string → option string) (rq : set_request) (s : rstate)
    (current : option string) (version : string) (s' : rstate) : Prop :=
  s' = s ∧ (st_scope rq isin _RESERVED_SCOPES) = false ∧ check_namespace_access cfg p (st_namespace rq) "write" false = Done tt ∧
  memory_set sha256 now (set_args_of p header rq) (rs_table s) = Raise (VersionConflict current version).

Lemma set_conflict now p header rq s current version :
  ends (set_memory sha256 expand cfg now p header rq) s (λ r s', r = Raise (Refusal 409 (ChangedSince current version)) →
    conflicted now p header rq s current version s').
Proof.
  unfold set_memory, _reject_reserved_scope. go. case_match eqn:Er; go; [done|].
  unfold access, lift. unfold ends at 1. destruct (check_namespace_access _ _ _ _ _) as [[]|e] eqn:Ha; cbn beta iota; [go|by destruct e].
  destruct (memory_set _ _ _ _) as [[[[key created] v] t']|[]] eqn:Em; go; try done; [|by intros [= <- <-]].
  eapply ends_mono; [apply banner_spec|]. intros r s1 [-> [b ->]]. go.
  eapply ends_mono; [apply other_writers_spec|]. intros [w|e] s1 [-> He]; go; [done|].
  intros [= Hq]. destruct (He e eq_refl) as (_ & a & _ & ->). by destruct a.
Qed.

(** C31. A lost race can be won. A write refused because the value changed left
    everything as it was and was told what is stored; the same write sent
    again with the version it was told, before anybody else writes, goes
    through: the value sent is the one stored. Only a caller that may read no
    namespace gets another refusal, after the value was stored. *)
Theorem conflict_then_retry now now' p header rq s current version s' :
  wf (rs_table s) → (∀ v, sha256 v ≠ "") →
  set_memory sha256 expand cfg now p header rq s = (Raise (Refusal 409 (ChangedSince current version)), s') →
  let k := _normalize_key_fields (st_namespace rq) (st_key rq) (st_scope rq) (st_user_id rq) (st_project rq) in
  s' = s ∧ current = value_at k (rs_table s) ∧
  let '(r, s2) := set_memory sha256 expand cfg now' p header (with_if_match version rq) s' in
  value_at k (rs_table s2) = Some (st_value rq) ∧
  ∀ e, r = Raise e → ∃ a, reads_nothing cfg p (rs_table s2) = Some a ∧ e = of_access a.
Proof.
  intros Hwf Hsha H k. assert (conflicted now p header rq s current version s') as (-> & Hg & Ha & Hm).
  { pose proof (set_conflict now p header rq s current version) as He. unfold ends in He. rewrite H in He. by apply He. }
  split; [done|]. destruct (retry_passes sha256 now now' p header rq (rs_table s) current version Hwf Hsha Hm) as [Hcur (key & created & v & t' & Hd & Hv)].
  split; [exact Hcur|].
  assert (ends (set_memory sha256 expand cfg now' p header (with_if_match version rq)) s (λ r s2,
    value_at k (rs_table s2) = Some (st_value rq) ∧ ∀ e, r = Raise e → ∃ a, reads_nothing cfg p (rs_table s2) = Some a ∧ e = of_access a)) as He; [|exact He].
  unfold set_memory, _reject_reserved_scope. cbn [st_scope st_namespace with_if_match]. rewrite Hg. go.
  unfold access. rewrite Ha. unfold lift at 1, ends at 1. cbn beta iota. go. rewrite Hd. go.
  eapply ends_mono; [apply banner_spec|]. intros r s1 [-> [b ->]]. go.
  eapply ends_mono; [apply other_writers_spec|]. intros [w|e] s1 [-> He]; go; (split; [done|]); [done|].
  intros e' [= <-]. by destruct (He e eq_refl) as (_ & He').
Qed.

(** ** Retiring twice *)

Lemma target_key ns key sc target project r :
  supersede_target [ns] key sc target project r = true → r_pk r = PKey (lower ns) (lower key) sc (lower target) project.
Proof.
  unfold supersede_target. intros H. bprop. destruct H as [[[[Hn Hk] Hs] Hu] Hp]. apply list_elem_of_singleton in Hn.
  destruct r as [? [] ?]. cbn in *. by subst.
Qed.

(** After a retirement the stamp found under the target is its own. *)
Lemma stamp_is_ours now ns key project target actor reason rk scope t r t' :
  wf t → memory_supersede now [ns] key project target actor (Some reason) rk scope t = Done (Some r, t') →
  ∃ st, supersede_stamp [ns] key project target scope t' = Some st ∧ si_at st = Some (JTime now) ∧
    si_by st = Some (jopt actor) ∧ si_reason st = Some (JStr (strip reason)).
Proof.
  intros Hwf H. unfold memory_supersede, supersede_stamp in *. set (sc := lower _) in *. case_match; [done|].
  set (pr := if sc == "shared" then None else lower <$> project) in *. case_match; [done|]. injection H as Hr <-.
  set (q := λ r, supersede_target [ns] key sc target pr r && (or_empty (status_of r) != "superseded")) in *.
  set (f := λ r, set_meta (md_merge (r_meta r) (supersede_meta now actor (or_empty (Some reason)) rk)) r) in *.
  destruct (head (sql_select q t)) as [x|] eqn:Ex; [|done]. injection Hr as <-.
  apply head_Some_elem_of, elem_of_sql_select in Ex as [Hq Hx].
  assert (wf (sql_update q f t)) as Hwf' by (apply wf_update; [unfold f; apply _|done]).
  assert (f x ∈ t_rows (sql_update q f t)) as Hin by (apply elem_of_update_where; exists x; by rewrite Hq).
  assert (supersede_target [ns] key sc target pr (f x) = true) as Ht by (unfold q in Hq; by apply andb_true_iff in Hq as [Hq _]).
  assert (status_of (f x) = Some "superseded") as Hst.
  { unfold status_of, f. cbn [set_meta r_meta]. by rewrite md_text_merge, supersede_meta_status. }
  destruct (head _) as [y|] eqn:Ey.
  2: { exfalso. apply head_None, select_nil with (x := f x) in Ey; [|done]. by rewrite Ht, Hst in Ey. }
  assert (y = f x) as ->.
  { apply head_Some_elem_of, elem_of_sql_select in Ey as [Hy Hyin]. apply andb_true_iff in Hy as [Hy _].
    apply target_key in Hy, Ht. eapply wf_row_eq; eauto. congruence. }
  eexists. split; [done|]. cbn [si_at si_by si_reason]. unfold f. cbn [set_meta r_meta]. rewrite !md_get_merge.
  assert (∀ k v, list_to_map (M := jobj) [("status", JStr "superseded"); ("superseded_at", JTime now);
    ("superseded_by_principal", jopt actor); ("superseded_reason", JStr (strip reason))] !! k = Some v → k ≠ "superseded_by_key" →
    supersede_meta now actor (or_empty (Some reason)) rk !! k = Some v) as Hm.
  { intros k v Hk Hne. unfold supersede_meta. case_match; [by rewrite lookup_insert_ne|done]. }
  rewrite (Hm "superseded_at" (JTime now)), (Hm "superseded_by_principal" (jopt actor)),
    (Hm "superseded_reason" (JStr (strip reason))) by (first [done|cbn [list_to_map foldr fst snd]; by simplify_map_eq]).
  done.
Qed.

Definition same_target (rq rq' : supersede_request) : Prop :=
  su_namespace rq' = su_namespace rq ∧ su_key rq' = su_key rq ∧ su_scope rq' = su_scope rq ∧ su_project rq' = su_project rq ∧
  su_target_user_id rq' = su_target_user_id rq.

Lemma supersede_done now p rq s resp s' :
  supersede_memory cfg now p rq s = (Done resp, s') →
  ∃ r, memory_supersede now [su_namespace rq] (su_key rq) (su_project rq) (su_target_user_id rq) (name_of p)
         (Some (su_reason rq)) (su_replacement_key rq) (Some (su_scope rq)) (rs_table s) = Done (Some r, rs_table s') ∧ resp = row_answer r.
Proof.
  intros H. assert (ends (supersede_memory cfg now p rq) s (λ o s1, o = Done resp → ∃ r, memory_supersede now [su_namespace rq]
    (su_key rq) (su_project rq) (su_target_user_id rq) (name_of p) (Some (su_reason rq)) (su_replacement_key rq)
    (Some (su_scope rq)) (rs_table s) = Done (Some r, rs_table s1) ∧ resp = row_answer r)) as He.
  2: { unfold ends in He. rewrite H in He. by apply He. }
  unfold supersede_memory. go. eapply ends_mono; [apply access_spec|]. intros [[]|e] s1 [-> Ha]; [|done]. go.
  destruct (memory_supersede _ _ _ _ _ _ _ _ _) as [[[r|] t']|[]] eqn:Em; go; try done; [|by case_match; go].
  intros [= <-]. by exists r.
Qed.

(** A retirement leaves a receipt. Once a row was retired, whoever may read
    its namespace and asks again is told that it already was: when, by whom
    and why, exactly as the first call had it; and nothing changes. *)
Lemma retired_receipt now now' p p' rq rq' s resp s' :
  wf (rs_table s) → same_target rq rq' → nonempty (strip (su_reason rq')) = true →
  check_namespace_access cfg p' (su_namespace rq) "read" false = Done tt →
  supersede_memory cfg now p rq s = (Done resp, s') →
  ∃ stamp s2, supersede_memory cfg now' p' rq' s' = (Raise (Refusal 404 (AlreadyRetired stamp)), s2) ∧ rs_table s2 = rs_table s' ∧
    si_at stamp = Some (JTime now) ∧ si_by stamp = Some (jopt (name_of p)) ∧ si_reason stamp = Some (JStr (strip (su_reason rq))).
Proof.
  intros Hwf (Hn & Hk & Hs & Hp & Hu) Hreason Ha H. apply supersede_done in H as (r & Hm & ->).
  destruct (stamp_is_ours _ _ _ _ _ _ _ _ _ _ _ _ Hwf Hm) as (st & Hst & H1 & H2 & H3).
  destruct (supersede_idempotent now now' _ _ _ _ _ _ _ _ (name_of p') (Some (su_reason rq')) (su_replacement_key rq') _ _ _ Hwf Hm Hreason)
    as (_ & _ & Hagain & _).
  exists st. unfold supersede_memory, access, rbind. rewrite Hn, Hk, Hs, Hp, Hu, Ha. cbn [lift table_of]. rewrite Hagain. cbn.
  rewrite Hst. by eexists.
Qed.
End theorems.

(** ** On concrete states *)

Definition ex_auth : auth_settings := AuthSettings true "" "" None None "" "127.0.0.1".

Definition ex_login (name : string) (reads writes : list string) : principal :=
  Principal 7 name "agent" false true false reads writes true 0 None.

Definition ex_sha (s : string) : string := "v:" +:+ s.

Definition ex_note : row :=
  Row 1 (PKey "notes" "plan" "project" "ana" (Some "tide")) "first" "" "" "plan first" 10 10 None None (Some "ana") None.

Definition ex_state : rstate := RState (Table [ex_note] 2) [].

Definition ex_write (scope : string) (if_match : option string) : set_request :=
  SetRequest "notes" "plan" "second" scope "ana" (Some "tide") "" "" 0 None None if_match [].

Definition no_headers : string → option string := λ _, None.

Definition ex_distance0 : vectors := exact_scan (λ _ _, Some 0%Q).

Lemma ex_state_wf : wf (rs_table ex_state).
Proof. split_and!; [apply NoDup_singleton..|]. by repeat constructor. Qed.

Lemma call_confined_witness :
  validated (SetCall no_headers (ex_write "project" None)) = true ∧
  let s' := (handle ex_sha id ex_distance0 (λ _ _, 0%Q) ex_search_cfg ex_auth 20 (Some (ex_login "ana" ["notes"] ["notes"]))
              (SetCall no_headers (ex_write "project" None)) ex_state).2 in
  ((λ r, r_value r) <$> t_rows (rs_table s') = ["second"]) ∧
  untouched (λ k, k_scope k isin _RESERVED_SCOPES) (rs_table ex_state) (rs_table s').
Proof.
  split; [done|]. split; [vm_compute; reflexivity|].
  destruct (call_confined ex_sha id ex_distance0 (λ _ _, 0%Q) ex_search_cfg ex_auth 20 (Some (ex_login "ana" ["notes"] ["notes"]))
    (SetCall no_headers (ex_write "project" None)) ex_state eq_refl) as (_ & H & _).
  apply H. intros ns scope mode [= <- <- <-]. by vm_compute.
Defined.

Lemma call_recorded_witness :
  let c := SetCall no_headers (ex_write "project" None) in
  let p := Some (ex_login "ana" ["notes"] ["notes"]) in
  lg_action <$> rs_log (handle ex_sha id ex_distance0 (λ _ _, 0%Q) ex_search_cfg ex_auth 20 p c ex_state).2 = ["memory.set"] ∧
  let '(r, s') := handle ex_sha id ex_distance0 (λ _ _, 0%Q) ex_search_cfg ex_auth 20 p c ex_state in
  ∃ new, rs_log s' = rs_log ex_state ++ new.
Proof.
  split; [vm_compute; reflexivity|].
  destruct (call_recorded ex_sha id ex_distance0 (λ _ _, 0%Q) ex_search_cfg ex_auth 20 (Some (ex_login "ana" ["notes"] ["notes"]))
    (SetCall no_headers (ex_write "project" None)) ex_state eq_refl) as (new & H & _). by exists new.
Defined.

Lemma ex_bounded : bounded ex_auth (ex_login "bo" ["Notes"] []).
Proof. split_and!; [done..|]. by apply (bool_decide_eq_false_1 _); vm_compute. Qed.

Lemma served_within_grants_witness :
  let rq := RowRequest "notes" "plan" "project" "ana" (Some "tide") in
  ∃ m, (get_memory ex_sha ex_auth 20 (Some (ex_login "bo" ["notes"] [])) rq ex_state).1 = Done (GetFound m) ∧
    servable ex_auth (ex_login "bo" ["notes"] []) (k_ns (i_pk m)).
Proof.
  eexists. split; [vm_compute; reflexivity|].
  eapply (proj1 (served_within_grants ex_sha id ex_distance0 (λ _ _, 0%Q) ex_search_cfg ex_auth 20 (ex_login "bo" ["notes"] []) ex_state
    ltac:(split_and!; [done..|by apply (bool_decide_eq_false_1 _); vm_compute])) (RowRequest "notes" "plan" "project" "ana" (Some "tide"))).
  vm_compute. reflexivity.
Defined.

Lemma conflict_then_retry_witness :
  let p := Some (ex_login "ana" ["notes"] ["notes"]) in
  set_memory ex_sha id ex_auth 20 p no_headers (ex_write "project" (Some "v:stale")) ex_state =
    (Raise (Refusal 409 (ChangedSince (Some "first") "v:first")), ex_state) ∧
  Some "first" = value_at (PKey "notes" "plan" "project" "ana" (Some "tide")) (rs_table ex_state).
Proof.
  assert (set_memory ex_sha id ex_auth 20 (Some (ex_login "ana" ["notes"] ["notes"])) no_headers (ex_write "project" (Some "v:stale")) ex_state =
    (Raise (Refusal 409 (ChangedSince (Some "first") "v:first")), ex_state)) as H by (vm_compute; reflexivity).
  split; [exact H|].
  destruct (conflict_then_retry ex_sha id ex_auth 20 30 _ _ _ _ _ _ _ ex_state_wf ltac:(intros v; discriminate) H) as (_ & Hc & _).
  exact Hc.
Defined.

Definition ex_retire (reason : string) : supersede_request := SupersedeRequest "notes" "plan" "project" (Some "tide") "ana" reason None.

(** ** What the code does otherwise *)

(** The look for other writers is there to warn and must never fail a request,
    its comment says. A login that may write but read nothing sees its forget
    refused after the row is gone, with no trace in the trail; and its get of
    a missing row answers 500. *)
Lemma probe_fails_forget :
  let p := Some (ex_login "ana" [] ["notes"]) in
  let rq := RowRequest "notes" "plan" "project" "ana" (Some "tide") in
  (forget_memory ex_auth 20 p rq ex_state) = (Raise (Refusal 403 (NoNamespaceAccess (Http 403))), RState (Table [] 2) []) ∧
  (get_memory ex_sha (AuthSettings false "" "" None None "" "127.0.0.1") 20 p
     (RowRequest "notes" "absent" "project" "ana" (Some "tide")) ex_state).1 = Raise internal_error.
Proof. split; vm_compute; reflexivity. Qed.

(** The guard of the reserved scopes compares the scope as spelled, the write
    lower-cases it: spelled "INBOX" it forges a letter in anybody's mailbox,
    and a forget spelled so deletes one. *)
Lemma reserved_scope_bypassed :
  let p := Some (ex_login "ana" ["fleet"] ["fleet"]) in
  let forge := SetRequest "fleet" "inbox/forged" "do it now" "INBOX" "bo" None "" "" 0 None None None [] in
  let s' := (set_memory ex_sha id ex_auth 20 p no_headers forge ex_state).2 in
  (m_body <$> (inbox_list id ["bo"] (Some "bo") true 5 false true false false (rs_table s')).1 = ["do it now"]) ∧
  rs_table (forget_memory ex_auth 30 p (RowRequest "fleet" "inbox/forged" "INBOX" "bo" None) s').2 = Table [ex_note] 3.
Proof. split; vm_compute; reflexivity. Qed.

(** A wake read is refused in small letters only. *)
Lemma wake_read_bypassed :
  _reject_wake_read "wake" ex_state = (Raise (Refusal 400 (ReservedScope "wake")), ex_state) ∧
  _reject_wake_read "Wake" ex_state = (Done tt, ex_state).
Proof. split; vm_compute; reflexivity. Qed.

(** A write answers the unread mail of any listen set it is given, whether its
    login may read mail or not. *)
Lemma banner_ungated :
  let p := Some (ex_login "ana" [] ["notes"]) in
  let mail := Row 2 (PKey "fleet" "inbox/1" "inbox" "owner" None) "for your eyes" "" "" "" 15 15 None None None None in
  let rq := SetRequest "notes" "k" "v" "user" "ana" None "" "" 0 (Some ["owner"]) None None [] in
  check_namespace_access ex_auth p INBOX_NAMESPACE "read" false = Raise (Http 403) ∧
  ∃ a b, (set_memory ex_sha id ex_auth 20 p no_headers rq (RState (Table [ex_note; mail] 3) [])).1 = Done a ∧
    ro_banner a = Some b ∧ m_body <$> bn_shown b = ["for your eyes"].
Proof. split; [by vm_compute|]. do 2 eexists. split; [vm_compute; reflexivity|]. split; [reflexivity|]. by vm_compute. Qed.

(** A shared write that spells its scope with a capital is stored in the shared
    scope, but under "default", where no shared search looks. *)
Lemma shared_case_default :
  let b := SetBody "notes" "k" "v" (Some "Shared") None None None None None None None None [] in
  ∃ rq, validate_set ex_auth ∅ b = Some rq ∧ st_user_id rq = "default" ∧
    ∃ a s', set_memory ex_sha id ex_auth 20 None no_headers rq ex_state = (Done a, s') ∧
      sql_find (PKey "notes" "k" "shared" "default" None) (rs_table s') ≠ None.
Proof. eexists. split; [vm_compute; reflexivity|]. split; [reflexivity|]. do 2 eexists. split; [vm_compute; reflexivity|]. by vm_compute. Qed.
