(* ===== verification/InboxRoutes.v ===== *)
(** The routes of mail, wakes and presence (src/server/routers/memory.py) and
    the advice attached to a listing (src/server/services/inbox_guidance.py).
    Each is the whole handler: membership check, listen set, the owner relay's
    fence, the service called and the answer. The long-poll wait is a loop
    over the instants it polls at, each with the table as it is then and
    whether the server was asked to stop during the sleep that follows;
    waited times are in milliseconds. The wording of the advice is not
    modelled, only which advice is given and its numbers. *)

From stdpp Require Import base gmap list strings.
From Stdlib Require Import ZArith Lia Ascii.
From S2P Require Import Prelude PyString Json Store Identity ProjectAlias AddressRoles Principals Auth Memory Search Inbox.
From S2P Require Import WatchClaim Seats Presence Delivery Requests MemoryRoutes.

Open Scope Z_scope.
Open Scope tiding_scope.

(** ** Bodies *)

Record list_body := ListBody {
  bl_listen_set : list string;
  bl_reader_identity : option string;
  bl_unread_only : bool;
  bl_include_resolved : bool;
  bl_limit : Z;
  bl_newest_first : bool;
  bl_unhandled_only : bool;
  bl_mark_delivered : bool
}.

Definition validate_list (b : list_body) : option list_body :=
  checked (few (Some (bl_listen_set b)) && at_most_opt MAX_ADDR (bl_reader_identity b) && between 1 MAX_INBOX_LIMIT (bl_limit b)) b.

(** [reader_not_empty]: the identity stripped, a blank one refused. *)
Definition reader_not_empty (v : string) : option string := checked (nonempty (strip v)) (strip v).
Definition thread_not_empty (v : string) : option string := checked (nonempty (strip v)) (strip v).

Record wait_body := WaitBody {
  bw_listen_set : list string;
  bw_reader_identity : option string;
  bw_timeout_ms : Z;
  bw_since : option Z;
  bw_include_fyi : bool
}.

(** [timeout_bounds] *)
Definition validate_wait (b : wait_body) : option wait_body := checked (between 0 300000 (bw_timeout_ms b)) b.

Record wake_post := WakePost {
  bv_to : list string;
  bv_ref : string;
  bv_note : string;
  bv_from : option string;
  bv_relayed_from : option string
}.

Definition validate_wake (b : wake_post) : option wake_post :=
  checked (at_most MAX_ADDR (bv_ref b) && at_most 280 (bv_note b) && at_most_opt MAX_ADDR (bv_from b) &&
           at_most_opt MAX_ADDR (bv_relayed_from b)) b.

Definition PRESENCE_STATES : list string := ["running"; "awaiting-input"; "done"].

Record presence_body := PresenceBody {
  bp_identity : string;
  bp_project : string;
  bp_state : string;
  bp_provider : option string;
  bp_overlays : list string;
  bp_channels : list string;
  bp_session_nonce : option string;
  bp_host : option string;
  bp_activity : bool;
  bp_watcher : bool;
  bp_farewell : bool
}.

(** [presence_not_empty] on identity and project, [state_valid], the lengths. *)
Definition validate_presence (b : presence_body) : option presence_body :=
  let identity := lower (strip (bp_identity b)) in
  let project := lower (strip (bp_project b)) in
  checked (nonempty identity && nonempty project && at_most MAX_ADDR identity && at_most MAX_ADDR project &&
           (bp_state b isin PRESENCE_STATES) && at_most_opt MAX_ADDR (bp_provider b) && few (Some (bp_overlays b)) &&
           few (Some (bp_channels b)) && at_most_opt MAX_ADDR (bp_host b))
    (PresenceBody identity project (bp_state b) (bp_provider b) (bp_overlays b) (bp_channels b) (bp_session_nonce b)
       (bp_host b) (bp_activity b) (bp_watcher b) (bp_farewell b)).

(** ** Advice *)

(** The listen set an identity suggests, when the client sent none. *)
Definition derive_listen_set (reader : option string) : list string :=
  match reader with
  | None => []
  | Some r =>
      if negb (nonempty r) then []
      else if startswith "machine:" r then [r]
      else match split1 "@" r with
           | (project, Some host) => [project; "machine:" +:+ host; r]
           | (_, None) => [r]
           end
  end.

(** The numbers of the digest line: open, stale if any, hidden if any. *)
Record digest_numbers := DigestNumbers { dl_open : nat; dl_stale : option nat; dl_hidden : option nat }.

Definition positive (n : nat) : option nat := if (n =? 0)%nat then None else Some n.

Definition _digest_line (d : digest) : digest_numbers :=
  DigestNumbers (d_open d) (positive (d_stale d)) (positive (d_resolved d + d_superseded d)%nat).

(** Which advice a listing carries: an empty view with what it hides, or how
    to handle the messages shown. *)
Inductive list_advice :=
| EmptyView (digest : digest_numbers) (estate : option nat) (nothing_open : bool)
| HandleThem (digest : digest_numbers) (stale : option nat).

Definition inbox_list_guidance (msg_count stale_count : nat) (d : digest) : list_advice :=
  if (msg_count =? 0)%nat then
    let drained := negb (d_resolved d + d_superseded d =? 0)%nat in
    EmptyView (_digest_line d) (positive (d_open d)) (drained && (d_open d =? 0)%nat)
  else HandleThem (_digest_line d) (positive stale_count).

(** [round(x / unit)] to the nearest, ties to the even neighbour. *)
Definition round_even (x unit : Z) : Z :=
  let q := x / unit in
  let twice := 2 * (x - q * unit) in
  if twice <? unit then q else if unit <? twice then q + 1 else if Z.even q then q else q + 1.

(** [is_stale]: the age in tenths of an hour has reached the threshold. *)
Definition is_stale (now : Z) (m : inbox_message) : bool :=
  10 * INBOX_STALE_AFTER_HOURS <=? round_even (now - m_created_at m) 360.

(** ** Answers *)

Record list_response := ListResponse { rl_messages : list inbox_message; rl_advice : list_advice }.
Record summary_response := SummaryResponse { ry_senders : list (string * nat * Z); ry_total : nat }.

Record wait_response := WaitResponse {
  wr_timed_out : bool;
  wr_messages : list inbox_message;
  wr_waited_tenths : Z;
  wr_wakes : list wake_event
}.

Record presence_response := PresenceResponse {
  rp_identity : string;
  rp_state : string;
  rp_collision : option collision
}.

(** ** The long poll *)

Record wait_tick := WaitTick {
  wt_now : Z;          (* the date of the poll *)
  wt_waited : Z;       (* milliseconds since the request *)
  wt_table : table;
  wt_stopping : bool   (* asked to stop during the sleep *)
}.

Definition poll_every : Z := 2000.

(** [min(poll_every, max(0.05, timeout - waited))] *)
Definition sleep_for (timeout_ms waited : Z) : Z := Z.min poll_every (Z.max 50 (timeout_ms - waited)).

Section routes.
Context (iso : Z → string) (expand : list string → list string) (cfg : auth_settings).

(** [{a.lower() for a in listen_set}] and the reader's identity. *)
Definition own_echo (listen_set : list string) (reader : option string) : list string :=
  (lower <$> listen_set) ++ (if truthy reader then [norm reader] else []).

(** Mail newer than the cursor, from somebody else, not merely informative. *)
Definition waking (own : list string) (since : Z) (include_fyi : bool) (m : inbox_message) : bool :=
  (since <? m_created_at m) && negb (norm (m_from m) isin own) && (include_fyi || (or_empty (m_intent m) != "fyi")).

Definition fresh_at (b : wait_body) (listen_set : list string) (since : Z) (tk : wait_tick) : list inbox_message :=
  select (waking (own_echo listen_set (bw_reader_identity b)) since (bw_include_fyi b))
    (inbox_list expand listen_set (bw_reader_identity b) true 50 false true false false (wt_table tk)).1.

Definition wakes_at (b : wait_body) (listen_set : list string) (since : Z) (tk : wait_tick) : list wake_event :=
  wake_list_fresh expand (wt_now tk) listen_set (Some since) (bw_reader_identity b) (wt_table tk).

(** [None]: the ticks given are used up and the request still waits. *)
Fixpoint wait_loop (b : wait_body) (listen_set : list string) (since : Z) (ticks : list wait_tick) : option wait_response :=
  match ticks with
  | [] => None
  | tk :: rest =>
      let fresh := fresh_at b listen_set since tk in
      let wakes := wakes_at b listen_set since tk in
      if negb (length fresh =? 0)%nat || negb (length wakes =? 0)%nat
      then Some (WaitResponse false (sort_by (λ x y, m_created_at x <=? m_created_at y) fresh)
                   (round_even (wt_waited tk) 100) wakes)
      else if bw_timeout_ms b <=? wt_waited tk then Some (WaitResponse true [] (round_even (wt_waited tk) 100) [])
      else if wt_stopping tk then Some (WaitResponse true [] (round_even (wt_waited tk) 100) [])
      else wait_loop b listen_set since rest
  end.

(** ** Handlers *)

(** The check every protocol verb makes. *)
Definition member (p : option principal) : route unit := access cfg p INBOX_NAMESPACE "read".

Definition listening_on (listen_set : list string) : route (list string) := λ s,
  match validate_listen_set (Some listen_set) with
  | Done l => (Done l, s)
  | Raise _ => (Raise (Refusal 422 (Because "listen_set")), s)
  end.

(** OWNER-RELAY-1: the addresses of a relay's listen set that are not the owner's. *)
Definition foreign_to_relay (p : option principal) (listen_set : list string) : list string :=
  match p with
  | Some pr => if is_owner_relay cfg pr
               then select (λ a, before "@" a != norm (s_owner_principal_name cfg)) listen_set else []
  | None => []
  end.

Definition list_inbox (now : Z) (p : option principal) (b : list_body) : route list_response :=
  member p ;;;
  listen_set ⇐ listening_on (bl_listen_set b) ;;
  match foreign_to_relay p listen_set with
  | _ :: _ => refuse 403 (Because "only the owner's inbox")
  | [] =>
      t ⇐ table_of ;;
      let '(messages, t') := inbox_list expand listen_set (bl_reader_identity b) (bl_unread_only b) (Z.to_nat (bl_limit b))
                               (bl_include_resolved b) (bl_newest_first b) (bl_unhandled_only b) (bl_mark_delivered b) t in
      store t' ;;;
      answer (ListResponse messages
        (inbox_list_guidance (length messages) (length (select (is_stale now) messages)) (inbox_counts expand now listen_set t')))
  end.

Definition inbox_unread_summary (p : option principal) (listen_set : list string) (reader : string) : route summary_response :=
  member p ;;;
  listen_set ⇐ listening_on listen_set ;;
  t ⇐ table_of ;;
  let senders := inbox_unread_by_sender expand listen_set reader t in
  answer (SummaryResponse senders (sum_list ((λ e, e.1.2) <$> senders))).

(** One message's state changed by id; 404 when there is none. *)
Definition on_message (p : option principal) (message_id : string) (op : table → bool * table) : route string :=
  member p ;;;
  t ⇐ table_of ;;
  let '(updated, t') := op t in
  store t' ;;;
  if updated then answer message_id else refuse 404 (NotThere message_id).

Definition ack_inbox (p : option principal) (message_id reader : string) : route string :=
  on_message p message_id (inbox_ack message_id reader).

Definition archive_inbox (p : option principal) (message_id reader : string) : route string :=
  on_message p message_id (inbox_archive message_id (Some reader)).

Definition resolve_inbox (now : Z) (p : option principal) (message_id reader : string) : route string :=
  on_message p message_id (inbox_resolve now message_id (Some reader)).

Definition resolve_inbox_thread (now : Z) (p : option principal) (thread_id : string) (listen_set : list string)
    (reader : option string) : route nat :=
  member p ;;;
  t ⇐ table_of ;;
  let '(n, t') := inbox_resolve_thread expand now thread_id listen_set reader t in
  store t' ;;;
  answer n.

Definition send_wake (now : Z) (p : option principal) (b : wake_post) (uids : nat → string) : route (list string) :=
  member p ;;;
  t ⇐ table_of ;;
  match wake_send now (WakeArgs (bv_to b) (bv_ref b) (bv_note b) (bv_from b) (name_of p) (bv_relayed_from b)) uids t with
  | Done (ids, t') => store t' ;;; answer ids
  | Raise t' => store t' ;;; fail_with internal_error
  end.

Definition poll_wakes (now : Z) (p : option principal) (b : wait_body) : route wait_response :=
  member p ;;;
  listen_set ⇐ listening_on (bw_listen_set b) ;;
  t ⇐ table_of ;;
  answer (WaitResponse false [] 0 (wake_list_fresh expand now listen_set (bw_since b) (bw_reader_identity b) t)).

(** [started] is the date of the request. *)
Definition wait_inbox (started : Z) (p : option principal) (b : wait_body) (ticks : list wait_tick)
  : route (option wait_response) :=
  member p ;;;
  listen_set ⇐ listening_on (bw_listen_set b) ;;
  answer (wait_loop b listen_set (default started (bw_since b)) ticks).

Definition update_presence (now : Z) (p : option principal) (b : presence_body) : route presence_response :=
  member p ;;;
  t ⇐ table_of ;;
  if bp_farewell b then
    store (presence_farewell now (bp_identity b) (bp_project b) t).2 ;;;
    answer (PresenceResponse (bp_identity b) (bp_state b) None)
  else if bp_watcher b then
    store (presence_watcher_beat now (bp_identity b) (bp_project b) t).2 ;;;
    answer (PresenceResponse (bp_identity b) (bp_state b) None)
  else
    let '(collided, t') := presence_update now (Heartbeat (bp_identity b) (bp_project b) (bp_state b) (bp_provider b)
                             (bp_overlays b) (bp_session_nonce b) (bp_host b) (bp_activity b)) t in
    store t' ;;;
    answer (PresenceResponse (bp_identity b) (bp_state b) collided).

(** The entries, and how many of them are fresh. *)
Definition get_roster (now : Z) (p : option principal) (project channel : option string)
    (include_done include_expired : bool) : route (list entry * nat) :=
  member p ;;;
  t ⇐ table_of ;;
  let entries := roster_list iso now project channel include_done include_expired t in
  answer (entries, length (select (λ e, negb (e_is_stale e)) entries)).
End routes.

Definition role_info (roles : gmap string string) (name : string) : route (string * string) :=
  match holder roles (Some name) with
  | Some h => if nonempty h then answer (lower (strip name), h) else refuse 404 (NotThere name)
  | None => refuse 404 (NotThere name)
  end.
