(* ===== verification/InboxRoutesProps.v ===== *)
(** What the mail routes guarantee: a long poll ends, and answers exactly the
    first thing there is to hear; a message changed by id is the only one
    changed; the advice of a listing does not contradict it. *)

From stdpp Require Import base gmap list strings pretty.
From Stdlib Require Import ZArith QArith Lia Sorted Ascii.
From S2P Require Import Prelude PyString Json Store Frame Identity ProjectAlias AddressRoles Principals Auth Memory SearchProps Inbox InboxProps.
From S2P Require Import WatchClaim Seats Presence Delivery Requests MemoryRoutes MemoryRoutesProps InboxRoutes.

Open Scope Z_scope.
Open Scope tiding_scope.

(** ** The long poll *)

Section wait.
Context (expand : list string → list string).

(** A message as the listing of [t] shows it. *)
Definition shown_as (t : table) (r : row) : inbox_message := mark_handled_one t (_row_to_inbox_message r).

(** Unread mail of the listen set that wakes this reader. *)
Definition deliverable (b : wait_body) (listen_set : list string) (since : Z) (r : row) : bool :=
  list_match (reader_set expand listen_set) (bw_reader_identity b) true false r &&
  waking (own_echo listen_set (bw_reader_identity b)) since (bw_include_fyi b) (_row_to_inbox_message r).

Lemma shown_same t r : let m := shown_as t r in let m0 := _row_to_inbox_message r in
  m_id m = r_key r ∧ m_from m = m_from m0 ∧ m_intent m = m_intent m0 ∧ m_created_at m = r_created r.
Proof. cbv zeta. unfold shown_as, mark_handled_one. by repeat case_match. Qed.

Lemma shown_waking t r own since fyi : waking own since fyi (shown_as t r) = waking own since fyi (_row_to_inbox_message r).
Proof. unfold waking. destruct (shown_same t r) as (_ & -> & -> & ->). done. Qed.

Lemma fresh_spec b l since tk m :
  m ∈ fresh_at expand b l since tk →
  ∃ r, r ∈ t_rows (wt_table tk) ∧ m = shown_as (wt_table tk) r ∧ deliverable b l since r = true.
Proof.
  unfold fresh_at, inbox_list. intros H. apply elem_of_select in H as [Hw H]. case_match; [by apply elem_of_nil in H|]. cbn [fst] in H.
  unfold _mark_handled in H. rewrite <- list_fmap_compose in H. apply list_elem_of_fmap in H as (r & -> & Hr).
  apply inbox_rows_match in Hr as [Hin Hm]. exists r. split_and!; [done..|]. unfold deliverable. rewrite Hm. cbn [andb].
  by rewrite <- (shown_waking (wt_table tk)).
Qed.

Lemma fresh_complete b l since tk r :
  l ≠ [] → r ∈ t_rows (wt_table tk) → deliverable b l since r = true →
  (sql_count (list_match (reader_set expand l) (bw_reader_identity b) true false) (wt_table tk) ≤ 50)%nat →
  shown_as (wt_table tk) r ∈ fresh_at expand b l since tk.
Proof.
  intros Hl Hin Hd Hc. unfold deliverable in Hd. apply andb_true_iff in Hd as [Hm Hw]. unfold fresh_at, inbox_list.
  rewrite (bool_decide_eq_false_2 (length l = 0%nat)) by (by destruct l). cbn [fst]. apply elem_of_select.
  rewrite shown_waking. split; [done|]. unfold _mark_handled. rewrite <- list_fmap_compose. apply list_elem_of_fmap. exists r.
  split; [done|]. by apply inbox_rows_all.
Qed.

Definition no_later (x y : inbox_message) : Prop := m_created_at x ≤ m_created_at y.

Lemma oldest_first l : StronglySorted no_later (sort_by (λ x y, m_created_at x <=? m_created_at y) l).
Proof.
  assert (StronglySorted (λ x y, (m_created_at x <=? m_created_at y) = true) (sort_by (λ x y, m_created_at x <=? m_created_at y) l)) as Hs.
  { apply sort_by_sorted; [intros x y|intros x y z]; rewrite ?orb_true_iff, !Z.leb_le; lia. }
  induction Hs as [|x k Hs IH Hall]; constructor; [done|]. eapply Forall_impl; [exact Hall|]. intros y Hy. by apply Z.leb_le.
Qed.

(** The poll an answer comes from: every poll before it had nothing to tell. *)
Lemma wait_loop_spec b l since ticks a :
  wait_loop expand b l since ticks = Some a →
  ∃ before tk rest, ticks = before ++ tk :: rest ∧
    (∀ x, x ∈ before → fresh_at expand b l since x = [] ∧ wakes_at expand b l since x = [] ∧
       wt_waited x < bw_timeout_ms b ∧ wt_stopping x = false) ∧
    wr_wakes a = wakes_at expand b l since tk ∧
    wr_messages a = sort_by (λ x y, m_created_at x <=? m_created_at y) (fresh_at expand b l since tk) ∧
    (if wr_timed_out a then wr_messages a = [] ∧ wr_wakes a = [] ∧ (bw_timeout_ms b ≤ wt_waited tk ∨ wt_stopping tk = true)
     else fresh_at expand b l since tk ≠ [] ∨ wr_wakes a ≠ []).
Proof.
  induction ticks as [|tk ticks IH]; [done|]. cbn [wait_loop].
  destruct (fresh_at expand b l since tk) as [|m ms] eqn:Ef; [destruct (wakes_at expand b l since tk) as [|w ws] eqn:Ew|]; cbn [length Nat.eqb negb orb].
  - destruct (bw_timeout_ms b <=? wt_waited tk) eqn:Et; [|destruct (wt_stopping tk) eqn:Es].
    + intros [= <-]. exists [], tk, ticks. rewrite Ef, Ew. cbn. apply Z.leb_le in Et. split_and!; try done; [by intros x ?%elem_of_nil|by left].
    + intros [= <-]. exists [], tk, ticks. rewrite Ef, Ew. cbn. split_and!; try done; [by intros x ?%elem_of_nil|by right].
    + intros H. destruct (IH H) as (before & tk' & rest & -> & Hb & Hrest). exists (tk :: before), tk', rest.
      split; [done|]. split; [|done]. apply Z.leb_gt in Et. intros x [->|Hx]%elem_of_cons; [done|by apply Hb].
  - intros [= <-]. exists [], tk, ticks. rewrite Ef, Ew. cbn. split_and!; try done; [by intros x ?%elem_of_nil|by right].
  - intros [= <-]. exists [], tk, ticks. rewrite Ef. cbn [wr_wakes wr_messages wr_timed_out]. split_and!; try done; [by intros x ?%elem_of_nil|by left].
Qed.

(** A wait hears the first thing there is. The answer comes from the first
    poll at which there is mail or a wake to hear, or the time is up, or the
    server was asked to stop; every poll before it had nothing. Its messages
    are oldest first, each an unread open message of the listen set, newer
    than the cursor, from somebody else, informative ones only on request;
    with at most fifty unread messages none such is missing. It says it timed
    out exactly when it has nothing to tell. *)
Lemma wait_exact b l since ticks a :
  wait_loop expand b l since ticks = Some a → l ≠ [] →
  ∃ before tk rest, ticks = before ++ tk :: rest ∧
    (∀ x, x ∈ before → fresh_at expand b l since x = [] ∧ wakes_at expand b l since x = [] ∧
       wt_waited x < bw_timeout_ms b ∧ wt_stopping x = false) ∧
    wr_wakes a = wakes_at expand b l since tk ∧
    StronglySorted no_later (wr_messages a) ∧
    (∀ m, m ∈ wr_messages a → since < m_created_at m ∧
       ∃ r, r ∈ t_rows (wt_table tk) ∧ m = shown_as (wt_table tk) r ∧ deliverable b l since r = true) ∧
    ((sql_count (list_match (reader_set expand l) (bw_reader_identity b) true false) (wt_table tk) ≤ 50)%nat →
       ∀ r, r ∈ t_rows (wt_table tk) → deliverable b l since r = true → shown_as (wt_table tk) r ∈ wr_messages a) ∧
    (wr_timed_out a = true ↔ wr_messages a = [] ∧ wr_wakes a = []) ∧
    (wr_timed_out a = true → bw_timeout_ms b ≤ wt_waited tk ∨ wt_stopping tk = true).
Proof.
  intros H Hl. destruct (wait_loop_spec _ _ _ _ _ H) as (before & tk & rest & -> & Hb & Hw & Hm & Ht).
  exists before, tk, rest. split_and!; [done..|by rewrite Hm; apply oldest_first| | | |].
  - intros m Hin. rewrite Hm, elem_of_sort_by in Hin. apply fresh_spec in Hin as (r & Hr & -> & Hd). split; [|by exists r].
    unfold deliverable, waking in Hd. destruct (shown_same (wt_table tk) r) as (_ & _ & _ & ->). bprop. cbn in Hd. lia.
  - intros Hc r Hr Hd. rewrite Hm, elem_of_sort_by. by apply fresh_complete.
  - destruct (wr_timed_out a); [tauto|]. split; [done|]. intros [Hm' Hw']. rewrite Hm in Hm'.
    destruct Ht as [Ht|Ht]; [|done]. destruct Ht. apply Permutation_nil_r. by rewrite <- Hm', sort_by_Permutation.
  - intros Hto. rewrite Hto in Ht. tauto.
Qed.

(** The polls of a request: each after the one before it has slept. *)
Fixpoint timed (timeout_ms earliest : Z) (ticks : list wait_tick) : Prop :=
  match ticks with
  | [] => True
  | tk :: rest => earliest ≤ wt_waited tk ∧ timed timeout_ms (wt_waited tk + sleep_for timeout_ms (wt_waited tk)) rest
  end.

(** A wait ends. Whatever arrives or not, a request polls at most once every
    two seconds of its timeout and once more: with that many polls it has
    been answered, so a wait of the longest timeout allowed takes at most 151
    polls. *)
Lemma wait_ends b l since ticks :
  timed (bw_timeout_ms b) 0 ticks → ticks ≠ [] → bw_timeout_ms b ≤ 2000 * (Z.of_nat (length ticks) - 1) →
  is_Some (wait_loop expand b l since ticks).
Proof.
  assert (∀ earliest, timed (bw_timeout_ms b) earliest ticks → ticks ≠ [] →
    bw_timeout_ms b ≤ earliest + 2000 * (Z.of_nat (length ticks) - 1) → is_Some (wait_loop expand b l since ticks)) as H.
  2: { intros H1 H2 H3. by apply (H 0). }
  induction ticks as [|tk ticks IH]; [done|]. intros earliest [Hw Ht] _ Hlen. cbn [wait_loop].
  case_match; [by eexists|]. destruct (bw_timeout_ms b <=? wt_waited tk) eqn:E; [by eexists|]. apply Z.leb_gt in E.
  case_match; [by eexists|]. destruct ticks as [|tk' ticks]; [cbn in Hlen; lia|].
  apply (IH (wt_waited tk + sleep_for (bw_timeout_ms b) (wt_waited tk))); [exact Ht|done|].
  unfold sleep_for, poll_every. cbn [length] in *. lia.
Qed.
End wait.

(** ** The other routes *)

Section routes.
Context (expand : list string → list string) (cfg : auth_settings).

(** A message verb that names an id leaves every other row alone, and asks for
    membership first; a missing id changes nothing. *)
Lemma on_message_spec p id op s :
  (∀ t f, (∀ k, f k = true → ¬ (k_ns k = INBOX_NAMESPACE ∧ k_scope k = INBOX_SCOPE ∧ k_key k = id)) → untouched f t (op t).2) →
  ends (on_message cfg p id op) s (λ r s', rs_log s' = rs_log s ∧
    (∀ f, (∀ k, f k = true → ¬ (k_ns k = INBOX_NAMESPACE ∧ k_scope k = INBOX_SCOPE ∧ k_key k = id)) → untouched f (rs_table s) (rs_table s')) ∧
    (check_namespace_access cfg p INBOX_NAMESPACE "read" false ≠ Done tt → s' = s) ∧
    ∀ x, r = Done x → check_namespace_access cfg p INBOX_NAMESPACE "read" false = Done tt).
Proof.
  intros Hop. unfold on_message, member. go. eapply ends_mono; [apply access_spec|]. intros [[]|e] s1 [-> Ha]; [|by split_and!].
  specialize (Ha eq_refl). go. destruct (op (rs_table s)) as [[] t'] eqn:E; go; (split_and!; [done| |done|by intros]); intros f Hf.
  all: specialize (Hop (rs_table s) f Hf); by rewrite E in Hop.
Qed.

Lemma message_update_framed (g : row → row) id t f `{!KeepsKeys g} :
  (∀ k, f k = true → ¬ (k_ns k = INBOX_NAMESPACE ∧ k_scope k = INBOX_SCOPE ∧ k_key k = id)) →
  untouched f t (sql_update (is_message id) g t).
Proof.
  intros Hf. apply untouched_outside; [done|]. intros r Hr. unfold is_message, is_mail in Hr. bprop. destruct Hr as [[Hn Hs] Hk].
  destruct (f (r_pk r)) eqn:E; [|done]. by apply Hf in E as [].
Qed.

(** An ack, an archive and a resolve each change one message at most. *)
Lemma message_verbs_framed now p id reader s :
  let alone {A} (m : route A) := ends m s (λ _ s', ∀ f, (∀ k, f k = true → k_key k ≠ id) → untouched f (rs_table s) (rs_table s')) in
  alone (ack_inbox cfg p id reader) ∧ alone (archive_inbox cfg p id reader) ∧ alone (resolve_inbox cfg now p id reader).
Proof.
  cbv zeta. assert (∀ op, (∀ t f, (∀ k, f k = true → ¬ (k_ns k = INBOX_NAMESPACE ∧ k_scope k = INBOX_SCOPE ∧ k_key k = id)) → untouched f t (op t).2) →
    ends (on_message cfg p id op) s (λ _ s', ∀ f, (∀ k, f k = true → k_key k ≠ id) → untouched f (rs_table s) (rs_table s'))) as H.
  { intros op Hop. eapply ends_mono; [by apply on_message_spec|]. intros r s' (_ & Hf & _) f Hk. apply Hf. intros k Ht (_ & _ & E).
    by apply (Hk k). }
  assert (∀ t f, (∀ k, f k = true → ¬ (k_ns k = INBOX_NAMESPACE ∧ k_scope k = INBOX_SCOPE ∧ k_key k = id)) →
    ∀ who, untouched f t (inbox_ack id who t).2) as Hack.
  { intros t f Hf who. by apply message_update_framed; [by split|]. }
  split_and!; apply H; intros t f Hf; [by apply Hack| |by apply message_update_framed; [by split|]].
  unfold inbox_archive. cbn [snd]. case_match; [etransitivity; [|by apply Hack]|]; (apply message_update_framed; [by split|exact Hf]).
Qed.

(** The advice of a listing agrees with the mail: it says that nothing is open
    only when no mail at the listener's addresses is, and warns of an estate
    exactly when some is, with its number; never both. *)
Lemma advice_honest msgs stale now l t :
  l ≠ [] →
  let open := sql_select (λ r, is_mail r && (r_user r isin plain_set expand l) && negb (is_archived r) && is_open r) t in
  match inbox_list_guidance msgs stale (inbox_counts expand now l t) with
  | EmptyView _ estate nothing_open =>
      msgs = 0%nat ∧ (nothing_open = true → open = []) ∧ (∀ n, estate = Some n ↔ n = length open ∧ open ≠ [])
  | HandleThem _ _ => msgs ≠ 0%nat
  end.
Proof.
  intros Hl open. assert (d_open (inbox_counts expand now l t) = length open) as Hopen.
  { unfold inbox_counts. rewrite (bool_decide_eq_false_2 (length (plain_set expand l) = 0%nat)) by (by destruct l). cbn [d_open].
    unfold open, sql_select. f_equal. induction (t_rows t) as [|r rows IH]; [done|]. rewrite !select_cons.
    unfold is_open. destruct (is_mail r && _ && _); cbn [andb]; [|exact IH]. rewrite select_cons. case_match; [by f_equal|exact IH]. }
  unfold inbox_list_guidance. destruct (msgs =? 0)%nat eqn:E; [|by apply Nat.eqb_neq]. apply Nat.eqb_eq in E. rewrite Hopen.
  split; [done|]. split.
  - intros H. apply andb_true_iff in H as [_ H]. apply Nat.eqb_eq in H. by apply nil_length_inv.
  - intros n. unfold positive. destruct open; cbn; naive_solver.
Qed.

(** A beat, a farewell or a heartbeat stays on presence and seat rows. *)
Lemma presence_framed now p b s :
  ends (update_presence cfg now p b) s (λ _ s', untouched (λ k, negb (k_scope k isin [PRESENCE_SCOPE; SEAT_SCOPE])) (rs_table s) (rs_table s')).
Proof.
  assert (∀ g id pr t, KeepsKeys g → untouched (λ k, negb (k_scope k isin [PRESENCE_SCOPE; SEAT_SCOPE])) t (sql_update (is_presence id pr) g t)) as Hp.
  { intros g id pr t Hg. apply untouched_outside; [done|]. intros r Hr. unfold is_presence in Hr. bprop.
    destruct Hr as [[[_ Hr] _] _]. rewrite Hr. by left. }
  assert (∀ id pr t, untouched (λ k, negb (k_scope k isin [PRESENCE_SCOPE; SEAT_SCOPE])) t (touch_seat now id pr t)) as Hs.
  { intros id pr t. apply untouched_used. }
  unfold update_presence, member. go. eapply ends_mono; [apply access_spec|]. intros [[]|e] s1 [-> _]; [|done]. go.
  case_match; go; [by apply Hp|]. case_match; go.
  - unfold presence_watcher_beat. case_match; cbn [snd]; [apply Hp; by split|]. etransitivity; [|apply Hs]. apply Hp. by split.
  - destruct (presence_update _ _ _) as [c t'] eqn:E. go. unfold presence_update in E. injection E as _ <-.
    match goal with |- untouched ?f ?t (if _ then _ else ?t2) => assert (untouched f t t2) as H2 end.
    { etransitivity; [|apply Hs]. apply untouched_outside; [by split|]. intros r Hr. unfold is_presence in Hr. bprop.
      destruct Hr as [[[_ Hr] _] _]. rewrite Hr. by left. }
    etransitivity; [exact H2|]. case_match; [|reflexivity]. apply untouched_upsert; [by split|by vm_compute].
Qed.
End routes.

(** ** On concrete mailboxes *)

Definition ex_mail (id : Z) (created : Z) (read : list string) : row :=
  Row id (PKey "fleet" ("inbox/" +:+ pretty id) "inbox" "tide" None) "news" "" "" "" created created None
    (Some (list_to_map [("from", JStr "ana"); ("read_by", JArr (JStr <$> read))])) None None.

Definition ex_box (ms : list row) : table := Table ms 1000.

Definition ex_wait : wait_body := WaitBody ["tide"] (Some "bo") 4000 None false.

Definition ex_ticks : list wait_tick :=
  [WaitTick 100 10 (ex_box []) false; WaitTick 102 2010 (ex_box [ex_mail 1 101 []]) false; WaitTick 104 4010 (ex_box []) false].

(** The cursor an answer tells its client to keep, the newest instant received,
    skips what the fifty newest hid: of fifty-one new messages the oldest is
    in no answer. *)
Lemma wait_cursor_skips :
  let box := ex_box ((λ n, ex_mail (Z.of_nat n) (100 + Z.of_nat n) []) <$> seq 1 51) in
  let again := WaitBody ["tide"] (Some "bo") 4000 (Some 151) false in
  ∃ a a', wait_loop id ex_wait ["tide"] 100 [WaitTick 200 10 box false] = Some a ∧
    foldr Z.max 0 (m_created_at <$> wr_messages a) = 151 ∧
    wait_loop id again ["tide"] 151 [WaitTick 201 4000 box false] = Some a' ∧
    wr_messages a' = [] ∧ ¬ "inbox/1" ∈ m_id <$> wr_messages a.
Proof.
  do 2 eexists. split; [vm_compute; reflexivity|]. split; [vm_compute; reflexivity|]. split; [vm_compute; reflexivity|].
  split; [reflexivity|]. by apply (bool_decide_eq_false_1 _); vm_compute.
Qed.

(** A reader that acked its only message, without resolving it, is told that it
    was "already acked, but by a PREDECESSOR at one of these addresses, not by
    you": the estate counts all open mail, the reader's own acks included. *)
Lemma estate_blames_predecessor :
  let b := ListBody ["tide"] (Some "bo") true false 20 false false false in
  let s := RState (ex_box [ex_mail 1 101 ["bo"]]) [] in
  ∃ a, (list_inbox id ex_auth 200 None b s).1 = Done a ∧ rl_messages a = [] ∧
    rl_advice a = EmptyView (DigestNumbers 1 None None) (Some 1%nat) false.
Proof. eexists. split; [vm_compute; reflexivity|]. by split. Qed.

(** An owner relay, which may read only the owner's inbox, may still ack and
    resolve anybody's message: nothing compares the message with the owner. *)
Lemma relay_acks_anybody :
  let cfg := AuthSettings true "" "" (Some "owner") (Some "relay") "" "127.0.0.1" in
  let relay := Some (ex_login "relay" ["fleet"] []) in
  let s := RState (ex_box [ex_mail 1 101 []]) [] in
  _relay_route_allowed "POST" "/memory/inbox/inbox/1/resolve" = true ∧
  (list_inbox id cfg 200 relay (ListBody ["tide"] None false false 20 false false false) s).1 =
    Raise (Refusal 403 (Because "only the owner's inbox")) ∧
  (resolve_inbox cfg 200 relay "inbox/1" "relay" s).1 = Done "inbox/1" ∧
  (is_open <$> t_rows (rs_table (resolve_inbox cfg 200 relay "inbox/1" "relay" s).2) = [false]).
Proof. split_and!; vm_compute; reflexivity. Qed.
