(* ===== verification/Batches.v ===== *)
(** Deleting in batches: the loop the expiry sweep
    (src/server/services/admin_service.py) and the request log's retention
    (src/server/services/request_log.py) share. One statement deletes, by id,
    at most [n] of the rows that match; the loop ends at the first batch that
    is not full. *)

From stdpp Require Import base list.
From Stdlib Require Import ZArith Lia.
From S2P Require Import Prelude PyString Json Store Frame SearchProps.

Open Scope Z_scope.
Open Scope tiding_scope.

Section batches.
Context {A : Type} (id : A → Z) (p : A → bool).
Implicit Types l : list A.

Definition first_ids (n : nat) l : list Z := id <$> take n (select p l).

(** [DELETE ... WHERE id IN (SELECT id ... WHERE p LIMIT n)]: how many, and what is left. *)
Definition delete_batch (n : nat) l : nat * list A :=
  let ids := first_ids n l in (length ids, select (λ x, negb (id x isin ids)) l).

(** [None]: out of fuel. *)
Fixpoint batch_loop (fuel n total : nat) l : option (nat * list A) :=
  match fuel with
  | O => None
  | S fuel' =>
      let '(count, l') := delete_batch n l in
      if (count <? n)%nat then Some ((total + count)%nat, l') else batch_loop fuel' n (total + count) l'
  end.

(** One round per row and one more. *)
Definition delete_in_batches (n : nat) l : option (nat * list A) := batch_loop (S (length l)) n 0 l.

(** ** The loop ends and deletes the matches *)

Definition survives n l (x : A) : bool := negb (id x isin first_ids n l).

(** The ids of the first matches name matches only. *)
Lemma named_matches n l x : NoDup (id <$> l) → x ∈ l → survives n l x = false → p x = true.
Proof.
  intros Hnd Hx Hs. unfold survives in Hs. apply negb_false_iff, bool_decide_eq_true in Hs.
  apply list_elem_of_fmap in Hs as (y & Hid & Hy%in_take). apply elem_of_select in Hy as [Hp Hl].
  by rewrite (NoDup_fmap_inj _ _ _ _ Hnd Hx Hl Hid).
Qed.

(** Removing the first matches leaves the other matches. *)
Lemma matches_left n l : NoDup (id <$> l) → select p (select (survives n l) l) = drop n (select p l).
Proof.
  intros Hnd. rewrite select_comm. pose proof (NoDup_fmap_select id p l Hnd) as Hs.
  set (es := select p l) in *. rewrite <- (take_drop n es) in Hs. rewrite fmap_app, NoDup_app in Hs.
  destruct Hs as (_ & Hd & _). transitivity (select (survives n l) (take n es ++ drop n es)); [by rewrite take_drop|].
  rewrite select_app, (proj2 (select_nil _ _)), (select_all _ (drop n es)); [done|..].
  - intros x Hx. apply negb_true_iff, bool_decide_eq_false. intros Hin. by apply (Hd _ Hin), list_elem_of_fmap_2.
  - intros x Hx. apply negb_false_iff, bool_decide_eq_true. by apply list_elem_of_fmap_2.
Qed.

Lemma batch_then_all n l : NoDup (id <$> l) →
  select (λ x, negb (p x)) (delete_batch n l).2 = select (λ x, negb (p x)) l.
Proof.
  intros Hnd. apply select_and. intros x Hx Hs. apply negb_false_iff. by apply (named_matches n l).
Qed.

Lemma batch_loop_total fuel n total l : NoDup (id <$> l) → (0 < n)%nat → (length (select p l) < fuel)%nat →
  batch_loop fuel n total l = Some ((total + length (select p l))%nat, select (λ x, negb (p x)) l).
Proof.
  revert total l. induction fuel as [|fuel IH]; intros total l Hnd Hn Hf; [lia|]. cbn [batch_loop].
  assert ((delete_batch n l).1 = min n (length (select p l))) as Hc.
  { unfold delete_batch, first_ids. cbn. by rewrite length_fmap, length_take. }
  assert (length (select p (delete_batch n l).2) = length (select p l) - n)%nat as Hl.
  { etransitivity; [apply f_equal, (matches_left n l Hnd)|]. by rewrite length_drop. }
  pose proof (batch_then_all n l Hnd) as Ha.
  assert (NoDup (id <$> (delete_batch n l).2)) as Hw by by apply NoDup_fmap_select.
  destruct (delete_batch n l) as [count l']. cbn [fst snd] in *. destruct (Nat.ltb_spec count n) as [Hlt|Hge].
  - rewrite <- Ha, (select_all _ l'); [do 2 f_equal; lia|].
    intros x Hx. apply negb_true_iff, not_true_iff_false. intros Hp.
    assert (select p l' = []) as He by (apply length_zero_iff_nil; lia).
    rewrite select_nil in He. by rewrite He in Hp.
  - rewrite (IH (total + count)%nat l' Hw Hn) by lia. rewrite Ha. do 2 f_equal. lia.
Qed.

(** With a positive batch size the loop ends, having deleted exactly the matches. *)
Lemma batches_exact n l : NoDup (id <$> l) → (0 < n)%nat →
  delete_in_batches n l = Some (length (select p l), select (λ x, negb (p x)) l).
Proof.
  intros Hnd Hn. unfold delete_in_batches. apply batch_loop_total; [done|done|]. pose proof (length_select_le p l). lia.
Qed.

(** With batches of zero it never does. *)
Lemma batches_stuck fuel total l : batch_loop fuel 0 total l = None.
Proof. revert total l. induction fuel as [|fuel IH]; intros total l; [done|]. cbn. apply IH. Qed.
End batches.
