(* ===== verification/Admin.v ===== *)
(** Administration (src/server/services/admin_service.py,
    src/server/routers/admin.py): listing, editing and deleting memories in
    bulk, statistics, the expiry sweep, and the routes that run them together
    with the estate, deletion queue, climb, sweep, signal, rename and role
    services. Every route begins with the admin gate. Statements of one
    request read one instant; a [LIMIT] without an order takes rows in the
    order of the table; texts compare by bytes. *)

From stdpp Require Import base gmap list strings sorting.
From Stdlib Require Import ZArith Lia Ascii.
From S2P Require Import Prelude PyString Json Store Batches Identity ProjectAlias AddressRoles Principals Auth Memory Inbox.
From S2P Require Import WatchClaim Seats Presence Register Tree MailSignal Requests MemoryRoutes.

Open Scope Z_scope.
Open Scope tiding_scope.

(** ** Listing *)

Record list_query := ListQuery {
  lq_namespaces : option (list string);
  lq_scope : option string;
  lq_user_id : option string;
  lq_key_prefix : option string;
  lq_search : option string;
  lq_machine : option string;
  lq_created_after : option Z;
  lq_created_before : option Z;
  lq_offset : nat;
  lq_limit : nat;
  lq_sort_by : string;
  lq_sort_order : string;
  lq_include_value : bool;
  lq_value_max_length : nat
}.

(** A condition that holds when its parameter is absent. *)
Definition when {A} (o : option A) (p : A → bool) : bool := match o with Some x => p x | None => true end.

(** [s ILIKE pat] *)
Definition ilike (pat s : string) : bool := like (lower pat) (lower s).

Definition list_where (q : list_query) (r : row) : bool :=
  match lq_namespaces q with Some (ns :: nss) => r_ns r isin (ns :: nss) | _ => true end &&
  when (lq_scope q) (λ s, r_scope r == s) && when (lq_user_id q) (λ u, r_user r == u) &&
  when (lq_key_prefix q) (λ p, like (p +:+ "%") (r_key r)) &&
  when (lq_search q) (λ x, ilike ("%" +:+ x +:+ "%") (r_search r)) &&
  when (lq_machine q) (λ m, md_text (r_meta r) "machine" == Some m) &&
  when (lq_created_after q) (λ c, c <=? r_created r) && when (lq_created_before q) (λ c, r_created r <? c).

(** [ORDER BY col ASC], an unknown column being the key. *)
Definition sort_le (sort_by : string) (a b : row) : bool :=
  if sort_by == "created_at" then r_created a <=? r_created b
  else if sort_by == "last_used_at" then r_used a <=? r_used b
  else bool_decide (String.le (r_key a) (r_key b)).

Record list_item := ListItem {
  li_pk : pkey;
  li_value : option string;
  li_tags : string;
  li_created_at : Z;
  li_last_used_at : Z;
  li_expires_at : option Z;
  li_metadata : option jobj;
  li_owner : option string
}.

Definition item_of (q : list_query) (r : row) : list_item :=
  ListItem (r_pk r) (if lq_include_value q then Some (stake (lq_value_max_length q) (r_value r)) else None) (r_tags r)
    (r_created r) (r_used r) (r_expires r) (r_meta r) (r_owner r).

Definition list_memories (q : list_query) (t : table) : nat * list list_item :=
  let rows := sql_select (list_where q) t in
  let le := sort_le (lq_sort_by q) in
  let sorted_rows := if lower (lq_sort_order q) == "desc" then sort_by (λ a b, le b a) rows else sort_by le rows in
  (length rows, item_of q <$> take (lq_limit q) (drop (lq_offset q) sorted_rows)).

Definition list_machines (t : table) : list string :=
  sorted (dedup (omap (λ r, md_text (r_meta r) "machine") (t_rows t))).

(** ** Editing *)

Record update_request := UpdateRequest {
  up_namespace : string;
  up_key : string;
  up_scope : string;
  up_user_id : string;
  up_new_namespace : option string;
  up_new_scope : option string;
  up_new_user_id : option string;
  up_new_key : option string;
  up_new_tags : option string
}.

(** [WHERE namespace = .. AND key = .. AND scope = .. AND user_id = ..] *)
Definition update_where_clause (u : update_request) (r : row) : bool :=
  (r_ns r == up_namespace u) && (r_key r == up_key u) && (r_scope r == up_scope u) && (r_user r == up_user_id u).

Definition moved_pk (u : update_request) (k : pkey) : pkey :=
  PKey (default (k_ns k) (up_new_namespace u)) (default (k_key k) (up_new_key u)) (default (k_scope k) (up_new_scope u))
    (default (k_user k) (up_new_user_id u)) (k_project k).

Definition set_tags (v : string) (r : row) : row :=
  Row (r_id r) (r_pk r) (r_value r) v (r_tags_search r) (r_search r) (r_created r) (r_used r) (r_expires r) (r_meta r)
    (r_owner r) (r_custodian r).

Definition changes_nothing (u : update_request) : bool :=
  negb (is_some (up_new_namespace u) || is_some (up_new_scope u) || is_some (up_new_user_id u) || is_some (up_new_key u) ||
        is_some (up_new_tags u)).

(** [None] is a unique violation, which undoes the statement. *)
Definition update_memory (u : update_request) (t : table) : option (bool * table) :=
  if changes_nothing u then Some (false, t)
  else
    let ids := (λ r, r_id r) <$> sql_select (update_where_clause u) t in
    t1 ← sql_rekeys ((λ i, (i, moved_pk u)) <$> ids) t;
    Some (negb (length ids =? 0)%nat,
          match up_new_tags u with
          | Some v => sql_update (λ r, r_id r isin ids) (set_tags v) t1
          | None => t1
          end).

(** ** Statistics *)

Record ns_stats := NsStats {
  sn_namespace : string;
  sn_scope : option string;
  sn_count : nat;
  sn_oldest : option Z;
  sn_newest : option Z;
  sn_expired_count : nat
}.

Definition expired_row (now : Z) (r : row) : bool := negb (unexpired now r).

Definition sql_min (l : list Z) : option Z := match l with [] => None | x :: l' => Some (foldr Z.min x l') end.
Definition sql_max (l : list Z) : option Z := match l with [] => None | x :: l' => Some (foldr Z.max x l') end.

Definition stats_of (now : Z) (ns : string) (scope : option string) (rows : list row) : ns_stats :=
  NsStats ns scope (length rows) (sql_min ((λ r, r_created r) <$> rows)) (sql_max ((λ r, r_created r) <$> rows))
    (length (select (expired_row now) rows)).

(** [GROUP BY namespace[, scope] ORDER BY ...] *)
Definition get_stats (now : Z) (namespace : option string) (by_scope : bool) (t : table) : list ns_stats :=
  let rows := sql_select (λ r, when namespace (λ ns, r_ns r == ns)) t in
  ns ← sorted (dedup ((λ r, r_ns r) <$> rows));
  let group := select (λ r, r_ns r == ns) rows in
  if by_scope
  then (λ s, stats_of now ns (Some s) (select (λ r, r_scope r == s) group)) <$> sorted (dedup ((λ r, r_scope r) <$> group))
  else [stats_of now ns None group].

(** ** Deleting *)

Record bulk_request := BulkRequest {
  bd_namespace : string;
  bd_key_prefix : string;
  bd_scope : option string;
  bd_user_id : option string;
  bd_older_than_days : option Z;
  bd_dry_run : bool;
  bd_i_understand : option string
}.

(** The WHERE clause the count, the sample and the delete share. *)
Definition bulk_where (now : Z) (b : bulk_request) (r : row) : bool :=
  (r_ns r == bd_namespace b) && like (like_escape (bd_key_prefix b) +:+ "%") (r_key r) &&
  when (bd_scope b) (λ s, r_scope r == s) && when (bd_user_id b) (λ u, r_user r == u) &&
  when (bd_older_than_days b) (λ d, r_created r <? now - 86400 * d).

Definition sample_keys (now : Z) (b : bulk_request) (t : table) : list string :=
  take 10 (sorted ((λ r, r_key r) <$> sql_select (bulk_where now b) t)).

Definition bulk_delete (now : Z) (b : bulk_request) (dry_run : bool) (t : table) : nat * list string * table :=
  (sql_count (bulk_where now b) t, sample_keys now b t, if dry_run then t else sql_delete (bulk_where now b) t).

(** At most [batch_size] expired rows a statement; [None]: the loop never ends. *)
Definition cleanup_expired (now : Z) (batch_size : nat) (t : table) : option (nat * table) :=
  '(total, rows) ← delete_in_batches (λ r, r_id r) (expired_row now) batch_size (t_rows t);
  Some (total, Table rows (t_seq t)).
