(* ===== verification/AdminRoutes.v ===== *)
(** The administrative routes (src/server/routers/admin.py): each is the
    whole handler behind the admin gate, over the memories table and the audit
    trail; the routes of signals, project names and roles run over the state
    of their service. A query's ranges are checked before the handler
    ([*_in_range]). The texts of guidance and the log are not modelled. *)

From stdpp Require Import base gmap list strings.
From Stdlib Require Import ZArith Lia Ascii.
From S2P Require Import Prelude PyString Json Store Identity ProjectAlias AddressRoles Principals Auth Memory Inbox.
From S2P Require Import WatchClaim Seats Presence Register Tree MailSignal Requests MemoryRoutes Admin.

Open Scope Z_scope.
Open Scope tiding_scope.

(** ** Queries and bodies *)

(** [[ns.strip() for ns in namespace.split(",") if ns.strip()] if namespace else None] *)
Definition namespaces_param (namespace : option string) : option (list string) :=
  if truthy namespace then Some (select nonempty (strip <$> split_on "," (or_empty namespace))) else None.

Definition list_in_range (q : list_query) : bool :=
  between 1 500 (Z.of_nat (lq_limit q)) && between 1 10000 (Z.of_nat (lq_value_max_length q)).

Definition with_namespaces (namespace : option string) (q : list_query) : list_query :=
  ListQuery (namespaces_param namespace) (lq_scope q) (lq_user_id q) (lq_key_prefix q) (lq_search q) (lq_machine q)
    (lq_created_after q) (lq_created_before q) (lq_offset q) (lq_limit q) (lq_sort_by q) (lq_sort_order q)
    (lq_include_value q) (lq_value_max_length q).

(** [key_prefix_not_empty], [extra = forbid], the canonical namespace. *)
Definition validate_bulk (cfg : auth_settings) (extra : list string) (dry_run : option bool) (b : bulk_request)
  : option bulk_request :=
  checked (nonempty (strip (bd_key_prefix b)) && match extra with [] => true | _ => false end)
    (BulkRequest (canonical_namespace cfg (bd_namespace b)) (bd_key_prefix b) (bd_scope b) (bd_user_id b)
       (bd_older_than_days b) (default true dry_run) (bd_i_understand b)).

(** Of an update only [namespace] is brought to its current name. *)
Definition validate_update (cfg : auth_settings) (u : update_request) : update_request :=
  UpdateRequest (canonical_namespace cfg (up_namespace u)) (up_key u) (up_scope u) (up_user_id u) (up_new_namespace u)
    (up_new_scope u) (up_new_user_id u) (up_new_key u) (up_new_tags u).

Record estate_request := EstateRequest {
  es_from : string;
  es_to : string;
  es_namespace : option string;
  es_project : option string;
  es_dry_run : bool
}.

Definition in_128 (s : string) : bool := between 1 128 (Z.of_nat (String.length s)).

Definition validate_estate (extra : list string) (dry_run : option bool) (q : estate_request) : option estate_request :=
  checked (in_128 (es_from q) && in_128 (es_to q) && at_most_opt 128 (es_namespace q) && at_most_opt 128 (es_project q) &&
           match extra with [] => true | _ => false end)
    (EstateRequest (es_from q) (es_to q) (es_namespace q) (es_project q) (default false dry_run)).

Record reject_request := RejectRequest {
  rj_namespace : string;
  rj_key : string;
  rj_scope : string;
  rj_user_id : string;
  rj_project : option string;
  rj_reason : string
}.

Definition validate_reject (extra : list string) (namespace key : string) (scope user_id project : option string)
    (reason : string) : option reject_request :=
  checked (reason_ok reason && match extra with [] => true | _ => false end)
    (RejectRequest namespace key (default "project" scope) (default "default" user_id) project reason).

(** ** Broad prefixes *)

Definition _BROAD_MIN_LEN : nat := 12.

Definition ends_class (p : string) : bool :=
  endswith "/" p || endswith ":" p || endswith "-" p || endswith "_" p.

Definition _is_broad (b : bulk_request) : bool :=
  let p := strip (bd_key_prefix b) in
  (String.length p <? _BROAD_MIN_LEN)%nat || ends_class p.

Definition _blast_label (b : bulk_request) : string := bd_namespace b +:+ ":" +:+ bd_key_prefix b.

Record bulk_response := BulkResponse {
  br_deleted_count : nat;
  br_matched_count : nat;
  br_dry_run : bool;
  br_sample_keys : list string;
  br_echo : option string            (* what the guidance asks to send back *)
}.

Definition bulk_detail (b : bulk_request) (deleted : nat) : jobj := list_to_map [
  ("namespace", JStr (bd_namespace b)); ("key_prefix", JStr (bd_key_prefix b)); ("scope", jopt (bd_scope b));
  ("user_id", jopt (bd_user_id b));
  ("older_than_days", match bd_older_than_days b with Some d => JNum d | None => JNull end);
  ("deleted", JNum (Z.of_nat deleted))].

Definition estate_detail (q : estate_request) (rows : nat) : jobj := list_to_map [
  ("from_principal", JStr (es_from q)); ("to_principal", JStr (es_to q)); ("namespace", jopt (es_namespace q));
  ("project", jopt (es_project q)); ("rows", JNum (Z.of_nat rows))].

Definition reject_detail (q : reject_request) : jobj := list_to_map [
  ("namespace", JStr (rj_namespace q)); ("key", JStr (rj_key q)); ("scope", JStr (rj_scope q));
  ("user_id", JStr (rj_user_id q)); ("project", jopt (rj_project q)); ("reason", JStr (rj_reason q))].

(** [ORDER BY role]; [ORDER BY new_name, old_name] *)
Definition list_roles (st : role_state) : list (string * role_row) :=
  sort_by (λ a b, bool_decide (String.le a.1 b.1)) (map_to_list (rs_db st)).

Definition list_aliases (st : alias_state) : list (string * alias_row) :=
  sort_by (λ a b, if al_new a.2 == al_new b.2 then bool_decide (String.le a.1 b.1)
                  else bool_decide (String.le (al_new a.2) (al_new b.2))) (map_to_list (as_db st)).

Section routes.
Context (cfg : auth_settings) (p : option principal) (src : auth_source).

(** [Depends(admin_or_open)] *)
Definition gated {A} (m : route A) : route A := lift (admin_or_open cfg p src) ;;; m.

Definition forced (namespace : string) : route unit := lift (check_namespace_access cfg p namespace "write" true).

Definition list_memories_endpoint (namespace : option string) (q : list_query) : route (nat * list list_item) :=
  gated (t ⇐ table_of ;; answer (list_memories (with_namespaces namespace q) t)).

Definition list_machines_endpoint : route (list string) := gated (t ⇐ table_of ;; answer (list_machines t)).

Definition stats_endpoint (now : Z) (namespace : option string) (by_scope : bool) : route (list ns_stats) :=
  gated (t ⇐ table_of ;; answer (get_stats now namespace by_scope t)).

(** The target of a move that leaves the namespace. *)
Definition move_target (u : update_request) : option string :=
  match up_new_namespace u with
  | Some ns => if nonempty ns && (ns != up_namespace u) then Some ns else None
  | None => None
  end.

Definition update_memory_endpoint (u : update_request) : route unit :=
  gated (
    forced (up_namespace u) ;;;
    match move_target u with Some ns => forced ns | None => answer tt end ;;;
    t ⇐ table_of ;;
    match update_memory u t with
    | None => fail_with internal_error
    | Some (updated, t') => store t' ;;; if updated then answer tt else refuse 404 (NotThere (up_key u))
    end).

Definition bulk_delete_endpoint (now : Z) (b : bulk_request) : route bulk_response :=
  gated (
    t ⇐ table_of ;;
    let '(matched, sample, _) := bulk_delete now b true t in
    if bd_dry_run b
    then answer (BulkResponse 0 matched true sample (if _is_broad b then Some (_blast_label b) else None))
    else if _is_broad b && (strip (or_empty (bd_i_understand b)) != _blast_label b)
    then refuse 422 (Because (_blast_label b))
    else
      let '(deleted, sample, t') := bulk_delete now b false t in
      store t' ;;;
      audit "admin.bulk_delete" p (bulk_detail b deleted) None ;;;
      answer (BulkResponse deleted deleted false sample None)).

Definition estate_transfer_endpoint (people : pstate) (q : estate_request) : route nat :=
  gated (
    match get_principal (norm (Some (es_to q))) people with
    | None => refuse 422 (Because (es_to q))
    | Some _ =>
        t ⇐ table_of ;;
        match estate_transfer (Some (es_from q)) (Some (es_to q)) (es_namespace q) (es_project q) (es_dry_run q) t with
        | Raise (BadRequest what) => refuse 422 (Because what)
        | Raise _ => fail_with internal_error
        | Done (rows, t') =>
            store t' ;;;
            (if es_dry_run q then answer tt else audit "admin.estate_transfer" p (estate_detail q rows) None) ;;;
            answer rows
        end
    end).

Definition deletion_queue_endpoint (limit : nat) : route (list row) :=
  gated (t ⇐ table_of ;; answer (deletion_queue_list limit t)).

Definition deletion_queue_reject_endpoint (now : Z) (q : reject_request) : route string :=
  gated (
    t ⇐ table_of ;;
    match deletion_queue_reject now (rj_namespace q) (rj_key q) (rj_scope q) (rj_user_id q) (rj_project q) (name_of p)
            (Some (rj_reason q)) t with
    | Raise (BadRequest what) => refuse 422 (Because what)
    | Raise _ => fail_with internal_error
    | Done (None, _) => refuse 404 (NotThere (rj_key q))
    | Done (Some _, t') =>
        store t' ;;;
        audit "admin.deletion_queue.reject" p (reject_detail q) None ;;;
        answer (rj_key q)
    end).

Definition climb_endpoint (iso : Z → string) (lane_reservation : bool) (people : list string) (now : Z)
  : route (list climbed * list climb_skip) :=
  gated (
    t ⇐ table_of ;;
    match climb_pass iso lane_reservation people now t with
    | Done (up, stays, t') => store t' ;;; answer (up, stays)
    | Raise t' => store t' ;;; fail_with internal_error
    end).

Definition sweep_endpoint (iso : Z → string) (lane_reservation : bool) (people : list string) (now : Z)
  : route (list swept * list sweep_skip) :=
  gated (
    t ⇐ table_of ;;
    let '(gone, stays, t') := sweep_pass iso lane_reservation people now t in
    store t' ;;; answer (gone, stays)).

(** [min_age_seconds]: the query's hours, 0 to 8760. *)
Definition unanswered_endpoint (now min_age_seconds : Z) (limit : nat) : route (list row) :=
  gated (t ⇐ table_of ;; answer (unanswered_asks now min_age_seconds limit t)).

(** [batch_size or settings.cleanup_batch_size] *)
Definition cleanup_size (batch_size : option nat) (configured : nat) : nat :=
  match batch_size with Some (S n) => S n | _ => configured end.

(** [None]: the loop never ends. *)
Definition cleanup_endpoint (now : Z) (batch_size : option nat) (configured : nat) (s : rstate)
  : option (outcome refusal nat * rstate) :=
  match admin_or_open cfg p src with
  | Raise e => Some (Raise (of_access e), s)
  | Done _ =>
      '(deleted, t') ← cleanup_expired now (cleanup_size batch_size configured) (rs_table s);
      Some (Done deleted, RState t' (rs_log s))
  end.

(** ** Signals, project names, roles *)

(** A handler over a service's state and the audit trail. *)
Definition service (S A : Type) : Type := S → list audit_row → outcome refusal A * S * list audit_row.

Definition service_gated {S A} (k : service S A) : service S A := λ st log,
  match admin_or_open cfg p src with
  | Raise e => (Raise (of_access e), st, log)
  | Done _ => k st log
  end.

Definition issue_detail (address principal : string) (id : Z) : jobj := list_to_map [
  ("address", JStr address); ("principal", JStr principal); ("signal_id", JNum id)].

(** The row and the path, shown once. *)
Definition issue_mail_signal (sha256 : string → string) (people : pstate) (now : Z) (token address : string)
    (principal : option string) : service signals (signal_view * string) := service_gated (λ st log,
  let address := norm (Some address) in
  let principal_name := norm (Some (if truthy principal then or_empty principal else address)) in
  match get_principal principal_name people with
  | None => (Raise (Refusal 422 (Because principal_name)), st, log)
  | Some q =>
      if negb (pd_active q) then (Raise (Refusal 422 (Because principal_name)), st, log)
      else match issue_signal sha256 now token address principal_name (name_of p) st with
           | None => (Raise internal_error, st, log)
           | Some (row, raw_key, st') =>
               (Done (row, SIGNAL_PATH_PREFIX +:+ raw_key), st',
                log ++ [audit_entry "mail_signal.issue" p (issue_detail address principal_name (v_id row)) None])
           end
  end).

Definition list_mail_signals (include_revoked : bool) : service signals (list signal_view) :=
  service_gated (λ st log, (Done (list_signals include_revoked st), st, log)).

Definition revoke_mail_signal (now : Z) (address : string) : service signals nat := service_gated (λ st log,
  let '(revoked, st') := revoke_signal now address st in
  (Done revoked, st',
   log ++ [audit_entry "mail_signal.revoke" p
             (list_to_map [("address", JStr (norm (Some address))); ("revoked", JNum (Z.of_nat revoked))]) None])).

(** [ValueError] answers 422; the transaction's own error 500. *)
Definition alias_refusal (e : alias_error) : refusal :=
  match e with UniqueViolation => internal_error | _ => Refusal 422 (Because "project names") end.

Definition relabel_detail (r : relabel_result) : jobj := list_to_map [
  ("sources", JArr (JStr <$> (rr_aliases r).*1)); ("target", JStr (rr_target r));
  ("moved", JObj ((λ m, (m.1, JNum (Z.of_nat m.2))) <$> rr_moved r)); ("renamed", JNum (Z.of_nat (length (rr_renamed r))))].

Definition relabel_project (now : Z) (person_names : list string) (owner : option string) (sources : list string)
    (target : string) (dry_run : option bool) : service alias_state relabel_result := service_gated (λ st log,
  let dry_run := default true dry_run in
  match relabel now person_names owner sources target dry_run (name_of p) st with
  | Raise e => (Raise (alias_refusal e), st, log)
  | Done (r, st') =>
      (Done r, st', if dry_run then log else log ++ [audit_entry "admin.project_relabel" p (relabel_detail r) None])
  end).

Definition reverse_detail (source target : string) (r : reverse_result) : jobj := list_to_map [
  ("source", JStr (norm (Some source))); ("target", JStr (norm (Some target)));
  ("restored", JNum (Z.of_nat (rv_restored r))); ("alias_dropped", JBool (rv_alias_dropped r))].

Definition reverse_project_relabel (source target : string) : service alias_state reverse_result :=
  service_gated (λ st log,
    match reverse source target st with
    | Raise e => (Raise (alias_refusal e), st, log)
    | Done (r, st') =>
        (Done r, st', log ++ [audit_entry "admin.project_relabel_reverse" p (reverse_detail source target r) None])
    end).

Definition assign_detail (r : assign_result) : jobj := list_to_map [
  ("role", JStr (ar_role r)); ("holder", JStr (ar_holder r)); ("previous", jopt (ar_previous r))].

Definition assign_role (now : Z) (env : role_env) (role holder : string) : service role_state assign_result :=
  service_gated (λ st log,
    match assign now env role holder (name_of p) st with
    | Raise _ => (Raise (Refusal 422 (Because role)), st, log)
    | Done (r, st') =>
        (Done r, st', if ar_changed r then log ++ [audit_entry "admin.role_assign" p (assign_detail r) None] else log)
    end).

Definition retire_role (now : Z) (role : string) : service role_state unit := service_gated (λ st log,
  let '(found, st') := unassign now role st in
  if found then (Done tt, st', log ++ [audit_entry "admin.role_retire" p {["role" := JStr role]} None])
  else (Raise (Refusal 404 (NotThere role)), st', log)).

Definition list_roles_endpoint : service role_state (list (string * role_row)) :=
  service_gated (λ st log, (Done (list_roles st), st, log)).

Definition list_project_aliases : service alias_state (list (string * alias_row)) :=
  service_gated (λ st log, (Done (list_aliases st), st, log)).

Definition role_history (role : string) : service role_state (list hist_row) :=
  service_gated (λ st log, (Done (history st role), st, log)).
End routes.
