(* ===== verification/AdminProps.v ===== *)
(** What administration guarantees: the expiry sweep ends and removes the
    expired rows; a bulk delete counts what it would remove, reaches only its
    prefix, and only when a broad prefix is named back; an edit moves the rows
    it names and no other; every route stands behind the admin gate. *)

From stdpp Require Import base gmap list strings.
From Stdlib Require Import ZArith QArith Lia Ascii.
From S2P Require Import Prelude PyString Json Store Frame Batches Identity ProjectAlias AddressRoles Principals Auth Memory MemoryProps Inbox.
From S2P Require Import WatchClaim Seats Presence Register Tree MailSignal Search SearchProps Requests MemoryRoutes MemoryRoutesProps Admin AdminRoutes.

Open Scope Z_scope.
Open Scope tiding_scope.

(** ** The expiry sweep *)

(** C35. The expiry sweep ends: with batches of any positive size it returns, whatever the table, having removed exactly
    the expired rows and counted each once. *)
Theorem cleanup_exact now n t : wf t → (0 < n)%nat →
  ∃ deleted t', cleanup_expired now n t = Some (deleted, t') ∧
    deleted = sql_count (expired_row now) t ∧ t' = sql_delete (expired_row now) t ∧ wf t' ∧
    ∀ r, r ∈ t_rows t' ↔ r ∈ t_rows t ∧ ∀ e, r_expires r = Some e → (now < e)%Z.
Proof.
  intros Hwf Hn. exists (sql_count (expired_row now) t), (sql_delete (expired_row now) t).
  split; [|split; [done|split; [done|split; [by apply wf_delete|]]]].
  - destruct Hwf as (_ & Hid & _). unfold cleanup_expired. by rewrite batches_exact.
  - intros r. unfold sql_delete, expired_row, unexpired. cbn [t_rows]. rewrite elem_of_select, negb_involutive.
    destruct (r_expires r) as [e|]; [|naive_solver]. rewrite Z.ltb_lt. naive_solver.
Qed.

(** ** Bulk deletion *)

Definition with_run (dry_run : bool) (echo : option string) (b : bulk_request) : bulk_request :=
  BulkRequest (bd_namespace b) (bd_key_prefix b) (bd_scope b) (bd_user_id b) (bd_older_than_days b) dry_run echo.

(** The rows a request names. *)
Definition names_row (now : Z) (b : bulk_request) (r : row) : Prop :=
  r_ns r = bd_namespace b ∧ startswith (bd_key_prefix b) (r_key r) = true ∧
  (∀ s, bd_scope b = Some s → r_scope r = s) ∧ (∀ u, bd_user_id b = Some u → r_user r = u) ∧
  (∀ d, bd_older_than_days b = Some d → (r_created r < now - 86400 * d)%Z).

Lemma when_true {A} (o : option A) p : when o p = true ↔ ∀ x, o = Some x → p x = true.
Proof. destruct o; cbn; naive_solver. Qed.

Lemma bulk_where_true now b r : bulk_where now b r = true ↔ names_row now b r.
Proof.
  unfold bulk_where, names_row. rewrite !andb_true_iff, !when_true, like_prefix, bool_decide_eq_true.
  setoid_rewrite bool_decide_eq_true. setoid_rewrite Z.ltb_lt. tauto.
Qed.

Lemma bulk_where_run now dry echo b : bulk_where now (with_run dry echo b) = bulk_where now b.
Proof. done. Qed.

Section routes.
Context (cfg : auth_settings) (p : option principal) (src : auth_source).

Lemma gated_done {A} (m : route A) c s : admin_or_open cfg p src = Done c → gated cfg p src m s = m s.
Proof. intros H. unfold gated, lift, rbind. by rewrite H. Qed.

Lemma gated_raise {A} (m : route A) e s : admin_or_open cfg p src = Raise e → gated cfg p src m s = (Raise (of_access e), s).
Proof. intros H. unfold gated, lift, rbind. by rewrite H. Qed.

Lemma length_deleted q t : (length (t_rows (sql_delete q t)) + sql_count q t = length (t_rows t))%nat.
Proof.
  unfold sql_delete, sql_count, sql_select. cbn [t_rows]. induction (t_rows t) as [|r l IH]; [done|].
  rewrite !select_cons. destruct (q r); cbn [negb length]; lia.
Qed.

Definition bulk_done (now : Z) (b : bulk_request) (s : rstate) : rstate :=
  RState (sql_delete (bulk_where now b) (rs_table s))
    (rs_log s ++ [audit_entry "admin.bulk_delete" p (bulk_detail b (sql_count (bulk_where now b) (rs_table s))) None]).

Lemma bulk_runs now b s c : admin_or_open cfg p src = Done c → bd_dry_run b = false →
  (_is_broad b = true → strip (or_empty (bd_i_understand b)) = _blast_label b) →
  bulk_delete_endpoint cfg p src now b s =
    (let n := sql_count (bulk_where now b) (rs_table s) in
     (Done (BulkResponse n n false (sample_keys now b (rs_table s)) None), bulk_done now b s)).
Proof.
  intros Hc Hd Hb. unfold bulk_delete_endpoint. rewrite (gated_done _ c) by done. unfold rbind, table_of, bulk_delete.
  rewrite Hd. destruct (_is_broad b); [|done]. by rewrite Hb, bool_decide_eq_true_2 by done.
Qed.

Lemma bulk_refuses now b s c : admin_or_open cfg p src = Done c → bd_dry_run b = false → _is_broad b = true →
  strip (or_empty (bd_i_understand b)) ≠ _blast_label b →
  bulk_delete_endpoint cfg p src now b s = (Raise (Refusal 422 (Because (_blast_label b))), s).
Proof.
  intros Hc Hd Hb He. unfold bulk_delete_endpoint. rewrite (gated_done _ c) by done. unfold rbind, table_of, bulk_delete.
  by rewrite Hd, Hb, (bool_decide_eq_false_2 _ He).
Qed.

Lemma bulk_where_older now later b r : now <= later → bulk_where now b r = true → bulk_where later b r = true.
Proof.
  rewrite !bulk_where_true. unfold names_row. intros Hle (H1 & H2 & H3 & H4 & H5). split_and!; [done..|].
  intros d Hd. specialize (H5 d Hd). lia.
Qed.

Lemma bulk_where_ageless now later b r : bd_older_than_days b = None → bulk_where later b r = bulk_where now b r.
Proof. intros H. unfold bulk_where. by rewrite H. Qed.

Lemma sql_count_mono (q q' : row → bool) t : (∀ r, q r = true → q' r = true) → (sql_count q t <= sql_count q' t)%nat.
Proof.
  intros H. unfold sql_count, sql_select. induction (t_rows t) as [|r l IH]; [done|]. rewrite !select_cons.
  specialize (H r). destruct (q r), (q' r); cbn [length]; [lia|by discriminate H|lia..].
Qed.

(** C32. A dry run changes nothing and previews the deletion: sent again for
    real, at the same instant or later, with the echo the dry run asked for,
    the request removes exactly the rows its namespace, literal key prefix and
    filters name then, answers how many and writes one audit row; that is as
    many as the dry run counted, or, when the request asks for an age and rows
    came of it meanwhile, more. A broad prefix that is not named back is
    refused and removes nothing. Assumed of a broad prefix: its label does not
    begin or end with a blank, or else no echo is ever accepted
    ([padded_prefix_unconfirmable]). *)
Theorem preview_then_delete now later b s c : admin_or_open cfg p src = Done c → now <= later →
  (_is_broad b = true → strip (_blast_label b) = _blast_label b) →
  ∃ n n' sample sample' echo,
    bulk_delete_endpoint cfg p src now (with_run true None b) s = (Done (BulkResponse 0 n true sample echo), s) ∧
    (n <= n')%nat ∧ (later = now ∨ bd_older_than_days b = None → n' = n ∧ sample' = sample) ∧
    (∃ s', bulk_delete_endpoint cfg p src later (with_run false echo b) s = (Done (BulkResponse n' n' false sample' None), s') ∧
       (length (t_rows (rs_table s')) + n' = length (t_rows (rs_table s)))%nat ∧
       (∀ r, r ∈ t_rows (rs_table s') ↔ r ∈ t_rows (rs_table s) ∧ ¬ names_row later b r) ∧
       rs_log s' = rs_log s ++ [audit_entry "admin.bulk_delete" p (bulk_detail b n') None]) ∧
    (_is_broad b = true → ∀ other, strip (or_empty other) ≠ _blast_label b →
       bulk_delete_endpoint cfg p src later (with_run false other b) s = (Raise (Refusal 422 (Because (_blast_label b))), s)).
Proof.
  intros Hc Hle Hl. exists (sql_count (bulk_where now b) (rs_table s)), (sql_count (bulk_where later b) (rs_table s)),
    (sample_keys now b (rs_table s)), (sample_keys later b (rs_table s)), (if _is_broad b then Some (_blast_label b) else None).
  split; [|split; [|split; [|split]]].
  - unfold bulk_delete_endpoint. by rewrite (gated_done _ c).
  - apply sql_count_mono. intros r. by apply bulk_where_older.
  - intros [->|Hn]; [done|]. unfold sample_keys, sql_count, sql_select.
    by rewrite (select_ext (bulk_where later b) (bulk_where now b)) by (intros r _; by apply bulk_where_ageless).
  - exists (bulk_done later b s). rewrite (bulk_runs _ _ _ c); [|done|done|].
    2:{ intros Hb. change (_is_broad b = true) in Hb. cbn [bd_i_understand with_run]. rewrite Hb. by apply Hl. }
    split; [done|split; [apply length_deleted|split; [|done]]].
    intros r. unfold bulk_done, sql_delete. cbn [t_rows rs_table].
    rewrite elem_of_select, negb_true_iff, <- bulk_where_true, not_true_iff_false. tauto.
  - intros Hb other Ho. by apply (bulk_refuses later (with_run false other b) s c).
Qed.
End routes.

(** ** Authorship *)

Definition authored (t : table) : list (Z * string * option string * Z) := author <$> t_rows t.

Lemma authored_update q f t : (∀ r, author (f r) = author r) → authored (sql_update q f t) = authored t.
Proof. intros Hf. by apply fmap_update_where. Qed.

Lemma authored_rekeys us t t' : sql_rekeys us t = Some t' → authored t' = authored t.
Proof.
  revert t. induction us as [|[i g] us IH]; intros t; cbn; [by intros [= <-]|].
  unfold sql_rekey. case_match; [done|]. cbn. intros Ht'. rewrite (IH _ Ht'). by apply authored_update.
Qed.

Lemma authored_delete q t : authored (sql_delete q t) `sublist_of` authored t.
Proof.
  unfold authored, sql_delete. cbn [t_rows]. induction (t_rows t) as [|r l IH]; [done|].
  rewrite select_cons. destruct (q r); cbn [negb fmap list_fmap]; by constructor.
Qed.

Lemma authored_move_row u t b t' : update_memory u t = Some (b, t') → authored t' = authored t.
Proof.
  unfold update_memory. case_match; [by intros [= _ <-]|]. intros Hu.
  apply bind_Some in Hu as (t1 & H1%authored_rekeys & [= _ <-]).
  destruct (up_new_tags u); [|done]. by rewrite authored_update.
Qed.

Lemma authored_climb now register roots ms t :
  match climb_letters now register roots ms t with
  | Done (_, _, t') => authored t' = authored t
  | Raise t' => authored t' = authored t
  end.
Proof.
  revert t. induction ms as [|m ms IH]; intros t; [done|]. cbn [climb_letters]. destruct (climb_verdict_of register roots m) as [parent why|why].
  - destruct (move_letter now m parent why t) as [t1|] eqn:Hm; [|done]. specialize (IH t1).
    assert (authored t1 = authored t) as Ht.
    { unfold move_letter in Hm. apply bind_Some in Hm as (t2 & H2%authored_rekeys & [= <-]). by rewrite authored_update. }
    destruct (climb_letters now register roots ms t1) as [[[up stays] t']|t']; cbn; congruence.
  - specialize (IH t). by destruct (climb_letters now register roots ms t) as [[[up stays] t']|t'].
Qed.

Lemma authored_sweep now register roots rows t : authored (sweep_letters now register roots rows t).2 = authored t.
Proof.
  revert t. induction rows as [|r rows IH]; intros t; [done|]. cbn [sweep_letters]. destruct (sweep_verdict_of now register roots r) as [why|why].
  - match goal with |- context [sweep_letters _ _ _ _ ?t1] => specialize (IH t1) end.
    destruct (sweep_letters _ _ _ _ _) as [[gone stays] t']. cbn [snd] in *. rewrite IH. by apply authored_update.
  - specialize (IH t). by destruct (sweep_letters _ _ _ _ _) as [[gone stays] t'].
Qed.

(** ** Every administrative call *)

Inductive admin_call :=
| ListCall (namespace : option string) (q : list_query)
| MachinesCall
| StatsCall (namespace : option string) (by_scope : bool)
| UpdateCall (u : update_request)
| BulkCall (b : bulk_request)
| EstateCall (q : estate_request)
| QueueCall (limit : nat)
| RejectCall (q : reject_request)
| ClimbCall
| SweepCall
| UnansweredCall (min_age_seconds : Z) (limit : nat).

Definition deletes (c : admin_call) : bool := match c with BulkCall _ => true | _ => false end.

(** The actions a call is recorded under. *)
Definition admin_actions (c : admin_call) : list string :=
  match c with
  | BulkCall _ => ["admin.bulk_delete"]
  | EstateCall _ => ["admin.estate_transfer"]
  | RejectCall _ => ["admin.deletion_queue.reject"]
  | _ => []
  end.

Section calls.
Context (cfg : auth_settings) (p : option principal) (src : auth_source).
Context (iso : Z → string) (lane_reservation : bool) (people : list string) (logins : pstate) (now : Z).

Definition admin_handle (c : admin_call) : route unit :=
  match c with
  | ListCall ns q => silent (list_memories_endpoint cfg p src ns q)
  | MachinesCall => silent (list_machines_endpoint cfg p src)
  | StatsCall ns by_scope => silent (stats_endpoint cfg p src now ns by_scope)
  | UpdateCall u => silent (update_memory_endpoint cfg p src u)
  | BulkCall b => silent (bulk_delete_endpoint cfg p src now b)
  | EstateCall q => silent (estate_transfer_endpoint cfg p src logins q)
  | QueueCall limit => silent (deletion_queue_endpoint cfg p src limit)
  | RejectCall q => silent (deletion_queue_reject_endpoint cfg p src now q)
  | ClimbCall => silent (climb_endpoint cfg p src iso lane_reservation people now)
  | SweepCall => silent (sweep_endpoint cfg p src iso lane_reservation people now)
  | UnansweredCall secs limit => silent (unanswered_endpoint cfg p src now secs limit)
  end.

(** What a call may do to the state: [s] before, [s'] after. *)
Definition keeps_books (c : admin_call) (s s' : rstate) : Prop :=
  authored (rs_table s') `sublist_of` authored (rs_table s) ∧
  (deletes c = false → authored (rs_table s') = authored (rs_table s)) ∧
  (rs_log s' = rs_log s ∨
   ∃ action d, action ∈ admin_actions c ∧ rs_log s' = rs_log s ++ [audit_entry action p d None]) ∧
  (admin_actions c ≠ [] → rs_log s' = rs_log s → rs_table s' = rs_table s).

Lemma books_same c s : keeps_books c s s.
Proof. repeat split; auto. Qed.

(** A change of rows that is not recorded: of a call that records nothing. *)
Lemma books_silent c s t : admin_actions c = [] → authored t = authored (rs_table s) → keeps_books c s (RState t (rs_log s)).
Proof. intros Hc Ha. unfold keeps_books. cbn. rewrite Ha, Hc. repeat split; auto. done. Qed.

Lemma books_recorded c s t action d : action ∈ admin_actions c → authored t `sublist_of` authored (rs_table s) →
  (deletes c = false → authored t = authored (rs_table s)) →
  keeps_books c s (RState t (rs_log s ++ [audit_entry action p d None])).
Proof.
  intros Hc Hs Hd. unfold keeps_books. cbn. split_and!; [done|done|eauto|].
  intros _ Hl. exfalso. by apply (f_equal length) in Hl; rewrite length_app in Hl; cbn in Hl; lia.
Qed.

Lemma ends_silent {A} (m : route A) s (P : rstate → Prop) : ends m s (λ _, P) → ends (silent m) s (λ _, P).
Proof. intros H. apply ends_bind. eapply ends_mono; [exact H|]. by intros [x|e] s' Hs'. Qed.

Lemma ends_gated {A} (m : route A) s (P : rstate → Prop) : P s → ends m s (λ _, P) → ends (gated cfg p src m) s (λ _, P).
Proof.
  intros Hs Hm. unfold gated. apply ends_bind. unfold ends, lift. by destruct (admin_or_open cfg p src).
Qed.

Lemma ends_checked {A B} (o : outcome access_error A) (m : route B) s (P : rstate → Prop) :
  P s → ends m s (λ _, P) → ends (lift o ;;; m) s (λ _, P).
Proof. intros Hs Hm. apply ends_bind. unfold ends, lift. by destruct o. Qed.

Lemma update_books u s : ends (update_memory_endpoint cfg p src u) s (λ _, keeps_books (UpdateCall u) s).
Proof.
  apply ends_gated; [apply books_same|]. apply ends_checked; [apply books_same|]. apply ends_bind.
  assert (ends (match move_target u with Some ns => forced cfg p ns | None => answer tt end) s (λ _ s', s' = s)) as Hc
    by (destruct (move_target u); [apply lift_check|done]).
  eapply ends_mono; [exact Hc|]. intros [x|e] s' ->; [|apply books_same]. go.
  destruct (update_memory u (rs_table s)) as [[updated t']|] eqn:Hu; go; [|apply books_same].
  apply authored_move_row in Hu. destruct updated; go; by apply books_silent.
Qed.

Lemma bulk_books b s : ends (bulk_delete_endpoint cfg p src now b) s (λ _, keeps_books (BulkCall b) s).
Proof.
  apply ends_gated; [apply books_same|]. go. unfold bulk_delete.
  destruct (bd_dry_run b); go; [apply books_same|]. destruct (_is_broad b && _); go; [apply books_same|].
  apply books_recorded; [by left|apply authored_delete|done].
Qed.

Lemma estate_books q s : ends (estate_transfer_endpoint cfg p src logins q) s (λ _, keeps_books (EstateCall q) s).
Proof.
  apply ends_gated; [apply books_same|]. destruct (get_principal _ logins); go; [|apply books_same].
  unfold estate_transfer. repeat case_match; go; simplify_eq/=; try apply books_same; try (by destruct s; apply books_same).
  apply books_recorded; [by left|by rewrite authored_update|intros _; by apply authored_update].
Qed.

Lemma reject_books q s : ends (deletion_queue_reject_endpoint cfg p src now q) s (λ _, keeps_books (RejectCall q) s).
Proof.
  apply ends_gated; [apply books_same|]. go. unfold deletion_queue_reject.
  repeat case_match; go; simplify_eq/=; try apply books_same.
  apply books_recorded; [by left|by rewrite authored_update|intros _; by apply authored_update].
Qed.

Lemma climb_books s : ends (climb_endpoint cfg p src iso lane_reservation people now) s (λ _, keeps_books ClimbCall s).
Proof.
  apply ends_gated; [apply books_same|]. go. unfold climb_pass.
  match goal with |- context [climb_letters ?n ?reg ?ro ?ms ?t] => pose proof (authored_climb n reg ro ms t) as Ha end.
  destruct (climb_letters _ _ _ _ _) as [[[up stays] t']|t']; go; by apply books_silent.
Qed.

Lemma sweep_books s : ends (sweep_endpoint cfg p src iso lane_reservation people now) s (λ _, keeps_books SweepCall s).
Proof.
  apply ends_gated; [apply books_same|]. go. unfold sweep_pass.
  match goal with |- context [sweep_letters ?n ?reg ?ro ?rows ?t] => pose proof (authored_sweep n reg ro rows t) as Ha end.
  destruct (sweep_letters _ _ _ _ _) as [[gone stays] t']; go. by apply books_silent.
Qed.

(** The administrative calls keep the books: one that the admin gate turns away changes nothing; none changes which
    rows exist, what they say, who wrote them or when, except that a bulk delete may remove rows; each writes at
    most one row of the audit trail, under its own action and its caller's name; and a bulk delete, an estate
    transfer or a rejected deletion that changes a row writes one. *)
Lemma admin_calls_keep_books c s : let '(r, s') := admin_handle c s in
  (∀ e, admin_or_open cfg p src = Raise e → r = Raise (of_access e) ∧ s' = s) ∧ keeps_books c s s'.
Proof.
  assert (ends (admin_handle c) s (λ _, keeps_books c s)) as Hb.
  { destruct c; apply ends_silent; first [apply update_books|apply bulk_books|apply estate_books|apply reject_books|
      apply climb_books|apply sweep_books|apply ends_gated; [apply books_same|go; apply books_same]]. }
  unfold ends in Hb. destruct (admin_handle c s) as [r s'] eqn:Hr. split; [|done]. intros e He.
  assert (∀ A (m : route A), silent (gated cfg p src m) s = (Raise (of_access e), s)) as Hg.
  { intros A m. unfold silent, rbind. by rewrite (gated_raise _ _ _ _ e). }
  assert (admin_handle c s = (Raise (of_access e), s)) as Hc by (destruct c; apply Hg). split; congruence.
Qed.
End calls.

(** ** On concrete states *)

Definition ex_old (id : Z) (key : string) (expires : option Z) : row :=
  Row id (PKey "notes" key "project" "ana" (Some "tide")) "v" "" "" "v" 10 10 expires None (Some "ana") None.

Definition ex_aging : table := Table [ex_old 1 "a" (Some 15); ex_old 2 "b" None; ex_old 3 "c" (Some 12); ex_old 4 "d" (Some 90)] 5.

Lemma ex_aging_wf : wf ex_aging.
Proof. split_and!; [by apply (bool_decide_eq_true_1 _); vm_compute..|by repeat constructor]. Qed.

Lemma cleanup_exact_witness :
  wf ex_aging ∧ ∃ t', cleanup_expired 20 1 ex_aging = Some (2%nat, t') ∧ (λ r, r_key r) <$> t_rows t' = ["b"; "d"].
Proof.
  split; [exact ex_aging_wf|]. destruct (cleanup_exact 20 1 ex_aging ex_aging_wf ltac:(lia)) as (d & t' & H & Hd & Ht & _).
  exists t'. rewrite H, Hd, Ht. split; vm_compute; reflexivity.
Defined.

Definition ex_admin : principal := Principal 1 "root" "human" true false true [] [] true 0 None.

Definition ex_broad : bulk_request := BulkRequest "notes" "plan" None None None true None.

Definition ex_shut : auth_settings := AuthSettings true "" "" None None "" "0.0.0.0".

Lemma preview_then_delete_witness :
  admin_or_open ex_shut (Some ex_admin) FromPrincipal = Done (Some ex_admin) ∧ _is_broad ex_broad = true ∧
  ∃ sample echo s', (bulk_delete_endpoint ex_shut (Some ex_admin) FromPrincipal 20 (with_run true None ex_broad) ex_state).1 =
      Done (BulkResponse 0 1 true sample echo) ∧
    bulk_delete_endpoint ex_shut (Some ex_admin) FromPrincipal 25 (with_run false echo ex_broad) ex_state =
      (Done (BulkResponse 1 1 false sample None), s') ∧ t_rows (rs_table s') = [].
Proof.
  split; [done|split; [done|]].
  destruct (preview_then_delete ex_shut (Some ex_admin) FromPrincipal 20 25 ex_broad ex_state (Some ex_admin) eq_refl ltac:(lia) (λ _, eq_refl))
    as (n & n' & sample & sample' & echo & Hp & _ & Hsame & (s' & Hd & Hn & _) & _).
  destruct (Hsame (or_intror eq_refl)) as [-> ->].
  assert (n = 1%nat) as -> by (vm_compute in Hp; by inversion Hp).
  exists sample, echo, s'. split; [by rewrite Hp|split; [done|]].
  destruct (t_rows (rs_table s')); [done|cbn in Hn; lia].
Defined.

Definition ex_estate : estate_request := EstateRequest "ana" "bo" None None false.

Definition ex_logins (active : bool) : pstate :=
  PState [PrincipalRow 3 "bo" "agent" false None None None [] [] active 0 None] [] ∅.

(** ** What the code does otherwise *)

(** An edit writes the new key as it is spelled, the verbs look for it in
    small letters: renamed to "Plan" the row is found under no key, and a
    second edit is the only way back. *)
Lemma edited_out_of_reach :
  let edit k k' := UpdateRequest "notes" k "project" "ana" None None None (Some k') None in
  ∃ t1 t2, update_memory (edit "plan" "Plan") (rs_table ex_state) = Some (true, t1) ∧
    (∀ key, key ∈ ["plan"; "Plan"; "PLAN"] → (memory_get ex_sha 20 "notes" key "project" "ana" (Some "tide") t1).1 = None) ∧
    update_memory (edit "Plan" "plan") t1 = Some (true, t2) ∧ t2 = rs_table ex_state.
Proof.
  do 2 eexists. split; [vm_compute; reflexivity|]. split; [|split; vm_compute; reflexivity].
  intros key Hk. repeat (apply elem_of_cons in Hk as [->|Hk]; [by vm_compute|]). by apply elem_of_nil in Hk.
Qed.

(** On an open server of one machine the edit keeps a login to the namespaces
    it may write; the bulk delete beside it does not. *)
Lemma bulk_delete_unscoped :
  let cfg := AuthSettings false "" "" None None "" "127.0.0.1" in
  let p := Some (ex_login "eve" ["own"] ["own"]) in
  (update_memory_endpoint cfg p FromPrincipal (UpdateRequest "notes" "plan" "project" "ana" None None None (Some "x") None) ex_state).1 =
    Raise (Refusal 403 (NoNamespaceAccess (Http 403))) ∧
  t_rows (rs_table (bulk_delete_endpoint cfg p FromPrincipal 20 (with_run false (Some "notes:plan") ex_broad) ex_state).2) = [].
Proof. split; vm_compute; reflexivity. Qed.

(** The trail is to hold every change of a memory row. An edit that moves one,
    and a sweep asked for by hand, leave no row in it. *)
Lemma edits_and_sweeps_untrailed :
  let move := UpdateRequest "notes" "plan" "project" "ana" (Some "elsewhere") None None None None in
  let s1 := (update_memory_endpoint ex_shut (Some ex_admin) FromPrincipal move ex_state).2 in
  ((λ r, r_ns r) <$> t_rows (rs_table s1) = ["elsewhere"]) ∧ rs_log s1 = [] ∧
  ∃ s2, cleanup_endpoint ex_shut (Some ex_admin) FromPrincipal 20 None 500 (RState ex_aging []) = Some (Done 2%nat, s2) ∧ rs_log s2 = [].
Proof. split; [by vm_compute|split; [by vm_compute|]]. eexists. split; vm_compute; reflexivity. Qed.

(** A configured batch of zero is accepted, and the sweep then never ends. *)
Lemma zero_batch_never_ends now t : cleanup_expired now (cleanup_size None 0) t = None ∧
  ∀ fuel, batch_loop (λ r, r_id r) (expired_row now) fuel 0 0 (t_rows t) = None.
Proof. split; [|intros fuel; apply batches_stuck]. unfold cleanup_expired, delete_in_batches. by rewrite batches_stuck. Qed.

(** An estate must not go to a name that cannot authenticate; a deactivated
    login is accepted as the heir. *)
Lemma inactive_heir_accepted :
  (estate_transfer_endpoint ex_shut (Some ex_admin) FromPrincipal (ex_logins false) ex_estate ex_state).1 = Done 1%nat.
Proof. by vm_compute. Qed.

(** A broad prefix that ends in a blank asks for an echo that no answer can
    give: what is sent back is stripped before it is compared. *)
Lemma padded_prefix_unconfirmable other :
  let b := BulkRequest "notes" "plan " None None None true None in
  (bulk_delete_endpoint ex_shut (Some ex_admin) FromPrincipal 20 (with_run false other b) ex_state).1 =
    Raise (Refusal 422 (Because "notes:plan ")).
Proof.
  cbn zeta. rewrite (bulk_refuses ex_shut (Some ex_admin) FromPrincipal 20 _ ex_state (Some ex_admin)); [done..|].
  cbn [bd_i_understand with_run]. intros H. pose proof (strip_idem (or_empty other)) as Hi. rewrite H in Hi. by vm_compute in Hi.
Qed.

(** The key prefix of a listing is a pattern: an underscore in it stands for
    any character, where the bulk delete takes the same text literally. *)
Lemma listed_prefix_is_a_pattern :
  let q := ListQuery None None None (Some "p_an") None None None None 0 50 "key" "asc" false 200 in
  (list_memories q (rs_table ex_state)).1 = 1%nat ∧
  sql_count (bulk_where 20 (BulkRequest "notes" "p_an" None None None true None)) (rs_table ex_state) = 0%nat.
Proof. split; by vm_compute. Qed.

(** A shared row lives under "global", and every memory verb defaults to it;
    declining its deletion defaults to "default" and finds nothing. *)
Lemma shared_rejection_misses :
  let r := Row 1 (PKey "notes" "rule" "shared" "global" None) "v" "" "" "v" 10 10 None
             (Some {["status" := JStr "deletion_requested"]}) (Some "ana") None in
  ∃ rq, validate_reject [] "notes" "rule" (Some "shared") None None "still needed" = Some rq ∧
    (deletion_queue_reject_endpoint ex_shut (Some ex_admin) FromPrincipal 20 rq (RState (Table [r] 2) [])).1 =
      Raise (Refusal 404 (NotThere "rule")) ∧ deletion_queue_list 10 (Table [r] 2) = [r].
Proof. cbn zeta. eexists. split; [vm_compute; reflexivity|]. split; vm_compute; reflexivity. Qed.
