(* ===== verification/SessionRoutes.v ===== *)
(** The routes of the session register (src/server/routers/session.py) and of
    the caller's own identity (src/server/routers/identity.py): claims,
    releases, death certificates, the register's listings, watch claims;
    each is the whole handler over the memories table. The register's rows lie
    in the inbox namespace, and every route asks for a grant on it. Guidance
    texts and the log are not modelled. *)

From stdpp Require Import base gmap list strings.
From Stdlib Require Import ZArith Lia Ascii.
From S2P Require Import Prelude PyString Json Store Identity ProjectAlias Principals Auth Memory Inbox.
From S2P Require Import WatchClaim Seats Presence Register Requests MemoryRoutes.

Open Scope Z_scope.
Open Scope tiding_scope.

(** ** Bodies; [None] is the answer 422 *)

Record claim_body := ClaimBody {
  cb_session_key : string;
  cb_project : string;
  cb_provider : option string;
  cb_session_nonce : option string;
  cb_host : option string;
  cb_preferred_seat : option string;
  cb_runtime_seat : bool
}.

Definition keyed (session_key project : string) : bool :=
  nonempty (strip session_key) && nonempty (strip project) && at_most MAX_ADDR (norm (Some session_key)) &&
  at_most MAX_ADDR (norm (Some project)).

Definition validate_claim (b : claim_body) : option claim_body :=
  checked (keyed (cb_session_key b) (cb_project b) && at_most_opt MAX_ADDR (cb_provider b) &&
           at_most_opt MAX_ADDR (cb_host b) && at_most_opt MAX_ADDR (cb_preferred_seat b))
    (ClaimBody (norm (Some (cb_session_key b))) (norm (Some (cb_project b))) (Some (default "claude" (cb_provider b)))
       (cb_session_nonce b) (cb_host b) (cb_preferred_seat b) (cb_runtime_seat b)).

Record release_body := ReleaseBody {
  rb_session_key : string;
  rb_project : string;
  rb_evidence : option string;
  rb_session_nonce : option string
}.

Definition validate_release (b : release_body) : option release_body :=
  checked (keyed (rb_session_key b) (rb_project b) && at_most_opt 32 (rb_evidence b) && at_most_opt MAX_ADDR (rb_session_nonce b))
    (ReleaseBody (norm (Some (rb_session_key b))) (norm (Some (rb_project b))) (rb_evidence b) (rb_session_nonce b)).

(** [death_normalize], [death_not_empty]; who certifies is the route's business. *)
Definition validate_death (c : certificate) : option certificate :=
  let n s := norm (Some s) in
  let c' := Certificate (n (ce_session_key c)) (n (ce_seat c)) (n (ce_lane c)) (n (ce_project c)) (n (ce_provider c))
              (n (ce_host c)) (ce_died_at c) (ce_cause c) (ce_graceful c) None (Some (norm (ce_session_nonce c))) in
  checked (nonempty (ce_project c') && nonempty (ce_provider c') &&
           forallb (at_most MAX_ADDR) [ce_session_key c'; ce_seat c'; ce_lane c'; ce_project c'; ce_provider c'; ce_host c';
             norm (ce_session_nonce c)] && at_most 64 (ce_cause c))
    c'.

Record watch_body := WatchBody {
  wb_seat : string;
  wb_nonce : string;
  wb_armed_by : option string;
  wb_project_dir : option string;
  wb_listen_set : option (list string);
  wb_host : option string;
  wb_seat_nonce : option string
}.

Definition seat_and_nonce (seat nonce : string) : bool :=
  at_most 200 seat && (8 <=? Z.of_nat (String.length nonce)) && at_most 64 nonce.

Definition validate_watch (b : watch_body) : bool :=
  seat_and_nonce (wb_seat b) (wb_nonce b) && at_most_opt 20 (wb_armed_by b) && at_most_opt 4096 (wb_project_dir b) &&
  (Z.of_nat (length (default [] (wb_listen_set b))) <=? 32) && at_most_opt 200 (wb_host b) && at_most_opt 64 (wb_seat_nonce b).

(** ** Sources *)

(** [request.state.auth_source] *)
Definition source_name (src : auth_source) : string :=
  match src with FromPrincipal => "principal" | FromLegacy => "legacy" | Anonymous => "anonymous" end.

(** Testimony carries a name: the login's, else where the request came from. *)
Definition certifier (p : option principal) (src : auth_source) : option string :=
  if truthy (name_of p) then name_of p else Some (source_name src).

Definition with_certifier (who : option string) (c : certificate) : certificate :=
  Certificate (ce_session_key c) (ce_seat c) (ce_lane c) (ce_project c) (ce_provider c) (ce_host c) (ce_died_at c)
    (ce_cause c) (ce_graceful c) who (ce_session_nonce c).

Section routes.
Context (cfg : auth_settings) (p : option principal) (iso : Z → string) (lane_reservation : bool) (people : list string).

Definition register_access (mode : string) : route unit := access cfg p SEAT_NAMESPACE mode.

(** ** The seat register *)

(** A claim that finds no free seat has entered its project in the census. *)
Definition claim_seat (now : Z) (b : claim_body) : route grant :=
  register_access "write" ;;;
  t ⇐ table_of ;;
  match seat_claim lane_reservation now (cb_session_key b) (cb_project b) (cb_provider b) (cb_session_nonce b) (cb_host b)
          (cb_preferred_seat b) (cb_runtime_seat b) t with
  | Done (g, t') => store t' ;;; answer g
  | Raise (NoFreeSeat project provider) =>
      store (register_project now (Claimant (cb_session_key b) project provider None None None false) t) ;;;
      refuse 409 (Because project)
  end.

Definition release_seat (now : Z) (b : release_body) : route (option string) :=
  register_access "write" ;;;
  t ⇐ table_of ;;
  let '(released, t') := seat_release now (rb_session_key b) (rb_project b) (rb_evidence b) (rb_session_nonce b) t in
  store t' ;;; answer released.

(** No grant is asked for: who gets here is the middleware's business. *)
Definition certify_death (now : Z) (src : auth_source) (c : certificate) : route cert_result :=
  if negb (nonempty (ce_session_key c)) && negb (nonempty (ce_seat c)) then refuse 422 (Because "no idempotency key")
  else if nonempty (ce_seat c) && is_reserved_lane lane_reservation (ce_seat c) (ce_project c)
  then refuse 422 (Because "lane_as_seat")
  else
    t ⇐ table_of ;;
    let '(r, t') := death_certify iso now (with_certifier (certifier p src) c) t in
    store t' ;;; answer r.

Definition list_addresses (now : Z) (project : option string) : route (list reg_entry) :=
  register_access "read" ;;; t ⇐ table_of ;; answer (address_register iso lane_reservation people now project t).

Definition list_projects (now : Z) : route (list project_entry) :=
  register_access "read" ;;; t ⇐ table_of ;; answer (project_registry now t).

Definition list_seats (now : Z) (project session_key : option string) : route (list seat_entry) :=
  register_access "read" ;;; t ⇐ table_of ;; answer (seat_list now project session_key t).

(** ** Watch claims *)

Definition watch_claim_endpoint (now : Z) (b : watch_body) : route claim_verdict :=
  register_access "write" ;;;
  t ⇐ table_of ;;
  let '(v, t') := watch_claim now (Some (wb_seat b)) (wb_nonce b) (default "agent" (wb_armed_by b))
                    (default "" (wb_project_dir b)) (default [] (wb_listen_set b)) (wb_host b) (wb_seat_nonce b) t in
  store t' ;;; answer v.

Definition watch_beat_endpoint (now : Z) (seat nonce : string) (fetched_through : option Z) : route beat_verdict :=
  register_access "write" ;;;
  t ⇐ table_of ;;
  let '(v, t') := watch_beat now (Some seat) nonce fetched_through t in
  store t' ;;; answer v.

Definition watch_release_endpoint (seat nonce : string) : route release_verdict :=
  register_access "write" ;;;
  t ⇐ table_of ;;
  let '(v, t') := watch_release (Some seat) nonce t in
  store t' ;;; answer v.

(** [x-engram-machine] names the asking box. *)
Definition watch_status_endpoint (now : Z) (seat : string) (header : string → option string) : route status :=
  register_access "read" ;;; t ⇐ table_of ;; answer (watch_status now (Some seat) (header "x-engram-machine") t).

(** ** Who am I *)

Record whoami_response := Whoami { wa_principal : principal; wa_inbox_address : string; wa_listen_set : list string }.

Definition whoami (expand : list string → list string) : route whoami_response :=
  q ⇐ lift (require_principal p) ;;
  let address := norm (Some (pd_name q)) in
  answer (Whoami q address (address :: expand [address])).

(** A starred grant is spelled out. *)
Definition namespaces : route (list string * list string) :=
  q ⇐ lift (require_principal p) ;;
  t ⇐ table_of ;;
  let spelled perms := if "*" isin perms then list_namespaces t else perms in
  answer (spelled (pd_read_namespaces q), spelled (pd_write_namespaces q)).
End routes.
