(* ===== verification/SessionRoutesProps.v ===== *)
(** What the session register's routes guarantee: they stay within the
    register's own rows. No memory is touched, no letter written, removed,
    moved or rewritten (a claim may mark letters read); every call but a
    death certificate stands behind a grant on the register's namespace. *)

From stdpp Require Import base gmap list strings.
From Stdlib Require Import ZArith QArith Lia Ascii.
From S2P Require Import Prelude PyString Json Store Frame Identity ProjectAlias Principals Auth Memory MemoryProps Inbox.
From S2P Require Import WatchClaim Seats Presence Register Search Requests MemoryRoutes MemoryRoutesProps InboxRoutes SessionRoutes.

Open Scope Z_scope.
Open Scope tiding_scope.

(** ** The register's rows *)

Definition memory_key (k : pkey) : bool := k_scope k isin DATA_SCOPES.

Definition register_key (k : pkey) : bool :=
  k_scope k isin [SEAT_SCOPE; PRESENCE_SCOPE; DEATH_SCOPE; LANE_CURSOR_SCOPE; PROJECT_REGISTRY_SCOPE; WATCH_SCOPE].

(** The rows that are not the register's: where they are, what they say, whose they are. *)
Definition standing (t : table) : list (pkey * (Z * string * option string * Z)) :=
  (λ r, (r_pk r, author r)) <$> select (λ r, negb (register_key (r_pk r))) (t_rows t).

(** No memory is touched; every other row outside the register stands as it did. *)
Definition quiet (t t' : table) : Prop := untouched memory_key t t' ∧ standing t' = standing t.

#[global] Instance quiet_preorder : PreOrder quiet.
Proof.
  split; [by split|]. intros t1 t2 t3 [H1 H2] [H3 H4]. split; [by transitivity t2|congruence].
Qed.

Lemma quiet_update q g t `{!KeepsKeys g} :
  (∀ r, author (g r) = author r) → (∀ r, q r = true → memory_key (r_pk r) = false) → quiet t (sql_update q g t).
Proof.
  intros Hg Hq. split; [by apply untouched_outside|]. unfold standing, sql_update, update_where. cbn [t_rows].
  induction (t_rows t) as [|r l IH]; [done|]. cbn [map]. rewrite !select_cons.
  assert (r_pk (if q r then g r else r) = r_pk r) as -> by (destruct (q r); [by rewrite keeps_pk|done]).
  destruct (negb _); [|exact IH]. rewrite !fmap_cons, IH. f_equal. destruct (q r); [|done]. by rewrite keeps_pk, Hg.
Qed.

(** Changes of the register's own rows. *)
Lemma register_not_memory k : register_key k = true → memory_key k = false.
Proof.
  unfold register_key, memory_key. rewrite bool_decide_eq_true, bool_decide_eq_false. intros H.
  repeat (apply elem_of_cons in H as [->|H]; [by apply (bool_decide_eq_false_1 _); vm_compute|]). by apply elem_of_nil in H.
Qed.

Lemma quiet_own q g t `{!KeepsKeys g} : (∀ r, q r = true → register_key (r_pk r) = true) → quiet t (sql_update q g t).
Proof.
  intros Hq. split; [apply untouched_outside; [done|]; intros r Hr; by apply register_not_memory, Hq|].
  unfold standing, sql_update, update_where. cbn [t_rows].
  induction (t_rows t) as [|r l IH]; [done|]. cbn [map]. rewrite !select_cons. specialize (Hq r).
  destruct (q r); [rewrite keeps_pk, Hq by done; exact IH|]. destruct (negb _); [|exact IH]. by rewrite !fmap_cons, IH.
Qed.

Lemma quiet_delete q t : (∀ r, q r = true → register_key (r_pk r) = true) → quiet t (sql_delete q t).
Proof.
  intros Hq. split; [apply untouched_delete; intros r Hr; by apply register_not_memory, Hq|].
  unfold standing, sql_delete. cbn [t_rows]. f_equal. apply select_and.
  intros r _ Hr. rewrite Hq; [done|]. by apply negb_false_iff in Hr.
Qed.

Lemma quiet_append now n t : register_key (n_pk n) = true → quiet t (sql_append now n t).
Proof.
  intros Hn. split; [by apply untouched_append, register_not_memory|]. unfold standing, sql_append. cbn [t_rows].
  rewrite select_app, select_cons. cbn [r_pk mk_row]. rewrite Hn. cbn. by rewrite app_nil_r.
Qed.

Lemma quiet_insert now n t : register_key (n_pk n) = true → quiet t (sql_insert_nothing now n t).2.
Proof. intros Hn. unfold sql_insert_nothing. destruct (sql_find _ t); [done|]. by apply quiet_append. Qed.

Lemma has_pk_register k r : register_key k = true → has_pk k r = true → register_key (r_pk r) = true.
Proof. intros Hk Hr%has_pk_true. by rewrite Hr. Qed.

Lemma quiet_upsert now n g t `{!KeepsKeys g} : register_key (n_pk n) = true → quiet t (sql_upsert now n g t).2.
Proof.
  intros Hn. unfold sql_upsert. destruct (sql_find _ t); cbn [snd]; [|by apply quiet_append].
  apply quiet_own; [apply _|]. intros x. by apply has_pk_register.
Qed.

Lemma seat_pk_register s p : register_key (seat_pk s p) = true.
Proof. done. Qed.

(** ** The operations *)

Lemma in_registry_register project r : in_registry project r = true → register_key (r_pk r) = true.
Proof. unfold in_registry. intros H. bprop. destruct H as [[[_ Hs] _] _]. cbn in Hs. unfold register_key. by rewrite Hs. Qed.

Lemma register_project_quiet now q t : quiet t (register_project now q t).
Proof. by apply quiet_upsert; [apply _|]. Qed.

Lemma refresh_quiet now q seat meta t : quiet t (refresh_seat now q seat meta t).
Proof. apply quiet_own; [apply _|]. intros r. by apply has_pk_register. Qed.

Lemma free_quiet q seat t : quiet t (free_seat q seat t).
Proof. apply quiet_delete. intros r. by apply has_pk_register. Qed.

Lemma try_insert_quiet now q seat meta t : quiet t (_try_insert now q seat meta t).2.
Proof.
  unfold _try_insert. pose proof (quiet_insert now (seat_row q seat meta) t eq_refl) as H.
  by destruct (sql_insert_nothing _ _ _) as [[i|] t'].
Qed.

Lemma takeover_quiet now q seat meta older t : quiet t (_try_takeover now q seat meta older t).2.
Proof. apply quiet_own; [apply _|]. intros r [Hr _]%andb_true_iff. by apply has_pk_register in Hr. Qed.

Lemma inherit_mail_quiet reader ids t : quiet t (inherit_mail reader ids t).
Proof.
  apply quiet_update; [apply _|by intros r|]. intros r [[Hs%bool_decide_eq_true _]%andb_true_iff _]%andb_true_iff.
  unfold memory_key. by rewrite Hs.
Qed.

Lemma inheritance_quiet now q seat t : quiet t (_apply_lane_inheritance now q seat t).
Proof.
  unfold _apply_lane_inheritance. repeat case_match; try done. etransitivity; [apply inherit_mail_quiet|].
  apply quiet_own; [apply _|]. intros x. by apply has_pk_register.
Qed.

Lemma collapse_quiet q held ordered t : quiet t (collapse_dupes q held ordered t).
Proof.
  unfold collapse_dupes. revert t. induction ordered as [|r l IH]; intros t; [done|]. cbn [foldl].
  etransitivity; [|apply IH]. case_match; [apply free_quiet|done].
Qed.

Create HintDb quiet.
#[local] Hint Resolve register_project_quiet refresh_quiet free_quiet try_insert_quiet takeover_quiet inheritance_quiet
  collapse_quiet : quiet.

Lemma keep_seat_quiet now q mine held ordered t : quiet t (keep_seat now q mine held ordered t).
Proof. unfold keep_seat. repeat case_match; repeat (etransitivity; [|solve [auto with quiet]]); done. Qed.

Lemma re_seat_quiet now q p sup held t t' : re_seat now q p sup held t = Some t' → quiet t t'.
Proof.
  unfold re_seat. pose proof (try_insert_quiet now q p (_meta now q sup true (Some p)) t) as Hi.
  destruct (_try_insert _ _ _ _ _) as [inserted t1]. cbn [snd] in Hi. intros Hm.
  apply bind_Some in Hm as (t2 & H2 & [= <-]). assert (quiet t t2) as Ht.
  { transitivity t1; [done|]. repeat case_match; simplify_eq; [done|apply refresh_quiet]. }
  transitivity t2; [done|]. destruct (_address_holds_mail t2 _); [done|apply free_quiet].
Qed.

Section claims.
Context (lane : bool).

Lemma continue_quiet now q w t g t' : continue_seat lane now q w t = inl (g, t') → quiet t t'.
Proof.
  unfold continue_seat. repeat case_match; intros; simplify_eq; try done; try apply keep_seat_quiet. by eapply re_seat_quiet.
Qed.

Lemma candidate_quiet now q d roots b w parked seat t g t' :
  try_candidate lane now q d roots b w parked seat t = inl (g, t') → quiet t t'.
Proof.
  unfold try_candidate. destruct (_ || _); [done|]. cbv zeta. set (meta := _meta _ _ _ _ _).
  destruct (sql_find _ t) as [prior|]; destruct (d_reason _); try done.
  - match goal with |- context [_try_takeover ?n ?c ?s ?m ?o ?t] => pose proof (takeover_quiet n c s m o t) as Ht end.
    destruct (_try_takeover _ _ _ _ _ _) as [[] t1]; [|done]. intros [= <- <-]. transitivity t1; [done|apply inheritance_quiet].
  - pose proof (try_insert_quiet now q seat meta t) as Ht.
    destruct (_try_insert _ _ _ _ _) as [[] t1]; [|done]. intros [= <- <-]. transitivity t1; [done|apply inheritance_quiet].
Qed.

Lemma allocate_quiet now q d roots w parked candidates t g t' :
  allocate lane now q d roots w parked candidates t = Done (g, t') → quiet t t'.
Proof.
  revert w parked. induction candidates as [|seat rest IH]; intros w parked; [done|]. cbn [allocate].
  destruct (try_candidate _ _ _ _ _ _ _ _ _ _) as [[g0 t0]|[w0 k0]] eqn:E; [|apply IH].
  intros [= <- <-]. by eapply candidate_quiet.
Qed.

Lemma claim_quiet now key project provider nonce host preferred rt t g t' :
  seat_claim lane now key project provider nonce host preferred rt t = Done (g, t') → quiet t t'.
Proof.
  unfold seat_claim. set (q := Claimant _ _ _ _ _ _ _). unfold claim_as. destruct (_ || is_exempt _); [by intros [= _ <-]|].
  set (q' := if is_some _ then _ else _). cbv zeta. pose proof (register_project_quiet now q' t) as Hr.
  destruct (continue_seat _ _ _ _ _) as [[g0 t0]|w] eqn:E.
  - intros [= <- <-]. etransitivity; [exact Hr|]. by eapply continue_quiet.
  - intros Ha%allocate_quiet. by etransitivity.
Qed.
End claims.

Lemma release_quiet now key project ev nonce t : quiet t (seat_release now key project ev nonce t).2.
Proof.
  unfold seat_release. destruct (sql_select _ t); [done|]. cbn [snd].
  assert (∀ n, quiet t (sql_delete (releases key (norm (Some project)) n) t)) as Hd.
  { intros n. apply quiet_delete. intros x [[Hx _]%andb_true_iff _]%andb_true_iff. by eapply in_registry_register. }
  destruct (certain ev); [|apply Hd]. etransitivity; [apply Hd|]. apply quiet_own; [apply _|].
  intros x [[Hp _]%andb_true_iff _]%andb_true_iff. unfold is_presence in Hp. bprop. destruct Hp as [[[_ Hs] _] _].
  unfold register_key. by rewrite Hs.
Qed.

Lemma certify_quiet iso now c t : quiet t (death_certify iso now c t).2.
Proof.
  unfold death_certify. assert (quiet t (file_cert iso now c t).2) as Hf.
  { unfold file_cert. destruct (sql_find _ t); cbn [snd]; [|by apply quiet_append]. case_match; cbn [snd]; [|done].
    apply quiet_own; [apply _|]. intros x. by apply has_pk_register. }
  destruct (file_cert iso now c t) as [[created updated] t1]. cbn [snd] in Hf.
  assert (quiet t (mark_seat c t1)) as Hm.
  { transitivity t1; [done|]. unfold mark_seat. destruct (nonempty _); [|done].
    apply quiet_own; [apply _|]. intros x. by apply has_pk_register. }
  destruct (_ && _); [|done]. assert (quiet (mark_seat c t1) (feed_cursor iso now c (mark_seat c t1)).2) as Hc.
  { unfold feed_cursor. destruct (sql_find _ _); cbn [snd].
    - apply quiet_own; [apply _|]. intros x. by apply has_pk_register.
    - by apply quiet_upsert; [apply _|]. }
  destruct (feed_cursor _ _ _ _) as [size t3]. cbn [snd] in *. by etransitivity.
Qed.

(** ** Watch claims *)

Lemma watch_register r : is_watch r = true → register_key (r_pk r) = true.
Proof. unfold is_watch. intros H. bprop. destruct H as [[_ Hs] _]. cbn in Hs. unfold register_key. by rewrite Hs. Qed.

Lemma watch_claim_quiet now seat nonce armed dir listen host sn t :
  quiet t (watch_claim now seat nonce armed dir listen host sn t).2.
Proof.
  unfold watch_claim. destruct (negb _); [done|]. destruct (negb _); [done|]. set (c := Claim _ _ _ _ _ _ _). unfold run_claim.
  pose proof (quiet_insert now (claim_row now c) t eq_refl) as Hi. unfold claim_insert.
  destruct (sql_insert_nothing _ _ _) as [[i|] t1]; [done|]. unfold claim_steal.
  assert (∀ q g, (∀ r, q r = true → at_claim (claim_key c) r = true) → KeepsKeys g → quiet t (sql_update q g t)) as Hu.
  { intros q g Hq Hg. apply quiet_own; [done|]. intros x Hx%Hq. unfold at_claim in Hx. apply andb_true_iff in Hx as [Hx _].
    by apply watch_register. }
  destruct (negb _); apply Hu; try apply _; by intros r [Hr _]%andb_true_iff.
Qed.

Lemma holds_register seat nonce r : holds seat nonce r = true → register_key (r_pk r) = true.
Proof. intros [[Hr _]%andb_true_iff _]%andb_true_iff. by apply watch_register. Qed.

Lemma beat_quiet now seat nonce fetched t : quiet t (watch_beat now seat nonce fetched t).2.
Proof. apply quiet_own; [apply _|]. intros r. apply holds_register. Qed.

Lemma watch_release_quiet seat nonce t : quiet t (watch_release seat nonce t).2.
Proof. apply quiet_delete. intros r. apply holds_register. Qed.

(** ** Every call on the register *)

Inductive session_call :=
| ClaimSeat (b : claim_body)
| ReleaseSeat (b : release_body)
| CertifyDeath (src : auth_source) (c : certificate)
| ListAddresses (project : option string)
| ListProjects
| ListSeats (project session_key : option string)
| WatchClaimCall (b : watch_body)
| WatchBeat (seat nonce : string) (fetched_through : option Z)
| WatchRelease (seat nonce : string)
| WatchStatus (seat : string) (header : string → option string).

(** The grant a call asks for; a death certificate asks for none. *)
Definition grant_of (c : session_call) : option string :=
  match c with
  | CertifyDeath _ _ => None
  | ListAddresses _ | ListProjects | ListSeats _ _ | WatchStatus _ _ => Some "read"
  | _ => Some "write"
  end.

Section calls.
Context (cfg : auth_settings) (p : option principal) (iso : Z → string) (lane_reservation : bool) (people : list string) (now : Z).

Definition session_handle (c : session_call) : route unit :=
  match c with
  | ClaimSeat b => silent (claim_seat cfg p lane_reservation now b)
  | ReleaseSeat b => silent (release_seat cfg p now b)
  | CertifyDeath src c => silent (certify_death p iso lane_reservation now src c)
  | ListAddresses project => silent (list_addresses cfg p iso lane_reservation people now project)
  | ListProjects => silent (list_projects cfg p now)
  | ListSeats project key => silent (list_seats cfg p now project key)
  | WatchClaimCall b => silent (watch_claim_endpoint cfg p now b)
  | WatchBeat seat nonce fetched => silent (watch_beat_endpoint cfg p now seat nonce fetched)
  | WatchRelease seat nonce => silent (watch_release_endpoint cfg p seat nonce)
  | WatchStatus seat header => silent (watch_status_endpoint cfg p now seat header)
  end.

Lemma ends_granted {A} mode (m : route A) s (P : outcome refusal unit → rstate → Prop) :
  (∀ e, check_namespace_access cfg p SEAT_NAMESPACE mode false = Raise e → P (Raise (of_access e)) s) →
  (check_namespace_access cfg p SEAT_NAMESPACE mode false = Done tt → ends (silent m) s P) →
  ends (silent (register_access cfg p mode ;;; m)) s P.
Proof.
  intros He Hd. unfold ends, silent, rbind, register_access, access, lift in *.
  destruct (check_namespace_access cfg p SEAT_NAMESPACE mode false) as [[]|e]; [by apply Hd|by apply He].
Qed.

(** What a call may do: [c] made in [s], answered [r] in [s']. *)
Definition confined (c : session_call) (s : rstate) (r : outcome refusal unit) (s' : rstate) : Prop :=
  quiet (rs_table s) (rs_table s') ∧ rs_log s' = rs_log s ∧ (grant_of c = Some "read" → s' = s) ∧
  (∀ mode e, grant_of c = Some mode → check_namespace_access cfg p SEAT_NAMESPACE mode false = Raise e →
     r = Raise (of_access e) ∧ s' = s).

Lemma confined_past c s r s' mode : grant_of c = Some mode → check_namespace_access cfg p SEAT_NAMESPACE mode false = Done tt →
  quiet (rs_table s) (rs_table s') → rs_log s' = rs_log s → (mode = "read" → s' = s) → confined c s r s'.
Proof. intros Hm Hd Hq Hl Hr. split_and!; [done|done|intros; apply Hr; congruence|intros mode' e ? He; congruence]. Qed.

Lemma confined_gate {A} c mode (m : route A) s : grant_of c = Some mode →
  (check_namespace_access cfg p SEAT_NAMESPACE mode false = Done tt → ends (silent m) s (confined c s)) →
  ends (silent (register_access cfg p mode ;;; m)) s (confined c s).
Proof.
  intros Hm Hd. apply ends_granted; [|done]. intros e He. split_and!; [done..|].
  intros mode' e' ? He'. split; [congruence|done].
Qed.

(** A call on the session register stays within the register's own rows: no memory is touched, no letter is
    written, removed, moved or rewritten, whatever the outcome, and the audit trail is left alone; a listing changes
    nothing at all; and a caller without the grant the call asks for (to write the register's namespace, or to read it)
    is refused before anything changes, a death certificate alone asking for none. *)
Lemma session_calls_confined c s : let '(r, s') := session_handle c s in
  confined c s r s'.
Proof.
  assert (ends (session_handle c) s (confined c s)) as H; [|by unfold ends in H; destruct (session_handle c s)].
  destruct c; cbn [session_handle];
    try (apply (confined_gate _ "read"); [done|intros Hd; unfold silent; go; by apply (confined_past _ _ _ _ "read")]);
    try (apply (confined_gate _ "write"); [done|intros Hd; unfold silent; go]).
  - destruct (seat_claim _ _ _ _ _ _ _ _ _ _) as [[g t']|[pr pv]] eqn:E; go; apply (confined_past _ _ _ _ "write"); try done.
    + by eapply claim_quiet.
    + apply register_project_quiet.
  - pose proof (release_quiet now (rb_session_key b) (rb_project b) (rb_evidence b) (rb_session_nonce b) (rs_table s)) as Hq.
    destruct (seat_release _ _ _ _ _ _) as [x t']. go. by apply (confined_past _ _ _ _ "write").
  - unfold silent, certify_death. apply ends_bind. destruct (_ && _); go; [by split_and!|]. destruct (_ && _); go; [by split_and!|].
    match goal with |- context [death_certify iso now ?c0 ?t] => pose proof (certify_quiet iso now c0 t) as Hq end.
    destruct (death_certify _ _ _ _) as [x t']. go. by split_and!.
  - match goal with |- context [watch_claim ?n ?a1 ?b1 ?c1 ?d ?e ?f ?g ?t] =>
      pose proof (watch_claim_quiet n a1 b1 c1 d e f g t) as Hq end.
    destruct (watch_claim _ _ _ _ _ _ _ _ _) as [x t']. go. by apply (confined_past _ _ _ _ "write").
  - pose proof (beat_quiet now (Some seat) nonce fetched_through (rs_table s)) as Hq.
    destruct (watch_beat _ _ _ _ _) as [x t']. go. by apply (confined_past _ _ _ _ "write").
  - pose proof (watch_release_quiet (Some seat) nonce (rs_table s)) as Hq.
    destruct (watch_release _ _ _) as [x t']. go. by apply (confined_past _ _ _ _ "write").
Qed.
End calls.

(** ** On concrete states *)

Definition ex_claim : claim_body := ClaimBody "k1" "tide" (Some "claude") (Some "n1") (Some "boxa") None false.

(** ** What the code does otherwise *)

(** A death certificate is "no stricter than the rest" of the register's
    routes: it is laxer. A login that may not even release a seat certifies
    its holder dead. *)
Lemma death_ungranted :
  let p := Some (ex_login "eve" [] []) in
  let cert := Certificate "k1" "tide-claude-1" "tide-claude" "tide" "claude" "boxa" 15 "stop" None None (Some "n1") in
  (release_seat ex_auth p 20 (ReleaseBody "k1" "tide" None None) ex_state).1 = Raise (Refusal 403 (NoNamespaceAccess (Http 403))) ∧
  ∃ r s', certify_death p (λ _, "") true 20 FromPrincipal cert ex_state = (Done r, s') ∧ cr_created r = true ∧
    (length (t_rows (rs_table s')) = 3)%nat.
Proof. split; [by vm_compute|]. do 2 eexists. split; [vm_compute; reflexivity|]. by split; vm_compute. Qed.

(** An admin without a starred grant may search every namespace; asked which it
    may read, the server answers those of its grants. *)
Lemma admin_namespaces_understated :
  let root := Some (Principal 1 "root" "human" true false true [] [] true 0 None) in
  (namespaces root ex_state).1 = Done ([], []) ∧
  resolve_read_namespaces ex_auth root (list_namespaces (rs_table ex_state)) = Done ["notes"].
Proof. split; by vm_compute. Qed.

(** A session may listen on 64 addresses everywhere else; with more than 32 its
    watch cannot be claimed. *)
Lemma long_listen_set_unclaimable :
  let listen := "tide-claude-1" :: repeat "tide" 32 in
  validate_watch (WatchBody "tide-claude-1" "nonce-01" None None (Some listen) None None) = false ∧ few (Some listen) = true.
Proof. split; by vm_compute. Qed.
