(* ===== verification/PeopleRoutes.v ===== *)
(** The routes that keep the logins (src/server/routers/principals.py): each
    is the whole handler behind the admin gate, over the tables of logins and
    aliases and the audit trail. Digests are parameters; generated tokens and
    salts are arguments. *)

From stdpp Require Import base gmap list strings.
From Stdlib Require Import ZArith Lia Ascii.
From S2P Require Import Prelude PyString Json Store Identity ProjectAlias AddressRoles Principals Auth Memory Inbox.
From S2P Require Import WatchClaim Seats Presence Register Tree MailSignal Requests MemoryRoutes Admin AdminRoutes.

Open Scope Z_scope.
Open Scope tiding_scope.

(** ** Bodies *)

Record principal_create := PrincipalCreate {
  pc_name : string;
  pc_type : string;
  pc_is_admin : bool;
  pc_password : option string;
  pc_token : option string;
  pc_read : option (list string);
  pc_write : option (list string)
}.

Definition validate_create (b : principal_create) : option principal_create :=
  checked (nonempty (strip (pc_name b)) && (pc_type b isin ["human"; "agent"]))
    (PrincipalCreate (norm (Some (pc_name b))) (pc_type b) (pc_is_admin b) (pc_password b) (pc_token b) (pc_read b) (pc_write b)).

Record principal_update := PrincipalUpdate {
  pu_is_admin : option bool;
  pu_password : option string;
  pu_token : option string;
  pu_read : option (list string);
  pu_write : option (list string);
  pu_active : option bool
}.

(** [alias_not_empty], [source_not_empty]: both stripped. *)
Definition validate_alias (alias source : string) : option (string * string) :=
  checked (nonempty (strip alias) && nonempty (strip source)) (strip alias, strip source).

(** The fields a change names, sorted: never their values. *)
Definition changed_fields (u : principal_update) : list string :=
  (if is_some (pu_active u) then ["active"] else []) ++ (if is_some (pu_is_admin u) then ["is_admin"] else []) ++
  (if is_some (pu_password u) then ["password"] else []) ++ (if is_some (pu_read u) then ["read_namespaces"] else []) ++
  (if is_some (pu_token u) then ["token"] else []) ++ (if is_some (pu_write u) then ["write_namespaces"] else []).

Definition update_detail (name : string) (u : principal_update) : jobj :=
  <["target" := JStr name]> {["fields" := JArr (JStr <$> changed_fields u)]}.

Definition target_detail (name : string) : jobj := {["target" := JStr name]}.

(** [ORDER BY name] *)
Definition list_principals (type : option string) (active_only : bool) (st : pstate) : list principal :=
  _principal_dict <$> sort_by (λ a b, bool_decide (String.le (p_name a) (p_name b)))
    (select (λ r, (negb active_only || p_active r) && (negb (truthy type) || (Some (p_type r) == type))) (ps_rows st)).

(** [ORDER BY source, alias] of one login. *)
Definition aliases_of (name : string) (st : pstate) : list palias_row :=
  sort_by (λ a b, if pa_source a == pa_source b then bool_decide (String.le (pa_alias a) (pa_alias b))
                  else bool_decide (String.le (pa_source a) (pa_source b)))
    (select (λ a, existsb (λ r, (p_id r == pa_principal a) && (p_name r == name)) (ps_rows st)) (ps_aliases st)).

Definition not_found {A} (name : string) : outcome refusal A := Raise (Refusal 404 (NotThere name)).

Section routes.
Context (sha256 : string → string) (hashpw : string → string → string).
Context (cfg : auth_settings) (p : option principal) (src : auth_source).

Definition create_principal_endpoint (now id : Z) (generated salt_tok salt_pw : string) (b : principal_create)
  : service pstate (principal * option string) := service_gated cfg p src (λ st log,
  match create_principal sha256 hashpw now id generated salt_tok salt_pw (pc_name b) (pc_type b) (pc_is_admin b)
          (pc_password b) (pc_token b) (default [] (pc_read b)) (default [] (pc_write b)) st with
  | Done (q, raw, st') => (Done (q, raw), st', log)
  | Raise (DuplicateName name) => (Raise (Refusal 409 (Because name)), st, log)
  | Raise _ => (Raise internal_error, st, log)
  end).

Definition list_principals_endpoint (type : option string) (active_only : bool) : service pstate (list principal) :=
  service_gated cfg p src (λ st log, (Done (list_principals type active_only st), st, log)).

Definition get_principal_endpoint (name : string) : service pstate principal := service_gated cfg p src (λ st log,
  match get_principal name st with Some q => (Done q, st, log) | None => (not_found name, st, log) end).

Definition update_principal_endpoint (now : Z) (salt_tok salt_pw name : string) (u : principal_update)
  : service pstate principal := service_gated cfg p src (λ st log,
  match update_principal sha256 hashpw now salt_tok salt_pw name (pu_is_admin u) (pu_password u) (pu_token u) (pu_read u)
          (pu_write u) (pu_active u) st with
  | (Some q, _, st') => (Done q, st', log ++ [audit_entry "principal.update" p (update_detail name u) (Some (pd_id q))])
  | (None, _, st') => (not_found name, st', log)
  end).

Definition deactivate_principal_endpoint (now : Z) (name : string) : service pstate unit :=
  service_gated cfg p src (λ st log,
    let '(done_, st') := deactivate_principal sha256 now name st in
    if done_ then (Done tt, st', log ++ [audit_entry "principal.deactivate" p (target_detail name) None])
    else (not_found name, st', log)).

(** The raw token is handed out once and recorded nowhere. *)
Definition regenerate_token (now : Z) (generated salt_tok name : string) : service pstate string :=
  service_gated cfg p src (λ st log,
    let raw := "engram_" +:+ generated in
    match update_principal sha256 hashpw now salt_tok "" name None None (Some raw) None None None st with
    | (Some q, _, st') =>
        (Done raw, st', log ++ [audit_entry "principal.token_regenerate" p (target_detail name) (Some (pd_id q))])
    | (None, _, st') => (not_found name, st', log)
    end).

Definition add_alias_endpoint (id : Z) (name alias source : string) : service pstate palias_row :=
  service_gated cfg p src (λ st log,
    let '(a, st') := add_alias id name alias source st in
    match a with Some a => (Done a, st', log) | None => (not_found name, st', log) end).

Definition list_aliases_endpoint (name : string) : service pstate (list palias_row) := service_gated cfg p src (λ st log,
  match get_principal name st with Some _ => (Done (aliases_of name st), st, log) | None => (not_found name, st, log) end).

(** Scoped to the login the path names. *)
Definition remove_alias_endpoint (name alias source : string) : service pstate unit := service_gated cfg p src (λ st log,
  let '(removed, st') := remove_alias alias (Some source) (Some name) st in
  if removed then (Done tt, st', log) else (not_found alias, st', log)).
End routes.
