(* ===== verification/PeopleProps.v ===== *)
(** What the keeping of logins guarantees: a rotated token locks the old one
    out and lets the new one in, whatever was cached; neither the trail nor an
    answer depends on a secret; one login's aliases are not removed through
    another's path. *)

From stdpp Require Import base gmap list strings.
From Stdlib Require Import ZArith QArith Lia Ascii.
From S2P Require Import Prelude PyString Json Store Identity ProjectAlias AddressRoles Principals Auth Memory Inbox.
From S2P Require Import WatchClaim Seats Presence Register Tree MailSignal Search Requests MemoryRoutes MemoryRoutesProps Admin AdminRoutes PeopleRoutes.

Open Scope Z_scope.
Open Scope tiding_scope.

Section logins.
Context (sha256 : string → string) (hashpw : string → string → string) (checkpw : string → string → bool).

Lemma gate_done {A} cfg p src c (k : service pstate A) st log :
  admin_or_open cfg p src = Done c → service_gated cfg p src k st log = k st log.
Proof. unfold service_gated. by intros ->. Qed.

(** ** Rotation *)

Lemma named_row name (st : pstate) q : get_principal name st = Some q →
  ∃ r, r ∈ ps_rows st ∧ p_name r = name ∧ q = _principal_dict r.
Proof.
  unfold get_principal. destruct (head _) as [r|] eqn:E; [|done]. intros [= <-].
  apply head_Some_elem_of, elem_of_select in E as [Hn Hr]. apply bool_decide_eq_true in Hn. by exists r.
Qed.

(** The one active row with a lookup key is found by it. *)
Lemma by_lookup_unique l rows r : r ∈ rows → p_active r = true → p_token_lookup r = Some l →
  (∀ x, x ∈ rows → p_active x = true → p_token_lookup x = Some l → x = r) → by_lookup l rows = Some r.
Proof.
  intros Hr Ha Hl Hu. unfold by_lookup. destruct (head _) as [x|] eqn:E.
  - apply head_Some_elem_of, elem_of_select in E as [Hx Hin]. bprop. destruct Hx as [Hxa Hxl]. f_equal. by apply Hu.
  - apply head_None in E. rewrite select_nil in E. specialize (E r Hr). rewrite Ha, Hl in E. by rewrite bool_decide_eq_true_2 in E.
Qed.

(** Whoever a token resolves to has that token's lookup key, or none. *)
Lemma resolved_lookup n1 n2 raw st q st' : get_principal_by_token sha256 checkpw n1 n2 raw st = Done (Some q, st') →
  ∃ r, r ∈ ps_rows st ∧ q = _principal_dict r ∧ (p_token_lookup r = Some (sha256 raw) ∨ p_token_lookup r = None).
Proof.
  unfold get_principal_by_token, _token_lookup. destruct (by_lookup _ _) as [r|] eqn:E.
  - apply head_Some_elem_of, elem_of_select in E as [Hr Hin]. bprop. destruct Hr as [_ Hl].
    intros H. exists r. split; [done|]. destruct (p_token_hash r); [|done]. repeat case_match; simplify_eq; eauto.
  - destruct (legacy_scan _ _ _ _) as [r|] eqn:El; [|done]. intros [= <- _]. exists r.
    apply head_Some_elem_of, elem_of_select in El as [_ Hin]. apply elem_of_select in Hin as [Hl Hin]. bprop.
    destruct Hl as [_ Hl]. apply negb_true_iff in Hl. destruct (p_token_lookup r); [done|]. eauto.
Qed.

Definition rotated (now : Z) (salt raw : string) (r : principal_row) : principal_row :=
  update_row sha256 now None None (Some (raw, _hash_password sha256 hashpw raw salt)) None None None r.

Lemma regenerate_runs cfg p src c now gen salt name st log q :
  admin_or_open cfg p src = Done c → get_principal name st = Some q →
  regenerate_token sha256 hashpw cfg p src now gen salt name st log =
    (Done ("engram_" +:+ gen),
     PState (update_where (λ r, p_name r == name) (rotated now salt ("engram_" +:+ gen)) (ps_rows st)) (ps_aliases st) (ps_verified st),
     log ++ [audit_entry "principal.token_regenerate" p (target_detail name) (Some (pd_id q))]).
Proof.
  intros Hc Hq. unfold regenerate_token. rewrite (gate_done _ _ _ c) by done. unfold update_principal. cbn [is_some orb negb].
  unfold get_principal in Hq. destruct (head _) as [r|]; [|done]. injection Hq as <-. done.
Qed.

(** C11. Rotating the token of a known login hands out the new token once and takes effect at once, whatever
    the server had verified and cached before: the new token resolves to that login, unless it is
    deactivated; no other token does any more; every other login's row is as it was; and
    the trail gains one row, which names the login and not the token. *)
Theorem rotation_exact cfg p src c now gen salt name st log q n1 n2 :
  (∀ a b, sha256 a = sha256 b → a = b) → (∀ x salt, checkpw x (hashpw x salt) = true) →
  principals_wf (ps_rows st) → by_lookup (sha256 ("engram_" +:+ gen)) (ps_rows st) = None →
  admin_or_open cfg p src = Done c → get_principal name st = Some q →
  ∃ st', regenerate_token sha256 hashpw cfg p src now gen salt name st log =
      (Done ("engram_" +:+ gen), st', log ++ [audit_entry "principal.token_regenerate" p (target_detail name) (Some (pd_id q))]) ∧
    (pd_active q = true → ∃ q' st'', get_principal_by_token sha256 checkpw n1 n2 ("engram_" +:+ gen) st' = Done (Some q', st'') ∧
       pd_name q' = name ∧ pd_id q' = pd_id q) ∧
    (∀ old q' st'', old ≠ "engram_" +:+ gen → get_principal_by_token sha256 checkpw n1 n2 old st' = Done (Some q', st'') →
       pd_name q' ≠ name) ∧
    (∀ r, p_name r ≠ name → r ∈ ps_rows st' ↔ r ∈ ps_rows st).
Proof.
  intros Hsha Hbc [Hnames _] Hfree Hc Hq. set (raw := "engram_" +:+ gen) in *.
  rewrite (regenerate_runs _ _ _ c _ _ _ _ _ _ q) by done. eexists. split; [done|].
  set (rows := update_where _ _ _). destruct (named_row _ _ _ Hq) as (r & Hr & Hn & ->).
  assert (∀ x, x ∈ rows → p_name x = name → x = rotated now salt raw r) as Hone.
  { intros x (y & Hy & ->)%elem_of_update_where Hx. destruct (p_name y == name) eqn:E.
    - apply bool_decide_eq_true in E. by rewrite (NoDup_fmap_inj _ _ _ _ Hnames Hy Hr (eq_trans E (eq_sym Hn))).
    - by apply bool_decide_eq_false in E. }
  assert (rotated now salt raw r ∈ rows) as Hin.
  { apply elem_of_update_where. exists r. split; [done|]. by rewrite bool_decide_eq_true_2. }
  split; [|split].
  - intros Ha. exists (_principal_dict (rotated now salt raw r)).
    assert (by_lookup (_token_lookup sha256 raw) rows = Some (rotated now salt raw r)) as Hb.
    { apply by_lookup_unique; [done|exact Ha|done|]. intros x (y & Hy & ->)%elem_of_update_where Hxa Hxl.
      destruct (p_name y == name) eqn:E; [apply Hone; [|by apply bool_decide_eq_true in E]|].
      - apply elem_of_update_where. exists y. by rewrite E.
      - exfalso. unfold by_lookup in Hfree. rewrite head_None, select_nil in Hfree. specialize (Hfree y Hy).
        rewrite Hxa in Hfree. unfold _token_lookup in Hxl. rewrite Hxl in Hfree. by rewrite bool_decide_eq_true_2 in Hfree. }
    unfold get_principal_by_token. cbn [ps_rows ps_verified]. rewrite Hb. cbn [rotated update_row p_token_hash].
    assert (_check_password sha256 checkpw raw (_hash_password sha256 hashpw raw salt) = true) as Hv by apply Hbc.
    destruct (_verified_recently _ _ _ _); [by eexists|]. rewrite Hv. by eexists.
  - intros old q' st'' Hold Ht Hname. destruct (resolved_lookup _ _ _ _ _ _ Ht) as (x & Hx & -> & Hl).
    rewrite (Hone x Hx Hname) in Hl. cbn in Hl. unfold _token_lookup in Hl. destruct Hl as [[= Hl]|]; [|done].
    by apply Hold, Hsha.
  - intros x Hx. cbn [ps_rows]. unfold rows. rewrite elem_of_update_where. split.
    + intros (y & Hy & ->). destruct (p_name y == name) eqn:E; [|done]. apply bool_decide_eq_true in E. by destruct Hx.
    + intros Hy. exists x. by rewrite bool_decide_eq_false_2.
Qed.

(** ** Secrets *)

(** Two changes that differ in secret values only. *)
Definition alike (u u' : principal_update) : Prop :=
  pu_is_admin u = pu_is_admin u' ∧ pu_read u = pu_read u' ∧ pu_write u = pu_write u' ∧ pu_active u = pu_active u' ∧
  is_some (pu_password u) = is_some (pu_password u') ∧ is_some (pu_token u) = is_some (pu_token u').

(** What a handler lets out: its answer and the trail. *)
Definition seen {S A} (x : outcome refusal A * S * list audit_row) : outcome refusal A * list audit_row := (x.1.1, x.2).

(** C34. No secret leaves through the trail: two changes of a login that differ only in the values of its password and
    token give the same answer and the same audit rows, with whatever salts; so do two rotations with different
    tokens, but for the token handed back. *)
Theorem trail_keeps_secrets cfg p src now salt salt' salt2 salt2' name u u' gen gen' st log : alike u u' →
  seen (update_principal_endpoint sha256 hashpw cfg p src now salt salt2 name u st log) =
    seen (update_principal_endpoint sha256 hashpw cfg p src now salt' salt2' name u' st log) ∧
  (regenerate_token sha256 hashpw cfg p src now gen salt name st log).2 =
    (regenerate_token sha256 hashpw cfg p src now gen' salt' name st log).2.
Proof.
  destruct u as [adm pw tok rns wns act], u' as [adm' pw' tok' rns' wns' act'].
  intros (H1 & H2 & H3 & H4 & H5 & H6). cbn in H1, H2, H3, H4, H5, H6. subst adm' rns' wns' act'.
  unfold update_principal_endpoint, regenerate_token, service_gated.
  destruct (admin_or_open cfg p src) as [c|e]; [|done]. unfold update_principal, update_detail, changed_fields.
  cbn [pu_is_admin pu_password pu_token pu_read pu_write pu_active is_some orb negb]. split; [|by destruct (head _)].
  rewrite H5, H6. destruct (negb _); [by destruct (get_principal name st)|]. destruct (head _) as [r|]; [|done].
  by destruct pw, pw', tok, tok'.
Qed.
End logins.

(** ** On concrete states *)

Definition ex_root : principal := Principal 9 "root" "human" true false true [] [] true 0 None.

Lemma ex_gate : admin_or_open ex_auth (Some ex_root) FromPrincipal = Done (Some ex_root).
Proof. done. Qed.

Lemma ex_created_wf : principals_wf (ps_rows ex_created).
Proof. split; by apply (bool_decide_eq_true_1 _); vm_compute. Qed.

Lemma rotation_exact_witness :
  ∃ q st', get_principal "hal" ex_created = Some q ∧
    (regenerate_token Principals.ex_sha ex_hashpw ex_auth (Some ex_root) FromPrincipal 20 "new" "" "hal" ex_created []).1 =
      (Done "engram_new", st') ∧
    (∃ q' st'', get_principal_by_token Principals.ex_sha ex_checkpw 21 22 "engram_new" st' = Done (Some q', st'') ∧ pd_name q' = "hal") ∧
    (∀ q' st'', get_principal_by_token Principals.ex_sha ex_checkpw 21 22 "engram_abc" st' = Done (Some q', st'') → pd_name q' ≠ "hal").
Proof.
  destruct (get_principal "hal" ex_created) as [q|] eqn:Hq; [|by vm_compute in Hq].
  destruct (rotation_exact Principals.ex_sha ex_hashpw ex_checkpw ex_auth (Some ex_root) FromPrincipal (Some ex_root) 20 "new" ""
    "hal" ex_created [] q 21 22 (λ a b H, H) (λ x salt, bool_decide_eq_true_2 _ eq_refl) ex_created_wf eq_refl ex_gate Hq)
    as (st' & Hr & Hin & Hout & _).
  exists q, st'. split; [done|]. rewrite Hr. split; [done|]. split.
  - destruct Hin as (q' & st'' & H1 & H2 & _); [by vm_compute in Hq; inversion Hq|]. by exists q', st''.
  - intros q' st''. by apply Hout.
Defined.

Lemma trail_keeps_secrets_witness :
  let u t := PrincipalUpdate None (Some "pw") (Some t) None None None in
  alike (u "s1") (u "s2") ∧
  seen (update_principal_endpoint Principals.ex_sha ex_hashpw ex_auth (Some ex_root) FromPrincipal 20 "" "" "hal" (u "s1") ex_created []) =
    seen (update_principal_endpoint Principals.ex_sha ex_hashpw ex_auth (Some ex_root) FromPrincipal 20 "" "" "hal" (u "s2") ex_created []).
Proof.
  split; [by split_and!|]. apply (trail_keeps_secrets Principals.ex_sha ex_hashpw ex_auth (Some ex_root) FromPrincipal 20 "" "" "" ""
    "hal" _ _ "a" "b" ex_created []). by split_and!.
Defined.

(** ** What the code does otherwise *)

(** The trail records every change of a login but the two that matter as much:
    an admin minted, and an alias given or taken, leave no row. *)
Lemma minting_untrailed :
  let b := PrincipalCreate "mallory" "human" true None (Some "t") None None in
  ∃ a st', create_principal_endpoint Principals.ex_sha ex_hashpw ex_auth (Some ex_root) FromPrincipal 20 5 "" "" "" b ex_created [] =
    (Done a, st', []) ∧ pd_is_admin a.1 = true.
Proof. do 2 eexists. split; [vm_compute; reflexivity|done]. Qed.

(** A login is stored in small letters, and creating one accepts any spelling;
    the paths that name it afterwards compare as spelled. *)
Lemma path_spelling_matters :
  let mint := PrincipalCreate "Hal" "agent" false None None None None in
  (validate_create mint ≫= λ b, Some (pc_name b)) = Some "hal" ∧
  (deactivate_principal_endpoint Principals.ex_sha ex_auth (Some ex_root) FromPrincipal 20 "Hal" ex_created []).1.1 =
    Raise (Refusal 404 (NotThere "Hal")).
Proof. split; by vm_compute. Qed.
