(* ===== verification/Service.v ===== *)
(** The server as a process: what must hold before it listens
    (src/server/main.py, src/server/preflight.py), the admin it mints for
    itself, the tasks it runs in the background
    (src/server/services/cleanup_task.py), and the trail of requests
    (src/server/request_logging.py, src/server/services/request_log.py). The
    names a machine answers to, what the preflight finds of database, model
    and files, and the clock are arguments. *)

From stdpp Require Import base gmap list strings.
From Stdlib Require Import ZArith Lia Ascii.
From S2P Require Import Prelude PyString Json Store Batches Identity ProjectAlias AddressRoles Principals Auth Memory Inbox.
From S2P Require Import WatchClaim Seats Presence Register Tree MailSignal Requests MemoryRoutes Admin AdminRoutes PeopleRoutes.

Open Scope Z_scope.
Open Scope tiding_scope.

(** ** Before it listens *)

(** Whether the process goes on; otherwise it refuses to start. *)
Definition check_bind_security (host : string) (require_auth : bool) (api_token : string) (allow_insecure_bind : bool) : bool :=
  (host isin ["127.0.0.1"; "localhost"; "::1"]) || require_auth || nonempty api_token || allow_insecure_bind.

Definition starts (cfg : auth_settings) (allow_insecure_bind : bool) : bool :=
  check_bind_security (Auth.s_host cfg) (s_require_auth cfg) (s_api_token cfg) allow_insecure_bind.

Inductive level := Pass | Warn | Failed.

#[global] Instance level_eq_dec : EqDecision level.
Proof. solve_decision. Defined.

Definition _LOOPBACK : list string := ["127.0.0.1"; "localhost"; "::1"; "[::1]"; "0.0.0.0"].

Definition loopback_host (host : string) : bool := (host isin _LOOPBACK) && (host != "0.0.0.0").

(** The preflight's own view of the bind. *)
Definition preflight_bind (cfg : auth_settings) (allow_insecure_bind : bool) : level :=
  if loopback_host (Auth.s_host cfg) then Pass
  else if s_require_auth cfg || nonempty (s_api_token cfg) || allow_insecure_bind then Pass
  else Failed.

(** Exact, [*.suffix] and [*]. *)
Definition _host_allowed (host : string) (patterns : list string) : bool :=
  let host := lower (before ":" host) in
  existsb (λ p, let p := lower (strip p) in
    (p == "*") || (host == p) || (startswith "*." p && ((host == sdrop 2 p) || endswith (sdrop 1 p) host))) patterns.

(** [names]: what clients may call this box. *)
Definition uncovered (names patterns : list string) : list string := select (λ n, negb (_host_allowed n patterns)) names.

Definition check_trusted_hosts (cfg : auth_settings) (names patterns : list string) : level :=
  if loopback_host (Auth.s_host cfg) then Pass
  else match uncovered names patterns with [] => Pass | _ => Warn end.

Definition check_auth_posture (cfg : auth_settings) : level := if s_require_auth cfg then Pass else Warn.

(** The exit code; the levels of the database, model and file checks are given. *)
Definition preflight_run (cfg : auth_settings) (allow_insecure_bind : bool) (names patterns : list string)
    (database model files : level) : Z :=
  if existsb (λ l, l == Failed)
       [preflight_bind cfg allow_insecure_bind; check_trusted_hosts cfg names patterns; database; model; files;
        check_auth_posture cfg]
  then 1 else 0.

(** ** The first admin *)

Section bootstrap.
Context (sha256 : string → string) (hashpw : string → string → string).

(** [DuplicateName] is caught; anything else stops the start. *)
Definition _bootstrap_admin (cfg : auth_settings) (now id : Z) (salt : string) (st : pstate) : outcome principal_error pstate :=
  if negb (s_require_auth cfg) || negb (nonempty (s_api_token cfg)) then Done st
  else if existsb pd_is_admin (list_principals None true st) then Done st
  else match create_principal sha256 hashpw now id "" salt "" "_bootstrap" "agent" true None (Some (s_api_token cfg)) ["*"] ["*"] st with
       | Done (_, _, st') => Done st'
       | Raise (DuplicateName _) => Done st
       | Raise e => Raise e
       end.
End bootstrap.

(** ** Background tasks *)

Inductive task := ExpirationCleanup | InboxAutoresolve | RequestLogPrune | AliasRefresh.

Definition background_tasks (cleanup_enabled autoresolve_enabled request_log_enabled : bool) : list task :=
  (if cleanup_enabled then [ExpirationCleanup] else []) ++ (if autoresolve_enabled then [InboxAutoresolve] else []) ++
  (if request_log_enabled then [RequestLogPrune] else []) ++ [AliasRefresh].

(** One round of the expiry loop; a round that removes rows leaves one row in the trail. *)
Definition expiration_step (now : Z) (batch_size : nat) (s : rstate) : option rstate :=
  '(deleted, t') ← cleanup_expired now batch_size (rs_table s);
  Some (RState t' (if (0 <? deleted)%nat
                   then rs_log s ++ [audit_entry "system.expiration_sweep" None {["deleted" := JNum (Z.of_nat deleted)]} None]
                   else rs_log s)).

Definition autoresolve_step (now after_hours : Z) (resolver : string) (batch_size : nat) (s : rstate) : rstate :=
  RState (inbox_autoresolve_stale now after_hours resolver batch_size (rs_table s)).2 (rs_log s).

(** One round of the cache loop. *)
Definition refresh_step (s : alias_state * role_state) : alias_state * role_state := (refresh s.1, role_refresh s.2).

(** ** The trail of requests *)

Record log_row := LogRow {
  l_id : Z;
  l_created_at : Z;
  l_principal : option string;
  l_auth_source : option string;
  l_method : string;
  l_path : string;
  l_status : Z;
  l_duration_ms : Z;
  l_via_public : bool;
  l_machine : option string;
  l_project : option string
}.

Record request_log := RequestLog { rl_rows : list log_row; rl_seq : Z }.

Definition SKIP_PREFIXES : list string := ["/health"; "/static"].
Definition should_log (path : string) : bool := negb (existsb (λ pre, startswith pre path) SKIP_PREFIXES).

Definition _MAX_PROVENANCE : nat := 64.

Definition _clip (value : option string) : option string :=
  if truthy value then let v := stake _MAX_PROVENANCE (strip (or_empty value)) in if nonempty v then Some v else None
  else None.

(** What the inner application leaves behind: its status, or [None] when it
    raised, and what the auth middleware noted. *)
Record handled := Handled {
  hd_status : option Z;
  hd_principal : option principal;
  hd_auth_source : option string
}.

Definition row_of (cfg : auth_settings) (now id duration_ms : Z) (rq : request) (h : handled) : log_row :=
  LogRow id now (name_of (hd_principal h)) (hd_auth_source h) (rq_method rq) (redact_path (rq_path rq))
    (default 500 (hd_status h)) duration_ms
    (nonempty (s_public_proxy_header cfg) && truthy (rq_header rq (s_public_proxy_header cfg)))
    (_clip (rq_header rq "x-engram-machine")) (_clip (rq_header rq "x-engram-project")).

(** A failed write of the row is swallowed ([writes = false]). *)
Definition log_dispatch (cfg : auth_settings) (enabled writes : bool) (now duration_ms : Z) (rq : request) (h : handled)
    (l : request_log) : request_log :=
  if negb enabled || negb (should_log (rq_path rq)) || negb writes then l
  else RequestLog (rl_rows l ++ [row_of cfg now (rl_seq l) duration_ms rq h]) (rl_seq l + 1).

Definition overdue (now retention_days : Z) (r : log_row) : bool := l_created_at r <? now - 86400 * retention_days.

Definition prune_request_log (now retention_days : Z) (batch_size : nat) (l : request_log) : option (nat * request_log) :=
  '(total, rows) ← delete_in_batches l_id (overdue now retention_days) batch_size (rl_rows l);
  Some (total, RequestLog rows (rl_seq l)).
