(* ===== verification/ServiceProps.v ===== *)
(** What the process guarantees: a server that other machines can reach never
    serves a stranger, unless its operator says so; the admin it mints for
    itself can log in, once; the background rounds keep the books; the request
    trail gains one row a request, without the secrets a path may carry, and
    its retention ends. *)

From stdpp Require Import base gmap list strings.
From Stdlib Require Import ZArith QArith Lia Ascii.
From S2P Require Import Prelude PyString Json Store Frame Batches Identity ProjectAlias AddressRoles Principals Auth Memory Inbox.
From S2P Require Import WatchClaim Seats Presence Register Tree MailSignal Search Requests MemoryRoutes MemoryRoutesProps Admin AdminRoutes AdminProps PeopleRoutes PeopleProps Service.

Open Scope Z_scope.
Open Scope tiding_scope.

(** ** No stranger is served *)

Section guard.
Context (sha256 : string → string) (hashpw : string → string → string) (checkpw : string → string → bool).

(** C8. A server that starts on an address other machines can reach, without the operator's opt-out for a trusted
    network, never forwards a stranger's request: whatever reaches a route either is one of the paths served without
    a login, or carries a bearer token that the store resolves to the login it is forwarded as, or
    carries, on a server that does not require logins, its one shared token. *)
Theorem reachable_means_guarded cfg n1 n2 rq st p src st' :
  starts cfg false = true → _loopback_bind cfg = false →
  dispatch sha256 checkpw cfg n1 n2 rq st = (Forward p src, st') →
  (exempt rq = true ∧ p = None ∧ src = Anonymous) ∨
  (∃ tok q, rq_header rq "authorization" = Some ("Bearer " +:+ tok) ∧ tok ≠ "" ∧ p = Some q ∧ src = FromPrincipal ∧
     get_principal_by_token sha256 checkpw n1 n2 tok st = Done (Some q, st')) ∨
  (s_require_auth cfg = false ∧ src = FromLegacy ∧ p = None ∧ s_api_token cfg ≠ "" ∧
     rq_header rq "authorization" = Some ("Bearer " +:+ s_api_token cfg)).
Proof.
  intros Hs Hl H. unfold starts, check_bind_security in Hs. unfold _loopback_bind in Hl.
  assert (s_require_auth cfg = true ∨ nonempty (s_api_token cfg) = true) as Hg.
  { apply bool_decide_eq_false in Hl. rewrite orb_false_r, !orb_true_iff, bool_decide_eq_true in Hs.
    destruct Hs as [[Hs|?]|?]; [|tauto..]. exfalso. apply Hl. set_solver. }
  unfold dispatch in H. destruct (exempt rq); [injection H as <- <- <-; by left|]. right.
  assert (∀ tok, bearer rq = Some tok → rq_header rq "authorization" = Some ("Bearer " +:+ tok)) as Hb.
  { intros tok Hb. unfold bearer in Hb. destruct (rq_header rq "authorization") as [a|]; [|done].
    change (or_empty (Some a)) with a in Hb. apply drop_prefix_Some in Hb. by rewrite Hb. }
  assert (∀ q v, (let_in cfg rq q, v) = (Forward p src, st') → p = Some q ∧ src = FromPrincipal ∧ v = st') as Hin.
  { intros q v [= Hi <-]. apply let_in_forward in Hi as (-> & -> & _). done. }
  unfold _enforce, _enrich, lookup_token in H. destruct (bearer rq) as [tok|] eqn:Eb.
  2:{ cbn in H. destruct (s_require_auth cfg); [done|]. destruct Hg as [|Hg]; [done|]. by rewrite Hg in H. }
  assert (tok = "" ∨ truthy (Some tok) = true ∧ tok ≠ "") as [->|[Ht Hne]] by (destruct tok; [by left|by right]).
  { cbn in H. destruct (s_require_auth cfg); [done|]. destruct Hg as [|Hg]; [done|]. by rewrite Hg in H. }
  rewrite Ht in H. cbn [negb or_empty default] in H. change (or_empty (Some tok)) with tok in H.
  destruct (get_principal_by_token _ _ _ _ _ _) as [[[q|] v]|e] eqn:E.
  - left. exists tok, q. destruct (s_require_auth cfg); apply Hin in H as (-> & -> & ->); split_and!; auto.
  - right. destruct (s_require_auth cfg); [done|]. destruct (nonempty (s_api_token cfg)) eqn:En; [|done].
    cbn [andb] in H. destruct (Some tok == Some (s_api_token cfg)) eqn:Et; [|done].
    apply bool_decide_eq_true in Et as [= ->]. injection H as <- <- <-. split_and!; auto.
  - by destruct (s_require_auth cfg).
Qed.

(** ** The first admin *)

Lemma admin_absent st : existsb pd_is_admin (list_principals None true st) = false ↔
  ∀ r, r ∈ ps_rows st → p_active r = true → p_is_admin r = false.
Proof.
  unfold list_principals. rewrite <- not_true_iff_false, existsb_exists. split.
  - intros H r Hr Ha. apply not_true_iff_false. intros Hadm. apply H. exists (_principal_dict r). split; [|done].
    apply list_elem_of_In, list_elem_of_fmap_2, elem_of_sort_by, elem_of_select. by rewrite Ha.
  - intros H (q & Hq & Hadm). apply list_elem_of_In, list_elem_of_fmap in Hq as (r & -> & Hr).
    apply elem_of_sort_by, elem_of_select in Hr as [Hc Hr]. cbn in Hc. rewrite andb_true_r in Hc.
    specialize (H r Hr Hc). cbn in Hadm. congruence.
Qed.

(** A server that requires logins and has none to administer it mints one from its token: afterwards that token
    passes the middleware, on every path and as an admin with every grant, and the next start mints nothing more. *)
Lemma bootstrap_admits cfg now now' id id' salt salt' n1 n2 st rq :
  (∀ x salt, checkpw x (hashpw x salt) = true) → s_require_auth cfg = true → s_api_token cfg ≠ "" →
  (∀ r, r ∈ ps_rows st → (p_active r = true → p_is_admin r = false) ∧ p_name r ≠ "_bootstrap") →
  by_lookup (sha256 (s_api_token cfg)) (ps_rows st) = None →
  exempt rq = false → rq_header rq "authorization" = Some ("Bearer " +:+ s_api_token cfg) →
  rq_header rq (s_public_proxy_header cfg) = None → "_bootstrap" ∉ owner_relay_names cfg →
  ∃ st' q st'', _bootstrap_admin sha256 hashpw cfg now id salt st = Done st' ∧
    dispatch sha256 checkpw cfg n1 n2 rq st' = (Forward (Some q) FromPrincipal, st'') ∧
    pd_is_admin q = true ∧ pd_read_namespaces q = ["*"] ∧ pd_write_namespaces q = ["*"] ∧
    _bootstrap_admin sha256 hashpw cfg now' id' salt' st' = Done st'.
Proof.
  intros Hbc Hreq Htok Hrows Hfree Hex Hauth Hpub Hrel. assert (nonempty (s_api_token cfg) = true) as Hne by by apply nonempty_true.
  destruct (create_principal sha256 hashpw now id "" salt "" "_bootstrap" "agent" true None (Some (s_api_token cfg)) ["*"] ["*"] st)
    as [[[q raw] st']|e] eqn:Hc.
  2:{ unfold create_principal in Hc. cbn in Hc. destruct (existsb _ _) eqn:Ee; [|done].
      apply existsb_exists in Ee as (r & Hr & Hn). apply list_elem_of_In in Hr. apply bool_decide_eq_true in Hn.
      by destruct (proj2 (Hrows r Hr)). }
  pose proof Hc as Hc2. unfold create_principal in Hc2. destruct (negb _); [done|]. destruct (existsb _ _); [done|].
  assert (truthy (Some (s_api_token cfg)) = true) as Ht by exact Hne.
  unfold create_token in Hc2. rewrite Ht in Hc2. cbn in Hc2. injection Hc2 as Hq <- Hst.
  destruct (create_then_authenticate sha256 hashpw checkpw now id "" salt "" _ _ _ _ _ _ _ st q (s_api_token cfg) st' n1 n2
    Hbc Hfree Hc) as [[st'' Htk] _].
  exists st', q, st''. split_and!.
  - unfold _bootstrap_admin. rewrite Hreq, Hne. cbn [negb orb].
    rewrite (proj2 (admin_absent st)) by (intros r Hr; by apply Hrows). by rewrite Hc.
  - assert (bearer rq = Some (s_api_token cfg)) as Hb.
    { unfold bearer. rewrite Hauth. apply drop_prefix_app. }
    unfold dispatch, _enforce. rewrite Hex, Hreq, Hb, Ht. cbn [negb].
    change (or_empty (Some (s_api_token cfg))) with (s_api_token cfg). unfold lookup_token. rewrite Htk. f_equal. unfold let_in.
    unfold refuses_admin_on_public, fences_owner_relay, is_owner_relay. rewrite Hpub, andb_false_r.
    rewrite <- Hq. cbn [pd_name _principal_dict p_name]. by rewrite bool_decide_eq_false_2.
  - by rewrite <- Hq.
  - by rewrite <- Hq.
  - by rewrite <- Hq.
  - unfold _bootstrap_admin. rewrite Hreq, Hne. cbn [negb orb].
    destruct (existsb pd_is_admin _) eqn:Ee; [done|]. exfalso. rewrite admin_absent in Ee.
    match type of Hst with PState (_ ++ [?r]) _ _ = _ => specialize (Ee r) end.
    rewrite <- Hst in Ee. cbn in Ee. assert (true = false) by (apply Ee; [apply elem_of_app; right; by left|done]). done.
Qed.
End guard.

(** ** The trail of requests *)

(** One row a request, whatever becomes of it; the row says neither the key of
    a signal path nor anything after it. *)
Lemma request_logged cfg writes now ms rq h l : should_log (rq_path rq) = true →
  log_dispatch cfg true writes now ms rq h l =
    (if writes then RequestLog (rl_rows l ++ [row_of cfg now (rl_seq l) ms rq h]) (rl_seq l + 1) else l) ∧
  (∀ rq' key key', rq_path rq = SIGNAL_PATH_PREFIX +:+ key → rq_path rq' = SIGNAL_PATH_PREFIX +:+ key' →
     l_path (row_of cfg now (rl_seq l) ms rq h) = l_path (row_of cfg now (rl_seq l) ms rq' h)).
Proof.
  intros Hl. unfold log_dispatch. rewrite Hl. split; [by destruct writes|]. intros rq' key key' H1 H2.
  unfold row_of, redact_path. cbn [l_path]. by rewrite H1, H2, !startswith_app.
Qed.

(** Retention ends, and removes exactly the rows older than its window. *)
Lemma retention_exact now days n l : NoDup (l_id <$> rl_rows l) → (0 < n)%nat →
  prune_request_log now days n l =
    Some (length (select (overdue now days) (rl_rows l)),
          RequestLog (select (λ r, negb (overdue now days r)) (rl_rows l)) (rl_seq l)).
Proof. intros Hnd Hn. unfold prune_request_log. by rewrite batches_exact. Qed.

(** ** Background rounds *)

(** A round of the expiry task: what it removes it counts in the trail. *)
Lemma expiration_round now n s : wf (rs_table s) → (0 < n)%nat →
  ∃ s', expiration_step now n s = Some s' ∧ rs_table s' = sql_delete (expired_row now) (rs_table s) ∧
    rs_log s' = rs_log s ++ (if (0 <? sql_count (expired_row now) (rs_table s))%nat
      then [audit_entry "system.expiration_sweep" None
              {["deleted" := JNum (Z.of_nat (sql_count (expired_row now) (rs_table s)))]} None] else []).
Proof.
  intros (_ & Hid & _) Hn. unfold expiration_step, cleanup_expired. rewrite batches_exact by done. cbn.
  eexists. split; [done|]. split; [done|]. unfold sql_count, sql_select. cbn [rs_log].
  case_match; [done|]. by rewrite app_nil_r.
Qed.

(** ** On concrete states *)

Definition ex_reach (require_auth : bool) (token : string) : auth_settings :=
  AuthSettings require_auth token "x-public" None None "" "0.0.0.0".

Definition ex_call (token : string) : Auth.request :=
  Request "POST" "/memory/set" (λ h, if h == "authorization" then Some ("Bearer " +:+ token) else None).

Lemma reachable_means_guarded_witness :
  starts (ex_reach false "s3cret") false = true ∧ _loopback_bind (ex_reach false "s3cret") = false ∧
  dispatch Principals.ex_sha ex_checkpw (ex_reach false "s3cret") 1 2 (ex_call "s3cret") ex_pstate =
    (Forward None FromLegacy, ex_pstate) ∧
  rq_header (ex_call "s3cret") "authorization" = Some "Bearer s3cret".
Proof.
  split_and!; [done..|].
  destruct (reachable_means_guarded Principals.ex_sha ex_checkpw (ex_reach false "s3cret") 1 2 (ex_call "s3cret") ex_pstate
    None FromLegacy ex_pstate eq_refl eq_refl eq_refl) as [(_ & _ & H)|[(tok & q & _ & _ & H & _)|(_ & _ & _ & _ & H)]];
    [done|done|exact H].
Defined.

(** ** What the code does otherwise *)

(** The preflight takes "[::1]" for this machine and passes; the server takes it
    for a network address and refuses to start. *)
Lemma preflight_disagrees :
  let cfg := AuthSettings false "" "" None None "" "[::1]" in
  preflight_run cfg false [] [] Pass Pass Pass = 0 ∧ starts cfg false = false.
Proof. split; by vm_compute. Qed.

(** The admin minted at start-up is to be deactivated once real ones exist.
    When the last real one is deactivated too, the next start finds the name
    taken, calls that already done, and leaves nobody who can administer. *)
Lemma bootstrap_locked_out :
  let retired := PrincipalRow 1 "_bootstrap" "agent" true (Some "#s3cret") (Some "s3cret") None ["*"] ["*"] false 0 None in
  let st := PState [retired] [] ∅ in
  _bootstrap_admin Principals.ex_sha ex_hashpw (ex_reach true "s3cret") 5 2 "" st = Done st ∧
  existsb pd_is_admin (list_principals None true st) = false ∧
  (dispatch Principals.ex_sha ex_checkpw (ex_reach true "s3cret") 6 7 (ex_call "s3cret") st).1 = Reject401 "Invalid or inactive token.".
Proof. split_and!; by vm_compute. Qed.
