(* ===== verification/ClerkProps.v ===== *)
(** What the clerk can do, whatever the model says: its calls stay within the
    gates, its spending within the cap, a message dealt with is not taken up
    again; and where its protocol with the server breaks. *)

From stdpp Require Import base gmap list strings.
From Stdlib Require Import ZArith Lia Ascii.
From S2P Require Import Prelude PyString Json Store Principals Auth Memory Inbox InboxProps Session SessionProps Requests MemoryRoutes MemoryRoutesProps InboxRoutes InboxRoutesProps Clerk.

Open Scope Z_scope.
Open Scope tiding_scope.

(** ** Plans *)

(** The calls an action takes, in order, the acknowledgement last. *)
Definition planned (c : config) (m : inbox_message) (a : action) : list call :=
  match a with
  | Reply body => [Send (Letter (reply_to c m) (stake 200 ("re: " +:+ m_subject m)) body (thread_of m) "fyi")]
  | StoreShared key value tags =>
      [Store key value tags;
       Send (Letter (receipt_to c m) ("filed: " +:+ key) ("Committed to shared memory as '" +:+ key +:+ "'.") (thread_of m) "fyi")]
  | Escalate note =>
      [Send (Letter (ck_owner_address c) (stake 200 ("clerk escalation: " +:+ m_subject m))
        (note +:+ newline +:+ newline +:+ "--- original (" +:+ m_id m +:+ ", from " +:+ shown_or_none (m_from_principal m) +:+ "):"
         +:+ newline +:+ stake 5000 (m_body m)) None "action")]
  | Ignore | AckOnly => []
  end ++ [Ack (m_id m)].

(** Calls made one after another up to the first the server refuses. *)
Fixpoint play (h : hand) (plan : list call) : outcome fault unit * list call :=
  match plan with
  | [] => (Done tt, [])
  | x :: rest =>
      match hd_refused h x with
      | Some e => (Raise e, [x])
      | None => let '(o, acts) := play h rest in (o, x :: acts)
      end
  end.

Lemma play_prefix h plan : (play h plan).2 `prefix_of` plan.
Proof.
  induction plan as [|x plan IH]; [done|]. cbn. destruct (hd_refused h x); [by exists plan|].
  destruct (play h plan) as [o acts]. by apply prefix_cons.
Qed.

Lemma play_done h plan : is_done (play h plan).1 = true → (play h plan).2 = plan.
Proof.
  induction plan as [|x plan IH]; [done|]. cbn. destruct (hd_refused h x); [done|].
  destruct (play h plan) as [o acts]. cbn in *. intros H. by rewrite IH.
Qed.

Lemma play_request h x w : request h x w = ((play h [x]).1, World (w_dir w) (w_calls w ++ (play h [x]).2)).
Proof. unfold request. cbn. by destruct (hd_refused h x). Qed.

(** ** The sender, as the clerk reads it *)

(** The key [from] is not among those the server writes. *)
Lemma from_unread m : msg_get "from" m = None.
Proof. done. Qed.

Lemma principal_read m : msg_get "from_principal" m = m_from_principal m.
Proof. done. Qed.

(** So a reply goes to the login the server recorded (the owner, when there is
    none) and a receipt always to the owner, whoever the letter says it is
    from; the envelope shown to the model and the ledger name no sender. *)
Lemma sender_never_addressed c m :
  reply_to c m = or_empty (py_or (m_from_principal m) (Some (ck_owner_address c))) ∧
  receipt_to c m = ck_owner_address c.
Proof. done. Qed.

Lemma reply_login c m : reply_to c m = ck_owner_address c ∨ m_from_principal m = Some (reply_to c m).
Proof.
  rewrite (proj1 (sender_never_addressed c m)). destruct (m_from_principal m) as [[|a s]|]; cbn; [by left|by right|by left].
Qed.

Section clerk.
Context (loads : string → option decoded) (iso : Z → string) (c : config).

(** [handle], said in one piece: a known message and one past the cap are left
    alone; else the model is asked, its answer counted and entered in the
    ledger, and the plan for what was settled on is played; only when the
    whole of it went through is the message marked as processed. *)
Definition handle_spec (h : hand) (w : world) : outcome fault unit * world :=
  let m := hd_msg h in
  let asked := w_calls w ++ [Ask (user_content iso m)] in
  if m_id m isin seen (w_dir w) then (Done tt, w)
  else if ck_daily_cap c <=? calls_on (hd_day h).1.1 (w_dir w) then (Done tt, w)
  else match hd_llm h with
       | Raise e => (Raise e, World (w_dir w) asked)
       | Done (text, usage) =>
           let d := settle c (m_from_principal m) (parse_llm_json loads text) in
           let dir := ledger (LedgerEntry (hd_ts h) (m_id m) (msg_get "from" m) (m_from_principal m) (action_name (d_action d))
                                (d_reason d) (ck_llm c).2 (ck_dry_run c) usage)
                        (bump_calls (hd_day h).1.2 (hd_day h).2 (w_dir w)) in
           if ck_dry_run c then (Done tt, World dir asked)
           else let '(o, acts) := play h (planned c m (d_action d)) in
                (o, World (if is_done o then mark_processed (m_id m) dir else dir) (asked ++ acts))
       end.

Lemma execute_play h a w :
  bind (execute c h a) (λ _, bind (request h (Ack (m_id (hd_msg h)))) (λ _, writing (mark_processed (m_id (hd_msg h))))) w =
  (let '(o, acts) := play h (planned c (hd_msg h) a) in
   (o, World (if is_done o then mark_processed (m_id (hd_msg h)) (w_dir w) else w_dir w) (w_calls w ++ acts))).
Proof.
  destruct a; cbn [execute planned app play]; unfold bind, request, ret, writing; cbn;
    repeat (match goal with |- context [hd_refused h ?x] => destruct (hd_refused h x) end; cbn; rewrite <- ?app_assoc; cbn);
    done.
Qed.

Lemma handle_is_spec h w : handle loads iso c h w = handle_spec h w.
Proof.
  unfold handle, handle_spec. destruct (hd_day h) as [[day day'] day'']. cbn [fst snd].
  unfold bind at 1, reading at 1. destruct (m_id (hd_msg h) isin seen (w_dir w)); [done|].
  unfold bind at 1, reading at 1. destruct (ck_daily_cap c <=? _); [done|].
  unfold bind at 1, llm_decide at 1. destruct (hd_llm h) as [[text usage]|e]; [|done].
  unfold bind at 1, writing at 1. cbn [w_dir w_calls]. unfold bind at 1, writing at 1. cbn [w_dir w_calls].
  destruct (ck_dry_run c); [done|]. rewrite execute_play. cbn [w_dir w_calls]. done.
Qed.

(** ** Gates *)

(** What the clerk may do about the message [m]. *)
Definition within_gates (m : inbox_message) (x : call) : Prop :=
  match x with
  | Wait _ => False
  | Ask u => u = user_content iso m
  | Ack id => id = m_id m
  | Send l => lt_to l = ck_owner_address c ∨ m_from_principal m = Some (lt_to l)
  | Store key _ _ => norm (m_from_principal m) ∈ ck_trusted c ∧ ∃ p, p ∈ ALLOWED_KEY_PREFIXES ∧ startswith p key = true
  end.

Definition asking (x : call) : Prop := match x with Ask _ => True | _ => False end.

Definition verb (x : call) : nat :=
  match x with Wait _ => 0 | Ask _ => 1 | Ack _ => 2 | Send _ => 3 | Store _ _ _ => 4 end%nat.

Lemma store_allowed_iff key fp :
  store_allowed c key fp = None ↔
  norm fp ∈ ck_trusted c ∧ ∃ p, p ∈ ALLOWED_KEY_PREFIXES ∧ startswith p key = true.
Proof.
  unfold store_allowed. destruct (norm fp isin ck_trusted c) eqn:Es; cbn [negb].
  - destruct (existsb _ _) eqn:Ep; cbn [negb].
    + apply existsb_exists in Ep as (p & Hp & Hs). apply list_elem_of_In in Hp. split; [|done]. intros _. split; [by apply bool_decide_eq_true_1 in Es|]. by exists p.
    + split; [done|]. intros [_ (p & Hp & Hs)]. exfalso. apply not_true_iff_false in Ep. apply Ep, existsb_exists.
      exists p. by apply list_elem_of_In in Hp.
  - apply bool_decide_eq_false_1 in Es. split; [done|]. by intros [? _].
Qed.

(** A store is settled on only past both gates. *)
Lemma settle_store fp raw key value tags :
  d_action (settle c fp raw) = StoreShared key value tags → store_allowed c key fp = None.
Proof.
  unfold settle. set (d := match validate_decision raw with inl d => d | inr _ => _ end).
  destruct (d_action d) as [| |body|k v t|note] eqn:Ed; rewrite ?Ed; try done.
  destruct (store_allowed c k fp) eqn:Es; cbn; [done|]. rewrite Ed. by intros [= -> -> ->].
Qed.

Lemma planned_within m raw : Forall (within_gates m) (planned c m (d_action (settle c (m_from_principal m) raw))).
Proof.
  destruct (d_action _) as [| |body|key value tags|note] eqn:Ed; cbn [planned app]; rewrite ?Forall_cons, ?Forall_nil;
    cbn [within_gates lt_to]; split_and?; try done; try apply reply_login; try by left.
  all: apply settle_store, store_allowed_iff in Ed; apply Ed.
Qed.

Lemma planned_verbs m a : NoDup (1%nat :: (verb <$> planned c m a)).
Proof. destruct a; cbn; apply (bool_decide_unpack _); vm_compute; done. Qed.

Lemma handle_calls h w : ∃ new,
  w_calls (handle loads iso c h w).2 = w_calls w ++ new ∧ Forall (within_gates (hd_msg h)) new ∧ NoDup (verb <$> new) ∧
  (ck_dry_run c = true → Forall asking new).
Proof.
  rewrite handle_is_spec. unfold handle_spec.
  assert (∀ l : world, ∃ new, w_calls l = w_calls l ++ new ∧ Forall (within_gates (hd_msg h)) new ∧ NoDup (verb <$> new) ∧
    (ck_dry_run c = true → Forall asking new)) as Hnil.
  { intros l. exists []. rewrite app_nil_r. repeat split; constructor. }
  assert (∀ dir, ∃ new, w_calls (World dir (w_calls w ++ [Ask (user_content iso (hd_msg h))])) = w_calls w ++ new ∧
    Forall (within_gates (hd_msg h)) new ∧ NoDup (verb <$> new) ∧ (ck_dry_run c = true → Forall asking new)) as Hask.
  { intros dir. eexists. split; [reflexivity|]. repeat constructor. set_solver. }
  case_match; [apply Hnil|]. case_match; [apply Hnil|]. destruct (hd_llm h) as [[text usage]|e]; [|apply Hask].
  cbv zeta. destruct (ck_dry_run c) eqn:Edry; [apply Hask|].
  set (plan := planned c (hd_msg h) _). pose proof (play_prefix h plan) as Hp.
  pose proof (planned_within (hd_msg h) (parse_llm_json loads text)) as Hw. fold plan in Hw.
  pose proof (planned_verbs (hd_msg h) (d_action (settle c (m_from_principal (hd_msg h)) (parse_llm_json loads text)))) as Hv. fold plan in Hv.
  destruct (play h plan) as [o acts]. cbn [snd w_calls] in *. destruct Hp as [rest ->].
  exists (Ask (user_content iso (hd_msg h)) :: acts). split; [by rewrite <- app_assoc|].
  apply Forall_app in Hw as [Hw _]. rewrite fmap_app, app_comm_cons in Hv. apply NoDup_app in Hv as [Hv _].
  repeat split; [by constructor|exact Hv|done].
Qed.

(** What is done about one message: within its gates, each kind of call once at
    most, and in a dry run nothing but the question. *)
Definition served_once (h : hand) (l : list call) : Prop :=
  Forall (within_gates (hd_msg h)) l ∧ NoDup (verb <$> l) ∧ (ck_dry_run c = true → Forall asking l).

(** One turn: a wait, then a stretch for each message that came, in their order. *)
Definition turn_calls (t : turn) (l : list call) : Prop :=
  ∃ since parts, l = Wait since :: concat parts ∧ Forall2 served_once (match t with Arrived hands => hands | WaitRaised _ => [] end) parts.

Lemma handle_all_calls hands w : ∃ parts,
  w_calls (handle_all loads iso c hands w) = w_calls w ++ concat parts ∧ Forall2 served_once hands parts.
Proof.
  unfold handle_all. revert w. induction hands as [|h hands IH]; intros w; cbn [foldl].
  { exists []. rewrite app_nil_r. by split; [|constructor]. }
  destruct (handle_calls h w) as (new & Hn & Hrest). destruct (IH (handle loads iso c h w).2) as (parts & Hp & Hf).
  exists (new :: parts). split; [rewrite Hp, Hn; cbn; by rewrite app_assoc|by constructor].
Qed.

(** The calls of the turns a loop got through, all of them when it runs on. *)
Definition turns_served (turns : list turn) (ran_on : bool) (l : list call) : Prop :=
  ∃ served stretches, served `prefix_of` turns ∧ (ran_on = true → served = turns) ∧
    l = concat stretches ∧ Forall2 turn_calls served stretches.

Lemma turns_served_cons t turns on l l' :
  turn_calls t l → turns_served turns on l' → turns_served (t :: turns) on (l ++ l').
Proof.
  intros Ht (served & stretches & Hp & Hon & -> & Hf). exists (t :: served), (l :: stretches).
  split_and!; [by apply prefix_cons|intros H; by rewrite (Hon H)|done|by constructor].
Qed.

Lemma turns_served_last t turns l : turn_calls t l → turns_served (t :: turns) false l.
Proof.
  intros Ht. exists [t], [l]. split_and!; [by apply prefix_cons, prefix_nil|done|cbn; by rewrite app_nil_r|by constructor].
Qed.

Lemma turns_served_nil turns on : (on = true → turns = []) → turns_served turns on [].
Proof. intros H. exists [], []. split_and!; [apply prefix_nil|intros Ho; by rewrite H|done|constructor]. Qed.

Lemma loop_calls turns since w : ∃ new,
  w_calls (loop loads iso c since turns w).2 = w_calls w ++ new ∧
  turns_served turns (bool_decide ((loop loads iso c since turns w).1 = None)) new.
Proof.
  revert since w. induction turns as [|t turns IH]; intros since w; cbn [loop].
  { exists []. rewrite app_nil_r. split; [done|by apply turns_served_nil]. }
  set (w' := World (w_dir w) _).
  assert (∀ since' hands w0, w_calls w0 = w_calls w ++ hands → turn_calls t hands →
    ∃ new, w_calls (loop loads iso c since' turns w0).2 = w_calls w ++ new ∧
      turns_served (t :: turns) (bool_decide ((loop loads iso c since' turns w0).1 = None)) new) as Hon.
  { intros since' hands w0 H0 Ht. destruct (IH since' w0) as (new & Hn & Hs). exists (hands ++ new).
    split; [by rewrite Hn, H0, app_assoc|by apply turns_served_cons]. }
  assert (∀ e, t = WaitRaised e → turn_calls t [Wait since]) as Hraised.
  { intros e ->. exists since, []. by split; [|constructor]. }
  assert (∀ e (x : ending), t = WaitRaised e → ∃ new, w_calls w' = w_calls w ++ new ∧ turns_served (t :: turns) (bool_decide (Some x = None)) new) as Hstop.
  { intros e x He. exists [Wait since]. split; [done|]. rewrite bool_decide_eq_false_2 by done. by eapply turns_served_last, Hraised. }
  destruct t as [[code| |]|hands]; [case_match|..]; try (by eapply Hstop); try (by eapply Hon; [|eapply Hraised]).
  destruct (handle_all_calls hands w') as (parts & Hp & Hf). eapply (Hon _ (Wait since :: concat parts)).
  - rewrite Hp. cbn. by rewrite <- app_assoc.
  - by exists since, parts.
Qed.

(** C33. The clerk stays within its gates. Whatever the model answers and
    whatever messages say, the calls of a run are, turn by turn, one wait and
    then, for each message the wait brought, in order, at most one question to
    the model, one store, one letter and one acknowledgement: the letter goes
    to the login the server recorded for the message or to the owner, the
    acknowledgement names the message itself, and a store happens only when
    that login is a trusted one, under a key of the allowed families. In a dry
    run nothing is asked of the server but to wait. A clerk that has not
    exited has gone through every turn. *)
Theorem clerk_within_gates turns dir :
  let '(ended, w) := main loads iso c turns dir in
  turns_served turns (bool_decide (ended = None)) (w_calls w).
Proof.
  unfold main. destruct (ck_llm c) as [[base_url key] model].
  destruct (nonempty (ck_token c)); cbn [negb]; [|by apply turns_served_nil].
  destruct (nonempty base_url && nonempty key && nonempty model); cbn [negb]; [|by apply turns_served_nil].
  destruct (loop_calls turns (Some FIRST_SINCE) (World dir [])) as (new & Hn & Hs).
  destruct (loop _ _ _ _ _ _) as [ended w]. cbn in *. by rewrite Hn.
Qed.

(** ** Spending *)

Definition asks (l : list call) : nat := length (select (λ x, match x with Ask _ => true | _ => false end) l).

Lemma asks_app l k : asks (l ++ k) = (asks l + asks k)%nat.
Proof. unfold asks. by rewrite select_app, length_app. Qed.

Lemma asks_ask u : asks [Ask u] = 1%nat.
Proof. done. Qed.

Lemma asks_wait since : asks [Wait since] = 0%nat.
Proof. done. Qed.

Lemma asks_planned m a acts : acts `prefix_of` planned c m a → asks acts = 0%nat.
Proof.
  intros [rest Hp]. assert (asks (planned c m a) = 0%nat) as H by by destruct a.
  rewrite Hp, asks_app in H. lia.
Qed.

Lemma bumped d s : calls_on d (bump_calls d d s) = calls_on d s + 1.
Proof. unfold calls_on at 1, bump_calls. cbn. by rewrite lookup_insert_eq. Qed.

(** What handling costs on a day that lasts as long. *)
Lemma handle_spent d h w :
  hd_day h = (d, d, d) → is_done (hd_llm h) = true →
  let w' := (handle loads iso c h w).2 in
  Z.of_nat (asks (w_calls w')) - Z.of_nat (asks (w_calls w)) = calls_on d (w_dir w') - calls_on d (w_dir w) ∧
  calls_on d (w_dir w') ≤ Z.max (calls_on d (w_dir w)) (ck_daily_cap c).
Proof.
  intros Hd Hl. cbv zeta. rewrite handle_is_spec. unfold handle_spec. rewrite Hd. cbn [fst snd].
  case_match; [cbn [snd]; lia|]. case_match eqn:Ec; [cbn [snd]; lia|]. apply Z.leb_gt in Ec.
  destruct (hd_llm h) as [[text usage]|e]; [|done]. cbv zeta.
  match goal with |- context [ledger ?e ?s] => set (dir := ledger e s) end.
  assert (calls_on d dir = calls_on d (w_dir w) + 1) as Hb by exact (bumped d (w_dir w)).
  assert (∀ i, calls_on d (mark_processed i dir) = calls_on d dir) as Hm by done.
  destruct (ck_dry_run c).
  - cbn [snd w_dir w_calls]. rewrite asks_app, asks_ask, Hb. lia.
  - match goal with |- context [play h ?pl] => set (plan := pl); pose proof (play_prefix h plan) as Hp end.
    destruct (play h plan) as [o acts]. cbn [snd] in Hp. apply asks_planned in Hp. cbn [snd w_dir w_calls].
    rewrite !asks_app, Hp, asks_ask. destruct (is_done o); cbn [andb]; rewrite ?Hm, Hb; lia.
Qed.

Definition clerk_spent (d : string) (w w' : world) : Prop :=
  Z.of_nat (asks (w_calls w')) - Z.of_nat (asks (w_calls w)) = calls_on d (w_dir w') - calls_on d (w_dir w) ∧
  calls_on d (w_dir w') ≤ Z.max (calls_on d (w_dir w)) (ck_daily_cap c).

Lemma spent_refl d w : clerk_spent d w w.
Proof. unfold clerk_spent. lia. Qed.

Lemma spent_trans d w w' w'' : clerk_spent d w w' → clerk_spent d w' w'' → clerk_spent d w w''.
Proof. unfold clerk_spent. lia. Qed.

Definition answered_on (d : string) (h : hand) : Prop := hd_day h = (d, d, d) ∧ is_done (hd_llm h) = true.

Lemma handle_all_spent d hands w : (∀ h, h ∈ hands → answered_on d h) → clerk_spent d w (handle_all loads iso c hands w).
Proof.
  unfold handle_all. revert w. induction hands as [|h hands IH]; intros w H; cbn [foldl]; [apply spent_refl|].
  eapply spent_trans; [|apply IH; intros h' Hh; apply H; by apply list_elem_of_further].
  destruct (H h ltac:(apply list_elem_of_here)) as [Hd Hl]. by apply handle_spent.
Qed.

Lemma loop_spent d turns since w :
  (∀ hands h, Arrived hands ∈ turns → h ∈ hands → answered_on d h) → clerk_spent d w (loop loads iso c since turns w).2.
Proof.
  revert since w. induction turns as [|t turns IH]; intros since w H; cbn [loop]; [apply spent_refl|].
  set (w' := World _ _).
  assert (clerk_spent d w w') as Hw by (unfold clerk_spent, w'; cbn [w_calls w_dir]; rewrite asks_app, asks_wait; lia).
  assert (∀ since' w0, clerk_spent d w w0 → clerk_spent d w (loop loads iso c since' turns w0).2) as Hon.
  { intros since' w0 H0. eapply spent_trans; [exact H0|]. apply IH. intros hands h Hin. apply (H hands).
    by apply list_elem_of_further. }
  destruct t as [[code| |]|hands]; [case_match; [exact Hw|by apply Hon]|by apply Hon|exact Hw|].
  apply Hon. eapply spent_trans; [exact Hw|]. apply handle_all_spent. intros h Hh. apply (H hands); [apply list_elem_of_here|done].
Qed.

(** C36. The cap holds. On a day on which the model answers, a run asks it as
    often as the day's counter grows, and never past the cap, whatever number
    of messages comes; what the counter held before, an earlier run's calls of
    the day, counts against it. *)
Theorem clerk_within_cap d turns dir :
  (∀ hands h, Arrived hands ∈ turns → h ∈ hands → answered_on d h) →
  let w := (main loads iso c turns dir).2 in
  Z.of_nat (asks (w_calls w)) = calls_on d (w_dir w) - calls_on d dir ∧
  Z.of_nat (asks (w_calls w)) ≤ Z.max 0 (ck_daily_cap c - calls_on d dir).
Proof.
  intros H. cbv zeta. unfold main. destruct (ck_llm c) as [[base_url key] model].
  destruct (nonempty (ck_token c)); cbn [negb]; [|unfold asks; cbn; lia]. case_match; [unfold asks; cbn; lia|].
  destruct (loop_spent d turns (Some FIRST_SINCE) (World dir []) H) as [H1 H2]. cbn [w_calls w_dir] in *.
  unfold asks in H1 at 2. cbn in H1. unfold asks in *. lia.
Qed.

(** ** A message dealt with *)

(** The file of processed ids as the clerk itself writes it. *)
Definition lines (ids : list string) : string := foldr (λ id rest, id +:+ newline +:+ rest) "" ids.

Definition own_file (dir : state_dir) : Prop := ∃ ids, or_empty (sd_processed dir) = lines ids ∧ Forall word ids.

Lemma split_words_cons a b t w ws :
  is_space_char a = false → is_space_char b = false → split_words (String b t) = w :: ws →
  split_words (String a (String b t)) = String a w :: ws.
Proof. intros Ha Hb H. cbn [split_words] in *. rewrite Ha, Hb in *. by rewrite H. Qed.

Lemma word_space w s : word w → split_words (w +:+ newline +:+ s) = w :: split_words s.
Proof.
  intros [Hn Hw]. induction w as [|a w IH]; [done|]. cbn in Hw. apply andb_true_iff in Hw as [Ha Hw]. apply negb_true_iff in Ha.
  destruct w as [|b w]; [cbn; by rewrite Ha|]. specialize (IH eq_refl Hw).
  cbn in Hw. apply andb_true_iff in Hw as [Hb _]. apply negb_true_iff in Hb. by apply split_words_cons.
Qed.

Lemma lines_read ids : Forall word ids → split_words (lines ids) = ids.
Proof. induction 1 as [|i ids Hi _ IH]; [done|]. cbn [lines foldr]. rewrite word_space by done. by f_equal. Qed.

Lemma id_lines_app ids id : lines ids +:+ id +:+ newline = lines (ids ++ [id]).
Proof.
  induction ids as [|i ids IH]; [done|]. cbn [lines foldr app]. change (foldr _ "" (ids ++ [id])) with (lines (ids ++ [id])).
  rewrite <- IH. by rewrite <- !string_app_assoc.
Qed.

Lemma seen_own dir ids : or_empty (sd_processed dir) = lines ids → Forall word ids → seen dir = ids.
Proof. unfold seen. intros H Hw. destruct (sd_processed dir) as [text|]; cbn in H; [rewrite H; by apply lines_read|].
  destruct ids as [|[|] ids]; [done|..]; by cbn in H. Qed.

(** Handling to the end puts the message among the known ones, and handling
    anything keeps those; a known message takes no call. *)
Lemma known_stays h w :
  own_file (w_dir w) → word (m_id (hd_msg h)) →
  let w' := (handle loads iso c h w).2 in
  own_file (w_dir w') ∧ seen (w_dir w) ⊆ seen (w_dir w') ∧
  (Ack (m_id (hd_msg h)) ∈ drop (length (w_calls w)) (w_calls w') →
   hd_refused h (Ack (m_id (hd_msg h))) = None → m_id (hd_msg h) ∈ seen (w_dir w')).
Proof.
  intros (ids & Hids & Hw) Hid. cbv zeta. rewrite handle_is_spec. unfold handle_spec.
  assert (seen (w_dir w) = ids) as Hseen by by apply seen_own.
  assert (∀ dir', sd_processed dir' = sd_processed (w_dir w) → own_file dir' ∧ seen (w_dir w) ⊆ seen dir') as Hsame.
  { intros dir' Hp. split; [exists ids; by rewrite Hp|]. unfold seen. by rewrite Hp. }
  assert (∀ l : list call, drop (length l) l = []) as Hdrop by (intros l; by rewrite drop_all).
  case_match; [cbn [snd]; split_and!; [by apply Hsame..|by rewrite Hdrop; intros ?%elem_of_nil]|].
  case_match; [cbn [snd]; split_and!; [by apply Hsame..|by rewrite Hdrop; intros ?%elem_of_nil]|].
  destruct (hd_llm h) as [[text usage]|e]; [|cbn [snd w_dir w_calls]; rewrite drop_app_length; split_and!; [by apply Hsame..|set_solver]].
  cbv zeta. match goal with |- context [ledger ?e ?s] => set (dir := ledger e s) end.
  destruct (ck_dry_run c); [cbn [snd w_dir w_calls]; rewrite drop_app_length; split_and!; [by apply Hsame..|set_solver]|].
  match goal with |- context [play h ?pl] => set (plan := pl) end.
  assert (∀ o acts, play h plan = (o, acts) → Ack (m_id (hd_msg h)) ∈ acts → hd_refused h (Ack (m_id (hd_msg h))) = None → is_done o = true) as Hplay.
  { intros o acts Hp Hin Hr. subst plan. destruct (d_action _); cbn in Hp;
      repeat (match type of Hp with context [hd_refused h ?x] => destruct (hd_refused h x) eqn:? end; cbn in Hp; simplify_eq; try done);
      set_solver. }
  destruct (play h plan) as [o acts]. specialize (Hplay o acts eq_refl). cbn [snd w_dir w_calls].
  rewrite <- app_assoc, drop_app_length.
  assert (∀ d', sd_processed d' = Some (or_empty (sd_processed (w_dir w)) +:+ m_id (hd_msg h) +:+ newline) →
    own_file d' ∧ seen d' = ids ++ [m_id (hd_msg h)]) as Hmark.
  { intros d' Hd. assert (or_empty (sd_processed d') = lines (ids ++ [m_id (hd_msg h)])) as H' by (rewrite Hd; cbn; by rewrite Hids, id_lines_app).
    assert (Forall word (ids ++ [m_id (hd_msg h)])) by (apply Forall_app; by split; [|constructor]).
    split; [by exists (ids ++ [m_id (hd_msg h)])|by apply seen_own]. }
  destruct (is_done o).
  - destruct (Hmark (mark_processed (m_id (hd_msg h)) dir) eq_refl) as [Ho Hs]. split; [done|]. rewrite Hs, Hseen. set_solver.
  - split_and!; [by apply (Hsame dir)..|]. intros Hin Hr. exfalso. assert (Ack (m_id (hd_msg h)) ∈ acts) as Ha by set_solver.
    by specialize (Hplay Ha Hr).
Qed.
End clerk.

(** ** Where an acknowledgement goes *)

Lemma length_string_app s t : String.length (s +:+ t) = (String.length s + String.length t)%nat.
Proof. induction s as [|a s IH]; cbn; [done|by rewrite IH]. Qed.

Lemma chop_end_app t s : chop_end t (s +:+ t) = Some s.
Proof.
  induction s as [|a s IH].
  - change ("" +:+ t) with t. destruct t; cbn [chop_end]; by rewrite bool_decide_eq_true_2.
  - change (String a s +:+ t) with (String a (s +:+ t)). cbn [chop_end]. rewrite bool_decide_eq_false_2; [by rewrite IH|].
    intros H. apply (f_equal String.length) in H. cbn in H. rewrite length_string_app in H. lia.
Qed.

(** The bridge's acknowledgement names the message it is about; the clerk's
    leaves out a segment of the path that the message's id happens to supply,
    and so names the message by the rest of its id. *)
Lemma bridge_ack_arrives id : ack_route (bridge_ack_path id) = Some id.
Proof. unfold ack_route, bridge_ack_path. rewrite drop_prefix_app. cbn [mbind option_bind]. by apply chop_end_app. Qed.

Lemma clerk_ack_arrives u : ack_route (clerk_ack_path ("inbox/" +:+ u)) = Some u.
Proof.
  unfold ack_route, clerk_ack_path. rewrite string_app_assoc.
  change ("/memory/" +:+ "inbox/" +:+ u +:+ "/ack") with ("/memory/inbox/" +:+ u +:+ "/ack").
  rewrite drop_prefix_app. cbn [mbind option_bind]. by apply chop_end_app.
Qed.

(** Hence no acknowledgement of the clerk's is ever accepted: the ids of letters
    are [inbox/] and a generated name, no letter is called by the generated
    name alone, and the route answers that there is no such message. *)
Lemma clerk_acks_lost cfg p reader u s :
  (∀ r, r ∈ t_rows (rs_table s) → is_mail r = true → startswith "inbox/" (r_key r) = true) →
  startswith "inbox/" u = false →
  ack_route (clerk_ack_path ("inbox/" +:+ u)) = Some u ∧
  (ack_inbox cfg p u reader s).2 = s ∧
  ∃ status, (ack_inbox cfg p u reader s).1 = Raise status.
Proof.
  intros Hids Hu. split; [apply clerk_ack_arrives|].
  assert (∀ r, r ∈ t_rows (rs_table s) → is_message u r = false) as Hno.
  { intros r Hr. unfold is_message. destruct (is_mail r) eqn:Em; [|done]. cbn. apply bool_decide_eq_false. intros <-.
    by rewrite (Hids r Hr Em) in Hu. }
  unfold ack_inbox, on_message, member, rbind.
  pose proof (access_spec cfg p INBOX_NAMESPACE "read" s) as Ha. unfold ends in Ha.
  destruct (access cfg p INBOX_NAMESPACE "read" s) as [[[]|e] s']; destruct Ha as [-> _]; [|by eauto].
  unfold table_of. cbn. rewrite (proj2 (sql_count_zero _ _) Hno), sql_update_id by (intros r Hr; by rewrite Hno).
  cbn. destruct s; eauto.
Qed.

(** ** On concrete runs *)

Definition ex_clerk (cap : Z) : config :=
  config_of (λ k, if k isin ["ENGRAM_CLERK_TOKEN"; "ENGRAM_CLERK_LLM_BASE_URL"; "ENGRAM_CLERK_LLM_KEY"; "ENGRAM_CLERK_LLM_MODEL"] then Some "x"
                  else if k == "ENGRAM_CLERK_DRY_RUN" then Some "0"
                  else if k == "ENGRAM_CLERK_ADDRESS" then Some "tide" else None) cap "Box.local".

Definition ex_letter (id : string) (principal : option string) : inbox_message :=
  InboxMessage ("inbox/" +:+ id) "tide" (Some "ana@box") principal false None None None None None None None None
    "news" "hello" None [] [] false 100 "open" None None None None None None.

(** The model replies to everything. *)
Definition ex_loads (_ : string) : option decoded :=
  Some (DObj [("action", DStr "Reply "); ("reply_body", DStr "noted"); ("reason", DStr "")] "").

(** A server that accepts everything but acknowledgements. *)
Definition ex_hand (id : string) (said : outcome fault (option string * (option Z * option Z))) : hand :=
  Hand (ex_letter id (Some "p_ana")) ("d1", "d1", "d1") "ts" said (λ x, match x with Ack _ => Some (Status 404) | _ => None end).

Definition ex_said : outcome fault (option string * (option Z * option Z)) := Done (Some "{}", (Some 10, None)).

Definition ex_dir : state_dir := StateDir None ∅ [].

Definition letters (l : list call) : list letter := omap (λ x, match x with Send l => Some l | _ => None end) l.

Lemma clerk_within_cap_witness :
  let turns := [Arrived [ex_hand "u1" ex_said; ex_hand "u2" ex_said; ex_hand "u3" ex_said]] in
  let w := (main ex_loads (λ _, "") (ex_clerk 2) turns ex_dir).2 in
  asks (w_calls w) = 2%nat ∧ Z.of_nat (asks (w_calls w)) ≤ Z.max 0 (2 - calls_on "d1" ex_dir).
Proof.
  split; [by vm_compute|].
  refine (proj2 (clerk_within_cap ex_loads (λ _, "") (ex_clerk 2) "d1" _ ex_dir _)).
  intros hands h Hin Hh. apply list_elem_of_singleton in Hin. injection Hin as ->.
  repeat (apply elem_of_cons in Hh as [->|Hh]; [by split|]). by apply elem_of_nil in Hh.
Defined.

(** The acknowledgement refused, the message is never entered as processed: the
    next run replies to it again. *)
Lemma restart_replies_again :
  let run := λ dir, (main ex_loads (λ _, "") (ex_clerk 200) [Arrived [ex_hand "u1" ex_said]] dir).2 in
  let w := run ex_dir in
  sd_processed (w_dir w) = None ∧
  (lt_to <$> letters (w_calls w)) = ["p_ana"] ∧
  letters (w_calls (run (w_dir w))) = letters (w_calls w).
Proof. vm_compute. done. Qed.

(** A question the model failed to answer was asked, and is not counted. *)
Lemma unanswered_uncounted :
  let w := (main ex_loads (λ _, "") (ex_clerk 1) [Arrived [ex_hand "u1" (Raise Transport); ex_hand "u2" (Raise Transport)]] ex_dir).2 in
  asks (w_calls w) = 2%nat ∧ calls_on "d1" (w_dir w) = 0.
Proof. vm_compute. done. Qed.

(** After the first wait the clerk sends no cursor, and the server then starts
    at the date of the request: no later answer has anything that had arrived
    before its wait began. *)
Lemma later_waits_hear_news expand `{!ListenExpansion expand} c started ticks a m :
  let b := wait_payload c None in
  wait_loop expand b [ck_address c] (default started (bw_since b)) ticks = Some a → m ∈ wr_messages a → started < m_created_at m.
Proof.
  cbv zeta. intros H Hm. destruct (wait_loop_spec expand _ _ _ _ _ H) as (before & tk & rest & _ & _ & _ & Hw & _).
  rewrite Hw, elem_of_sort_by in Hm. unfold fresh_at in Hm. apply elem_of_select in Hm as [Hm _]. unfold waking in Hm. bprop. cbn in Hm. lia.
Qed.

(** So a letter that arrives while another is handled is not heard: it is
    unread at every poll of the next wait, which times out. *)
Lemma arrived_meanwhile_missed :
  let c := ex_clerk 200 in
  let at_ k := FIRST_SINCE + k in
  let first := wait_payload c (Some FIRST_SINCE) in
  let second := wait_payload c None in
  let box := ex_box [ex_mail 1 (at_ 100) []; ex_mail 2 (at_ 105) []] in
  (∃ a, wait_loop id first ["tide"] FIRST_SINCE [WaitTick (at_ 101) 10 (ex_box [ex_mail 1 (at_ 100) []]) false] = Some a ∧
     m_id <$> wr_messages a = ["inbox/1"]) ∧
  (∃ a, wait_loop id second ["tide"] (at_ 110) [WaitTick (at_ 110) 10 box false; WaitTick (at_ 410) 300010 box false] = Some a ∧
     wr_timed_out a = true ∧ wr_messages a = []) ∧
  m_id <$> (inbox_list id ["tide"] (Some (READER_IDENTITY c)) true 50 false true false false box).1 = ["inbox/2"; "inbox/1"].
Proof. cbv zeta. split; [|split]; [eexists; split; vm_compute; reflexivity|eexists; split_and!; vm_compute; reflexivity|by vm_compute]. Qed.

(** And one left for the cap, said to stay queued, waits for a restart too. *)
Lemma capped_untouched loads iso c h w :
  ck_daily_cap c <= calls_on (hd_day h).1.1 (w_dir w) → handle loads iso c h w = (Done tt, w).
Proof.
  intros H. rewrite handle_is_spec. unfold handle_spec. case_match; [done|]. by rewrite (proj2 (Z.leb_le _ _) H).
Qed.
