(* ===== verification/Client.v ===== *)
(** The bridge's HTTP client
    (src/integrations/claude-code/src/engram_mcp/client.py): the requests it
    can make, with the bodies it builds; one request with its retry; the count
    of refused logins.

    A request is a constructor of [api], indexed by the type of its answer. The
    server is a handler of requests over a state of its own, given as an
    argument; [Tools] gives the modelled routes. What the network does to each
    attempt is a script, one entry per attempt, a request going through when
    the script is used up. *)

From stdpp Require Import base gmap list strings.
From Stdlib Require Import ZArith Lia Ascii.
From S2P Require Import Prelude PyString Json Store ProjectAlias Principals Auth Memory Inbox Scoping Session.
From S2P Require Import WatchClaim Seats Presence Register Delivery Send Requests MemoryRoutes InboxRoutes SessionRoutes.

Open Scope Z_scope.
Open Scope tiding_scope.

(** ** Requests *)

Record health_response := HealthResponse {
  hr_status : string;
  hr_checks : list (string * bool);
  hr_version : option string;
  hr_sha : option string;
  hr_started_at : option string
}.

(** Roster: project, channel, include_done. *)
Inductive api : Type → Type :=
| ApiSet (b : set_body) : api set_response
| ApiGet (b : row_body) : api get_response
| ApiSearch (b : search_body) : api search_response
| ApiKeys (b : keys_body) : api keys_response
| ApiForget (b : row_body) : api forget_response
| ApiFlag (b : flag_body) : api row_response
| ApiSupersede (b : supersede_body) : api row_response
| ApiWhoami : api whoami_response
| ApiNamespaces : api (list string * list string)
| ApiProject (name : string) : api (string * option string * bool * list string)
| ApiWakePoll (b : wait_body) : api wait_response
| ApiAddresses (project : option string) : api (list reg_entry)
| ApiSend (rq : send_request) (listen_set : option (list string)) : api send_response
| ApiPresence (b : presence_body) : api presence_response
| ApiClaim (b : claim_body) : api grant
| ApiRelease (b : release_body) : api (option string)
| ApiRoster (project channel : option string) (include_done : bool) : api (list entry * nat)
| ApiWatchClaim (b : watch_body) : api claim_verdict
| ApiWatchBeat (seat nonce : string) (fetched_through : option Z) : api beat_verdict
| ApiWatchRelease (seat nonce : string) : api release_verdict
| ApiWatchStatus (seat : string) : api status
| ApiInbox (b : list_body) : api list_response
| ApiAck (message_id reader : string) : api string
| ApiArchive (message_id reader : string) : api string
| ApiResolve (message_id reader : string) : api string
| ApiResolveThread (thread_id : string) (listen_set : list string) (reader : option string) : api nat
| ApiHealth : api health_response.

Definition path_of {A} (x : api A) : string :=
  match x with
  | ApiSet _ => "/memory/set" | ApiGet _ => "/memory/get" | ApiSearch _ => "/memory/search" | ApiKeys _ => "/memory/keys"
  | ApiForget _ => "/memory/forget" | ApiFlag _ => "/memory/flag_deletion" | ApiSupersede _ => "/memory/supersede"
  | ApiWhoami => "/whoami" | ApiNamespaces => "/namespaces" | ApiProject name => "/memory/project/" +:+ name
  | ApiWakePoll _ => "/memory/wake/poll" | ApiAddresses _ => "/session/addresses" | ApiSend _ _ => "/memory/send"
  | ApiPresence _ => "/memory/presence" | ApiClaim _ => "/session/claim" | ApiRelease _ => "/session/release"
  | ApiRoster _ _ _ => "/memory/roster" | ApiWatchClaim _ => "/session/watch/claim" | ApiWatchBeat _ _ _ => "/session/watch/beat"
  | ApiWatchRelease _ _ => "/session/watch/release" | ApiWatchStatus _ => "/session/watch/status" | ApiInbox _ => "/memory/inbox"
  | ApiAck id _ => "/memory/inbox/" +:+ id +:+ "/ack" | ApiArchive id _ => "/memory/inbox/" +:+ id +:+ "/archive"
  | ApiResolve id _ => "/memory/inbox/" +:+ id +:+ "/resolve" | ApiResolveThread _ _ _ => "/memory/inbox/resolve-thread"
  | ApiHealth => "/health"
  end.

(** ** Provenance *)

(** The headers of a request, by their names in small letters. *)
Definition headers : Type := string → option string.

Definition header_list (l : list (string * string)) : headers := λ k,
  match find (λ e, e.1 == k) l with Some (_, v) => Some v | None => None end.

(** [__init__]'s header of the box, and those of the effective directory;
    [model] is what the harness's record says and where it was read. *)
Definition _provenance_headers (env : environ) (model : option string * string) (project_dir : option string) (s : session)
  : headers * session :=
  let '(effective, s) := remember_project_dir env project_dir s in
  (header_list ([("x-engram-machine", ev_host env);
                 ("x-engram-project", derive_project_name env effective);
                 ("x-engram-cwd", strip (or_empty effective));
                 ("x-engram-model-source", model.2)]
                ++ match model.1 with Some m => if nonempty m then [("x-engram-model", m)] else [] | None => [] end), s).

(** ** The wire *)

(** What becomes of an attempt: the answer comes, with the date it carries; no
    connection is made; the request is carried out and the answer does not
    come in time; the connection breaks. *)
Inductive net := Delivered (date : option Z) | Unreached | AnswerLost | Broken (carried_out : bool).

Inductive fault := HttpStatus (r : refusal) | Unreachable | TimedOut | BrokenWire.

Record auth_streak := AuthStreak {
  as_failures : Z;
  as_last_status : option Z;
  as_last_path : option string
}.

Definition no_failures : auth_streak := AuthStreak 0 None None.

Definition AUTH_REFUSAL_LIMIT : Z := 3.

Definition _note_auth_failure (status : Z) (path : string) (a : auth_streak) : auth_streak :=
  AuthStreak (as_failures a + 1) (Some status) (Some path).

Definition _note_auth_ok (a : auth_streak) : auth_streak :=
  if as_failures a =? 0 then a else AuthStreak 0 (as_last_status a) (as_last_path a).

Definition auth_is_refused (a : auth_streak) : bool := AUTH_REFUSAL_LIMIT <=? as_failures a.

Section wire.
Context {Srv : Type} (serve : ∀ A, api A → headers → Srv → outcome refusal A * Srv).

(** The client's globals, the network ahead, the server, and what was sent:
    the path of each attempt and the status of its answer. *)
Record wire := Wire {
  wi_auth : auth_streak;
  wi_server_time : option Z;
  wi_net : list net;
  wi_server : Srv;
  wi_log : list (string * option Z)
}.

Definition _record_server_time (date : option Z) (known : option Z) : option Z :=
  match date with Some d => Some d | None => known end.

(** [resp.status_code in (401, 403)] *)
Definition hard_refusal (status : Z) : bool := (status =? 401) || (status =? 403).

Definition note_status (status : Z) (path : string) (a : auth_streak) : auth_streak :=
  if hard_refusal status then _note_auth_failure status path a else _note_auth_ok a.

Inductive tried A := Finished (o : outcome fault A) | Again (e : fault).
Arguments Finished {A} o.
Arguments Again {A} e.

Definition attempt {A} (x : api A) (h : headers) (w : wire) : tried A * wire :=
  let '(n, ahead) := match wi_net w with [] => (Delivered None, []) | n :: ahead => (n, ahead) end in
  let unanswered s := Wire (wi_auth w) (wi_server_time w) ahead s (wi_log w ++ [(path_of x, None)]) in
  match n with
  | Unreached => (Again Unreachable, unanswered (wi_server w))
  | AnswerLost => (Again TimedOut, unanswered (serve _ x h (wi_server w)).2)
  | Broken carried_out =>
      (Finished (Raise BrokenWire), unanswered (if carried_out then (serve _ x h (wi_server w)).2 else wi_server w))
  | Delivered date =>
      let '(o, s) := serve _ x h (wi_server w) in
      let status := match o with Done _ => 200 | Raise r => rf_status r end in
      (Finished (match o with Done a => Done a | Raise r => Raise (HttpStatus r) end),
       Wire (note_status status (path_of x) (wi_auth w)) (_record_server_time date (wi_server_time w)) ahead s
            (wi_log w ++ [(path_of x, Some status)]))
  end.

(** One retry, when no connection was made or no answer came in time. *)
Definition _request {A} (x : api A) (h : headers) (w : wire) : outcome fault A * wire :=
  match attempt x h w with
  | (Finished o, w1) => (o, w1)
  | (Again _, w1) =>
      match attempt x h w1 with
      | (Finished o, w2) => (o, w2)
      | (Again e, w2) => (Raise e, w2)
      end
  end.
End wire.

Arguments wire : clear implicits.
Arguments Finished {A} o.
Arguments Again {A} e.

(** ** The bodies of the verbs *)

(** [if listen_set: body["listen_set"] = listen_set] *)
Definition given_list (l : option (list string)) : option (list string) :=
  match l with Some (_ :: _) => l | _ => None end.
(** [if x: body[k] = x] *)
Definition given (s : option string) : option string := if truthy s then s else None.

Definition client_store (key value namespace scope user_id : string) (project : option string) (tags : string)
    (listen_set : option (list string)) (reader_identity if_match : option string) : api set_response :=
  ApiSet (SetBody namespace key value (Some scope) (Some user_id) project (Some (TagText tags)) None None
            (given_list listen_set) (given reader_identity) if_match []).

Definition client_get (key namespace scope user_id : string) (project : option string) : api get_response :=
  ApiGet (RowBody namespace key (Some scope) (Some user_id) project).

Definition client_search (query scope user_id : string) (project : option string) (limit : Z) (namespace : option string)
    (namespaces listen_set : option (list string)) (reader_identity : option string) (snippet_lines : option Z)
  : api search_response :=
  let named := is_some (given_list namespaces) in
  ApiSearch (SearchBody (if named then None else given namespace) (given_list namespaces) query (Some scope) (Some user_id)
               project (Some limit) (given_list listen_set) (given reader_identity)
               (match snippet_lines with Some 0 => None | n => n end) false).

Definition client_keys (prefix scope user_id : string) (project : option string) (limit : Z)
    (namespaces : option (list string)) : api keys_response :=
  ApiKeys (KeysBody None (given_list namespaces) (Some prefix) (Some scope) (Some user_id) project (Some limit)).

Definition client_supersede (key namespace : string) (project : option string) (target_user_id reason : string)
    (replacement_key : option string) (scope : string) : api row_response :=
  ApiSupersede (SupersedeBody namespace key (Some scope) project target_user_id reason (given replacement_key)).

Definition client_flag_deletion (key namespace scope user_id reason : string) (project : option string) : api row_response :=
  ApiFlag (FlagBody namespace key (Some scope) (Some user_id) project reason).

Definition client_forget (key namespace scope user_id : string) (project : option string) : api forget_response :=
  ApiForget (RowBody namespace key (Some scope) (Some user_id) project).

Definition inbox_send (to : list string) (body subject : string) (from_ thread_id intent supersedes : option string)
    (listen_set : option (list string)) (from_lane in_reply_to : option string) : api send_response :=
  ApiSend (SendRequest to body subject (given from_) (given thread_id) (given supersedes) (given intent) (given from_lane)
             (given in_reply_to) false None) (given_list listen_set).

Definition client_presence_update (identity project state : string) (provider : option string)
    (overlays channels : option (list string)) (session_nonce : option string) (watcher : bool) (host : option string)
    (activity : bool) : api presence_response :=
  ApiPresence (PresenceBody identity project state provider (default [] overlays) (default [] channels) session_nonce host
                 activity watcher false).

(** The state is ignored on this path. *)
Definition client_presence_farewell (identity project : string) : api presence_response :=
  ApiPresence (PresenceBody identity project "running" None [] [] None None true false true).

Definition session_claim (session_key project provider : string) (session_nonce host preferred_seat : option string)
    (runtime_seat : bool) : api grant :=
  ApiClaim (ClaimBody session_key project (Some provider) session_nonce host preferred_seat runtime_seat).

Definition session_release (session_key project : string) (evidence session_nonce : option string) : api (option string) :=
  ApiRelease (ReleaseBody session_key project evidence session_nonce).

Definition client_roster (project channel : option string) (include_done : bool) : api (list entry * nat) :=
  ApiRoster project channel include_done.

Definition wake_poll (listen_set : list string) (reader_identity : option string) (since : option Z) : api wait_response :=
  ApiWakePoll (WaitBody listen_set (given reader_identity) 0 since false).

Definition session_addresses (project : option string) : api (list reg_entry) := ApiAddresses (given project).

Definition client_watch_claim (seat nonce armed_by project_dir : string) (listen_set : list string)
    (host seat_nonce : option string) : api claim_verdict :=
  ApiWatchClaim (WatchBody seat nonce (Some armed_by) (Some project_dir) (Some listen_set) host seat_nonce).

Definition client_inbox_list (listen_set : list string) (reader_identity : option string) (unread_only : bool) (limit : Z)
    (newest_first include_resolved : bool) : api list_response :=
  ApiInbox (ListBody listen_set reader_identity unread_only include_resolved limit newest_first false false).
