(* ===== verification/ClientProps.v ===== *)
(** The bridge's HTTP client: what one request may do to the server, and what
    the count of refused logins says. *)

From stdpp Require Import base gmap list strings.
From Stdlib Require Import ZArith Lia.
From S2P Require Import Prelude PyString Requests Client.

Open Scope Z_scope.
Open Scope tiding_scope.

(** ** Streaks *)

(** How many of the latest answers, newest last, were hard refusals. *)
Fixpoint streak_from (n : nat) (statuses : list Z) : nat :=
  match statuses with
  | [] => n
  | s :: rest => streak_from (if hard_refusal s then S n else O) rest
  end.

Definition streak (statuses : list Z) : nat := streak_from 0 statuses.

Lemma streak_snoc l s : streak (l ++ [s]) = if hard_refusal s then S (streak l) else O.
Proof.
  unfold streak. assert (∀ n, streak_from n (l ++ [s]) = if hard_refusal s then S (streak_from n l) else O) as H; [|apply H].
  induction l as [|x l IH]; intros n; [done|]. cbn [app streak_from]. apply IH.
Qed.

(** A streak of [n] is [n] refusals at the end, and no more than it says. *)
Lemma streak_le n l : (n ≤ streak l)%nat ↔ ∃ before last, l = before ++ last ∧ length last = n ∧ Forall (λ s, hard_refusal s = true) last.
Proof.
  revert n. induction l as [|s l IH] using rev_ind; intros n.
  - cbn. split.
    + intros Hn. exists [], []. by replace n with O by lia.
    + intros (b & k & H & Hl & _). symmetry in H. apply app_eq_nil in H as [_ ->]. cbn in *. lia.
  - rewrite streak_snoc. destruct n as [|n].
    { split; [|lia]. intros _. exists (l ++ [s]), []. by rewrite app_nil_r. }
    destruct (hard_refusal s) eqn:Es.
    + rewrite <- Nat.succ_le_mono, IH. split.
      * intros (b & k & -> & <- & Hk). exists b, (k ++ [s]). rewrite <- app_assoc, length_app. cbn.
        split; [done|]. split; [lia|]. apply Forall_app. by split; [|constructor].
      * intros (b & k & H & Hl & Hk). destruct k as [|x k _] using rev_ind; [done|]. rewrite app_assoc in H.
        apply app_inj_tail in H as [-> ->]. rewrite length_app in Hl. cbn in Hl. apply Forall_app in Hk as [Hk _].
        exists b, k. by split_and!; [|lia|].
    + split; [lia|]. intros (b & k & H & Hl & Hk). exfalso. destruct k as [|x k _] using rev_ind; [done|]. rewrite app_assoc in H.
      apply app_inj_tail in H as [_ Hx].
      rewrite <- Hx in Hk. apply Forall_app in Hk as [_ Hk]. rewrite Forall_singleton in Hk.
      congruence.
Qed.

Section wire.
Context {Srv : Type} (serve : ∀ A, api A → headers → Srv → outcome refusal A * Srv).

(** The answers received, in order. *)
Definition received (w : wire Srv) : list Z := omap snd (wi_log w).

Lemma received_app (l k : list (string * option Z)) : omap snd (l ++ k) = omap snd l ++ omap snd k.
Proof. apply omap_app. Qed.

(** ** One attempt, one request *)

(** What an attempt comes to: nothing answered, or one answer noted. *)
Lemma attempt_cases {A} (x : api A) h w t w' :
  attempt serve x h w = (t, w') →
  (∃ e, t = Again e ∧ wi_auth w' = wi_auth w ∧ wi_log w' = wi_log w ++ [(path_of x, None)] ∧
     (e = Unreachable ∧ wi_server w' = wi_server w ∨ e = TimedOut ∧ wi_server w' = (serve A x h (wi_server w)).2)) ∨
  (t = Finished (Raise BrokenWire) ∧ wi_auth w' = wi_auth w ∧ wi_log w' = wi_log w ++ [(path_of x, None)] ∧
     (wi_server w' = wi_server w ∨ wi_server w' = (serve A x h (wi_server w)).2)) ∨
  (∃ o s status, serve A x h (wi_server w) = (o, s) ∧ wi_server w' = s ∧
     status = match o with Done _ => 200 | Raise r => rf_status r end ∧
     t = Finished (match o with Done a => Done a | Raise r => Raise (HttpStatus r) end) ∧
     wi_auth w' = note_status status (path_of x) (wi_auth w) ∧ wi_log w' = wi_log w ++ [(path_of x, Some status)]).
Proof.
  unfold attempt. destruct (match wi_net w with [] => _ | n :: ahead => (n, ahead) end) as [n ahead].
  destruct n as [date| | |carried].
  - destruct (serve A x h (wi_server w)) as [o s] eqn:E. intros [= <- <-]. right. right.
    exists o, s, (match o with Done _ => 200 | Raise r => rf_status r end). done.
  - intros [= <- <-]. left. exists Unreachable. cbn. tauto.
  - intros [= <- <-]. left. exists TimedOut. cbn. tauto.
  - intros [= <- <-]. right. left. cbn. split_and!; try done. destruct carried; tauto.
Qed.

(** The wires that requests lead to. *)
Inductive used : wire Srv → wire Srv → Prop :=
| used_refl w : used w w
| used_request {A} (x : api A) h w w' : used w w' → used w (_request serve x h w').2.

(** The count is the streak of the answers received. *)
Definition counted (w : wire Srv) : Prop := as_failures (wi_auth w) = Z.of_nat (streak (received w)).

Lemma attempt_counted {A} (x : api A) h w : counted w → counted (attempt serve x h w).2.
Proof.
  unfold counted, received. destruct (attempt serve x h w) as [t w'] eqn:E. cbn [snd].
  destruct (attempt_cases _ _ _ _ _ E) as [(e & _ & -> & -> & _)|[(_ & -> & -> & _)|(o & s & status & _ & _ & _ & _ & -> & ->)]];
    rewrite received_app; cbn [omap list_omap app snd]; rewrite ?app_nil_r; [done..|].
  rewrite streak_snoc. intros H. unfold note_status, _note_auth_ok. destruct (hard_refusal status); cbn [as_failures _note_auth_failure]; [lia|].
  destruct (as_failures (wi_auth w) =? 0) eqn:E0; [apply Z.eqb_eq in E0|]; cbn; lia.
Qed.

Lemma request_counted {A} (x : api A) h w : counted w → counted (_request serve x h w).2.
Proof.
  intros H. unfold _request. pose proof (attempt_counted x h w H) as H1. destruct (attempt serve x h w) as [[o|e] w1]; [done|].
  cbn [snd] in H1. pose proof (attempt_counted x h w1 H1) as H2. by destruct (attempt serve x h w1) as [[o|e'] w2].
Qed.

Lemma used_trans w1 w2 w3 : used w1 w2 → used w2 w3 → used w1 w3.
Proof. intros H12 H23. induction H23; [done|]. apply used_request. by apply IHused. Qed.

#[global] Instance used_preorder : PreOrder used.
Proof. split; [exact used_refl|exact used_trans]. Qed.

(** What every request keeps of the server, all of them keep. *)
Lemma used_keeps (R : Srv → Srv → Prop) `{!PreOrder R} w w' :
  (∀ A (x : api A) h s, R s (serve A x h s).2) → used w w' → R (wi_server w) (wi_server w').
Proof.
  intros HR. induction 1 as [w|A x h w w' _ IH]; [reflexivity|]. etransitivity; [exact IH|].
  assert (∀ (v : wire Srv), R (wi_server v) (wi_server (attempt serve x h v).2)) as Ha.
  { intros v. destruct (attempt serve x h v) as [t v'] eqn:E.
    destruct (attempt_cases _ _ _ _ _ E) as [(e & _ & _ & _ & [[_ Hs]|[_ Hs]])|[(_ & _ & _ & [Hs|Hs])|(o & s & st & Hx & Hs & _)]];
      cbn [snd]; rewrite Hs; try reflexivity; try apply HR. pose proof (HR A x h (wi_server v)) as H. by rewrite Hx in H. }
  unfold _request. pose proof (Ha w') as H1. destruct (attempt serve x h w') as [[o|e] w1]; [exact H1|].
  etransitivity; [exact H1|]. pose proof (Ha w1) as H2. by destruct (attempt serve x h w1) as [[o|e'] w2].
Qed.

Lemma used_counted w w' : used w w' → counted w → counted w'.
Proof. induction 1; [done|]. intros. by apply request_counted, IHused. Qed.

(** C37. The count of refusals is right. Whatever requests a session makes and
    whatever the network does to them, the credential counts as refused
    exactly when the latest three answers received were all 401 or 403: an
    attempt without an answer changes nothing, and one answer of any other
    kind clears the count. *)
Theorem refusals_counted w w' :
  wi_auth w = no_failures → received w = [] → used w w' →
  as_failures (wi_auth w') = Z.of_nat (streak (received w')) ∧
  (auth_is_refused (wi_auth w') = true ↔
   ∃ before last, received w' = before ++ last ∧ length last = 3%nat ∧ Forall (λ s, hard_refusal s = true) last).
Proof.
  intros H0 Hr Hu. assert (counted w') as Hc by (apply (used_counted w); [done|]; unfold counted; by rewrite H0, Hr).
  split; [exact Hc|]. rewrite <- streak_le. unfold auth_is_refused, AUTH_REFUSAL_LIMIT. rewrite Hc, Z.leb_le. lia.
Qed.

(** One execution of a request, for its effect. *)
Definition step {A} (x : api A) (h : headers) (s : Srv) : Srv := (serve A x h s).2.

(** An attempt: carried out at most once, and if a retry is due, only when the
    answer was lost; an answer is that of its execution, and ends the attempts. *)
Lemma attempt_once {A} (x : api A) h w t w' :
  attempt serve x h w = (t, w') → ∃ k st,
  (k ≤ 1)%nat ∧ wi_server w' = Nat.iter k (step x h) (wi_server w) ∧
  wi_log w' = wi_log w ++ [(path_of x, st)] ∧ (is_Some st → ∃ o, t = Finished o) ∧
  match t with
  | Again _ => k = 1%nat → head (wi_net w) = Some AnswerLost
  | Finished (Done a) => k = 1%nat ∧ (serve A x h (wi_server w)).1 = Done a
  | Finished (Raise (HttpStatus f)) => k = 1%nat ∧ (serve A x h (wi_server w)).1 = Raise f
  | Finished (Raise _) => True
  end.
Proof.
  unfold attempt, step. destruct (wi_net w) as [|[date| | |c] ahead]; cbn.
  - destruct (serve A x h (wi_server w)) as [[a|r] s] eqn:E; intros [= <- <-]; cbn;
      exists 1%nat; eexists; cbn; rewrite E; split_and!; eauto.
  - destruct (serve A x h (wi_server w)) as [[a|r] s] eqn:E; intros [= <- <-]; cbn;
      exists 1%nat; eexists; cbn; rewrite E; split_and!; eauto.
  - intros [= <- <-]. exists 0%nat, None. cbn. split_and!; eauto; [by intros []|done].
  - intros [= <- <-]. exists 1%nat, None. cbn. split_and!; eauto. by intros [].
  - intros [= <- <-]. exists (if c then 1 else 0)%nat, None. destruct c; cbn; split_and!; eauto; by intros [].
Qed.

(** What a request answers, the server said to its last execution, and left as
    it is now. *)
Lemma request_last {A} (x : api A) h w a w' : _request serve x h w = (Done a, w') →
  ∃ k, (k ≤ 1)%nat ∧ serve A x h (Nat.iter k (step x h) (wi_server w)) = (Done a, wi_server w').
Proof.
  assert (∀ v v', attempt serve x h v = (Finished (Done a), v') → serve A x h (wi_server v) = (Done a, wi_server v')) as Ha.
  { intros v v' E. destruct (attempt_cases _ _ _ _ _ E) as [(e & He & _)|[(He & _)|(o & s & st & Hx & Hs & _ & He & _)]]; [done..|].
    destruct o as [y|r]; [|done]. injection He as <-. by rewrite Hs. }
  unfold _request. destruct (attempt serve x h w) as [[o|e] w1] eqn:E1.
  - intros [= -> <-]. exists 0%nat. split; [lia|]. by apply Ha.
  - destruct (attempt serve x h w1) as [[o|e'] w2] eqn:E2; [|done]. intros [= -> <-]. apply Ha in E2.
    destruct (attempt_once _ _ _ _ _ E1) as (k & st & Hk & Hs & _). exists k. by rewrite <- Hs.
Qed.

(** What is done to the server in all is done by executions. *)
Lemma request_iterates {A} (x : api A) h w : ∃ n, wi_server (_request serve x h w).2 = Nat.iter n (step x h) (wi_server w).
Proof.
  unfold _request. destruct (attempt serve x h w) as [[o|e] w1] eqn:E1; apply attempt_once in E1 as (k & _ & _ & Hk & _); [by exists k|].
  destruct (attempt serve x h w1) as [t w2] eqn:E2. apply attempt_once in E2 as (j & _ & _ & Hj & _).
  exists (j + k)%nat. destruct t; cbn [snd]; by rewrite Nat.iter_add, <- Hk.
Qed.

(** When the network is up, a request is one execution. *)
Lemma request_up {A} (x : api A) h w : wi_net w = [] →
  let '(o, w') := _request serve x h w in
  wi_net w' = [] ∧ wi_server w' = (serve A x h (wi_server w)).2 ∧
  o = match (serve A x h (wi_server w)).1 with Done a => Done a | Raise r => Raise (HttpStatus r) end.
Proof.
  intros Hn. unfold _request, attempt. rewrite Hn. destruct (serve A x h (wi_server w)) as [o s]. by destruct o.
Qed.

(** A request is tried once or twice, and reaches the server at most twice,
    a second time only when its first answer did not come in time: an answer,
    a refusal included, ends the attempts. What the caller is given, if it is
    an answer, is the server's to the last execution. *)
Lemma request_sent_again {A} (x : api A) h w o w' :
  _request serve x h w = (o, w') → ∃ n tries,
  wi_server w' = Nat.iter n (step x h) (wi_server w) ∧ (n ≤ 2)%nat ∧
  (n = 2%nat → head (wi_net w) = Some AnswerLost) ∧
  wi_log w' = wi_log w ++ tries ∧ (1 ≤ length tries ≤ 2)%nat ∧
  (∀ try rest, tries = try :: rest → is_Some try.2 → rest = []) ∧
  (∀ a, o = Done a → ∃ k, n = S k ∧ (serve A x h (Nat.iter k (step x h) (wi_server w))).1 = Done a) ∧
  (∀ f, o = Raise (HttpStatus f) → ∃ k, n = S k ∧ (serve A x h (Nat.iter k (step x h) (wi_server w))).1 = Raise f).
Proof.
  unfold _request. destruct (attempt serve x h w) as [t w1] eqn:E1.
  destruct (attempt_once _ _ _ _ _ E1) as (k & st & Hk & Hs & Hl & Hst & Ht). destruct t as [o1|e].
  - intros [= <- <-]. exists k, [(path_of x, st)]. split_and!; cbn; try done; try lia.
    + by intros try rest [= <- <-].
    + intros a ->. destruct Ht as [-> Ht]. by exists 0%nat.
    + intros f ->. destruct Ht as [-> Ht]. by exists 0%nat.
  - destruct (attempt serve x h w1) as [t2 w2] eqn:E2.
    destruct (attempt_once _ _ _ _ _ E2) as (k2 & st2 & Hk2 & Hs2 & Hl2 & _ & Ht2). rewrite Hs in Ht2.
    assert (∀ o', (match t2 with Finished o => (o, w2) | Again e => (Raise e, w2) end) = (o', w') → w' = w2 ∧
      (∀ a, o' = Done a → t2 = Finished (Done a)) ∧ (∀ f, o' = Raise (HttpStatus f) → t2 = Finished (Raise (HttpStatus f)) ∨ t2 = Again (HttpStatus f))) as Hcase.
    { intros o'. destruct t2; intros [= <- <-]; naive_solver. }
    intros H. destruct (Hcase _ H) as (-> & Hd & Hf). exists (k2 + k)%nat, [(path_of x, st); (path_of x, st2)]. split_and!; cbn; try lia.
    + by rewrite Hs2, Hs, Nat.iter_add.
    + intros Hn. apply Ht. lia.
    + by rewrite Hl2, Hl, <- app_assoc.
    + intros try rest [= <- <-] Hsome. destruct (Hst Hsome). done.
    + intros a Ha. rewrite (Hd a Ha) in Ht2. destruct Ht2 as [-> Ht2]. by exists k.
    + intros f Ha. destruct (Hf f Ha) as [E|E]; rewrite E in Ht2; [destruct Ht2 as [-> Ht2]; by exists k|].
      exfalso. clear -E E2. unfold attempt in E2. destruct (wi_net w1) as [|[]]; cbn in E2; try destruct (serve _ _ _ _); congruence.
Qed.
End wire.

(** ** At work *)

(** A server that counts what it was asked, and refuses every login. *)
Definition refusing (A : Type) (x : api A) (h : headers) (n : nat) : outcome refusal A * nat := (Raise (Refusal 401 Internal), S n).

Definition fresh_wire (ahead : list net) : wire nat := Wire no_failures None ahead 0%nat [].

Definition asked_thrice (ahead : list net) : wire nat :=
  (_request refusing ApiHealth (header_list [])
     (_request refusing ApiHealth (header_list []) (_request refusing ApiHealth (header_list []) (fresh_wire ahead)).2).2).2.

Lemma refusals_counted_witness : auth_is_refused (wi_auth (asked_thrice [Unreached; Delivered None; Delivered None; AnswerLost])) = true.
Proof.
  apply (proj2 (refusals_counted refusing (fresh_wire [Unreached; Delivered None; Delivered None; AnswerLost]) _ eq_refl eq_refl
    (used_request _ _ _ _ _ (used_request _ _ _ _ _ (used_request _ _ _ _ _ (used_refl _ _)))))).
  exists [], [401; 401; 401]. split; [vm_compute; reflexivity|]. split; [reflexivity|]. repeat constructor.
Defined.
