(* ===== verification/Bridge.v ===== *)
(** The bridge process of a session
    (src/integrations/claude-code/src/engram_mcp/server.py), below its tools:
    its settings and globals, the cached name of its login, the claim of its
    seat, its heartbeat, the runtime seat, the note it leaves at its exit and
    the supervision of its watcher.

    A step of the bridge is a function of its globals and the wire, to a result
    or an error with what it leaves. The process's environment, its files and
    the processes around it are those of [Session]; the monotonic clock, in
    tenths of a second, is an argument wherever it is read. Banners are kept
    as the facts they are made of, not as text. *)

From stdpp Require Import base gmap list strings.
From Stdlib Require Import ZArith Lia Ascii.
From S2P Require Import Prelude PyString Json Store Principals Auth Memory Scoping Session WatchClaim Seats Presence Register.
From S2P Require Import Requests MemoryRoutes InboxRoutes SessionRoutes Client.

Open Scope Z_scope.
Open Scope tiding_scope.

(** ** Settings and globals *)

Record settings := Settings {
  se_api_token : string;
  se_namespace : string;
  se_read_namespaces : string;
  se_default_scope : string;
  se_nonce : string;                       (* _SESSION_NONCE *)
  se_model : option string * string;       (* resolve_model() *)
  se_watcher_on : bool                     (* ENGRAM_BRIDGE_WATCHER *)
}.

(** [_SESSION_NONCE]: the launcher's, else a fresh one. *)
Definition resolve_session_nonce (injected : option string) (minted : string) : string :=
  let v := strip (or_empty injected) in if nonempty v then v else minted.

(** [_PRINCIPAL_CACHE], [_PRINCIPAL_FETCHED], [_PRINCIPAL_RETRY_AT]. *)
Record principal_cache := PrincipalCache {
  pc_name : option string;
  pc_fetched : bool;
  pc_retry_at : Z
}.

(** What ails the claims: there is no session key, the request failed, or the
    granted name is no seat. *)
Inductive claim_error := NoSessionKey | ClaimFailed (e : fault) | BadGrant (e : take_error).

(** A runtime seat refused: the server's words, else the seat reverted to. *)
Inductive revert_notice := ServerSays (l : list notice) | RevertedTo (granted : string).

Record seat_health := SeatHealth {
  sh_claimed : bool;
  sh_failures : Z;
  sh_last_error : option claim_error;
  sh_revert : option revert_notice;
  sh_rename : option (string * string)     (* the launch name, the granted one *)
}.

Record exit_note := ExitNote {
  ex_session_key : string;
  ex_seat : string;
  ex_lane : string;
  ex_project : string;
  ex_provider : string;
  ex_host : string;
  ex_pid : Z
}.

Record watch_view := WatchView {
  wv_state : option watch_state;
  wv_checked : Z;
  wv_seat : option string
}.

Record bridge := Bridge {
  br_env : environ;
  br_disk : disk;
  br_session : session;
  br_principal : principal_cache;
  br_seat : seat_health;
  br_last_heartbeat : Z;
  br_last_activity : Z;
  br_supervised : bool;                    (* the watcher's supervisor runs *)
  br_collision : option collision;
  br_exit : option exit_note;
  br_watch : watch_view
}.

(** A bridge that has just been started. *)
Definition started (env : environ) (d : disk) : bridge :=
  Bridge env d no_session (PrincipalCache None false 0) (SeatHealth false 0 None None None) 0 0 false None None
    (WatchView None 0 None).

Definition with_session (s : session) (b : bridge) : bridge :=
  Bridge (br_env b) (br_disk b) s (br_principal b) (br_seat b) (br_last_heartbeat b) (br_last_activity b) (br_supervised b)
    (br_collision b) (br_exit b) (br_watch b).
Definition with_disk (d : disk) (b : bridge) : bridge :=
  Bridge (br_env b) d (br_session b) (br_principal b) (br_seat b) (br_last_heartbeat b) (br_last_activity b) (br_supervised b)
    (br_collision b) (br_exit b) (br_watch b).
Definition with_fs (fs : filesystem) (b : bridge) : bridge :=
  let e := br_env b in
  Bridge (Environ fs (ev_host e) (ev_startup e) (ev_identity e) (ev_provider e) (ev_session_key e) (ev_pid e) (ev_ppid e)
            (ev_ps e) (ev_ps_local e)) (br_disk b) (br_session b) (br_principal b) (br_seat b) (br_last_heartbeat b)
    (br_last_activity b) (br_supervised b) (br_collision b) (br_exit b) (br_watch b).
Definition with_principal (c : principal_cache) (b : bridge) : bridge :=
  Bridge (br_env b) (br_disk b) (br_session b) c (br_seat b) (br_last_heartbeat b) (br_last_activity b) (br_supervised b)
    (br_collision b) (br_exit b) (br_watch b).
Definition with_health (h : seat_health) (b : bridge) : bridge :=
  Bridge (br_env b) (br_disk b) (br_session b) (br_principal b) h (br_last_heartbeat b) (br_last_activity b) (br_supervised b)
    (br_collision b) (br_exit b) (br_watch b).
Definition with_beats (last activity : Z) (b : bridge) : bridge :=
  Bridge (br_env b) (br_disk b) (br_session b) (br_principal b) (br_seat b) last activity (br_supervised b)
    (br_collision b) (br_exit b) (br_watch b).
Definition with_supervisor (b : bridge) : bridge :=
  Bridge (br_env b) (br_disk b) (br_session b) (br_principal b) (br_seat b) (br_last_heartbeat b) (br_last_activity b) true
    (br_collision b) (br_exit b) (br_watch b).
Definition with_collision (c : option collision) (b : bridge) : bridge :=
  Bridge (br_env b) (br_disk b) (br_session b) (br_principal b) (br_seat b) (br_last_heartbeat b) (br_last_activity b)
    (br_supervised b) c (br_exit b) (br_watch b).
Definition with_exit (x : exit_note) (b : bridge) : bridge :=
  Bridge (br_env b) (br_disk b) (br_session b) (br_principal b) (br_seat b) (br_last_heartbeat b) (br_last_activity b)
    (br_supervised b) (br_collision b) (Some x) (br_watch b).
Definition with_watch (v : watch_view) (b : bridge) : bridge :=
  Bridge (br_env b) (br_disk b) (br_session b) (br_principal b) (br_seat b) (br_last_heartbeat b) (br_last_activity b)
    (br_supervised b) (br_collision b) (br_exit b) v.

(** ** Steps *)

Section bridge.
Context {Srv : Type} (serve : ∀ A, api A → headers → Srv → outcome refusal A * Srv) (cfg : settings).

Record world := World { w_bridge : bridge; w_wire : wire Srv }.

Definition M (A : Type) : Type := world → A * world.

Definition ret {A} (x : A) : M A := λ w, (x, w).
Definition bind {A B} (m : M A) (k : A → M B) : M B := λ w, let '(x, w') := m w in k x w'.
Notation "'let*' x := m 'in' k" := (bind m (λ x, k)) (at level 10, x pattern, m at level 100, k at level 200).

Definition the {A} (f : bridge → A) : M A := λ w, (f (w_bridge w), w).
Definition set_ (f : bridge → bridge) : M unit := λ w, (tt, World (f (w_bridge w)) (w_wire w)).

(** A request with the provenance of a call; what it raises is a value. *)
Definition calling {A} (project_dir : option string) (x : api A) : M (outcome fault A) := λ w,
  let b := w_bridge w in
  let '(h, s) := _provenance_headers (br_env b) (se_model cfg) project_dir (br_session b) in
  let '(o, wire') := _request serve x h (w_wire w) in
  (o, World (with_session s b) wire').

(** A request without: the headers of the box alone. *)
Definition calling_bare {A} (x : api A) : M (outcome fault A) := λ w,
  let '(o, wire') := _request serve x (header_list [("x-engram-machine", ev_host (br_env (w_bridge w)))]) (w_wire w) in
  (o, World (w_bridge w) wire').

Definition identity_of (project_dir : option string) : M (string * list string) := λ w,
  let b := w_bridge w in
  let '(r, s) := compute_identity (br_env b) (br_disk b) project_dir (br_session b) in
  (r, World (with_session s b) (w_wire w)).

(** [reader_identity.split("@", 1)[0]] *)
Definition seat_name (project_dir : option string) : M string :=
  let* (reader, _) := identity_of project_dir in ret (before "@" reader).

(** ** The login's name *)

Definition PRINCIPAL_RETRY_SECONDS : Z := 300.

(** Only an answer, or a missing token, is kept for good. *)
Definition _get_principal_name (now : Z) : M (option string) :=
  let* c := the br_principal in
  if pc_fetched c then ret (pc_name c)
  else if negb (nonempty (se_api_token cfg)) then
    let* _ := set_ (with_principal (PrincipalCache (pc_name c) true (pc_retry_at c))) in ret None
  else if now <? pc_retry_at c then ret None
  else
    let* o := calling_bare ApiWhoami in
    match o with
    | Raise _ => let* _ := set_ (with_principal (PrincipalCache None false (now + PRINCIPAL_RETRY_SECONDS))) in ret None
    | Done who =>
        let name := Some (pd_name (wa_principal who)) in
        let* _ := set_ (with_principal (PrincipalCache name true (pc_retry_at c))) in ret name
    end.

(** The partition a call means; the gate may write a folder's cfg. *)
Definition resolve_partition_with_identity (now : Z) (scope project_dir user_id_override project_override : option string)
  : M (outcome gate_error (string * string * option string)) :=
  let effective_scope := or_empty (py_or scope (Some (se_default_scope cfg))) in
  let both := truthy user_id_override && truthy project_override in
  let* b := the id in
  let '(effective_dir, s) := remember_project_dir (br_env b) (if truthy project_dir then project_dir else None) (br_session b) in
  let* _ := set_ (with_session s) in
  let '(gate, fs) :=
    if (effective_scope == "project") && negb both && isabs (or_empty effective_dir)
    then ensure_project_identity (ev_fs (br_env b)) effective_dir else (Done "", ev_fs (br_env b)) in
  let* _ := set_ (with_fs fs) in
  match gate with
  | Raise e => ret (Raise e)
  | Done _ =>
      let* principal := (if effective_scope == "project" then _get_principal_name now else ret None) in
      let '(sc, user, project) := resolve_partition fs (ev_host (br_env b)) scope (se_default_scope cfg) effective_dir principal in
      ret (Done (sc, (if truthy user_id_override then or_empty user_id_override else user),
                 (if truthy project_override then project_override else project)))
  end.

(** ** The seat *)

Definition claim_failed (e : claim_error) (h : seat_health) : seat_health :=
  SeatHealth (sh_claimed h) (sh_failures h + 1) (Some e) (sh_revert h) (sh_rename h).

Definition claim_ok (h : seat_health) : seat_health := SeatHealth true 0 None (sh_revert h) (sh_rename h).

Definition set_health (f : seat_health → seat_health) : M unit := set_ (λ b, with_health (f (br_seat b)) b).

(** [take_seat]: the session's seat and the seat file. *)
Definition take_name (name : string) : M (outcome take_error string) := λ w,
  let b := w_bridge w in
  let '(o, s, d) := take_seat (br_env b) (Some name) (br_session b) (br_disk b) in
  (o, World (with_disk d (with_session s b)) (w_wire w)).

(** After a grant under another name than the one the bridge goes by. *)
Definition settle_grant (runtime : bool) (preferred granted : string) (warning : list notice) : M unit :=
  if nonempty granted && (granted != preferred) then
    let* o := take_name granted in
    match o with
    | Raise e => set_health (claim_failed (BadGrant e))
    | Done _ =>
        set_health (λ h, SeatHealth (sh_claimed h) (sh_failures h) (sh_last_error h)
          (if runtime then Some (match warning with [] => RevertedTo granted | l => ServerSays l end) else sh_revert h)
          (if runtime then sh_rename h else Some (preferred, granted)))
    end
  else if runtime && (granted == preferred) then
    set_health (λ h, SeatHealth (sh_claimed h) (sh_failures h) (sh_last_error h) None (sh_rename h))
  else ret tt.

Definition _claim_seat (project_dir : option string) : M unit :=
  let* env := the br_env in
  match resolve_session_key env with
  | None | Some "" => set_health (claim_failed NoSessionKey)
  | Some session_key =>
      let* project := the (λ b, _own_project env (br_session b)) in
      let* preferred := seat_name project_dir in
      let* runtime := the (λ b, is_some (Session.se_seat (br_session b))) in
      let provider := resolve_provider env in
      let implicit_lane := project +:+ "-" +:+ provider in
      let send_preferred := if (preferred == implicit_lane) && negb runtime then None else Some preferred in
      let* o := calling project_dir
                  (session_claim session_key project provider (Some (se_nonce cfg)) (Some (ev_host env)) send_preferred runtime) in
      match o with
      | Raise e => set_health (claim_failed (ClaimFailed e))
      | Done g =>
          let granted := lower (strip (g_seat g)) in
          let* _ := (if nonempty granted
                     then set_ (with_exit (ExitNote session_key granted implicit_lane project provider (ev_host env) (ev_pid env)))
                     else ret tt) in
          let* _ := set_health claim_ok in
          settle_grant runtime preferred granted (g_warning g)
      end
  end.

(** ** The heartbeat *)

Definition _HEARTBEAT_EVERY : Z := 1200.
Definition _WATCH_CHECK_COVERED_EVERY : Z := 1200.
Definition _WATCH_CHECK_UNCOVERED_EVERY : Z := 100.

Definition beat_due (now : Z) (activity : bool) (last last_activity : Z) : bool :=
  (_HEARTBEAT_EVERY <=? now - last) || (activity && (_HEARTBEAT_EVERY <=? now - last_activity)).

Definition _ensure_watcher_supervisor : M unit :=
  if se_watcher_on cfg then set_ with_supervisor else ret tt.

(** Best effort: what fails keeps the last verdict. *)
Definition _refresh_watch_state (now : Z) (project_dir : option string) : M unit :=
  let* on := the br_supervised in
  let* v := the br_watch in
  let every := match wv_state v with Some Covered => _WATCH_CHECK_COVERED_EVERY | _ => _WATCH_CHECK_UNCOVERED_EVERY end in
  if negb on || (now - wv_checked v <? every) then ret tt
  else
    let* _ := set_ (with_watch (WatchView (wv_state v) now (wv_seat v))) in
    let* seat := seat_name project_dir in
    let* o := calling None (ApiWatchStatus seat) in
    match o with
    | Done r => set_ (with_watch (WatchView (Some (s_state r)) now (Some seat)))
    | Raise _ => ret tt
    end.

(** [later] is the clock when the beat has been sent. *)
Definition _heartbeat (now later : Z) (project_dir : option string) (activity : bool) : M unit :=
  let* last := the br_last_heartbeat in
  let* last_activity := the br_last_activity in
  if negb (beat_due now activity last last_activity) then ret tt
  else
    let* _ := set_ (with_beats now (if activity then now else last_activity)) in
    let* _ := _ensure_watcher_supervisor in
    λ w,
    if auth_is_refused (wi_auth (w_wire w)) then (tt, w)
    else
      (let* _ := _claim_seat project_dir in
       let* identity := seat_name project_dir in
       let* env := the br_env in
       let* project := the (λ b, _own_project env (br_session b)) in
       let* o := calling project_dir
                   (client_presence_update identity project "running" (Some (resolve_provider env)) None None
                      (Some (se_nonce cfg)) false (Some (ev_host env)) activity) in
       let* _ := (match o with Done r => set_ (with_collision (rp_collision r)) | Raise _ => ret tt end) in
       _refresh_watch_state later project_dir) w.

(** ** A runtime seat *)

Inductive take_answer :=
| SeatRefused (e : take_error)
| NotTaken (wanted kept : string) (why : option revert_notice)
| Taken (reader : string) (registered : bool) (listen_set : list string) (project : string) (seat_file : option string)
        (overrode : option string).

Definition memory_take_seat (name : string) (project_dir : option string) : M take_answer :=
  let* env := the br_env in
  let previous_env := norm (ev_identity env) in
  let* o := take_name name in
  match o with
  | Raise e => ret (SeatRefused e)
  | Done seat =>
      let* _ := set_health (λ h, SeatHealth false (sh_failures h) (sh_last_error h) (sh_revert h) (sh_rename h)) in
      let* _ := _claim_seat project_dir in
      let* now_seat := the (λ b, Session.se_seat (br_session b)) in
      let final := or_empty (py_or now_seat (Some seat)) in
      let* h := the br_seat in
      if final != seat then ret (NotTaken seat final (sh_revert h))
      else
        let* (reader, listen_set) := identity_of project_dir in
        let* project := the (λ b, _own_project env (br_session b)) in
        ret (Taken reader (sh_claimed h) listen_set project (seat_file_path env None)
               (if nonempty previous_env && (previous_env != seat) then Some previous_env else None))
  end.
End bridge.

(** ** Leaving *)

(** The certificate posted at exit: only from the process that claimed. *)
Definition _exit_notice (cfg : settings) (pid now : Z) (note : option exit_note) : option certificate :=
  match note with
  | None => None
  | Some x =>
      if negb (nonempty (ex_seat x)) || negb (nonempty (ex_session_key x)) then None
      else if ex_pid x != pid then None
      else if negb (nonempty (se_api_token cfg)) then None
      else Some (Certificate (ex_session_key x) (ex_seat x) (ex_lane x) (ex_project x) (ex_provider x) (ex_host x) now
                   "session-exit" (Some true) None None)
  end.

(** ** The watcher's supervisor *)

(** How a watcher ended: its exit code, or that it could not be started; how
    long it had lived, in seconds. *)
Record watcher_end := WatcherEnd { we_code : option Z; we_lived : Z }.

(** The wait before the next start, and the back-off after it. *)
Definition restart_delay (e : watcher_end) (backoff : Z) : Z * Z :=
  let backoff := if 120 <? we_lived e then 5 else backoff in
  let delay := match we_code e with Some 4 => 150 | Some 5 => 300 | _ => backoff end in
  (delay, Z.min (backoff * 2) 300).

(** The waits of a supervisor over the ends of its watchers. *)
Fixpoint supervise (backoff : Z) (ends : list watcher_end) : list Z :=
  match ends with
  | [] => []
  | e :: rest => let '(delay, backoff) := restart_delay e backoff in delay :: supervise backoff rest
  end.

Definition FIRST_BACKOFF : Z := 5.

(** ** Banners, as facts *)

Record shown := Shown {
  sn_auth : bool;
  sn_claim : bool;
  sn_rename : bool
}.

(** The refused credential: status, count and path, once. *)
Definition _auth_health_banner (a : auth_streak) (sn : shown) : option (option Z * Z * option string) * shown :=
  if sn_auth sn || (as_failures a <? AUTH_REFUSAL_LIMIT) then (None, sn)
  else (Some (as_last_status a, as_failures a, as_last_path a), Shown true (sn_claim sn) (sn_rename sn)).

Definition _SEAT_CLAIM_BANNER_AFTER : Z := 3.

Definition _seat_claim_health_banner (h : seat_health) (sn : shown) : option (Z * option claim_error) * shown :=
  if sn_claim sn || (sh_failures h <? _SEAT_CLAIM_BANNER_AFTER) then (None, sn)
  else (Some (sh_failures h, sh_last_error h), Shown (sn_auth sn) true (sn_rename sn)).

Definition _seat_revert_banner (h : seat_health) : option revert_notice := sh_revert h.

Definition _seat_rename_banner (h : seat_health) (sn : shown) : option (string * string) * shown :=
  match sh_rename h with
  | Some n => if sn_rename sn then (None, sn) else (Some n, Shown (sn_auth sn) (sn_claim sn) true)
  | None => (None, sn)
  end.

(** The stream that nobody reads, for a harness that can attach to it. *)
Definition _wake_stream_banner (env : environ) (supervised : bool) (v : watch_view) : option (watch_state * option string) :=
  match wv_state v with
  | Some Covered | None => None
  | Some st => if (resolve_provider env == "claude") && supervised then Some (st, wv_seat v) else None
  end.
