(* ===== verification/BridgeProps.v ===== *)
(** What the bridge promises about its own session: the name it goes by is the
    one the register granted, its beats come often enough and no oftener, a
    refused credential stops them, its login's name heals, and its note of
    exit is its own. *)

From stdpp Require Import base gmap list strings.
From Stdlib Require Import ZArith Lia Ascii.
From S2P Require Import Prelude PyString Json Principals Auth Scoping ScopingProps Session SessionProps Seats Presence Register.
From S2P Require Import Requests MemoryRoutes InboxRoutes SessionRoutes Client ClientProps Bridge.

Open Scope Z_scope.
Open Scope tiding_scope.

(** ** A name computed twice *)

Lemma resolve_again env d pd s :
  (resolve_session_identity env d pd (resolve_session_identity env d pd s).2).1 = (resolve_session_identity env d pd s).1.
Proof.
  destruct (own_name env d s) as [n|] eqn:En.
  - rewrite (resolve_named env d s pd n En). apply resolve_named. by apply named_again.
  - unfold own_name in En. unfold resolve_session_identity at 2 3.
    pose proof (read_seat_globals env d s) as (_ & _ & Hs & _). pose proof (read_seat_again env d s) as Hagain.
    destruct (read_seat_file env d s) as [o s1]. cbn [fst snd] in *. destruct o as [f|]; [done|].
    destruct (truthy (Session.se_seat s)) eqn:Et.
    { rewrite En in Et. done. }
    cbv zeta in *. destruct (nonempty (norm (ev_identity env))) eqn:Ee; [done|]. cbn [fst snd].
    unfold resolve_session_identity. specialize (Hagain s1 (or_intror eq_refl)).
    destruct (read_seat_file env d s1) as [o2 s2]. cbn [fst] in Hagain. subst o2. rewrite Hs, Et. cbv zeta. by rewrite Ee.
Qed.

Lemma remember_twice env pd s : (remember_project_dir env pd (remember_project_dir env pd s).2).2 = (remember_project_dir env pd s).2.
Proof. unfold remember_project_dir. destruct (isabs (or_empty pd)) eqn:E; cbn [snd]; rewrite ?E; done. Qed.

Lemma resolve_pin env d pd s : se_pin (resolve_session_identity env d pd s).2 = se_pin s.
Proof.
  pose proof (read_seat_globals env d s) as (Hp & _). unfold resolve_session_identity.
  destruct (read_seat_file env d s) as [[f|] s1]; cbn [fst snd] in *; [by destruct (_ && _)|].
  destruct (truthy (Session.se_seat s)); [done|]. cbv zeta. destruct (nonempty _); [|done]. by destruct (_ && _).
Qed.

(** Remembering the same directory again changes nothing. *)
Lemma remember_after env d pd s :
  (remember_project_dir env pd (compute_identity env d pd s).2).2 = (compute_identity env d pd s).2.
Proof.
  unfold compute_identity. destruct (remember_project_dir env pd s) as [eff s0] eqn:E0.
  pose proof (resolve_pin env d pd s0) as Hp. destruct (resolve_session_identity env d pd s0) as [o s1]. cbn [snd] in *.
  unfold remember_project_dir in *. destruct (isabs (or_empty pd)); [|done]. injection E0 as _ <-. cbn in Hp |- *.
  destruct s1; cbn in *. by subst.
Qed.

Lemma compute_again env d pd s :
  (compute_identity env d pd (compute_identity env d pd s).2).1 = (compute_identity env d pd s).1.
Proof.
  unfold compute_identity at 1. pose proof (remember_after env d pd s) as Hr.
  destruct (remember_project_dir env pd (compute_identity env d pd s).2) as [eff s']. cbn [snd] in Hr. subst s'.
  unfold compute_identity. destruct (remember_project_dir env pd s) as [eff0 s0].
  pose proof (resolve_again env d pd s0) as Ha. pose proof (resolve_globals env d pd s0) as Hg. pose proof (resolve_pin env d pd s0) as Hp.
  destruct (resolve_session_identity env d pd s0) as [o s1]. cbn [fst snd] in *.
  destruct (resolve_session_identity env d pd s1) as [o' s2]. cbn [fst] in Ha. subst o'. cbn [fst].
  unfold identity_anchor_dir. by rewrite Hg, Hp.
Qed.

Lemma before_at v host : has_char "@" v = false → before "@" (v +:+ "@" +:+ host) = v.
Proof. exact (before_app "@" v host). Qed.

(** Who the session is and what it listens on. *)
Definition goes_by (name : string) (env : environ) (d : disk) (pd : option string) (s : session) : Prop :=
  let '(reader, listen) := (compute_identity env d pd s).1 in
  reader = name +:+ "@" +:+ ev_host env ∧ reader ∈ listen ∧ name ∈ listen.

(** A session with a valid name of its own goes by that name. *)
Lemma named_goes_by env d pd s name :
  _is_valid_seat name = true →
  (resolve_session_identity env d pd (remember_project_dir env pd s).2).1 = Some name → goes_by name env d pd s.
Proof.
  intros Hv Hr. destruct (valid_seat_chars name Hv) as [Hne _]. unfold goes_by, compute_identity.
  destruct (remember_project_dir env pd s) as [eff s0]. cbn [snd] in Hr.
  destruct (resolve_session_identity env d pd s0) as [o s1]. cbn [fst] in *. subst o. change (or_empty (Some name)) with name.
  pose proof (listen_members env (identity_anchor_dir env s0) name) as Hm.
  destruct (addresses env (identity_anchor_dir env s0) name) as [reader listen]. cbn [fst snd] in Hm.
  destruct Hm as (Hin & _ & _ & y & Hy & Hyl & Hn). rewrite Hne in Hn. cbn [andb] in Hn.
  assert (y = name) as ->; [|by split_and!].
  destruct (name != derive_project_name env (identity_anchor_dir env s0)) eqn:E; [done|].
  apply negb_false_iff, bool_decide_eq_true in E. congruence.
Qed.

(** A session goes by what stands before the host in its identity, when that is
    plain. *)
Lemma plain_goes_by env d pd s y :
  (compute_identity env d pd s).1.1 = y +:+ "@" +:+ ev_host env → goes_by y env d pd s.
Proof.
  unfold goes_by, compute_identity. destruct (remember_project_dir env pd s) as [eff s0].
  destruct (resolve_session_identity env d pd s0) as [o s1]. cbn [fst].
  pose proof (listen_members env (identity_anchor_dir env s0) (or_empty o)) as Hm.
  destruct (addresses env (identity_anchor_dir env s0) (or_empty o)) as [reader listen]. cbn [fst snd] in *.
  destruct Hm as (Hin & _ & _ & x & Hx & Hxl & _). intros Hr. assert (x = y) as -> by (rewrite Hr in Hx; symmetry; by eapply string_app_inj_r).
  by split_and!.
Qed.

Section bridge.
Context {Srv : Type} (serve : ∀ A, api A → headers → Srv → outcome refusal A * Srv) (cfg : settings).


(** ** The seat *)

(** What a request with provenance leaves of the bridge: the directory it was
    for is remembered. *)
Lemma calling_bridge {A} pd (x : api A) (w : world (Srv := Srv)) :
  w_bridge (calling serve cfg pd x w).2 =
  with_session (remember_project_dir (br_env (w_bridge w)) pd (br_session (w_bridge w))).2 (w_bridge w).
Proof.
  unfold calling, _provenance_headers. destruct (remember_project_dir _ _ _) as [eff s]. cbn [snd].
  by destruct (_request serve x _ (w_wire w)).
Qed.

Lemma calling_answer {A} pd (x : api A) (w : world (Srv := Srv)) o w' :
  calling serve cfg pd x w = (o, w') → ∃ h, _request serve x h (w_wire w) = (o, w_wire w').
Proof.
  unfold calling. destruct (_provenance_headers _ _ _ _) as [h s]. destruct (_request serve x h (w_wire w)) as [o' wi] eqn:E.
  intros [= <- <-]. exists h. exact E.
Qed.

(** The register answers a claim with a name. *)
Definition grants_named : Prop :=
  ∀ b h s g s', serve grant (ApiClaim b) h s = (Done g, s') → nonempty (strip (g_seat g)) = true.

Lemma nonempty_lower s : nonempty (lower s) = nonempty s.
Proof. by destruct s. Qed.

(** What a grant settles: the same name leaves the session as it was; another
    one is the session's from now on, for every process that has its key. *)
Lemma settle_spec runtime preferred granted warning b wi w' :
  settle_grant runtime preferred granted warning (World (Srv := Srv) b wi) = (tt, w') →
  nonempty granted = true → norm (Some granted) = granted →
  sh_failures (br_seat b) = 0 → sh_failures (br_seat (w_bridge w')) = 0 →
  w_wire w' = wi ∧ br_exit (w_bridge w') = br_exit b ∧ br_env (w_bridge w') = br_env b ∧
  (granted = preferred ∧ br_disk (w_bridge w') = br_disk b ∧ br_session (w_bridge w') = br_session b ∨
   granted ≠ preferred ∧ _is_valid_seat granted = true ∧
   ∀ key, resolve_session_key (br_env b) = Some key → key ≠ "" → dk_writable (br_disk b) = true →
     ∀ env' s0 pd', resolve_session_key env' = Some key →
       (resolve_session_identity env' (br_disk (w_bridge w')) pd' s0).1 = Some granted).
Proof.
  unfold settle_grant. intros H Hgr Hnorm Hf0 Hf'. rewrite Hgr in H. cbn [andb] in H. destruct (granted != preferred) eqn:Egp.
  - unfold bind at 1, take_name at 1 in H. cbn [w_bridge w_wire] in H.
    pose proof (seat_shared (br_env b) (Some granted) (br_session b) (br_disk b)) as Hsh.
    destruct (take_seat (br_env b) (Some granted) (br_session b) (br_disk b)) as [[[n|e] s2] d2].
    2: { unfold set_health, set_ in H. injection H as <-. cbn in Hf'. lia. }
    cbn beta iota zeta in Hsh. rewrite Hnorm in Hsh. destruct Hsh as (_ & Hv & _ & Hall).
    apply negb_true_iff, bool_decide_eq_false in Egp.
    unfold set_health, set_ in H. injection H as <-. cbn. split_and!; [done..|]. right. split; [done|]. by split.
  - apply negb_false_iff, bool_decide_eq_true in Egp.
    destruct (runtime && (granted == preferred)); unfold set_health, set_, ret in H; injection H as <-; cbn; split_and!; auto.
Qed.

(** C24. The bridge goes by the name it was granted. A claim that went through,
    in a session with a key whose seats directory can be written, made one
    request, for that key, and the server answered it with a seat: that seat's
    name, in small letters and stripped, is the name the session signs under
    from then on, listens on, and bears in its note of exit; when it is another
    than the one the bridge went by before, it is in the session's seat file,
    so every other process of the session, its watcher above all, goes by it
    too. *)
Theorem grant_followed pd (w w' : world) key y :
  let env := br_env (w_bridge w) in
  grants_named → resolve_session_key env = Some key → key ≠ "" → dk_writable (br_disk (w_bridge w)) = true →
  (compute_identity env (br_disk (w_bridge w)) pd (br_session (w_bridge w))).1.1 = y +:+ "@" +:+ ev_host env →
  has_char "@" y = false →
  _claim_seat serve cfg pd w = (tt, w') → 0 ≤ sh_failures (br_seat (w_bridge w)) → sh_failures (br_seat (w_bridge w')) = 0 →
  ∃ preferred runtime h g x,
    _request serve (session_claim key (_own_project env (br_session (w_bridge w))) (resolve_provider env) (Some (se_nonce cfg))
      (Some (ev_host env)) preferred runtime) h (w_wire w) = (Done g, w_wire w') ∧
    let name := lower (strip (g_seat g)) in
    br_exit (w_bridge w') = Some x ∧ ex_session_key x = key ∧ ex_seat x = name ∧ br_env (w_bridge w') = env ∧
    goes_by name env (br_disk (w_bridge w')) pd (br_session (w_bridge w')) ∧
    (name ≠ y → ∀ env' s0 pd', resolve_session_key env' = Some key →
       (resolve_session_identity env' (br_disk (w_bridge w')) pd' s0).1 = Some name).
Proof.
  cbv zeta. intros Hgn Hk Hkne Hw Hy Hyat H Hf Hf'.
  unfold _claim_seat in H. unfold bind at 1, the at 1 in H. rewrite Hk in H.
  destruct key as [|c0 key]; [done|]. set (K := String c0 key) in *.
  unfold bind at 1, the at 1 in H. unfold bind at 1, seat_name at 1, bind at 1, identity_of at 1 in H.
  destruct w as [b wi]. cbn [w_bridge w_wire] in *. set (env := br_env b) in *. set (d := br_disk b) in *.
  destruct (compute_identity env d pd (br_session b)) as [[reader listen] s1] eqn:E1. unfold ret at 1 in H.
  unfold bind at 1, the at 1 in H. cbn [w_bridge] in H. cbn [fst] in Hy. subst reader. rewrite before_at in H by done.
  set (runtime := is_some (Session.se_seat _)) in *.
  match type of H with context [bind (calling serve cfg pd ?x) _] => set (req := x) in * end.
  unfold bind at 1 in H.
  destruct (calling serve cfg pd req _) as [o [b2 wi2]] eqn:Ec.
  pose proof (calling_bridge pd req (World (with_session s1 b) wi)) as Hb. rewrite Ec in Hb. cbn [snd w_bridge] in Hb.
  assert ((remember_project_dir env pd s1).2 = s1) as Hrem.
  { pose proof (remember_after env d pd (br_session b)) as Hr. rewrite E1 in Hr. exact Hr. }
  change (br_env (with_session s1 b)) with env in Hb. change (br_session (with_session s1 b)) with s1 in Hb. rewrite Hrem in Hb.
  destruct o as [g|e].
  2: { unfold set_health, set_ in H. injection H as <-. subst b2. cbn in Hf'. lia. }
  apply calling_answer in Ec as [h Er]. cbn [w_wire] in Er.
  destruct (request_last serve req h wi g wi2 Er) as (k & _ & Esv).
  pose proof (Hgn _ _ _ _ _ Esv) as Hne. set (granted := lower (strip (g_seat g))) in *.
  assert (nonempty granted = true) as Hgr by by (unfold granted; rewrite nonempty_lower). rewrite Hgr in H.
  unfold bind at 1, set_ at 1 in H. unfold bind at 1, set_health at 1, set_ at 1 in H. cbn [w_bridge w_wire] in H.
  set (x := ExitNote _ _ _ _ _ _ _) in H. subst b2. fold d in Hw.
  destruct (settle_spec _ _ _ _ _ _ _ H Hgr (norm_idem (Some (g_seat g))) eq_refl Hf') as (Hwi & Hx & He & Hcase).
  cbn in He. eexists _, runtime, h, g, x. rewrite Hwi. split; [exact Er|]. rewrite Hx. fold granted. split_and!; [done..|exact He| |].
  - destruct Hcase as [(Heq & Hd' & Hs')|(Hneq & Hv & Hall)].
    + rewrite Hd', Hs', Heq. cbn. fold d. apply plain_goes_by.
      pose proof (compute_again env d pd (br_session b)) as Hc. rewrite E1 in Hc. cbn [fst snd] in Hc. by rewrite Hc.
    + apply named_goes_by; [done|]. by apply (Hall K).
  - intros Hneq env' s0 pd' Hk'. destruct Hcase as [(Heq & _)|(_ & _ & Hall)]; [done|]. by apply (Hall K).
Qed.

(** ** Requests *)

(** A step touches the server by requests only. *)
Definition asks {A} (m : M (Srv := Srv) A) : Prop := ∀ w, used serve (w_wire w) (w_wire (m w).2).

Lemma ret_asks {A} (x : A) : asks (ret x).
Proof. intros w. apply used_refl. Qed.

Lemma the_asks {A} (f : bridge → A) : asks (the f).
Proof. intros w. apply used_refl. Qed.

Lemma set_asks f : asks (set_ f).
Proof. intros w. apply used_refl. Qed.

Lemma bind_asks {A B} (m : M A) (k : A → M B) : asks m → (∀ x, asks (k x)) → asks (bind m k).
Proof. intros Hm Hk w. unfold bind. specialize (Hm w). destruct (m w) as [x w1]. etransitivity; [exact Hm|apply Hk]. Qed.

Lemma calling_asks {A} pd (x : api A) : asks (calling serve cfg pd x).
Proof.
  intros w. unfold calling. destruct (_provenance_headers _ _ _ _) as [h s].
  pose proof (used_request serve x h (w_wire w) (w_wire w) (used_refl _ _)) as H. by destruct (_request serve x h (w_wire w)).
Qed.

Lemma bare_asks {A} (x : api A) : asks (calling_bare serve x).
Proof.
  intros w. unfold calling_bare. set (h := header_list _).
  pose proof (used_request serve x h (w_wire w) (w_wire w) (used_refl _ _)) as H. by destruct (_request serve x h (w_wire w)).
Qed.

Lemma identity_asks pd : asks (identity_of pd).
Proof. intros w. unfold identity_of. destruct (compute_identity _ _ _ _). apply used_refl. Qed.

Lemma take_asks name : asks (take_name name).
Proof. intros w. unfold take_name. destruct (take_seat _ _ _ _) as [[o s] d]. apply used_refl. Qed.

Create HintDb asks.
#[local] Hint Resolve ret_asks the_asks set_asks calling_asks bare_asks identity_asks take_asks : asks.

Ltac asking := repeat first
  [ solve [auto with asks] | progress cbv zeta | apply bind_asks; [solve [auto with asks]|intros] | apply bind_asks; [|intros]
  | case_match ].

Lemma seat_name_asks pd : asks (seat_name pd).
Proof. unfold seat_name. asking. Qed.

Lemma principal_asks now : asks (_get_principal_name serve cfg now).
Proof. unfold _get_principal_name. asking. Qed.

#[local] Hint Resolve seat_name_asks principal_asks : asks.

Lemma partition_asks now scope pd user project : asks (resolve_partition_with_identity serve cfg now scope pd user project).
Proof. unfold resolve_partition_with_identity. asking. Qed.

Lemma settle_asks runtime preferred granted warning : asks (settle_grant (Srv := Srv) runtime preferred granted warning).
Proof. unfold settle_grant, set_health. asking. Qed.

#[local] Hint Resolve settle_asks : asks.

Lemma claim_asks pd : asks (_claim_seat serve cfg pd).
Proof. unfold _claim_seat, set_health. asking. Qed.

Lemma refresh_asks now pd : asks (_refresh_watch_state serve cfg now pd).
Proof. unfold _refresh_watch_state. asking. Qed.

#[local] Hint Resolve claim_asks refresh_asks : asks.

Lemma heartbeat_asks now later pd activity : asks (_heartbeat serve cfg now later pd activity).
Proof.
  unfold _heartbeat, _ensure_watcher_supervisor. asking. intros w. destruct (auth_is_refused _); [apply used_refl|]. revert w.
  match goal with |- ∀ w, used serve (w_wire w) (w_wire (?m w).2) => change (asks m) end. asking.
Qed.

(** ** Beats *)

(** The time between beats, over the moments at which one is thought of: by a
    tool call, or by the timer. *)
Fixpoint gaps (last last_activity : Z) (events : list (Z * bool)) : list Z :=
  match events with
  | [] => []
  | (t, a) :: rest =>
      if beat_due t a last last_activity then (t - last) :: gaps t (if a then t else last_activity) rest
      else gaps last last_activity rest
  end.

(** The timer sleeps two minutes, and wakes at most [late] after that. *)
Fixpoint ticking (late prev : Z) (events : list (Z * bool)) : Prop :=
  match events with
  | [] => True
  | (t, a) :: rest => prev ≤ t ≤ prev + _HEARTBEAT_EVERY + late ∧ ticking late (if a then prev else t) rest
  end.

(** Beats keep coming: whatever tool calls come between, less than four minutes
    and the timer's lateness pass from one beat to the next; so with a timer
    less than six minutes late no reader takes the session for stale. *)
Lemma beats_regular late prev last last_activity events :
  prev - _HEARTBEAT_EVERY < last → ticking late prev events →
  Forall (λ g, g < 2 * _HEARTBEAT_EVERY + late) (gaps last last_activity events) ∧
  (late < 3600 → Forall (λ g, g / 10 < PRESENCE_STALE_AFTER_SECONDS) (gaps last last_activity events)).
Proof.
  intros Hl Ht. assert (Forall (λ g, g < 2 * _HEARTBEAT_EVERY + late) (gaps last last_activity events)) as H.
  { unfold _HEARTBEAT_EVERY in *. revert prev last last_activity Hl Ht.
    induction events as [|[t a] events IH]; intros prev last act Hl Ht; [constructor|]. cbn [gaps ticking] in *. destruct Ht as [Ht Hrest].
    unfold beat_due, _HEARTBEAT_EVERY in *. destruct (_ <=? t - last) eqn:E; cbn [orb].
    - constructor; [lia|]. destruct a; (eapply IH; [|exact Hrest]); lia.
    - apply Z.leb_gt in E. destruct a; cbn [andb].
      + destruct (_ <=? t - act); [|eapply IH; [|exact Hrest]; lia].
        constructor; [lia|]. eapply (IH prev t t); [|exact Hrest]. lia.
      + eapply IH; [|exact Hrest]. lia. }
  split; [exact H|]. intros Hlate. eapply Forall_impl; [exact H|]. unfold _HEARTBEAT_EVERY, PRESENCE_STALE_AFTER_SECONDS. intros g Hg.
  cbv beta in *. apply Z.div_lt_upper_bound; lia.
Qed.

(** A refused credential stops the beats: nothing is sent. *)
Lemma refused_stops now later pd activity (w : world (Srv := Srv)) :
  auth_is_refused (wi_auth (w_wire w)) = true → w_wire (_heartbeat serve cfg now later pd activity w).2 = w_wire w.
Proof.
  intros H. unfold _heartbeat. unfold bind at 1, the at 1. unfold bind at 1, the at 1.
  destruct (negb _); [done|]. unfold bind at 1, set_ at 1. unfold bind at 1, _ensure_watcher_supervisor at 1.
  destruct (se_watcher_on cfg); cbn; by rewrite H.
Qed.

(** ** The login's name *)

(** The name is asked for until it is known: after any number of calls up to
    some moment, half a minute later the server's answer, if it gives one, is
    the name, and is kept. *)
Lemma name_heals times now last (w : world (Srv := Srv)) :
  nonempty (se_api_token cfg) = true → Forall (λ t, t ≤ last) times → last + PRINCIPAL_RETRY_SECONDS ≤ now →
  pc_fetched (br_principal (w_bridge w)) = false → pc_retry_at (br_principal (w_bridge w)) ≤ last + PRINCIPAL_RETRY_SECONDS →
  let w' := foldl (λ w t, (_get_principal_name serve cfg t w).2) w times in
  let '(name, w'') := _get_principal_name serve cfg now w' in
  (name = pc_name (br_principal (w_bridge w'')) ∧ pc_fetched (br_principal (w_bridge w'')) = true) ∨
  (name = None ∧ pc_fetched (br_principal (w_bridge w'')) = false ∧ ∃ e w3, calling_bare serve ApiWhoami w' = (Raise e, w3)).
Proof.
  intros Htok Ht Hnow Hf Hr. cbv zeta.
  set (ok (w : world (Srv := Srv)) := pc_fetched (br_principal (w_bridge w)) = true ∨ pc_retry_at (br_principal (w_bridge w)) ≤ last + PRINCIPAL_RETRY_SECONDS).
  assert (∀ t (w : world (Srv := Srv)), (t ≤ last ∨ pc_fetched (br_principal (w_bridge w)) = true) → ok w → ok (_get_principal_name serve cfg t w).2) as Hstep.
  { clear -Htok. intros t w Hle Hok. unfold _get_principal_name. unfold bind at 1, the at 1.
    destruct (pc_fetched (br_principal (w_bridge w))) eqn:Ef; [exact Hok|]. rewrite Htok. cbn [negb].
    destruct (t <? pc_retry_at _); [exact Hok|]. unfold bind at 1, calling_bare. destruct (_request serve ApiWhoami _ _) as [[who|e] wi].
    - by left.
    - right. destruct Hle as [Hle|]; [|done]. cbn. lia. }
  assert (ok (foldl (λ w t, (_get_principal_name serve cfg t w).2) w times)) as Hok.
  { assert (ok w) as H0 by (by right). clear Hf Hr. revert w H0. induction Ht as [|t times Hle _ IH]; intros w H0; [done|]. cbn. apply IH.
    apply Hstep; [by left|done]. }
  set (w' := foldl _ w times) in *. clearbody w'. unfold _get_principal_name. unfold bind at 1, the at 1.
  destruct (pc_fetched (br_principal (w_bridge w'))) eqn:Ef; [left; cbn; by rewrite Ef|]. rewrite Htok. cbn [negb].
  destruct Hok as [Hok|Hok]; [congruence|]. replace (now <? _) with false by (symmetry; apply Z.ltb_ge; lia).
  unfold bind at 1. destruct (calling_bare serve ApiWhoami w') as [[who|e] w3] eqn:E; cbn; [left|right]; split_and!; eauto.
Qed.

(** ** The note of exit *)

(** A death is certified only by the process that made the note, for the seat
    and the key that its last granted claim gave it. *)
Lemma exit_own pid now note c :
  _exit_notice cfg pid now note = Some c → ∃ x, note = Some x ∧ ex_pid x = pid ∧ ce_seat c = ex_seat x ∧
    ce_session_key c = ex_session_key x ∧ ex_seat x ≠ "" ∧ ex_session_key x ≠ "" ∧ ce_died_at c = now.
Proof.
  unfold _exit_notice. destruct note as [x|]; [|done]. destruct (nonempty (ex_seat x)) eqn:E1; [|done].
  destruct (nonempty (ex_session_key x)) eqn:E2; [|done]. cbn [negb orb]. destruct (ex_pid x != pid) eqn:E3; [done|].
  destruct (nonempty (se_api_token cfg)); cbn [negb]; [|done]. 
  intros H. injection H as <-. exists x. apply negb_false_iff, bool_decide_eq_true in E3.
  apply nonempty_true in E1, E2. done.
Qed.
End bridge.

(** ** The supervisor *)

(** Whatever its watchers do, the supervisor waits between five seconds and
    five minutes before it starts the next. *)
Lemma supervise_bounded backoff ends : 5 ≤ backoff ≤ 300 → Forall (λ d, 5 ≤ d ≤ 300) (supervise backoff ends).
Proof.
  revert backoff. induction ends as [|e ends IH]; intros b Hb; [constructor|]. cbn [supervise]. unfold restart_delay.
  set (b' := if 120 <? we_lived e then 5 else b). assert (5 ≤ b' ≤ 300) by (unfold b'; case_match; lia).
  constructor; [|apply IH; lia]. destruct (we_code e) as [z|]; [|lia]. repeat (case_match; try lia).
Qed.

(** ** At work *)

(** A register that grants one name whatever is asked. *)
Definition granting (name : string) (A : Type) (x : api A) (h : headers) (n : nat) : outcome refusal A * nat :=
  match x in api B return outcome refusal B * nat with
  | ApiClaim _ => (Done (Grant name false None [] None), S n)
  | _ => (Raise (Refusal 503 Internal), S n)
  end.

Definition ex_settings : settings := Settings "tok" "default" "" "project" "nonce-1" (None, "") true.

Definition ex_world : world := World (Srv := nat) (started (ex_bridge None) ex_disk) (Wire no_failures None [] 0%nat []).

Definition ex_claimed : world := (_claim_seat (granting "App-Claude-3") ex_settings None ex_world).2.

Lemma grant_followed_witness :
  goes_by "app-claude-3" (ex_bridge None) (br_disk (w_bridge ex_claimed)) None (br_session (w_bridge ex_claimed)) ∧
  option_map ex_seat (br_exit (w_bridge ex_claimed)) = Some "app-claude-3".
Proof.
  destruct (grant_followed (granting "App-Claude-3") ex_settings None ex_world ex_claimed (or_empty (resolve_session_key (ex_bridge None))) "app")
    as (preferred & runtime & h & g & x & Hr & Hx & _ & Hs & _ & Hn & _).
  - intros b h s g s' [= <- <-]. reflexivity.
  - vm_compute. reflexivity.
  - vm_compute. discriminate.
  - reflexivity.
  - vm_compute. reflexivity.
  - reflexivity.
  - reflexivity.
  - vm_compute. discriminate.
  - vm_compute. reflexivity.
  - assert (option_map ex_seat (br_exit (w_bridge ex_claimed)) = Some "app-claude-3") as H by (vm_compute; reflexivity).
    rewrite Hx in H. injection H as H. rewrite <- Hs, H in Hn. split; [exact Hn|]. rewrite Hx. cbn. by f_equal.
Defined.

(** The session declared no name, and is told that the one it declared was
    held. *)
Lemma rename_told_undeclared :
  norm (ev_identity (ex_bridge None)) = "" ∧ sh_rename (br_seat (w_bridge ex_claimed)) = Some ("app", "app-claude-3").
Proof. by split; vm_compute. Qed.

(** The first beat, meant to be sent at once, is not on a machine that was
    started less than two minutes before. *)
Lemma first_beat_waits {Srv} (serve : ∀ A, api A → headers → Srv → outcome refusal A * Srv) cfg now later pd env d (wi : wire Srv) :
  0 ≤ now < _HEARTBEAT_EVERY → _heartbeat serve cfg now later pd false (World (started env d) wi) = (tt, World (started env d) wi).
Proof.
  unfold _HEARTBEAT_EVERY. intros H. unfold _heartbeat, bind at 1, the at 1. cbn [w_bridge br_last_heartbeat started fst snd].
  unfold bind at 1, the at 1. cbn [w_bridge br_last_activity started]. unfold beat_due, _HEARTBEAT_EVERY. cbn [andb].
  rewrite orb_false_r. replace (1200 <=? now - 0) with false by (symmetry; apply Z.leb_gt; lia). done.
Qed.
