(* ===== verification/Edits.v ===== *)
(** What the services may do to the memories table, whatever they are asked:
    each is a sequence of statements that keep the table's keys. The unique
    index and the primary key stay what they are, no id is drawn twice, and an
    id, once drawn, stays with its key. *)

From stdpp Require Import base gmap list strings.
From Stdlib Require Import ZArith QArith Lia Ascii.
From S2P Require Import Prelude PyString Json Store Identity ProjectAlias AddressRoles Principals Auth Memory Search SearchProps Inbox.
From S2P Require Import WatchClaim Seats Presence Register Delivery Send.

Open Scope Z_scope.
Open Scope tiding_scope.

(** ** Edits *)

(** The keys the ids drawn so far stand for only ever get fewer. *)
Definition ids_stay (t t' : table) : Prop :=
  ∀ r', r' ∈ t_rows t' → r_id r' < t_seq t → ∃ r, r ∈ t_rows t ∧ r_id r = r_id r' ∧ r_pk r = r_pk r'.

Definition edited (t t' : table) : Prop := wf t → wf t' ∧ t_seq t ≤ t_seq t' ∧ ids_stay t t'.

#[global] Instance edited_preorder : PreOrder edited.
Proof.
  split.
  - intros t Ht. split; [done|]. split; [lia|]. intros r Hr _. by exists r.
  - intros t1 t2 t3 H12 H23 H1. destruct (H12 H1) as (H2 & Hs2 & Hi2). destruct (H23 H2) as (H3 & Hs3 & Hi3).
    split; [done|]. split; [lia|]. intros r Hr Hlt. destruct (Hi3 r Hr ltac:(lia)) as (r2 & Hr2 & Hid & Hpk).
    rewrite <- Hid, <- Hpk. apply Hi2; [done|lia].
Qed.

Lemma edited_update p f t `{!KeepsKeys f} : edited t (sql_update p f t).
Proof.
  intros Ht. split; [by apply wf_update|]. split; [cbn; lia|]. intros r' (r & Hr & ->)%elem_of_update_where _. exists r.
  split; [done|]. destruct (p r); [by rewrite keeps_id, keeps_pk|by split].
Qed.

Lemma edited_delete p t : edited t (sql_delete p t).
Proof. intros Ht. split; [by apply wf_delete|]. split; [cbn; lia|]. intros r [_ Hr]%elem_of_select _. by exists r. Qed.

Lemma edited_append now n t : sql_find (n_pk n) t = None → edited t (sql_append now n t).
Proof.
  intros Hn Ht. split; [by apply wf_append|]. split; [cbn; lia|]. intros r [Hr| ->]%elem_of_append Hlt; [by exists r|]. cbn in Hlt. lia.
Qed.

Lemma edited_insert now n t : edited t (sql_insert_nothing now n t).2.
Proof. unfold sql_insert_nothing. destruct (sql_find (n_pk n) t) eqn:E; [done|]. by apply edited_append. Qed.

Lemma edited_upsert now n f t `{!KeepsKeys f} : edited t (sql_upsert now n f t).2.
Proof. unfold sql_upsert. destruct (sql_find (n_pk n) t) eqn:E; [by apply edited_update|by apply edited_append]. Qed.

Lemma edited_foldl {A} (f : table → A → table) l t : (∀ x t, edited t (f t x)) → edited t (foldl f t l).
Proof. intros Hf. revert t. induction l as [|x l IH]; intros t; [done|]. cbn. etransitivity; [apply Hf|apply IH]. Qed.

Create HintDb edited.
#[export] Hint Resolve edited_update edited_delete edited_insert edited_upsert : edited.

(** Statements in a row. *)
Ltac edits := repeat first [reflexivity | solve [apply edited_update; apply _] | apply edited_delete | apply edited_insert
  | solve [apply edited_upsert; apply _] | solve [auto with edited] | etransitivity; [|solve [apply edited_update; apply _]]
  | etransitivity; [|solve [apply edited_upsert; apply _]] | etransitivity; [|apply edited_delete] | etransitivity; [|solve [auto with edited]]].

(** ** Memories *)

Lemma set_edited sha256 now a t key created version t' :
  memory_set sha256 now a t = Done (key, created, version, t') → edited t t'.
Proof.
  unfold memory_set. set (k := _normalize_key_fields _ _ _ _ _). set (n := new_of now a k).
  assert (edited t (_upsert_memory now n t).2) as Hu by (unfold _upsert_memory; edits).
  assert (edited t (_insert_if_absent now n t).2) as Hi by (unfold _insert_if_absent; edits).
  assert (∀ t1, edited t1 (collapse_twins now (a_owner a) k t1)) as Hc by (intros; unfold collapse_twins; edits).
  cbv zeta. destruct (_upsert_memory now n t) as [c t1], (_insert_if_absent now n t) as [i t2]. cbn [snd] in *.
  repeat case_match; try done; intros [= <- <- <- <-]; try done; (etransitivity; [exact Hu|apply Hc]).
Qed.

Lemma get_edited sha256 now ns key scope user project t : edited t (memory_get sha256 now ns key scope user project t).2.
Proof. unfold memory_get. case_match; cbn; edits. Qed.

Lemma forget_edited ns key scope user project actor adm t deleted t' :
  memory_forget ns key scope user project actor adm t = Done (deleted, t') → edited t t'.
Proof. unfold memory_forget. case_match; [done|]. intros [= _ <-]. edits. Qed.

Lemma flag_edited now ns key scope user project actor reason t found t' :
  memory_flag_deletion now ns key scope user project actor reason t = Done (found, t') → edited t t'.
Proof. unfold memory_flag_deletion. case_match; [done|]. case_match; [done|]. intros [= _ <-]. edits. Qed.

Lemma supersede_edited now nss key project target actor reason rk scope t found t' :
  memory_supersede now nss key project target actor reason rk scope t = Done (found, t') → edited t t'.
Proof. unfold memory_supersede. case_match; [done|]. case_match; [done|]. intros [= _ <-]. edits. Qed.

Lemma search_edited distance similarity cfg now a t hits t' :
  memory_search distance similarity cfg now a t = Some (hits, t') → edited t t'.
Proof.
  unfold memory_search. cbv zeta. intros (hs & _ & [= _ <-])%bind_Some. apply edited_foldl. intros. edits.
Qed.

(** ** Mail *)

Lemma send_edited now uid a t id t' : inbox_send now uid a t = Done (id, t') → edited t t'.
Proof.
  unfold inbox_send. cbv zeta. match goal with |- context [sql_insert_nothing ?n ?w ?t] => pose proof (edited_insert n w t) as H end.
  destruct (sql_insert_nothing _ _ _) as [[i|] t1]; [|done]. cbn [snd] in H. intros [= _ <-]. case_match; [|done].
  etransitivity; [exact H|]. edits.
Qed.

Lemma letters_edited now args targets uids i t :
  match send_letters now args targets uids i t with Done (_, t') => edited t t' | Raise t' => edited t t' end.
Proof.
  revert i t. induction targets as [|x targets IH]; intros i t; [cbn; reflexivity|]. cbn [send_letters].
  destruct (inbox_send now (uids i) _ t) as [[id t1]|e] eqn:E; [|reflexivity]. specialize (IH (S i) t1). apply send_edited in E.
  destruct (send_letters now args targets uids (S i) t1) as [[ids t2]|t2]; cbn; (etransitivity; [exact E|exact IH]).
Qed.

Lemma deliver_edited iso cfg aliases roles people now p pv rq corrected notes retarget uids tuid t :
  edited t (deliver iso cfg aliases roles people now p pv rq corrected notes retarget uids tuid t).2.
Proof.
  unfold deliver. cbv zeta. match goal with |- context [send_letters ?n ?a ?ts ?u ?i ?t] => pose proof (letters_edited n a ts u i t) as H end.
  by destruct (send_letters _ _ _ _ _ _) as [[ids t']|t'].
Qed.

Lemma send_inbox_edited iso cfg aliases roles people now p pv rq uids tuid t :
  edited t (send_inbox iso cfg aliases roles people now p pv rq uids tuid t).2.
Proof. unfold send_inbox. repeat case_match; try done; try reflexivity; cbn [snd]; apply deliver_edited. Qed.

Lemma list_edited expand listen reader unread limit resolved newest unhandled mark t :
  edited t (inbox_list expand listen reader unread limit resolved newest unhandled mark t).2.
Proof.
  unfold inbox_list. cbv zeta. case_match; [done|]. cbn [snd]. destruct mark; [|done].
  unfold _mark_delivered. repeat case_match; edits.
Qed.

Lemma ack_edited id reader t : edited t (inbox_ack id reader t).2.
Proof. cbn. edits. Qed.

Lemma archive_edited id reader t : edited t (inbox_archive id reader t).2.
Proof. unfold inbox_archive. cbn. case_match; edits. Qed.

Lemma resolve_edited now id who t : edited t (inbox_resolve now id who t).2.
Proof. cbn. edits. Qed.

Lemma resolve_thread_edited expand now thread listen who t : edited t (inbox_resolve_thread expand now thread listen who t).2.
Proof. unfold inbox_resolve_thread. cbv zeta. case_match; cbn; edits. Qed.

(** ** Presence *)

Lemma touch_edited now id project t : edited t (touch_seat now id project t).
Proof. unfold touch_seat. edits. Qed.

Lemma presence_edited now b t : edited t (presence_update now b t).2.
Proof.
  unfold presence_update. cbv zeta. cbn [snd]. set (t1 := sql_update _ _ t).
  assert (edited t (touch_seat now (lower (h_identity b)) (lower (h_project b)) t1)) as H.
  { transitivity t1; [unfold t1; edits|apply touch_edited]. }
  case_match; [|exact H]. etransitivity; [exact H|]. edits.
Qed.

Lemma watcher_edited now id project t : edited t (presence_watcher_beat now id project t).2.
Proof.
  unfold presence_watcher_beat. cbv zeta. case_match; cbn [snd]; [edits|]. etransitivity; [|apply touch_edited]. edits.
Qed.

Lemma farewell_edited now id project t : edited t (presence_farewell now id project t).2.
Proof. cbn. edits. Qed.

(** ** The seat register *)

Lemma register_project_edited now q t : edited t (register_project now q t).
Proof. unfold register_project. edits. Qed.

Lemma refresh_edited now q seat meta t : edited t (refresh_seat now q seat meta t).
Proof. unfold refresh_seat. edits. Qed.

Lemma free_edited q seat t : edited t (free_seat q seat t).
Proof. unfold free_seat. edits. Qed.

Lemma try_insert_edited now q seat meta t : edited t (_try_insert now q seat meta t).2.
Proof.
  unfold _try_insert. pose proof (edited_insert now (seat_row q seat meta) t) as H.
  by destruct (sql_insert_nothing _ _ _) as [[i|] t'].
Qed.

Lemma takeover_edited now q seat meta older t : edited t (_try_takeover now q seat meta older t).2.
Proof. unfold _try_takeover. cbn. edits. Qed.

Lemma inheritance_edited now q seat t : edited t (_apply_lane_inheritance now q seat t).
Proof.
  unfold _apply_lane_inheritance. repeat case_match; try done. etransitivity; [|edits]. unfold inherit_mail. edits.
Qed.

Lemma collapse_edited q held ordered t : edited t (collapse_dupes q held ordered t).
Proof. unfold collapse_dupes. apply edited_foldl. intros x t1. case_match; [apply free_edited|done]. Qed.

#[export] Hint Resolve register_project_edited refresh_edited free_edited try_insert_edited takeover_edited inheritance_edited
  collapse_edited : edited.

Lemma keep_edited now q mine held ordered t : edited t (keep_seat now q mine held ordered t).
Proof. unfold keep_seat. repeat case_match; repeat (etransitivity; [|solve [auto with edited]]); done. Qed.

Lemma re_seat_edited now q p sup held t t' : re_seat now q p sup held t = Some t' → edited t t'.
Proof.
  unfold re_seat. pose proof (try_insert_edited now q p (_meta now q sup true (Some p)) t) as Hi.
  destruct (_try_insert _ _ _ _ _) as [inserted t1]. cbn [snd] in Hi. intros Hm.
  apply bind_Some in Hm as (t2 & H2 & [= <-]). assert (edited t t2) as Ht.
  { transitivity t1; [done|]. repeat case_match; simplify_eq; [done|apply refresh_edited]. }
  transitivity t2; [done|]. destruct (_address_holds_mail t2 _); [done|apply free_edited].
Qed.

Section claims.
Context (lane : bool).

Lemma continue_edited now q w t g t' : continue_seat lane now q w t = inl (g, t') → edited t t'.
Proof.
  unfold continue_seat. repeat case_match; intros; simplify_eq; try done; try apply keep_edited. by eapply re_seat_edited.
Qed.

Lemma candidate_edited now q d roots b w parked seat t g t' :
  try_candidate lane now q d roots b w parked seat t = inl (g, t') → edited t t'.
Proof.
  unfold try_candidate. destruct (_ || _); [done|]. cbv zeta. set (meta := _meta _ _ _ _ _).
  destruct (sql_find _ t) as [prior|]; destruct (d_reason _); try done.
  - match goal with |- context [_try_takeover ?n ?c ?s ?m ?o ?t] => pose proof (takeover_edited n c s m o t) as Ht end.
    destruct (_try_takeover _ _ _ _ _ _) as [[] t1]; [|done]. intros [= <- <-]. transitivity t1; [done|apply inheritance_edited].
  - pose proof (try_insert_edited now q seat meta t) as Ht.
    destruct (_try_insert _ _ _ _ _) as [[] t1]; [|done]. intros [= <- <-]. transitivity t1; [done|apply inheritance_edited].
Qed.

Lemma allocate_edited now q d roots w parked candidates t g t' :
  allocate lane now q d roots w parked candidates t = Done (g, t') → edited t t'.
Proof.
  revert w parked. induction candidates as [|seat rest IH]; intros w parked; [done|]. cbn [allocate].
  destruct (try_candidate _ _ _ _ _ _ _ _ _ _) as [[g0 t0]|[w0 k0]] eqn:E; [|apply IH].
  intros [= <- <-]. by eapply candidate_edited.
Qed.

Lemma claim_edited now key project provider nonce host preferred rt t g t' :
  seat_claim lane now key project provider nonce host preferred rt t = Done (g, t') → edited t t'.
Proof.
  unfold seat_claim. set (q := Claimant _ _ _ _ _ _ _). unfold claim_as. destruct (_ || is_exempt _); [by intros [= _ <-]|].
  set (q' := if is_some _ then _ else _). cbv zeta. pose proof (register_project_edited now q' t) as Hr.
  destruct (continue_seat _ _ _ _ _) as [[g0 t0]|w] eqn:E.
  - intros [= <- <-]. etransitivity; [exact Hr|]. by eapply continue_edited.
  - intros Ha%allocate_edited. by etransitivity.
Qed.
End claims.

Lemma release_edited now key project ev nonce t : edited t (seat_release now key project ev nonce t).2.
Proof. unfold seat_release. destruct (sql_select _ t); [done|]. cbn [snd]. case_match; edits. Qed.

(** ** Watch claims *)

Lemma watch_claim_edited now seat nonce armed dir listen host sn t :
  edited t (watch_claim now seat nonce armed dir listen host sn t).2.
Proof.
  unfold watch_claim. destruct (negb _); [done|]. destruct (negb _); [done|]. set (c := Claim _ _ _ _ _ _ _). unfold run_claim.
  pose proof (edited_insert now (claim_row now c) t) as Hi. unfold claim_insert.
  destruct (sql_insert_nothing _ _ _) as [[i|] t1]; [done|]. unfold claim_steal. case_match; edits.
Qed.

Lemma watch_beat_edited now seat nonce fetched t : edited t (watch_beat now seat nonce fetched t).2.
Proof. unfold watch_beat. cbn. edits. Qed.

Lemma watch_release_edited seat nonce t : edited t (watch_release seat nonce t).2.
Proof. unfold watch_release. cbn. edits. Qed.
