(* ===== verification/Endpoints.v ===== *)
(** The server as its clients meet it: one request, through the login
    middleware (src/server/auth.py) and the checks of its body
    (src/server/models.py), to the handler of its route.

    A request is one of [Client.api]. The state is the memories table with its
    audit trail, the logins with their cache of verified tokens, and how many
    requests were served; the date of the n-th request and the ids drawn
    during it are arguments, as are the digests, the ranking functions of the
    database, and the project aliases and roles the caches hold. *)

From stdpp Require Import base gmap list strings.
From Stdlib Require Import ZArith QArith Lia Ascii.
From S2P Require Import Prelude PyString Json Store Identity ProjectAlias AddressRoles Principals Auth Memory Search Inbox.
From S2P Require Import WatchClaim Seats Presence Register Delivery Send Requests MemoryRoutes InboxRoutes SessionRoutes Client.

Open Scope Z_scope.
Open Scope tiding_scope.

(** ** The body of a letter *)

Definition MAX_SUBJECT : Z := 1000.

Definition INBOX_INTENTS : list string := ["fyi"; "action"; "proceed"; "escalate"; "authority-directive"].

(** [to_not_empty]: each recipient stripped, kept the first time it is named
    in any case. *)
Fixpoint distinct_names (seen : list string) (names : list string) : list string :=
  match names with
  | [] => []
  | a :: rest =>
      let a := strip a in
      if lower a isin seen then distinct_names seen rest else a :: distinct_names (lower a :: seen) rest
  end.

Definition to_not_empty (to : list string) : option (list string) :=
  checked (negb (length to =? 0)%nat && forallb (λ a, nonempty (strip a)) to) (distinct_names [] to).

Definition validate_send (rq : send_request) (listen_set : option (list string)) : option send_request :=
  match to_not_empty (sq_to rq) with
  | None => None
  | Some to =>
      checked (few (Some to) && nonempty (strip (sq_body rq)) && at_most MAX_VALUE (sq_body rq) && at_most MAX_SUBJECT (sq_subject rq) &&
               at_most_opt MAX_ADDR (sq_from rq) && at_most_opt MAX_ADDR (sq_thread_id rq) && at_most_opt MAX_ADDR (sq_supersedes rq) &&
               (match sq_intent rq with Some i => i isin INBOX_INTENTS | None => true end) && few listen_set &&
               at_most_opt MAX_ADDR (sq_from_lane rq) && at_most_opt MAX_ADDR (sq_in_reply_to rq) &&
               at_most_opt MAX_ADDR (sq_relayed_from rq))
        (SendRequest to (sq_body rq) (sq_subject rq) (sq_from rq) (sq_thread_id rq) (sq_supersedes rq) (sq_intent rq)
           (sq_from_lane rq) (sq_in_reply_to rq) (sq_huddle_lifecycle rq) (sq_relayed_from rq))
  end.

Definition send_status (why : send_refusal) : refusal :=
  match why with
  | NoAccess e => of_access e
  | BadAddress _ => Refusal 422 (Because "address")
  | ChannelRetired _ => Refusal 409 (Because "channel")
  | BareAdmin => Refusal 409 (Because "bare admin")
  | NoMention => Refusal 422 (Because "mention")
  | FanoutRetired _ => Refusal 409 (Because "fan-out")
  | SendFailed => internal_error
  end.

(** ** Requests on the wire *)

Definition method_of {A} (x : api A) : string :=
  match x with
  | ApiWhoami | ApiNamespaces | ApiProject _ | ApiAddresses _ | ApiWatchStatus _ | ApiHealth => "GET"
  | _ => "POST"
  end.

(** The client's own headers, and its token. *)
Definition with_token (token : string) (h : headers) : headers := λ k,
  if k == "authorization" then (if nonempty token then Some ("Bearer " +:+ token) else None) else h k.

Definition provenance_of (h : headers) : provenance :=
  Provenance (h "x-engram-machine") (h "x-engram-model") (h "x-engram-model-source") (h "x-engram-project").

(** A body that does not pass its checks is answered 422. *)
Definition body_checked {A B} (body : option A) (m : A → route B) : route B :=
  match body with Some x => m x | None => refuse 422 (Because "body") end.

(** ** The server *)

Record server_settings := ServerSettings {
  sv_send : send_settings;
  sv_search : search_settings;
  sv_lane_reservation : bool;
  sv_aliases : gmap string string;
  sv_roles : gmap string string;
  sv_people : list string
}.

Record backend := Backend { bk_state : rstate; bk_logins : pstate; bk_served : nat }.

Section server.
Context (sha256 : string → string) (checkpw : string → string → bool).
Context (distance : vectors) (similarity : string → string → Q) (iso : Z → string).
Context (clock : nat → Z) (draw : nat → nat → string) (health : health_response) (cfg : server_settings).

Abbreviation auth := (ss_auth (sv_send cfg)).
Abbreviation aliases := (sv_aliases cfg).
Abbreviation expand := (expand_listen_set aliases (λ a, roles_held_by (sv_roles cfg) (Some a))).

(** The ids of a letter's thread and of its copies are drawn one after the other. *)
Definition send_route (now : Z) (uid : nat → string) (p : option principal) (h : headers) (rq : send_request)
  : route send_response := λ s,
  let '(a, t') := send_inbox iso (sv_send cfg) aliases (sv_roles cfg) (sv_people cfg) now p (provenance_of h) rq
                    (λ i, uid (S i)) (uid 0%nat) (rs_table s) in
  (match a with Sent r => Done r | NotSent why => Raise (send_status why) end, RState t' (rs_log s)).

(** The handler of each request of the bridge's client: routes of the memory and
    session routers, and of the identity and health routers its lookups use. *)
Definition api_route (now : Z) (uid : nat → string) (p : option principal) (h : headers) {A} (x : api A) : route A :=
  match x in api B return route B with
  | ApiSet b => body_checked (validate_set auth aliases b) (set_memory sha256 expand auth now p h)
  | ApiGet b => body_checked (validate_row auth aliases b) (get_memory sha256 auth now p)
  | ApiSearch b => body_checked (validate_search auth aliases b) (search_memory sha256 expand distance similarity (sv_search cfg) auth now p)
  | ApiKeys b => body_checked (validate_keys auth aliases b) (list_keys auth now p)
  | ApiForget b => body_checked (validate_row auth aliases b) (forget_memory auth now p)
  | ApiFlag b => body_checked (validate_flag auth aliases b) (flag_deletion auth now p)
  | ApiSupersede b => body_checked (validate_supersede auth aliases b) (supersede_memory auth now p)
  | ApiWhoami => whoami p expand
  | ApiNamespaces => namespaces p
  | ApiProject name => answer (describe aliases (Some name))
  | ApiWakePoll b => body_checked (validate_wait b) (poll_wakes expand auth now p)
  | ApiAddresses project => list_addresses auth p iso (sv_lane_reservation cfg) (sv_people cfg) now project
  | ApiSend rq listen_set => body_checked (validate_send rq listen_set) (send_route now uid p h)
  | ApiPresence b => body_checked (validate_presence b) (update_presence auth now p)
  | ApiClaim b => body_checked (validate_claim b) (claim_seat auth p (sv_lane_reservation cfg) now)
  | ApiRelease b => body_checked (validate_release b) (release_seat auth p now)
  | ApiRoster project channel include_done => get_roster iso auth now p project channel include_done false
  | ApiWatchClaim b => body_checked (checked (validate_watch b) b) (watch_claim_endpoint auth p now)
  | ApiWatchBeat seat nonce fetched =>
      body_checked (checked (seat_and_nonce seat nonce) tt) (λ _, watch_beat_endpoint auth p now seat nonce fetched)
  | ApiWatchRelease seat nonce =>
      body_checked (checked (seat_and_nonce seat nonce) tt) (λ _, watch_release_endpoint auth p seat nonce)
  | ApiWatchStatus seat => watch_status_endpoint auth p now seat h
  | ApiInbox b => body_checked (validate_list b) (list_inbox expand auth now p)
  | ApiAck id reader => body_checked (reader_not_empty reader) (ack_inbox auth p id)
  | ApiArchive id reader => body_checked (reader_not_empty reader) (archive_inbox auth p id)
  | ApiResolve id reader => body_checked (reader_not_empty reader) (resolve_inbox auth now p id)
  | ApiResolveThread id listen_set reader =>
      body_checked (thread_not_empty id) (λ id, resolve_inbox_thread expand auth now p id listen_set reader)
  | ApiHealth => answer health
  end.

(** A request of the client that holds [token], as the server carries it out. *)
Definition served (token : string) (A : Type) (x : api A) (h : headers) (s : backend) : outcome refusal A * backend :=
  let now := clock (bk_served s) in
  let h := with_token token h in
  let '(verdict, logins) := dispatch sha256 checkpw auth now now (Request (method_of x) (path_of x) h) (bk_logins s) in
  let '(o, st) :=
    match verdict with
    | Forward p _ => api_route now (draw (bk_served s)) p h x (bk_state s)
    | Reject401 why => (Raise (Refusal 401 (Because why)), bk_state s)
    | Refuse403 why => (Raise (Refusal 403 (Because why)), bk_state s)
    | ServerError _ => (Raise internal_error, bk_state s)
    end in
  (o, Backend st logins (S (bk_served s))).
End server.
