(* ===== verification/EndpointsProps.v ===== *)
(** What the server guarantees as a whole, whoever asks for whatever in any
    order: its tables stay well formed and its trail is only added to; without
    a login nothing is changed. *)

From stdpp Require Import base gmap list strings pretty.
From Stdlib Require Import ZArith QArith Lia Ascii.
From S2P Require Import Prelude PyString Json Store Identity ProjectAlias AddressRoles Principals Auth Memory Search Inbox.
From S2P Require Import WatchClaim Seats Presence Register Delivery Send Requests MemoryRoutes MemoryRoutesProps InboxRoutes SessionRoutes.
From S2P Require Import Edits Client Endpoints.

Open Scope Z_scope.
Open Scope tiding_scope.

(** ** What every route keeps *)

(** The table is edited, and the trail added to. *)
Definition kept (s s' : rstate) : Prop := edited (rs_table s) (rs_table s') ∧ rs_log s `prefix_of` rs_log s'.

#[global] Instance kept_preorder : PreOrder kept.
Proof. split; [by split|]. intros s1 s2 s3 [H1 H2] [H3 H4]. split; by etransitivity. Qed.

Lemma kept_table s t : edited (rs_table s) t → kept s (RState t (rs_log s)).
Proof. by split. Qed.

Lemma kept_noted s t rows : edited (rs_table s) t → kept s (RState t (rs_log s ++ rows)).
Proof. intros H. split; [done|]. by apply prefix_app_r. Qed.

Definition tidy {A} (m : route A) : Prop := ∀ s, ends m s (λ _, kept s).

(** A check first: it changes nothing. *)
Lemma tidy_check {A} (m : route A) : check m → tidy m.
Proof. intros H s. eapply ends_mono; [apply H|]. by intros r s' ->. Qed.

Lemma tidy_gate {A B} (m : route A) (k : A → route B) : check m → (∀ x, tidy (k x)) → tidy (rbind m k).
Proof.
  intros Hm Hk s. apply ends_bind. eapply ends_mono; [apply Hm|]. intros [x|e] s' ->; [apply Hk|reflexivity].
Qed.

Lemma tidy_bind {A B} (m : route A) (k : A → route B) : tidy m → (∀ x, tidy (k x)) → tidy (rbind m k).
Proof.
  intros Hm Hk s. apply ends_bind. eapply ends_mono; [apply Hm|]. intros [x|e] s' Hs; [|done].
  eapply ends_mono; [apply Hk|]. intros r s2 H2. by transitivity s'.
Qed.

(** The table read, changed and stored. *)
Lemma tidy_table {A} (k : table → route A) : (∀ t, ∀ s, rs_table s = t → ends (k t) s (λ _, kept s)) → tidy (rbind table_of k).
Proof. intros H s. go. by apply H. Qed.

Lemma ends_stored {A} t' (k : unit → route A) s : edited (rs_table s) t' → (∀ x, tidy (k x)) → ends (rbind (store t') k) s (λ _, kept s).
Proof.
  intros Ht Hm. go. eapply ends_mono; [apply Hm|]. intros r s2 H2. etransitivity; [by apply kept_table|exact H2].
Qed.

Lemma tidy_answer {A} (x : A) : tidy (answer x).
Proof. by intros s. Qed.
Lemma tidy_refuse {A} n why : tidy (refuse (A := A) n why).
Proof. by intros s. Qed.
Lemma tidy_fail {A} e : tidy (fail_with (A := A) e).
Proof. by intros s. Qed.
Lemma tidy_audit action p d tg : tidy (audit action p d tg).
Proof. intros s. go. by apply kept_noted. Qed.

Lemma tidy_masked {A} (m : route A) : tidy m → tidy (masked m).
Proof. intros H s. apply ends_masked. eapply ends_mono; [apply H|]. by intros [x|e] s'. Qed.

Lemma tidy_body {A B} (body : option A) (m : A → route B) : (∀ x, tidy (m x)) → tidy (body_checked body m).
Proof. intros H. destruct body; [apply H|apply tidy_refuse]. Qed.

Create HintDb tidy.
#[local] Hint Resolve tidy_answer tidy_refuse tidy_fail tidy_audit : tidy.

(** ** The checks *)

Lemma access_check cfg p ns mode : check (access cfg p ns mode).
Proof. apply lift_check. Qed.

Lemma reserved_check scope : check (_reject_reserved_scope scope).
Proof. intros s. unfold _reject_reserved_scope. by case_match. Qed.

Lemma wake_check scope : check (_reject_wake_read scope).
Proof. intros s. unfold _reject_wake_read. by case_match. Qed.

Lemma banner_check expand listen reader : check (banner_of expand listen reader).
Proof. intros s. eapply ends_mono; [apply banner_spec|]. by intros r s' [-> _]. Qed.

Lemma writers_check cfg now p ns key scope user project : check (other_writers cfg now p ns key scope user project).
Proof. intros s. eapply ends_mono; [apply other_writers_spec|]. by intros r s' [-> _]. Qed.

Lemma listening_check listen : check (listening_on listen).
Proof. intros s. unfold listening_on, ends. by destruct (validate_listen_set _). Qed.

Lemma read_check cfg p ns nss : check (read_namespaces cfg p ns nss).
Proof.
  intros s. unfold read_namespaces. case_match; go; (eapply ends_mono; [apply lift_check|]); intros [x|e] s' ->; by go.
Qed.

#[local] Hint Resolve access_check reserved_check wake_check banner_check writers_check listening_check read_check lift_check : tidy.

(** Through the checks to the table, then whatever is stored there. *)
Ltac tidied := repeat first
  [ solve [auto with tidy]
  | match goal with
    | |- tidy (rbind table_of _) => let t := fresh "t" in let s := fresh "s" in let E := fresh "Es" in
        apply tidy_table; intros t s E
    | |- tidy (rbind (audit _ _ _ _) _) => apply tidy_bind; [apply tidy_audit|intros]
    | |- tidy (rbind _ _) => apply tidy_gate; [solve [auto with tidy]|intros]
    | |- tidy (masked _) => apply tidy_masked
    | |- ends (rbind (store _) _) _ _ => apply ends_stored; [subst; try solve [auto with edited]|intros]
    | |- ends (answer _) _ _ => apply tidy_answer
    | |- ends (refuse _ _) _ _ => apply tidy_refuse
    | |- ends (fail_with _) _ _ => apply tidy_fail
    end ].

Section server.
Context (sha256 : string → string) (expand : list string → list string).
Context (distance : vectors) (similarity : string → string → Q) (scfg : search_settings).
Context (iso : Z → string) (cfg : auth_settings).

Lemma set_tidy now p h rq : tidy (set_memory sha256 expand cfg now p h rq).
Proof.
  unfold set_memory. tidied. destruct (memory_set _ _ _ _) as [[[[key created] version] t']|e] eqn:E.
  - tidied. by eapply set_edited.
  - destruct e; tidied. apply (tidy_bind (audit _ _ _ _)); tidied.
Qed.

Lemma get_tidy now p rq : tidy (get_memory sha256 cfg now p rq).
Proof.
  unfold get_memory. tidied. match goal with |- context [memory_get ?a ?b ?c ?d ?e ?f ?g ?h] => pose proof (get_edited a b c d e f g h) as H end.
  destruct (memory_get _ _ _ _ _ _ _ _) as [[m|] t']; tidied; try done.
Qed.

Lemma search_tidy now p rq : tidy (search_memory sha256 expand distance similarity scfg cfg now p rq).
Proof.
  unfold search_memory. tidied. destruct (memory_search _ _ _ _ _ _) as [[hits t']|] eqn:E; tidied. by eapply search_edited.
Qed.

Lemma keys_tidy now p rq : tidy (list_keys cfg now p rq).
Proof. unfold list_keys. tidied. destruct (memory_keys _ _ _ _ _ _ _ _). tidied. Qed.

Lemma forget_tidy now p rq : tidy (forget_memory cfg now p rq).
Proof.
  unfold forget_memory. tidied. destruct (memory_forget _ _ _ _ _ _ _ _) as [[deleted t']|e] eqn:E.
  - tidied. by eapply forget_edited.
  - destruct e; tidied. apply (tidy_bind (audit _ _ _ _)); tidied.
Qed.

Lemma flag_tidy now p rq : tidy (flag_deletion cfg now p rq).
Proof.
  unfold flag_deletion. tidied. destruct (memory_flag_deletion _ _ _ _ _ _ _ _ _) as [[found t']|e] eqn:E.
  - tidied; [by eapply flag_edited|]. destruct found; tidied.
  - destruct e; tidied.
Qed.

Lemma supersede_tidy now p rq : tidy (supersede_memory cfg now p rq).
Proof.
  unfold supersede_memory. tidied. destruct (memory_supersede _ _ _ _ _ _ _ _ _ _) as [[found t']|e] eqn:E.
  - tidied; [by eapply supersede_edited|]. destruct found; tidied. case_match; tidied.
  - destruct e; tidied.
Qed.
End server.

(** ** Mail and presence *)

Section mail.
Context (iso : Z → string) (expand : list string → list string) (cfg : auth_settings).

Lemma member_check p : check (member cfg p).
Proof. apply access_check. Qed.

#[local] Hint Resolve member_check : tidy.

Lemma list_tidy now p b : tidy (list_inbox expand cfg now p b).
Proof.
  unfold list_inbox. tidied. case_match; tidied.
  match goal with |- context [inbox_list ?a ?b ?c ?d ?e ?f ?g ?h ?i ?j] => pose proof (list_edited a b c d e f g h i j) as H0 end.
  destruct (inbox_list _ _ _ _ _ _ _ _ _ _) as [messages t']. tidied.
Qed.

Lemma message_tidy p id op : (∀ t, edited t (op t).2) → tidy (on_message cfg p id op).
Proof.
  intros Hop. unfold on_message. tidied. specialize (Hop t). destruct (op t) as [updated t']. tidied. case_match; tidied.
Qed.

Lemma thread_tidy now p id listen reader : tidy (resolve_inbox_thread expand cfg now p id listen reader).
Proof.
  unfold resolve_inbox_thread. tidied. pose proof (resolve_thread_edited expand now id listen reader t) as H.
  destruct (inbox_resolve_thread _ _ _ _ _ _) as [n t']. tidied.
Qed.

Lemma wakes_tidy now p b : tidy (poll_wakes expand cfg now p b).
Proof. unfold poll_wakes. tidied. Qed.

Lemma presence_tidy now p b : tidy (update_presence cfg now p b).
Proof.
  unfold update_presence. tidied. case_match; [|case_match].
  - tidied. apply farewell_edited.
  - tidied. apply watcher_edited.
  - match goal with |- context [presence_update ?n ?b ?t] => pose proof (presence_edited n b t) as H2 end.
    destruct (presence_update _ _ _) as [c t']. tidied.
Qed.

Lemma roster_tidy now p project channel include_done include_expired :
  tidy (get_roster iso cfg now p project channel include_done include_expired).
Proof. unfold get_roster. tidied. Qed.

(** ** The register *)

Context (p : option principal) (lane : bool) (people : list string).

Lemma register_check mode : check (register_access cfg p mode).
Proof. apply access_check. Qed.

#[local] Hint Resolve register_check : tidy.

Lemma claim_tidy now b : tidy (claim_seat cfg p lane now b).
Proof.
  unfold claim_seat. tidied. destruct (seat_claim _ _ _ _ _ _ _ _ _ _) as [[g t']|[project provider]] eqn:E; tidied.
  by eapply claim_edited.
Qed.

Lemma release_tidy now b : tidy (release_seat cfg p now b).
Proof.
  unfold release_seat. tidied. match goal with |- context [seat_release ?a ?b ?c ?d ?e ?t] => pose proof (release_edited a b c d e t) as H end.
  destruct (seat_release _ _ _ _ _ _) as [released t']. tidied.
Qed.

Lemma addresses_tidy now project : tidy (list_addresses cfg p iso lane people now project).
Proof. unfold list_addresses. tidied. Qed.

Lemma watch_claim_tidy now b : tidy (watch_claim_endpoint cfg p now b).
Proof.
  unfold watch_claim_endpoint. tidied.
  match goal with |- context [watch_claim ?a ?b ?c ?d ?e ?f ?g ?h ?t] => pose proof (watch_claim_edited a b c d e f g h t) as H end.
  destruct (watch_claim _ _ _ _ _ _ _ _ _) as [v t']. tidied.
Qed.

Lemma beat_tidy now seat nonce fetched : tidy (watch_beat_endpoint cfg p now seat nonce fetched).
Proof.
  unfold watch_beat_endpoint. tidied. pose proof (watch_beat_edited now (Some seat) nonce fetched t) as H.
  destruct (watch_beat _ _ _ _ _) as [v t']. tidied.
Qed.

Lemma watch_release_tidy seat nonce : tidy (watch_release_endpoint cfg p seat nonce).
Proof.
  unfold watch_release_endpoint. tidied. pose proof (watch_release_edited (Some seat) nonce t) as H.
  destruct (watch_release _ _ _) as [v t']. tidied.
Qed.

Lemma status_tidy now seat h : tidy (watch_status_endpoint cfg p now seat h).
Proof. unfold watch_status_endpoint. tidied. Qed.

Lemma whoami_tidy : tidy (whoami p expand).
Proof. unfold whoami. tidied. Qed.

Lemma namespaces_tidy : tidy (namespaces p).
Proof. unfold namespaces. tidied. Qed.
End mail.

#[local] Hint Resolve set_tidy get_tidy search_tidy keys_tidy forget_tidy flag_tidy supersede_tidy list_tidy thread_tidy wakes_tidy
  presence_tidy roster_tidy claim_tidy release_tidy addresses_tidy watch_claim_tidy beat_tidy watch_release_tidy status_tidy
  whoami_tidy namespaces_tidy tidy_body : tidy.

(** ** The server *)

Section server.
Context (sha256 : string → string) (checkpw : string → string → bool).
Context (distance : vectors) (similarity : string → string → Q) (iso : Z → string).
Context (clock : nat → Z) (draw : nat → nat → string) (health : health_response) (cfg : server_settings).

Abbreviation served := (served sha256 checkpw distance similarity iso clock draw health cfg).

Lemma send_tidy now uid p h rq : tidy (send_route iso cfg now uid p h rq).
Proof.
  intros s. unfold send_route, ends.
  match goal with |- context [send_inbox ?a ?b ?c ?d ?e ?f ?g ?h ?i ?j ?k ?t] => pose proof (send_inbox_edited a b c d e f g h i j k t) as H end.
  destruct (send_inbox _ _ _ _ _ _ _ _ _ _ _ _) as [a t']. by apply kept_table.
Qed.

Lemma route_tidy now uid p h {A} (x : api A) : tidy (api_route sha256 distance similarity iso health cfg now uid p h x).
Proof.
  destruct x; cbn [api_route]; try solve [auto with tidy]; apply tidy_body; intros; auto with tidy.
  - apply send_tidy.
  - apply message_tidy. intros. apply ack_edited.
  - apply message_tidy. intros. apply archive_edited.
  - apply message_tidy. intros. apply resolve_edited.
Qed.

Lemma served_kept token {A} (x : api A) h s : kept (bk_state s) (bk_state (served token A x h s).2).
Proof.
  unfold served. destruct (dispatch _ _ _ _ _ _ _) as [verdict logins]. destruct verdict as [p src| | |]; try reflexivity.
  match goal with |- context [api_route ?a ?b ?c ?d ?e ?f ?g ?h ?i ?j ?k ?s] => pose proof (route_tidy g h i j k s) as H end.
  unfold ends in H. destruct (api_route _ _ _ _ _ _ _ _ _ _ _ _) as [o st]. exact H.
Qed.

(** Requests, one after the other: whose, which, with what headers. *)
Definition sent : Type := string * sigT api * headers.

Definition after (r : sent) (s : backend) : backend :=
  let '(token, existT A x, h) := r in (served token A x h s).2.

Definition run (rs : list sent) (s : backend) : backend := foldl (λ s r, after r s) s rs.

(** C18. The books are kept by the bridge's clients. Over any sequence of
    requests of the bridge's client (the memory verbs, mail, presence, seats,
    watch claims and lookups of [Client.api]), whoever sends them, with
    whatever token and headers, in whatever order, the table of memories keeps
    its unique index and its primary key; no id is drawn twice: an id drawn
    before is, if it is still there, at the key it was drawn for; and the audit
    trail is only added to. The calls of administrators are not among these
    requests: an edit, a project merge and a climb do move rows to other keys. *)
Theorem requests_keep_books rs s : wf (rs_table (bk_state s)) →
  let t := rs_table (bk_state s) in
  let t' := rs_table (bk_state (run rs s)) in
  wf t' ∧ t_seq t ≤ t_seq t' ∧
  (∀ r', r' ∈ t_rows t' → r_id r' < t_seq t → ∃ r, r ∈ t_rows t ∧ r_id r = r_id r' ∧ r_pk r = r_pk r') ∧
  rs_log (bk_state s) `prefix_of` rs_log (bk_state (run rs s)).
Proof.
  intros Hwf. cbv zeta. assert (kept (bk_state s) (bk_state (run rs s))) as [He Hl].
  { clear Hwf. revert s. induction rs as [|[[token [A x]] h] rs IH]; intros s; [reflexivity|]. cbn [run foldl].
    etransitivity; [|apply IH]. apply (served_kept token x h s). }
  destruct (He Hwf) as (Hw & Hs & Hi). by split_and!.
Qed.

(** ** Strangers *)

(** Only the health probe is served without a login. *)
Lemma only_health_exempt {A} (x : api A) h : exempt (Request (method_of x) (path_of x) h) = true → path_of x = "/health".
Proof.
  unfold exempt, is_signal_path. destruct x; cbn; intros H; try done; exfalso; revert H;
    repeat (rewrite bool_decide_eq_false_2 by done); cbn; try done.
Qed.

(** The token of no active login. *)
Definition unknown (token : string) (st : pstate) : Prop :=
  ∀ r h, r ∈ ps_rows st → p_active r = true → p_token_hash r = Some h → _check_password sha256 checkpw token h = false.

Lemma unknown_token now1 now2 token st : (∀ a b, sha256 a = sha256 b → a = b) → cache_ok sha256 checkpw (ps_verified st) →
  unknown token st → match get_principal_by_token sha256 checkpw now1 now2 token st with
                     | Done (res, st') => res = None ∧ st' = st
                     | Raise _ => True
                     end.
Proof.
  intros Hsha Hok Hu. destruct (get_principal_by_token _ _ _ _ _ _) as [[[p|] st']|e] eqn:E; [|split; [done|]|done].
  - exfalso. apply (token_resolves sha256 checkpw) in E as (r & h & Hr & _ & Ha & Hh & Hc); [|done..].
    by rewrite (Hu r h) in Hc.
  - unfold get_principal_by_token in E. cbv zeta in E. repeat case_match; simplify_eq; done.
Qed.

Definition turned_away (v : auth_verdict) : Prop := (∃ why, v = Reject401 why) ∨ (∃ e, v = ServerError e).

Lemma stranger_rejected token {A} (x : api A) h n1 n2 st : s_require_auth (ss_auth (sv_send cfg)) = true →
  (∀ a b, sha256 a = sha256 b → a = b) → cache_ok sha256 checkpw (ps_verified st) → unknown token st → path_of x ≠ "/health" →
  let '(v, st') := dispatch sha256 checkpw (ss_auth (sv_send cfg)) n1 n2 (Request (method_of x) (path_of x) (with_token token h)) st in
  st' = st ∧ turned_away v.
Proof.
  intros Hreq Hsha Hok Hu Hp. unfold dispatch.
  destruct (exempt _) eqn:Ex; [by apply only_health_exempt in Ex|]. rewrite Hreq. unfold _enforce, bearer. cbn [rq_header].
  unfold with_token. rewrite bool_decide_eq_true_2 by done. destruct (nonempty token) eqn:En; [|cbn; split; [done|left; eauto]].
  assert (drop_prefix "Bearer " (or_empty (Some ("Bearer " +:+ token))) = Some token) as -> by done.
  assert (truthy (Some token) = true) as -> by (by destruct token). cbn [negb].
  pose proof (unknown_token n1 n2 token st Hsha Hok Hu) as H. unfold lookup_token. change (or_empty (Some token)) with token.
  destruct (get_principal_by_token _ _ _ _ _ _) as [[res st']|e]; [|split; [done|right; eauto]].
  destruct H as [-> ->]. split; [done|left; eauto].
Qed.

Lemma health_reads now uid p h {A} (x : api A) s : path_of x = "/health" →
  (api_route sha256 distance similarity iso health cfg now uid p h x s).2 = s.
Proof. by destruct x. Qed.

Lemma stranger_step token {A} (x : api A) h s : s_require_auth (ss_auth (sv_send cfg)) = true →
  (∀ a b, sha256 a = sha256 b → a = b) → cache_ok sha256 checkpw (ps_verified (bk_logins s)) → unknown token (bk_logins s) →
  let '(o, s') := served token A x h s in
  bk_state s' = bk_state s ∧ bk_logins s' = bk_logins s ∧
  (path_of x = "/health" ∨ ∃ r, o = Raise r ∧ rf_status r ∈ [401; 500]).
Proof.
  intros Hreq Hsha Hok Hu. destruct (decide (path_of x = "/health")) as [Hp|Hp].
  - unfold served, dispatch. assert (exempt (Request (method_of x) (path_of x) (with_token token h)) = true) as ->.
    { unfold exempt. cbn [rq_path]. by rewrite Hp. }
    pose proof (health_reads (clock (bk_served s)) (draw (bk_served s)) None (with_token token h) x (bk_state s) Hp) as H.
    destruct (api_route _ _ _ _ _ _ _ _ _ _ _ _) as [o st]. cbn in *. subst. split_and!; [done..|by left].
  - pose proof (stranger_rejected token x h (clock (bk_served s)) (clock (bk_served s)) (bk_logins s) Hreq Hsha Hok Hu Hp) as H.
    unfold served. destruct (dispatch _ _ _ _ _ _ _) as [v logins]. destruct H as [-> [[why ->]|[e ->]]]; cbn;
      (split_and!; [done..|]); right; eexists; (split; [done|]); cbn; set_solver.
Qed.

(** C9. Without a login nothing is changed. Under enforcement, whatever bridge
    clients whose tokens are no active login's request, and in whatever order,
    no memory, letter, seat, audit row or login is changed, and whatever any of
    them asks for then is answered with a refusal, the health probe apart. The
    other paths exempt from a login (pages, static files, the mail signal) are
    not requests of that client. *)
Theorem strangers_change_nothing rs s : s_require_auth (ss_auth (sv_send cfg)) = true →
  (∀ a b, sha256 a = sha256 b → a = b) → cache_ok sha256 checkpw (ps_verified (bk_logins s)) →
  Forall (λ r : sent, unknown r.1.1 (bk_logins s)) rs →
  bk_state (run rs s) = bk_state s ∧ bk_logins (run rs s) = bk_logins s ∧
  ∀ token A (x : api A) h, unknown token (bk_logins s) → path_of x ≠ "/health" →
    ∃ r, (served token A x h (run rs s)).1 = Raise r ∧ rf_status r ∈ [401; 500].
Proof.
  intros Hreq Hsha Hok Hall. assert (bk_state (run rs s) = bk_state s ∧ bk_logins (run rs s) = bk_logins s) as [Hs Hl].
  { revert s Hok Hall. induction rs as [|[[token [A x]] h] rs IH]; intros s Hok Hall; [done|]. cbn [run foldl].
    apply Forall_cons in Hall as [Hu Hall]. pose proof (stranger_step token x h s Hreq Hsha Hok Hu) as H.
    change (after (token, existT A x, h) s) with (served token A x h s).2.
    destruct (served token A x h s) as [o s1]. destruct H as (Hs1 & Hl1 & _). cbn [snd].
    destruct (IH s1) as [E1 E2]; [by rewrite Hl1|by rewrite Hl1|]. unfold run in E1, E2. by rewrite E1, E2. }
  split; [done|]. split; [done|]. intros token A x h Hu Hp.
  pose proof (stranger_step token x h (run rs s) Hreq Hsha) as H. rewrite Hl in H. specialize (H Hok Hu).
  destruct (served token A x h (run rs s)) as [o s']. destruct H as (_ & _ & [H|H]); [done|exact H].
Qed.
End server.

(** ** At work *)

Definition enrolled (id : Z) (secret name : string) (st : pstate) : pstate :=
  match create_principal ex_sha ex_hashpw 9 id secret "" "" name "agent" false None None ["*"] ["*"] st with
  | Done (_, _, st') => st'
  | Raise _ => st
  end.

(** Two logins, [ana] with the token engram_a and [bo] with engram_b. *)
Definition ex_staff : pstate := enrolled 2 "b" "bo" (enrolled 1 "a" "ana" ex_pstate).

Definition ex_backend : backend := Backend ex_state ex_staff 0.

Definition ex_health : health_response := HealthResponse "ok" [] None None None.

Definition ex_server : server_settings :=
  ServerSettings (SendSettings ex_auth true true) (SearchSettings (15 # 100) (35 # 100) (1 # 10)) true ∅ ∅ [].

Abbreviation ex_run :=
  (run ex_sha ex_checkpw ex_distance0 (λ _ _, 0%Q) (λ _, "") (λ n, 100 + Z.of_nat n) (λ n i, pretty (100 * n + i)%nat) ex_health ex_server).

Definition ex_store (token key value : string) : sent :=
  (token, existT _ (client_store key value "notes" "project" "ana" (Some "tide") "" None None None), header_list []).

Definition ex_letter (token : string) : sent :=
  (token, existT _ (inbox_send ["tide"] "news" "" (Some "ana@hosta") None None None None None None), header_list []).

Definition ex_erase (token key : string) : sent :=
  (token, existT _ (client_forget key "notes" "project" "ana" (Some "tide")), header_list []).

(** A store, a letter, an erasure and a store again, by one login. *)
Definition ex_day : list sent :=
  [ex_store "engram_a" "plan" "second"; ex_letter "engram_a"; ex_erase "engram_a" "plan"; ex_store "engram_a" "plan" "third"].

Lemma requests_keep_books_witness :
  (λ r, (r_id r, r_key r, r_value r)) <$> t_rows (rs_table (bk_state (ex_run ex_day ex_backend))) =
    [(2, "inbox/101", "news"); (3, "plan", "third")] ∧
  wf (rs_table (bk_state (ex_run ex_day ex_backend))).
Proof.
  split; [vm_compute; reflexivity|].
  exact (proj1 (requests_keep_books ex_sha ex_checkpw ex_distance0 (λ _ _, 0%Q) (λ _, "") (λ n, 100 + Z.of_nat n)
    (λ n i, pretty (100 * n + i)%nat) ex_health ex_server ex_day ex_backend ex_state_wf)).
Defined.

Lemma ex_staff_cache : cache_ok ex_sha ex_checkpw (ps_verified ex_staff).
Proof. by intros raw h until. Qed.

Lemma ex_unknown : unknown ex_sha ex_checkpw "guess" ex_staff.
Proof.
  intros r h Hr _ Hh. repeat (apply elem_of_cons in Hr as [->|Hr]; [injection Hh as <-; vm_compute; reflexivity|]). by apply elem_of_nil in Hr.
Qed.

Lemma strangers_change_nothing_witness :
  bk_state (ex_run [ex_store "guess" "plan" "second"; ex_letter "guess"] ex_backend) = ex_state.
Proof.
  exact (proj1 (strangers_change_nothing ex_sha ex_checkpw ex_distance0 (λ _ _, 0%Q) (λ _, "") (λ n, 100 + Z.of_nat n)
    (λ n i, pretty (100 * n + i)%nat) ex_health ex_server [ex_store "guess" "plan" "second"; ex_letter "guess"] ex_backend eq_refl
    ltac:(intros a b H; injection H as H; exact H) ex_staff_cache
    ltac:(repeat constructor; exact ex_unknown))).
Defined.
