(* ===== verification/Tools.v ===== *)
(** The memory tools of the bridge
    (src/integrations/claude-code/src/engram_mcp/server.py): what a session
    may call to store, find, read, retire and destroy memories.

    A tool is a step of [Bridge.M]: it settles the partition the call means,
    may beat, and makes one request. Its answer holds the facts the reply's
    text is made of, not the text; what the server refuses, and what the
    folder lacks, are values. *)

From stdpp Require Import base gmap list strings.
From Stdlib Require Import ZArith Lia Ascii.
From S2P Require Import Prelude PyString Json Store Principals Auth Memory Search Scoping Session Send.
From S2P Require Import Requests MemoryRoutes InboxRoutes SessionRoutes Client Bridge.

Open Scope Z_scope.
Open Scope tiding_scope.

(** The clock where a tool reads it: settling the login, beating, checking the
    wake stream. *)
Record instants := Instants { at_start : Z; at_beat : Z; at_check : Z }.

Inductive tool_error := Unidentified (e : gate_error) | CallFailed (e : fault).

(** The scope, the writer and the project a call means. *)
Record partition_means := Means { pm_scope : string; pm_user : string; pm_project : option string }.

Definition SEARCH_SNIPPET_LINES : Z := 60.

(** What a refused destruction says. *)
Inductive forget_result := ForgetRefused (why : detail) | Forgotten (r : forget_response).
Inductive flag_result := NoRow | Flagged (r : row_response).
Inductive supersede_result := NotRetired (why : detail) | Retired (r : row_response).

(** What a key of a listing is shown with, in a project. *)
Inductive ownership := Custodian (who : string) | Owner (who : string) | UnownedLegacy.

Definition owner_bit (e : key_entry) : ownership :=
  let controller := or_empty (py_or (e_custodian e) (e_owner e)) in
  if nonempty controller then if truthy (e_custodian e) then Custodian controller else Owner controller else UnownedLegacy.

Record key_line := KeyLine {
  kl_key : string;
  kl_chars : nat;
  kl_partition : option (string * ownership);
  kl_superseded : bool
}.

Record key_listing := KeyListing { kg_means : partition_means; kg_total : nat; kg_lines : list key_line; kg_cut : bool }.

(** The login, the seat with its addresses, what may be read and written, and
    whether the configured namespace is among what may be written. *)
Record whoami_facts := WhoamiFacts {
  wf_login : principal;
  wf_identity : string * list string;
  wf_read : list string;
  wf_write : list string;
  wf_foreign_namespace : bool
}.

Inductive whoami_result := Anonymously | Unknowable (e : fault) | KnownAs (f : whoami_facts).

Section tools.
Context {Srv : Type} (serve : ∀ A, api A → headers → Srv → outcome refusal A * Srv) (cfg : settings).

Notation "'let*' x := m 'in' k" := (bind m (λ x, k)) (at level 10, x pattern, m at level 100, k at level 200).

Abbreviation M := (M (Srv := Srv)).

(** [[ns.strip() for ns in settings.memory_read_namespaces.split(",") if ns.strip()]] *)
Definition read_ns : list string := select nonempty (strip <$> split_on "," (se_read_namespaces cfg)).

(** The partition first; a folder without an identity ends the call. *)
Definition in_partition {A} (tk : instants) (scope project_dir user_id project : string)
    (k : partition_means → M (outcome tool_error A)) : M (outcome tool_error A) :=
  let* o := resolve_partition_with_identity serve cfg (at_start tk) (nullable scope) (nullable project_dir) (nullable user_id)
              (nullable project) in
  match o with
  | Raise e => ret (Raise (Unidentified e))
  | Done (scope, user, project) => k (Means scope user project)
  end.

(** A project is read over all its writers, unless one was named. *)
Definition readers_of (user_id : string) (p : partition_means) : partition_means :=
  if (pm_scope p == "project") && negb (nonempty user_id) then Means (pm_scope p) "*" (pm_project p) else p.

Definition answered {A B} (f : A → B) (o : outcome fault A) : outcome tool_error B :=
  match o with Done r => Done (f r) | Raise e => Raise (CallFailed e) end.

(** ** Storing *)

Definition memory_store (tk : instants) (key value tags scope project_dir project user_id : string)
  : M (outcome tool_error (partition_means * set_response)) :=
  in_partition tk scope project_dir user_id project (λ p,
    let* (reader, listen_set) := identity_of (nullable project_dir) in
    let* _ := _heartbeat serve cfg (at_beat tk) (at_check tk) (nullable project_dir) true in
    let* o := calling serve cfg (nullable project_dir)
                (client_store key value (se_namespace cfg) (pm_scope p) (pm_user p) (pm_project p) tags (Some listen_set)
                   (Some reader) None) in
    ret (answered (pair p) o)).

(** ** Finding *)

(** [None]: nothing was asked for. *)
Definition memory_search (tk : instants) (query : string) (limit : Z) (scope project_dir project user_id : string)
  : M (outcome tool_error (option search_response)) :=
  if negb (nonempty (strip query)) then ret (Done None)
  else
    in_partition tk scope project_dir user_id project (λ p,
      let p := readers_of user_id p in
      let* (reader, listen_set) := identity_of (nullable project_dir) in
      let* _ := _heartbeat serve cfg (at_beat tk) (at_check tk) (nullable project_dir) true in
      let* o := calling serve cfg (nullable project_dir)
                  (client_search query (pm_scope p) (pm_user p) (pm_project p) limit None (Some read_ns) (Some listen_set)
                     (Some reader) (Some SEARCH_SNIPPET_LINES)) in
      ret (answered Some o)).

Definition key_line_of (p : partition_means) (e : key_entry) : key_line :=
  KeyLine (k_key (e_pk e)) (e_value_chars e)
    (if pm_scope p == "project" then Some (k_user (e_pk e), owner_bit e) else None) (e_status e == Some "superseded").

Definition memory_keys_tool (tk : instants) (prefix scope project_dir project user_id : string) (limit : Z)
  : M (outcome tool_error key_listing) :=
  in_partition tk scope project_dir user_id project (λ p,
    let p := readers_of user_id p in
    let* _ := _heartbeat serve cfg (at_beat tk) (at_check tk) (nullable project_dir) true in
    let* o := calling serve cfg (nullable project_dir)
                (client_keys prefix (pm_scope p) (pm_user p) (pm_project p) limit (Some read_ns)) in
    ret (answered (λ r, KeyListing p (rk_total r) (key_line_of p <$> rk_keys r) (length (rk_keys r) <? rk_total r)%nat) o)).

(** ** Reading *)

(** No beat: the one tool of these that makes a single request. *)
Definition memory_get_tool (tk : instants) (key scope project_dir project user_id : string)
  : M (outcome tool_error (partition_means * get_response)) :=
  in_partition tk scope project_dir user_id project (λ p,
    let p := readers_of user_id p in
    let* o := calling serve cfg (nullable project_dir)
                (client_get key (se_namespace cfg) (pm_scope p) (pm_user p) (pm_project p)) in
    ret (answered (pair p) o)).

(** ** Destroying and retiring *)

Definition memory_forget_tool (tk : instants) (key scope project_dir project user_id : string)
  : M (outcome tool_error forget_result) :=
  in_partition tk scope project_dir user_id project (λ p,
    let* o := calling serve cfg (nullable project_dir)
                (client_forget key (se_namespace cfg) (pm_scope p) (pm_user p) (pm_project p)) in
    ret (match o with
         | Done r => Done (Forgotten r)
         | Raise (HttpStatus r) => if rf_status r =? 403 then Done (ForgetRefused (rf_detail r)) else Raise (CallFailed (HttpStatus r))
         | Raise e => Raise (CallFailed e)
         end)).

Definition memory_flag_deletion_tool (tk : instants) (key reason scope project_dir user_id project : string)
  : M (outcome tool_error flag_result) :=
  in_partition tk scope project_dir user_id project (λ p,
    let* o := calling serve cfg (nullable project_dir)
                (client_flag_deletion key (se_namespace cfg) (pm_scope p) (pm_user p) reason (pm_project p)) in
    ret (match o with
         | Done r => Done (Flagged r)
         | Raise (HttpStatus r) => if rf_status r =? 404 then Done NoRow else Raise (CallFailed (HttpStatus r))
         | Raise e => Raise (CallFailed e)
         end)).

(** The partition is asked for the project alone. *)
Definition memory_supersede_tool (tk : instants) (key target_user_id reason replacement_key namespace project_dir scope : string)
  : M (outcome tool_error supersede_result) :=
  in_partition tk "project" project_dir "" "" (λ p,
    let* o := calling serve cfg (nullable project_dir)
                (client_supersede key (if nonempty namespace then namespace else se_namespace cfg)
                   (if scope == "shared" then None else pm_project p) target_user_id reason (nullable replacement_key) scope) in
    ret (match o with
         | Done r => Done (Retired r)
         | Raise (HttpStatus r) => if rf_status r =? 404 then Done (NotRetired (rf_detail r)) else Raise (CallFailed (HttpStatus r))
         | Raise e => Raise (CallFailed e)
         end)).

(** ** Who am I *)

Definition memory_whoami (project_dir : string) : M whoami_result :=
  if negb (nonempty (se_api_token cfg)) then ret Anonymously
  else
    let* o := calling_bare serve ApiWhoami in
    match o with
    | Raise e => ret (Unknowable e)
    | Done who =>
        let* identity := identity_of (nullable project_dir) in
        let* spelled := calling_bare serve ApiNamespaces in
        let q := wa_principal who in
        let '(read, write, write_list) :=
          match spelled with
          | Done (read, write) => (read, write, write)
          | Raise _ => (pd_read_namespaces q, pd_write_namespaces q, select (λ w, w != "*") (pd_write_namespaces q))
          end in
        ret (KnownAs (WhoamiFacts q identity read write
                        (negb (length write_list =? 0)%nat && negb (se_namespace cfg isin write_list))))
    end.
End tools.
