(* ===== verification/ToolsProps.v ===== *)
(** The memory tools at work against the server: what one session stores,
    another session of the project reads. *)

From stdpp Require Import base gmap list strings pretty.
From Stdlib Require Import ZArith QArith Lia Ascii.
From S2P Require Import Prelude PyString Json Store Identity ProjectAlias AddressRoles Principals Auth Memory MemoryProps Search Inbox.
From S2P Require Import Scoping ScopingProps Session SessionProps Send Requests MemoryRoutes MemoryRoutesProps InboxRoutes SessionRoutes.
From S2P Require Import Edits Client ClientProps Endpoints EndpointsProps Bridge BridgeProps Tools.

Open Scope Z_scope.
Open Scope tiding_scope.

(** ** What an answer means *)

Section routes.
Context (sha256 : string → string) (expand : list string → list string) (cfg : auth_settings).

(** A check first, for what a route has done when it answers. *)
Lemma ends_passed {A B} (m : route A) (k : A → route B) s (P : B → rstate → Prop) : check m →
  (∀ x, ends (k x) s (λ r s', ∀ y, r = Done y → P y s')) → ends (rbind m k) s (λ r s', ∀ y, r = Done y → P y s').
Proof.
  intros Hm Hk. apply ends_bind. eapply ends_mono; [apply Hm|]. intros [x|e] s' ->; [apply Hk|done].
Qed.

(** A write that is answered was carried out. *)
Lemma set_answered now p h rq s : ends (set_memory sha256 expand cfg now p h rq) s (λ r s', ∀ y, r = Done y →
  ∃ key created version, memory_set sha256 now (set_args_of p h rq) (rs_table s) = Done (key, created, version, rs_table s')).
Proof.
  unfold set_memory. apply ends_passed; [apply reserved_check|intros _]. apply ends_passed; [apply access_check|intros _]. go.
  destruct (memory_set _ _ _ _) as [[[[key created] version] t']|e] eqn:E.
  - go. eapply ends_mono; [apply banner_check|]. intros [b|] s1 ->; [|done]. go.
    eapply ends_mono; [apply writers_check|]. intros [f|] s2 ->; [|done]. go. eauto.
  - destruct e; go; done.
Qed.

(** What a read says of an item. *)
Definition says (item : option mem_item) (y : get_response) : Prop :=
  match item with Some m => y = GetFound m | None => ∃ writers, y = GetNotFound writers end.

(** A read that is answered says what the table says. *)
Lemma get_answered now p rq s : ends (get_memory sha256 cfg now p rq) s (λ r s', ∀ y, r = Done y →
  says (memory_get sha256 now (gt_namespace rq) (gt_key rq) (gt_scope rq) (gt_user_id rq) (gt_project rq) (rs_table s)).1 y).
Proof.
  unfold get_memory. apply (ends_passed _ _ s (λ y _, says _ y)); [apply wake_check|intros _].
  apply (ends_passed _ _ s (λ y _, says _ y)); [apply access_check|intros _].
  go. destruct (memory_get _ _ _ _ _ _ _ _) as [[m|] t']; cbn [fst]; go; [by intros y [= <-]|].
  eapply ends_mono; [apply writers_check|]. intros [ws|e] s' _; go; [|done]. intros y [= <-]. by exists ws.
Qed.
End routes.

(** ** A request answered *)

Section server.
Context (sha256 : string → string) (checkpw : string → string → bool).
Context (distance : vectors) (similarity : string → string → Q) (iso : Z → string).
Context (clock : nat → Z) (draw : nat → nat → string) (health : health_response) (cfg : server_settings).

Abbreviation served := (served sha256 checkpw distance similarity iso clock draw health cfg).
Abbreviation aliases := (sv_aliases cfg).
Abbreviation auth := (ss_auth (sv_send cfg)).

Lemma served_answered token {A} (x : api A) h s a s' : served token A x h s = (Done a, s') →
  ∃ p, api_route sha256 distance similarity iso health cfg (clock (bk_served s)) (draw (bk_served s)) p (with_token token h) x (bk_state s) =
       (Done a, bk_state s').
Proof.
  unfold served. destruct (dispatch _ _ _ _ _ _ _) as [[p src| | |] logins]; try done.
  destruct (api_route _ _ _ _ _ _ _ _ _ _ _ _) as [o st] eqn:E. intros [= -> <-]. by exists p.
Qed.

Lemma store_served token b h s r s' : served token _ (ApiSet b) h s = (Done r, s') →
  ∃ p rq key created version, validate_set auth aliases b = Some rq ∧
    memory_set sha256 (clock (bk_served s)) (set_args_of p (with_token token h) rq) (rs_table (bk_state s)) =
    Done (key, created, version, rs_table (bk_state s')).
Proof.
  intros (p & H)%served_answered. cbn [api_route] in H. unfold body_checked in H.
  destruct (validate_set auth aliases b) as [rq|]; [|done].
  pose proof (set_answered sha256 (expand_listen_set aliases (λ a, roles_held_by (sv_roles cfg) (Some a)))
    auth (clock (bk_served s)) p (with_token token h) rq (bk_state s)) as Hs.
  unfold ends in Hs. rewrite H in Hs. destruct (Hs r eq_refl) as (key & created & version & E). by exists p, rq, key, created, version.
Qed.

Lemma get_served token b h s r s' : served token _ (ApiGet b) h s = (Done r, s') →
  ∃ rq, validate_row auth aliases b = Some rq ∧
    says (memory_get sha256 (clock (bk_served s)) (gt_namespace rq) (gt_key rq) (gt_scope rq) (gt_user_id rq) (gt_project rq)
            (rs_table (bk_state s))).1 r.
Proof.
  intros (p & H)%served_answered. cbn [api_route body_checked validate_row] in H. eexists. split; [done|].
  pose proof (get_answered sha256 auth (clock (bk_served s)) p (RowRequest (_canon_ns auth (bg_namespace b)) (bg_key b)
    (default "user" (bg_scope b)) (user_or_default (default "user" (bg_scope b)) (bg_user_id b))
    (_canonicalize_project aliases (bg_project b))) (bk_state s)) as Hs.
  unfold ends in Hs. rewrite H in Hs. exact (Hs r eq_refl).
Qed.

Lemma whoami_served token h s : bk_state (served token _ ApiWhoami h s).2 = bk_state s.
Proof.
  unfold served. destruct (dispatch _ _ _ _ _ _ _) as [[p src| | |] logins]; [|done..]. cbn [api_route]. unfold whoami, rbind, lift.
  by destruct (require_principal p).
Qed.

(** ** A table that stays well formed *)

Lemma served_wf token {A} (x : api A) h s : wf (rs_table (bk_state s)) → wf (rs_table (bk_state (served token A x h s).2)).
Proof.
  intros H. by apply (proj1 (served_kept sha256 checkpw distance similarity iso clock draw health cfg token x h s)).
Qed.

Lemma used_wf token w w' : used (served token) w w' → wf (rs_table (bk_state (wi_server w))) → wf (rs_table (bk_state (wi_server w'))).
Proof.
  refine (used_keeps (served token) (λ s s', wf (rs_table (bk_state s)) → wf (rs_table (bk_state s'))) (PreOrder0 := _) w w' _).
  - split; [by intros s|]. intros s1 s2 s3 H1 H2 H. by apply H2, H1.
  - intros A x h s. apply served_wf.
Qed.

Lemma iterated_wf token {A} (x : api A) h k s : wf (rs_table (bk_state s)) →
  wf (rs_table (bk_state (Nat.iter k (step (served token) x h) s))).
Proof. intros H. induction k as [|k IH]; [done|]. by apply served_wf. Qed.

(** ** One write, one read *)

Lemma no_status p h : md_text (Some (write_metadata p h)) "status" = None.
Proof.
  unfold write_metadata, with_header, md_text. cbn. repeat case_match; simplify_map_eq; done.
Qed.

Lemma write_read now now' a t key key' created version t' :
  wf t → memory_set sha256 now a t = Done (key, created, version, t') →
  lower (a_scope a) = "project" → a_if_match a = None → a_expiration_days a ≤ 0 → md_text (a_metadata a) "status" = None →
  lower key' = lower (a_key a) → ∃ m, (memory_get sha256 now' (a_namespace a) key' "project" "*" (a_project a) t').1 = Some m ∧
    i_value m = a_value a ∧ k_user (i_pk m) = lower (a_user_id a).
Proof.
  intros Hwf H Hs Hif He Hst Hk.
  destruct (collapsed_write sha256 now a t key created version t' Hwf H Hs) as (Hw & r & Hr & Hv & Hl & Hexp & Hu);
    [by rewrite Hif|by rewrite Hst|].
  pose proof (sole_row_read now' (key_of a) t' r Hw Hs Hr Hl) as Hget.
  assert (unexpired now' r = true) as Hun by (eapply written_unexpired; [exact Hexp|by left]). specialize (Hget Hun Hu).
  unfold memory_get. cbv zeta. assert (_normalize_key_fields (a_namespace a) key' "project" "*" (a_project a) =
    PKey (k_ns (key_of a)) (k_key (key_of a)) "project" "*" (k_project (key_of a))) as -> by (unfold _normalize_key_fields; by rewrite Hk).
  rewrite Hget. cbn [fst].
  eexists. split; [done|]. cbn [i_value i_pk]. split; [done|]. apply sql_find_Some_elem in Hr as [_ Hpk]. by rewrite Hpk.
Qed.
(** ** The tools *)

Abbreviation world := (world (Srv := backend)).
Abbreviation state_of w := (bk_state (wi_server (w_wire w))) (only parsing).

(** Where a store that was answered made its request. *)
Lemma store_inv token bcfg tk key value tags scope pd project user (w : world) p r w' :
  memory_store (served token) bcfg tk key value tags scope pd project user w = (Done (p, r), w') →
  ∃ w1 h listen reader, used (served token) (w_wire w) w1 ∧
    _request (served token) (client_store key value (se_namespace bcfg) (pm_scope p) (pm_user p) (pm_project p) tags
       (Some listen) (Some reader) None) h w1 = (Done r, w_wire w').
Proof.
  unfold memory_store, in_partition. unfold bind at 1. intros H.
  match type of H with context [resolve_partition_with_identity ?a ?b ?c ?d ?e ?f ?g w] =>
    pose proof (partition_asks a b c d e f g w) as H1; destruct (resolve_partition_with_identity a b c d e f g w) as [o w1] end.
  destruct o as [[[sc us] pr]|e]; [|done]. unfold bind at 1 in H. pose proof (identity_asks (served token) (nullable pd) w1) as H2.
  destruct (identity_of (nullable pd) w1) as [[reader listen] w2]. unfold bind at 1 in H.
  pose proof (heartbeat_asks (served token) bcfg (at_beat tk) (at_check tk) (nullable pd) true w2) as H3.
  destruct (_heartbeat _ _ _ _ _ _ w2) as [[] w3]. unfold bind at 1 in H. cbn [fst snd] in *.
  match type of H with context [calling ?a ?b ?c ?x w3] => destruct (calling a b c x w3) as [o w4] eqn:E end.
  apply calling_answer in E as [h E]. destruct o as [r0|e]; [|done]. injection H as <- <- <-.
  exists (w_wire w3), h, listen, reader. split; [|exact E].
  transitivity (w_wire w1); [exact H1|]. transitivity (w_wire w2); [exact H2|exact H3].
Qed.

(** Asking for the login's name changes nothing the server keeps. *)
Definition only_read (w w' : world) : Prop := wi_net (w_wire w) = [] → wi_net (w_wire w') = [] ∧ state_of w' = state_of w.

Lemma principal_only_reads token bcfg now w : only_read w (_get_principal_name (served token) bcfg now w).2.
Proof.
  unfold _get_principal_name. unfold bind at 1, the at 1. cbv beta iota.
  destruct (pc_fetched _); [done|]. destruct (negb _); [done|]. destruct (_ <? _); [done|]. unfold bind at 1, calling_bare.
  set (h := header_list _). intros Hn. pose proof (request_up (served token) ApiWhoami h (w_wire w) Hn) as Hup.
  pose proof (whoami_served token h (wi_server (w_wire w))) as Hw.
  destruct (_request (served token) ApiWhoami h (w_wire w)) as [o wi]. destruct Hup as (Hn' & Hs & _). rewrite <- Hs in Hw.
  destruct o; cbn; by rewrite ?Hw.
Qed.

Lemma partition_only_reads token bcfg now scope pd user project w :
  only_read w (resolve_partition_with_identity (served token) bcfg now scope pd user project w).2.
Proof.
  unfold resolve_partition_with_identity. unfold bind at 1, the at 1.
  destruct (remember_project_dir _ _ _) as [eff s]. unfold bind at 1, set_ at 1.
  match goal with |- context [if ?c then ensure_project_identity ?a ?b else ?e] =>
    destruct (if c then ensure_project_identity a b else e) as [gate fs] end.
  unfold bind at 1, set_ at 1. destruct gate; [|done]. unfold bind at 1.
  match goal with |- context [if ?c then _get_principal_name _ _ _ else _] => destruct c end.
  - match goal with |- context [_get_principal_name (served token) bcfg now ?w1] =>
      pose proof (principal_only_reads token bcfg now w1) as H1; destruct (_get_principal_name (served token) bcfg now w1) as [o w2] end.
    destruct (resolve_partition _ _ _ _ _ _) as [[sc us] pr]. exact H1.
  - unfold ret at 1. by destruct (resolve_partition _ _ _ _ _ _) as [[sc us] pr].
Qed.

(** Where a read that was answered made its request, over a network that is up. *)
Lemma get_inv token bcfg tk key scope pd project (w : world) p r w' : wi_net (w_wire w) = [] →
  memory_get_tool (served token) bcfg tk key scope pd project "" w = (Done (p, r), w') →
  ∃ s h, bk_state s = state_of w ∧
    served token _ (client_get key (se_namespace bcfg) (pm_scope p) (pm_user p) (pm_project p)) h s = (Done r, wi_server (w_wire w')) ∧
    (pm_scope p = "project" → pm_user p = "*").
Proof.
  intros Hn. unfold memory_get_tool, in_partition. unfold bind at 1. intros H.
  match type of H with context [resolve_partition_with_identity ?a ?b ?c ?d ?e ?f ?g w] =>
    pose proof (partition_only_reads token b c d e f g w Hn) as [Hn1 Hs1];
    destruct (resolve_partition_with_identity a b c d e f g w) as [o w1] end.
  cbn [snd] in *. destruct o as [[[sc us] pr]|e]; [|done]. set (q := readers_of "" (Means sc us pr)) in H.
  assert (pm_scope q = "project" → pm_user q = "*") as Hq.
  { unfold q, readers_of. cbn [pm_scope negb nonempty]. destruct (sc == "project") eqn:E; [done|]. cbn. intros ->.
    by rewrite bool_decide_eq_true_2 in E. }
  unfold bind at 1 in H.
  match type of H with context [calling ?a ?b ?c ?x w1] => destruct (calling a b c x w1) as [o w2] eqn:E end.
  apply calling_answer in E as [h E]. destruct o as [r0|e]; [|done]. injection H as <- <- <-.
  pose proof (request_up (served token) (client_get key (se_namespace bcfg) (pm_scope q) (pm_user q) (pm_project q)) h (w_wire w1) Hn1) as Hup.
  rewrite E in Hup. destruct Hup as (_ & Hs2 & Ho). exists (wi_server (w_wire w1)), h. split; [exact Hs1|]. split; [|exact Hq].
  destruct (served token _ _ h (wi_server (w_wire w1))) as [[y|e] s']; cbn in *; [|done]. injection Ho as <-. by rewrite Hs2.
Qed.

(** C16. What one session stores the next one reads. A store in the scope of a
    project that was answered, whatever its network did to the requests before
    it, leaves its value for any session of the project: the next exact read of
    its key, in any case, that is answered finds it with its writer's name,
    whoever reads, under whatever login and from whatever folder of the
    project. *)
Theorem handoff tokenA tokenB cfgA cfgB tkA tkB key key' value tags scopeA pdA projectA userA scopeB pdB projectB
    (wA wA' wB wB' : world) pA r pB g :
  wf (rs_table (state_of wA)) →
  memory_store (served tokenA) cfgA tkA key value tags scopeA pdA projectA userA wA = (Done (pA, r), wA') →
  wi_server (w_wire wB) = wi_server (w_wire wA') → wi_net (w_wire wB) = [] →
  memory_get_tool (served tokenB) cfgB tkB key' scopeB pdB projectB "" wB = (Done (pB, g), wB') →
  pm_scope pA = "project" → pm_scope pB = "project" → pm_project pB = pm_project pA → se_namespace cfgB = se_namespace cfgA →
  lower key' = lower key →
  ∃ m, g = GetFound m ∧ i_value m = value ∧ k_user (i_pk m) = lower (pm_user pA).
Proof.
  intros Hwf HA Hs Hn HB HsA HsB Hproj Hns Hk.
  apply store_inv in HA as (w1 & h & listen & reader & Hused & Hreq). apply request_last in Hreq as (k & _ & Hset).
  apply get_inv in HB as (sB & hB & HsB' & Hget & Huser); [|done]. rewrite Hs in HsB'. unfold client_store, client_get in *.
  match type of Hset with served _ _ _ _ ?s = _ => set (s1 := s) in Hset end.
  assert (wf (rs_table (bk_state s1))) as Hwf1.
  { apply iterated_wf. by apply (used_wf tokenA _ _ Hused). }
  apply store_served in Hset as (p & rq & key0 & created & version & Hv & Hset).
  apply get_served in Hget as (rqB & HvB & Hsays). injection HvB as <-. cbn [gt_namespace gt_key gt_scope gt_user_id gt_project bg_namespace
    bg_key bg_scope bg_user_id bg_project default user_or_default] in Hsays.
  unfold validate_set, checked in Hv. match type of Hv with (if ?c then _ else _) = _ => destruct c; [|done] end.
  injection Hv as <-. rewrite HsB, (Huser HsB), Hproj, Hns, HsB' in Hsays.
  destruct (write_read (clock (bk_served s1)) (clock (bk_served sB)) _ _ _ key' _ _ _ Hwf1 Hset) as (m & Hm & Hval & Hu);
    [cbn; by rewrite HsA|done|done|apply no_status|exact Hk|].
  cbn [set_args_of a_namespace a_key a_project a_value a_user_id st_namespace st_key st_project st_value st_user_id] in *.
  rewrite Hm in Hsays. exists m. split; [exact Hsays|]. split; [exact Hval|exact Hu].
Qed.
End server.

(** ** At work *)

Definition ex_settings_of (token : string) : settings := Settings token "notes" "" "project" ("nonce-" +:+ token) (None, "") true.

Definition ex_instants : instants := Instants 5000 5000 5010.

Abbreviation ex_served token :=
  (served ex_sha ex_checkpw ex_distance0 (λ _ _, 0%Q) (λ _, "") (λ n, 100 + Z.of_nat n) (λ n i, pretty (100 * n + i)%nat) ex_health
     ex_server token).

(** Sessions of one project on one machine: [ana]'s, named by its launcher, and
    [bo]'s, which has no name of its own. *)
Definition ex_first : Bridge.world := World (started (ex_bridge (Some "app-claude-2")) ex_disk) (Wire no_failures None [AnswerLost; Unreached] ex_backend []).

Definition ex_storing :=
  memory_store (ex_served "engram_a") (ex_settings_of "engram_a") ex_instants "Plan" "to the lighthouse" "" "project"
    "/home/ann/projects/app" "" "" ex_first.

Definition ex_second : Bridge.world :=
  World (started (ex_bridge None) ex_disk) (Wire no_failures None [] (wi_server (w_wire ex_storing.2)) []).

Definition ex_reading :=
  memory_get_tool (ex_served "engram_b") (ex_settings_of "engram_b") ex_instants "plan" "" "" "" "" ex_second.

Lemma handoff_witness : ∃ p g m, ex_reading.1 = Done (p, g) ∧ g = GetFound m ∧ i_value m = "to the lighthouse".
Proof.
  destruct ex_storing as [oA wA'] eqn:EA. destruct oA as [[pA r]|e]; [|vm_compute in EA; discriminate].
  destruct ex_reading as [oB wB'] eqn:EB. destruct oB as [[pB g]|e]; [|vm_compute in EB; discriminate].
  assert (pA = Means "project" "unknown" (Some "app")) as HA by (vm_compute in EA; congruence).
  assert (pB = Means "project" "*" (Some "app")) as HB by (vm_compute in EB; congruence).
  destruct (handoff ex_sha ex_checkpw ex_distance0 (λ _ _, 0%Q) (λ _, "") (λ n, 100 + Z.of_nat n) (λ n i, pretty (100 * n + i)%nat)
    ex_health ex_server "engram_a" "engram_b" (ex_settings_of "engram_a") (ex_settings_of "engram_b") ex_instants ex_instants
    "Plan" "plan" "to the lighthouse" "" "project" "/home/ann/projects/app" "" "" "" "" ""
    ex_first wA' ex_second wB' pA r pB g) as (m & Hg & Hm & _);
    [exact ex_state_wf|exact EA|unfold ex_second; rewrite EA; reflexivity|reflexivity|exact EB|by rewrite HA|by rewrite HB|by rewrite HA, HB|reflexivity|reflexivity|].
  exists pB, g, m. split; [reflexivity|]. split; [exact Hg|exact Hm].
Defined.

(** The answer to the question who the login is was lost: the row is stored
    under the name a session without a login falls back to, not under [ana]. *)
Lemma lost_name_stored : match ex_storing.1 with Done (p, _) => pm_user p | Raise _ => "" end = "unknown" ∧
  pc_fetched (br_principal (w_bridge ex_storing.2)) = false.
Proof. split; vm_compute; reflexivity. Qed.
