(* ===== verification/MailTools.v ===== *)
(** The mail tools of the bridge
    (src/integrations/claude-code/src/engram_mcp/server.py): sending, reading,
    acknowledging, answering and draining letters, the roster, and the state
    of the session.

    Answers hold the facts the reply's text is made of. The pattern that
    finds leaked markup is a matcher written out, alternatives in the order
    the regular expression tries them. *)

From stdpp Require Import base gmap list strings.
From Stdlib Require Import ZArith Lia Ascii.
From S2P Require Import Prelude PyString Json Store Auth Memory Inbox Scoping Session WatchClaim Seats Presence Send.
From S2P Require Import Requests MemoryRoutes InboxRoutes SessionRoutes Client Bridge Tools.

Open Scope Z_scope.
Open Scope tiding_scope.

(** ** Leaked markup *)

(** What may follow the next [close], the nearest first. *)
Fixpoint closings (close s : string) : list (string * string) :=
  match s with
  | EmptyString => match drop_prefix close "" with Some rest => [("", rest)] | None => [] end
  | String c s' =>
      (match drop_prefix close s with Some rest => [("", rest)] | None => [] end)
      ++ ((λ ir, (String c ir.1, ir.2)) <$> closings close s')
  end.

Definition blank (s : string) : bool := negb (nonempty (strip s)).

(** What may come last: the end of a call with whatever follows, or blanks. *)
Definition tail_ok (s : string) : bool := startswith "</invoke>" s || blank s.

(** A directory in its tags, or none, and the tail. *)
Definition dir_ok (s : string) : bool :=
  match drop_prefix "<project_dir>" s with
  | Some inner => existsb (λ ir, tail_ok (lstrip ir.2)) (closings "</project_dir>" inner)
  | None => false
  end || tail_ok s.

(** A subject in its tags, or none, and what follows: the subject, if there
    is one. *)
Definition subject_ok (s : string) : option (option string) :=
  let with_subject :=
    match drop_prefix "<subject>" s with
    | Some inner => fst <$> find (λ ir, dir_ok (lstrip ir.2)) (closings "</subject>" inner)
    | None => None
    end in
  match with_subject with
  | Some subject => Some (Some subject)
  | None => if dir_ok s then Some None else None
  end.

(** The leftmost match: the text before it and the subject leaked. *)
Fixpoint leak_search (s : string) : option (string * option string) :=
  match (match drop_prefix "</body>" s with Some rest => subject_ok (lstrip rest) | None => None end) with
  | Some subject => Some ("", subject)
  | None =>
      match s with
      | EmptyString => None
      | String c s' => (λ bs, (String c bs.1, bs.2)) <$> leak_search s'
      end
  end.

(** The body and the subject to send; whether something was stripped, and the
    subject salvaged. *)
Record cleaned := Cleaned { cn_body : string; cn_subject : string; cn_stripped : bool; cn_salvaged : bool }.

Definition _strip_leaked_markup (body subject : string) : cleaned :=
  match leak_search body with
  | None | Some (EmptyString, _) => Cleaned body subject false false
  | Some (before, leaked) =>
      let salvaged := strip (or_empty leaked) in
      Cleaned (rstrip before) (if nonempty subject then subject else salvaged) true (nonempty salvaged && negb (nonempty subject))
  end.

(** ** Sending *)

Inductive mail_error := NoRecipient | NoBody | NoMessageId | ParentNotFound | NoAuthor | MailFailed (e : fault).

(** One address, or the parts of a list with commas. *)
Definition address_list (to : string) : list string :=
  let t := strip to in
  if has_char "," t then select nonempty (strip <$> split_on "," t) else [t].

(** What a receipt shows: who signed, what the server said, what was cleaned. *)
Record receipt := Receipt { rt_reader : string; rt_sent : send_response; rt_cleaned : cleaned }.

(** The parts between commas and line breaks, each id once. *)
Fixpoint distinct (seen : list string) (l : list string) : list string :=
  match l with
  | [] => []
  | a :: rest => if a isin seen then distinct seen rest else a :: distinct (seen ++ [a]) rest
  end.

Definition ack_ids (message_id : string) : list string :=
  distinct [] (select nonempty (strip <$> split_on "," (replace_char "010"%char ","%char message_id))).

(** ** The roster's reading of an entry *)

Inductive ear :=
| CertifiedDead (d : death)
| SeenToExit (at_ : json)
| BeatsAndOwns
| BeatsUnowned (st : watch_state)
| WatcherQuiet
| NoWatcherKnown.

Definition ear_of (e : entry) : ear :=
  match e_death e with
  | Some d => CertifiedDead d
  | None =>
      if jtruthy (e_farewell_at e) then SeenToExit (e_farewell_at e)
      else match e_watcher_alive e with
           | Some true => match view_state (e_watch e) with Covered => BeatsAndOwns | st => BeatsUnowned st end
           | Some false => WatcherQuiet
           | None => NoWatcherKnown
           end
  end.

Definition exited (e : entry) : bool := match ear_of e with CertifiedDead _ | SeenToExit _ => true | _ => false end.
Definition unowned (e : entry) : bool := match ear_of e with BeatsUnowned _ => true | _ => false end.
Definition deaf (e : entry) : bool := match ear_of e with WatcherQuiet => negb (e_is_stale e) | _ => false end.

Definition SHARED_ROLE_IDENTITIES : list string := [ADMIN_NAME].

(** The address an entry is printed with: a shared role's names the box of the
    beat, the other boxes it was seen on apart. *)
Definition shown_address (e : entry) : string * list string :=
  match e_host e with
  | JStr host =>
      if (e_identity e isin SHARED_ROLE_IDENTITIES) && nonempty host
      then (e_identity e +:+ "@" +:+ host, select (λ h, h != host) (e_hosts_seen e)) else (e_identity e, [])
  | _ => (e_identity e, [])
  end.

Record roster_line := RosterLine { rn_address : string; rn_elsewhere : list string; rn_age : Z; rn_stale : bool; rn_ear : ear; rn_clash : bool }.

Record roster_page := RosterPage {
  rp_lines : list roster_line;
  rp_deaf : list string;
  rp_unowned : list string;
  rp_exited : list string;
  rp_clashes : list string
}.

Definition page_of (entries : list entry) : roster_page :=
  RosterPage ((λ e, RosterLine (shown_address e).1 (shown_address e).2 (e_age e) (e_is_stale e) (ear_of e) (e_collision e)) <$> entries)
    (e_identity <$> select deaf entries) (e_identity <$> select unowned entries) (e_identity <$> select exited entries)
    (e_identity <$> select e_collision entries).

(** ** The state of the session *)

Inductive claim_line := ClaimOk | ClaimFailing (n : Z) (e : option claim_error) | NotAttempted.
Inductive stream_line := StreamCovered (seat : option string) | ByLauncher (st : option watch_state) | NotCovered (st : option watch_state) | NoWatcher.

Record status_facts := StatusFacts {
  sf_health : health_response;
  sf_claim : claim_line;
  sf_stream : stream_line;
  sf_renamed : option (string * string)     (* the declared name, the current one *)
}.

Definition claim_line_of (h : seat_health) : claim_line :=
  if sh_claimed h && (sh_failures h =? 0) then ClaimOk
  else if negb (sh_failures h =? 0) then ClaimFailing (sh_failures h) (sh_last_error h) else NotAttempted.

Section tools.
Context {Srv : Type} (serve : ∀ A, api A → headers → Srv → outcome refusal A * Srv) (cfg : settings).

Notation "'let*' x := m 'in' k" := (bind m (λ x, k)) (at level 10, x pattern, m at level 100, k at level 200).

Abbreviation M := (M (Srv := Srv)).

Definition mailed {A B} (f : A → B) (o : outcome fault A) : outcome mail_error B :=
  match o with Done r => Done (f r) | Raise e => Raise (MailFailed e) end.

(** Who signs is settled before the beat, the lane after it. *)
Definition memory_send (tk : instants) (to body subject thread_id intent supersedes project_dir : string)
  : M (outcome mail_error receipt) :=
  if blank to then ret (Raise NoRecipient)
  else if blank body then ret (Raise NoBody)
  else
    let pd := nullable project_dir in
    let clean := _strip_leaked_markup body subject in
    let* (reader, listen_set) := identity_of pd in
    let* _ := _heartbeat serve cfg (at_beat tk) (at_check tk) pd true in
    let* lane := the (λ b, sender_lane (br_env b) pd (br_session b)) in
    let* o := calling serve cfg pd
                (inbox_send (address_list to) (cn_body clean) (cn_subject clean) (Some reader) (nullable thread_id)
                   (nullable (strip intent)) (nullable (strip supersedes)) (Some listen_set) (Some lane) None) in
    ret (mailed (λ r, Receipt reader r clean) o).

(** ** Reading *)

Definition memory_inbox (tk : instants) (unread_only : bool) (limit : Z) (include_resolved : bool) (project_dir : string)
  : M (outcome mail_error (string * list string * list_response)) :=
  let pd := nullable project_dir in
  let* (reader, listen_set) := identity_of pd in
  let* _ := _heartbeat serve cfg (at_beat tk) (at_check tk) pd true in
  let* o := calling serve cfg pd (client_inbox_list listen_set (Some reader) unread_only limit false include_resolved) in
  ret (mailed (pair (reader, listen_set)) o).

(** ** Acknowledging *)

(** One request per id; a failed one does not stop the rest. *)
Fixpoint ack_each (pd : option string) (reader : string) (ids : list string) : M (list string * list (string * fault)) :=
  match ids with
  | [] => ret ([], [])
  | id :: rest =>
      let* o := calling serve cfg pd (ApiAck id reader) in
      let* (acked, failed) := ack_each pd reader rest in
      ret (match o with
           | Done got => ((if nonempty got then got else id) :: acked, failed)
           | Raise e => (acked, (id, e) :: failed)
           end)
  end.

Definition memory_ack (message_id project_dir : string) : M (outcome mail_error (string * list string * list (string * fault))) :=
  let pd := nullable project_dir in
  let* (reader, _) := identity_of pd in
  match ack_ids message_id with
  | [] => ret (Raise NoMessageId)
  | ids =>
      let* (acked, failed) := ack_each pd reader ids in
      ret (Done (reader, acked, failed))
  end.

(** ** Answering *)

Definition parent_of (m : inbox_message) : parent :=
  Parent (m_id m) (m_to m) (m_from m) (m_from_principal m) (m_from_project m) (m_from_lane m) (m_participants m) (m_thread_id m)
    (m_intent m).

Definition reply_names (t : reply_target) : list string := match t with ToOne a => [a] | ToGroup l => l end.

(** The parent is looked for among what the session hears, the letter sent,
    the parent acknowledged. *)
Definition memory_reply_call (message_id body subject intent project_dir : string) : M (outcome mail_error (reply * receipt)) :=
  let pd := nullable project_dir in
  let* (reader, listen_set) := identity_of pd in
  let* listed := calling serve cfg pd (client_inbox_list listen_set (Some reader) false 200 false false) in
  match listed with
  | Raise e => ret (Raise (MailFailed e))
  | Done l =>
      match find (λ m, m_id m == message_id) (rl_messages l) with
      | None => ret (Raise ParentNotFound)
      | Some m =>
          let* b := the id in
          match memory_reply (br_env b) (br_session b) reader (nullable intent) (parent_of m) with
          | None => ret (Raise NoAuthor)
          | Some rp =>
              let clean := _strip_leaked_markup body subject in
              let* sent := calling serve cfg pd
                  (inbox_send (reply_names (rp_to rp)) (cn_body clean)
                     (if nonempty (cn_subject clean) then cn_subject clean else "re: " +:+ m_subject m) (Some reader)
                     (Some (rp_thread rp)) (rp_intent rp) None (Some listen_set)
                     (Some (sender_lane (br_env b) pd (br_session b))) (Some (rp_in_reply_to rp))) in
              match sent with
              | Raise e => ret (Raise (MailFailed e))
              | Done r =>
                  let* o := calling serve cfg pd (ApiAck message_id reader) in
                  ret (mailed (λ _, (rp, Receipt reader r clean)) o)
              end
          end
      end
  end.

(** ** Draining *)

Definition memory_inbox_archive (message_id project_dir : string) : M (outcome fault string) :=
  let* (reader, _) := identity_of (nullable project_dir) in
  calling serve cfg (nullable project_dir) (ApiArchive message_id reader).

Definition memory_resolve (message_id project_dir : string) : M (outcome fault string) :=
  let* (reader, _) := identity_of (nullable project_dir) in
  calling serve cfg (nullable project_dir) (ApiResolve message_id reader).

Definition memory_resolve_thread (thread_id project_dir : string) : M (outcome fault nat) :=
  let* (reader, listen_set) := identity_of (nullable project_dir) in
  calling serve cfg (nullable project_dir) (ApiResolveThread thread_id listen_set (Some reader)).

(** ** Looking around *)

Definition memory_roster (tk : instants) (project channel : string) (include_done : bool) (project_dir : string)
  : M (outcome fault roster_page) :=
  let pd := nullable project_dir in
  let* _ := _heartbeat serve cfg (at_beat tk) (at_check tk) pd true in
  let* o := calling serve cfg pd (client_roster (nullable (strip project)) (nullable (strip channel)) include_done) in
  ret (match o with Done r => Done (page_of r.1) | Raise e => Raise e end).

(** An old server, or none to be reached, says nothing. *)
Definition _project_rename_line (project_dir : option string) : M (option (string * string)) :=
  let* env := the br_env in
  match resolve_project_name (ev_fs env) project_dir with
  | Some declared =>
      if nonempty declared then
        let* o := calling_bare serve (ApiProject declared) in
        ret (match o with
             | Done (_, canonical, true, _) => Some (declared, or_empty canonical)
             | _ => None
             end)
      else ret None
  | None => ret None
  end.

(** The wake stream is measured anew; [getcwd] is the process's directory. *)
Definition memory_status (tk : instants) (by_launcher : bool) (getcwd : string) : M (outcome fault status_facts) :=
  let* o := calling_bare serve ApiHealth in
  match o with
  | Raise e => ret (Raise e)
  | Done health =>
      let* claim := the (λ b, claim_line_of (br_seat b)) in
      let* on := the br_supervised in
      let* stream :=
        (if on then
           let* _ := set_ (λ b, with_watch (WatchView (wv_state (br_watch b)) 0 (wv_seat (br_watch b))) b) in
           let* _ := _refresh_watch_state serve cfg (at_check tk) None in
           let* v := the br_watch in
           ret (match wv_state v with
                | Some Covered => StreamCovered (wv_seat v)
                | st => if by_launcher then ByLauncher st else NotCovered st
                end)
         else ret NoWatcher) in
      let* renamed := _project_rename_line (Some getcwd) in
      ret (Done (StatusFacts health claim stream renamed))
  end.
End tools.
