(* ===== verification/MailToolsProps.v ===== *)
(** The mail tools at work against the server: a letter sent is a letter read;
    what leaks into a letter is cut off; a batch is acknowledged id by id; what
    the order of a tool's steps costs. *)

From stdpp Require Import base gmap list strings pretty.
From Stdlib Require Import ZArith QArith Lia Ascii.
From S2P Require Import Prelude PyString Json Store Identity ProjectAlias AddressRoles Principals Auth Memory Search Inbox InboxProps.
From S2P Require Import Scoping ScopingProps Session SessionProps WatchClaim Seats Presence Delivery Send SendProps.
From S2P Require Import Requests MemoryRoutes MemoryRoutesProps InboxRoutes SessionRoutes.
From S2P Require Import Edits Client ClientProps Endpoints EndpointsProps Bridge BridgeProps Tools ToolsProps MailTools.

Open Scope Z_scope.
Open Scope tiding_scope.

(** ** Letters *)

(** The letter [a] says, kept under [id] and as it was written. *)
Definition unread (id : string) (a : send_args) (r : row) : Prop :=
  r_pk r = PKey INBOX_NAMESPACE id INBOX_SCOPE (lower (sd_to a)) None ∧ r_value r = _strip_toolcall_trailer (sd_body a) ∧
  r_meta r = Some (mail_meta a).

Lemma unread_matches id a r listen reader unread_only resolved : unread id a r → lower (sd_to a) ∈ listen →
  list_match listen reader unread_only resolved r = true.
Proof.
  intros (Hpk & _ & Hm) Hin. unfold list_match, is_mail, is_archived, is_open, read_by. rewrite Hpk, Hm. cbn [k_ns k_scope k_user].
  rewrite (bool_decide_eq_true_2 (_ ∈ listen)) by done. by destruct resolved, unread_only, reader.
Qed.

(** What a listing shows of it. *)
Lemma unread_shown t id a r : unread id a r → let m := mark_handled_one t (_row_to_inbox_message r) in
  m_id m = id ∧ m_to m = lower (sd_to a) ∧ m_body m = _strip_toolcall_trailer (sd_body a) ∧ m_from m = py_str (Some (mail_meta a)) "from".
Proof.
  intros (Hpk & Hv & Hm). cbv zeta. set (m0 := _row_to_inbox_message r).
  assert (m_id m0 = id ∧ m_to m0 = lower (sd_to a) ∧ m_body m0 = _strip_toolcall_trailer (sd_body a) ∧
    m_from m0 = py_str (Some (mail_meta a)) "from") as H0.
  { unfold m0, _row_to_inbox_message. rewrite Hpk, Hv, Hm. by split_and!. }
  unfold mark_handled_one. repeat case_match; exact H0.
Qed.

(** A message that supersedes none only adds its letters. *)
Lemma letters_added now args targets uids i t ids t' : (∀ first a, truthy (sd_supersedes (args first a)) = false) →
  (∀ first a, sd_to (args first a) = a) → send_letters now args targets uids i t = Done (ids, t') →
  (∀ r, r ∈ t_rows t → r ∈ t_rows t') ∧ length ids = length targets ∧
  ∀ a, a ∈ targets → ∃ first id r, id ∈ ids ∧ r ∈ t_rows t' ∧ unread id (args first a) r.
Proof.
  intros Hs Hto. revert i t ids. induction targets as [|a targets IH]; intros i t ids.
  - intros [= <- <-]. split_and!; [done|done|]. by intros a ?%elem_of_nil.
  - cbn [send_letters]. unfold Inbox.inbox_send at 1. rewrite Hs. set (n := NewRow _ _ _ _ _ _ _ _). unfold sql_insert_nothing.
    destruct (sql_find (n_pk n) t); [done|]. cbn [fst snd]. set (t1 := sql_append now n t).
    destruct (send_letters now args targets uids (S i) t1) as [[ids1 t2]|t2] eqn:E; [|done]. cbn [obind]. intros [= <- <-].
    destruct (IH _ _ _ E) as (Hkeep & Hlen & Hin).
    assert (∀ r, r ∈ t_rows t1 ↔ r ∈ t_rows t ∨ r = mk_row (t_seq t) now n) as Happ by (intros; apply elem_of_append).
    split_and!; [intros r Hr; apply Hkeep, Happ; by left|cbn; lia|]. intros b [->|Hb]%elem_of_cons.
    + exists (i =? 0)%nat, (mail_key (uids i)), (mk_row (t_seq t) now n). split; [by left|]. split; [apply Hkeep, Happ; by right|].
      split_and!; [|done|done]. cbn. by rewrite Hto.
    + destruct (Hin b Hb) as (first & id & r & Hid & Hr & Hu). exists first, id, r. split; [by right|done].
Qed.

(** The ids a receipt names. *)
Definition ids_of (r : send_response) : list string := default [sr_id r] (sr_ids r).

(** The address a recipient goes by now. *)
Definition current (aliases : gmap string string) (c : string) : string := or_empty (canonical_address aliases (Some c)).

(** What of a message that answers none and supersedes none is delivered. *)
Lemma send_delivers iso cfg aliases roles people now p pv rq uids tid t resp t' :
  truthy (sq_supersedes rq) = false → truthy (sq_in_reply_to rq) = false →
  send_inbox iso cfg aliases roles people now p pv rq uids tid t = (Sent resp, t') →
  ∃ cs, autocorrect_all (sq_to rq) = Done cs ∧ ∀ c, c ∈ cs → ∃ id a r, id ∈ ids_of resp ∧ r ∈ t_rows t' ∧ unread id a r ∧
    sd_to a = current aliases c.1 ∧ sd_body a = sq_body rq ∧ sd_from a = au_label (authorship_of cfg p rq).
Proof.
  intros Hsup Hrep E. apply send_cases in E as [(_ & why & ? & _)|(corrected & notes & retarget & [_ (cs & renamed & Hcs & _ & Hren & Hret) _ _ _] & E)];
    [done|]. exists cs. split; [done|]. intros c Hc.
  unfold retargeted in Hret. rewrite Hrep in Hret. assert (corrected = renamed) as -> by (destruct renamed as [|[] []]; by injection Hret).
  assert (current aliases c.1 ∈ fst <$> renamed) as Hin.
  { pose proof (rename_all_spec aliases cs) as [_ H]. rewrite Hren in H. apply H. by exists c. }
  unfold deliver in E. cbv zeta in E. destruct (send_letters _ _ _ _ _ _) as [[ids t2]|t2] eqn:Es; [|done].
  injection E as <- <-. apply letters_added in Es as (_ & Hlen & Hall); [|by intros [] a; cbn|done].
  destruct (Hall _ Hin) as (first & id & r & Hid & Hr & Hu).
  exists id. eexists. exists r. split; [|split; [exact Hr|split; [exact Hu|by split_and!]]].
  unfold ids_of. cbn [sr_ids sr_id]. destruct ids as [|i [|j ids]]; [by apply elem_of_nil in Hid|exact Hid|exact Hid].
Qed.

(** A letter signed with a name, by any login. *)
Lemma author_named cfg p rq from : sq_from rq = given (Some from) → nonempty (strip from) = true →
  au_label (authorship_of cfg p rq) = Some (strip from).
Proof.
  intros Hq Hn. assert (∀ z, py_or (nullable (strip (or_empty (sq_from rq)))) z = Some (strip from)) as Hown.
  { intros z. rewrite Hq. unfold given. assert (truthy (Some from) = true) as -> by (by destruct from).
    change (or_empty (Some from)) with from. unfold nullable. rewrite Hn. unfold py_or. by destruct (strip from). }
  unfold authorship_of. cbv zeta. repeat case_match; apply Hown.
Qed.

(** Names spelled alike but for case and blanks are one. *)
Lemma distinct_cover seen names x : x ∈ names →
  lower (strip x) ∈ seen ∨ ∃ y, y ∈ distinct_names seen names ∧ lower (strip y) = lower (strip x).
Proof.
  revert seen. induction names as [|a names IH]; intros seen; [by intros ?%elem_of_nil|]. cbn [distinct_names].
  intros [->|Hx]%elem_of_cons.
  - destruct (lower (strip a) isin seen) eqn:E; [left; by apply bool_decide_eq_true in E|right].
    exists (strip a). split; [by left|]. by rewrite strip_idem.
  - destruct (lower (strip a) isin seen) eqn:E; [by apply IH|].
    destruct (IH (lower (strip a) :: seen) Hx) as [Hs|(y & Hy & Hl)].
    + apply elem_of_cons in Hs as [Hs|Hs]; [right|by left]. exists (strip a). split; [by left|]. by rewrite strip_idem.
    + right. exists y. split; [by right|done].
Qed.

Lemma autocorrect_spelling x y : lower (strip x) = lower (strip y) → autocorrect_address x = autocorrect_address y.
Proof.
  intros H. unfold autocorrect_address, validate_address. rewrite H.
  assert (nonempty (strip x) = nonempty (strip y)) as -> by (by rewrite <- (nonempty_lower (strip x)), H, nonempty_lower). done.
Qed.

Lemma autocorrect_each raw cs x : autocorrect_all raw = Done cs → x ∈ raw → ∃ c, autocorrect_address x = Done c ∧ c ∈ cs.
Proof.
  revert cs. induction raw as [|a raw IH]; intros cs; [by intros _ ?%elem_of_nil|]. cbn [autocorrect_all].
  destruct (autocorrect_address a) as [c|e] eqn:E; [|done]. cbn [obind].
  destruct (autocorrect_all raw) as [cs1|e]; [|done]. cbn [obind]. intros [= <-] [->|Hx]%elem_of_cons.
  - exists c. split; [done|by left].
  - destruct (IH _ eq_refl Hx) as (d & Hd & Hin). exists d. split; [done|by right].
Qed.

(** A listen set that is let through, without case and blanks. *)
Lemma listened listen l : validate_listen_set (Some listen) = Done l → l = (λ x, lower (strip x)) <$> listen.
Proof.
  cbn. revert l. induction listen as [|a listen IH]; intros l; [by intros [= <-]|]. cbn [validate_listen].
  destruct (validate_address a) as [b|e] eqn:E; [|done]. apply validate_address_Done in E as (-> & _). cbn [obind].
  destruct (validate_listen listen) as [bs|e]; [|done]. cbn [obind]. intros [= <-]. cbn. f_equal. by apply IH.
Qed.

(** A listing that is answered is the mailbox's. *)
Lemma listing_answered expand cfg now p b s : ends (list_inbox expand cfg now p b) s (λ r _, ∀ y, r = Done y →
  rl_messages y = (inbox_list expand ((λ x, lower (strip x)) <$> bl_listen_set b) (bl_reader_identity b) (bl_unread_only b)
    (Z.to_nat (bl_limit b)) (bl_include_resolved b) (bl_newest_first b) (bl_unhandled_only b) (bl_mark_delivered b) (rs_table s)).1).
Proof.
  unfold list_inbox. apply (ends_passed _ _ s (λ y _, _ = _)); [apply member_check|intros _].
  apply ends_bind. unfold ends at 1, listening_on. destruct (validate_listen_set _) as [l|e] eqn:El; [|done].
  apply listened in El as ->. case_match; go; [|done]. destruct (inbox_list _ _ _ _ _ _ _ _ _ _) as [ms t']. go. by intros y [= <-].
Qed.

(** ** A letter sent is a letter read *)

Section server.
Context (sha256 : string → string) (checkpw : string → string → bool).
Context (distance : vectors) (similarity : string → string → Q) (iso : Z → string).
Context (clock : nat → Z) (draw : nat → nat → string) (health : health_response) (cfg : server_settings).

Abbreviation served := (served sha256 checkpw distance similarity iso clock draw health cfg).
Abbreviation aliases := (sv_aliases cfg).
Abbreviation expand := (expand_listen_set aliases (λ a, roles_held_by (sv_roles cfg) (Some a))).
Abbreviation world := (world (Srv := backend)).
Abbreviation table_at w := (rs_table (bk_state (wi_server (w_wire w)))) (only parsing).

(** Where a letter that was sent made its request. *)
Lemma send_inv token bcfg tk to body subject thread intent sup pd (w : world) rc w' :
  memory_send (served token) bcfg tk to body subject thread intent sup pd w = (Done rc, w') →
  rt_cleaned rc = _strip_leaked_markup body subject ∧ ∃ w1 h listen lane,
    _request (served token) (inbox_send (address_list to) (cn_body (rt_cleaned rc)) (cn_subject (rt_cleaned rc)) (Some (rt_reader rc))
      (nullable thread) (nullable (strip intent)) (nullable (strip sup)) (Some listen) (Some lane) None) h w1 = (Done (rt_sent rc), w_wire w').
Proof.
  unfold memory_send. destruct (blank to); [done|]. destruct (blank body); [done|]. cbv zeta.
  unfold bind at 1. destruct (identity_of (nullable pd) w) as [[reader listen] w1]. unfold bind at 1.
  destruct (_heartbeat _ _ _ _ _ _ w1) as [[] w2]. unfold bind at 1, the at 1. cbv beta iota. unfold bind at 1.
  match goal with |- context [calling ?a ?b ?c ?x w2] => destruct (calling a b c x w2) as [o w3] eqn:E end.
  apply calling_answer in E as [h E]. destruct o as [r|e]; [|done]. intros [= <- <-]. cbn [rt_cleaned rt_reader rt_sent].
  split; [done|]. eauto.
Qed.

(** A letter that was sent stands in the table, for each address named. *)
Lemma send_served token to body subject from thread intent sup listen lane h s r s' :
  truthy sup = false →
  served token _ (inbox_send to body subject (Some from) thread intent sup listen lane None) h s = (Done r, s') →
  ∀ x c o, x ∈ to → autocorrect_address x = Done (c, o) →
  ∃ id a y, id ∈ ids_of r ∧ y ∈ t_rows (rs_table (bk_state s')) ∧ unread id a y ∧ sd_to a = current aliases c ∧ sd_body a = body ∧
    (nonempty (strip from) = true → sd_from a = Some (strip from)).
Proof.
  intros Hsup (p & H)%served_answered x c o Hx Hc. cbn [api_route inbox_send] in H. unfold body_checked, validate_send in H.
  cbn [sq_to to_not_empty] in H. unfold to_not_empty, checked in H.
  destruct (_ && forallb _ _); [|done]. match type of H with (match (if ?c then _ else _) with _ => _ end) _ = _ => destruct c; [|done] end.
  unfold send_route in H. match type of H with context [send_inbox ?a ?b ?c ?d ?e ?f ?g ?h ?i ?j ?k ?t] =>
    destruct (send_inbox a b c d e f g h i j k t) as [ans t'] eqn:E end.
  destruct ans as [resp|why]; [|done]. injection H as <- <-. cbn [rs_table bk_state].
  apply send_delivers in E as (cs & Hcs & Hall); [|unfold given; cbn [sq_supersedes]; by rewrite Hsup|done].
  cbn [sq_to] in Hcs. destruct (distinct_cover [] to x Hx) as [Hno|(y & Hy & Hl)]; [by apply elem_of_nil in Hno|].
  rewrite (autocorrect_spelling x y) in Hc by done. destruct (autocorrect_each _ _ _ Hcs Hy) as (d & Hd & Hin).
  rewrite Hc in Hd. injection Hd as <-. destruct (Hall _ Hin) as (id & a & z & Hid & Hz & Hu & Hto & Hb & Hf).
  exists id, a, z. split_and!; [done..|]. intros Hn. rewrite Hf. by apply author_named.
Qed.

(** A listing over a network that is up, by a session whose beat is not due. *)
Lemma inbox_inv token bcfg tk unread_only limit resolved pd (w : world) reader listen l w' :
  wi_net (w_wire w) = [] → beat_due (at_beat tk) true (br_last_heartbeat (w_bridge w)) (br_last_activity (w_bridge w)) = false →
  memory_inbox (served token) bcfg tk unread_only limit resolved pd w = (Done (reader, listen, l), w') →
  ∃ h s', served token _ (client_inbox_list listen (Some reader) unread_only limit false resolved) h (wi_server (w_wire w)) = (Done l, s').
Proof.
  intros Hn Hbeat. unfold memory_inbox. cbv zeta. unfold bind at 1.
  assert (∀ v : world, w_wire (identity_of (nullable pd) v).2 = w_wire v ∧
    br_last_heartbeat (w_bridge (identity_of (nullable pd) v).2) = br_last_heartbeat (w_bridge v) ∧
    br_last_activity (w_bridge (identity_of (nullable pd) v).2) = br_last_activity (w_bridge v)) as Hid.
  { intros v. unfold identity_of. by destruct (compute_identity _ _ _ _). }
  specialize (Hid w). destruct (identity_of (nullable pd) w) as [[rd ls] w1]. cbn [snd] in Hid. destruct Hid as (Hw & Hb & Ha).
  unfold bind at 1. assert (_heartbeat (served token) bcfg (at_beat tk) (at_check tk) (nullable pd) true w1 = (tt, w1)) as ->.
  { unfold _heartbeat. unfold bind at 1, the at 1. unfold bind at 1, the at 1. rewrite Hb, Ha. by rewrite Hbeat. }
  unfold bind at 1. match goal with |- context [calling ?a ?b ?c ?x w1] => destruct (calling a b c x w1) as [o w2] eqn:E end.
  apply calling_answer in E as [h E]. destruct o as [r|e]; [|done]. intros [= <- <- <- <-]. rewrite Hw in E.
  match type of E with _request _ ?x _ _ = _ => pose proof (request_up (served token) x h (w_wire w) Hn) as Hup end.
  rewrite E in Hup. destruct Hup as (_ & _ & Ho). exists h.
  destruct (served token _ _ h (wi_server (w_wire w))) as [[y|f] s']; cbn in Ho; [|done]. injection Ho as ->. by exists s'.
Qed.

(** What a listing answered by the server holds. *)
Lemma inbox_served token listen reader unread_only limit resolved h s l s' :
  served token _ (client_inbox_list listen reader unread_only limit false resolved) h s = (Done l, s') → listen ≠ [] →
  let rows := inbox_rows (reader_set expand ((λ x, lower (strip x)) <$> listen)) reader unread_only (Z.to_nat limit) resolved false
                (rs_table (bk_state s)) in
  rl_messages l = mark_handled_one (rs_table (bk_state s)) <$> (_row_to_inbox_message <$> rows).
Proof.
  intros (p & H)%served_answered Hne. cbn [api_route client_inbox_list] in H. unfold body_checked, validate_list, checked in H.
  match type of H with (match (if ?c then _ else _) with _ => _ end) _ = _ => destruct c; [|done] end.
  match type of H with list_inbox ?a ?b ?c ?d ?e ?f = _ => pose proof (listing_answered a b c d e f) as Hl end.
  unfold ends in Hl. rewrite H in Hl. rewrite (Hl l eq_refl). unfold inbox_list. cbn [bl_listen_set].
  rewrite bool_decide_eq_false_2 by (by destruct listen). done.
Qed.

(** C10. A letter sent is a letter read. After a session's send that was answered,
    whatever its network did to the requests before, take any session whose
    beat is not due and that listens, under the aliases and roles of the
    server, to where one of the named addresses goes by now: its next listing
    that is answered shows the letter, with the text that was sent, less what
    leaked into it, under an id of the receipt and by the name the receipt
    says it was signed with; unless the page is full. *)
Theorem letter_read tokenA tokenB cfgA cfgB tkA tkB to body subject thread intent sup pdA unread_only limit resolved pdB
    (wA wA' wB wB' : world) rc reader listen l x c o :
  memory_send (served tokenA) cfgA tkA to body subject thread intent sup pdA wA = (Done rc, wA') → strip sup = "" →
  wi_server (w_wire wB) = wi_server (w_wire wA') → wi_net (w_wire wB) = [] →
  beat_due (at_beat tkB) true (br_last_heartbeat (w_bridge wB)) (br_last_activity (w_bridge wB)) = false →
  memory_inbox (served tokenB) cfgB tkB unread_only limit resolved pdB wB = (Done (reader, listen, l), wB') →
  x ∈ address_list to → autocorrect_address x = Done (c, o) →
  let box := lower (current aliases c) in
  box ∈ reader_set expand ((λ y, lower (strip y)) <$> listen) →
  (∃ m, m ∈ rl_messages l ∧ m_id m ∈ ids_of (rt_sent rc) ∧ m_to m = box ∧
     m_body m = _strip_toolcall_trailer (cn_body (_strip_leaked_markup body subject)) ∧
     (nonempty (strip (rt_reader rc)) = true → m_from m = Some (strip (rt_reader rc)))) ∨
  length (rl_messages l) = Z.to_nat limit.
Proof.
  intros HA Hsup Hs Hn Hbeat HB Hx Hc box Hbox.
  apply send_inv in HA as (Hclean & w1 & h & ls & lane & Hreq). apply request_last in Hreq as (k & _ & Hset).
  eapply send_served in Hset as (id & a & y & Hid & Hy & Hu & Hto & Hb & Hf); [|by rewrite Hsup|exact Hx|exact Hc].
  apply inbox_inv in HB as (hB & sB & HB); [|done..]. rewrite Hs in HB.
  apply inbox_served in HB; [|intros ->; by apply elem_of_nil in Hbox]. cbv zeta in HB. set (t := rs_table _) in *.
  match type of HB with _ = _ <$> (_ <$> inbox_rows ?a ?b ?c ?d ?e ?f ?g) => set (ls2 := a) in *; set (lim := d) in *;
    destruct (decide (sql_count (list_match a b c e) t ≤ d)%nat) as [Hle|Hgt] end.
  - left. assert (lower (sd_to a) ∈ ls2) as Hin by (by rewrite Hto).
    pose proof (unread_matches id a y ls2 (Some reader) unread_only resolved Hu Hin) as Hm.
    pose proof (unread_shown t id a y Hu) as (H1 & H2 & H3 & H4).
    exists (mark_handled_one t (_row_to_inbox_message y)). split.
    + rewrite HB. apply list_elem_of_fmap_2, list_elem_of_fmap_2. by apply inbox_rows_all.
    + rewrite H1, H2, H3, H4, Hto, Hb, <- Hclean. split_and!; [done..|]. intros Hr.
      assert (py_str (Some (mail_meta a)) "from" = sd_from a) as -> by (unfold py_str; cbn; by destruct (sd_from a)). by apply Hf.
  - right. rewrite HB, !length_fmap, length_inbox_rows.
    fold ls2 lim in Hgt. lia.
Qed.
(** ** An acknowledged letter stays away *)

(** No letter [id] that [who] has not read. *)
Definition has_read (who id : string) (t : table) : Prop := ∀ r, r ∈ t_rows t → is_message id r = true → read_by who r = true.

Lemma ack_has_read who id t : has_read who id (inbox_ack id who t).2.
Proof.
  intros r (x & Hx & ->)%elem_of_update_where Hm. destruct (is_message id x) eqn:E; [|by rewrite E in Hm].
  unfold read_by. cbn [set_meta r_meta]. apply ack_meta_read.
Qed.

Lemma ack_keeps_read who id id' t : has_read who id t → has_read who id (inbox_ack id' who t).2.
Proof.
  intros H r (x & Hx & ->)%elem_of_update_where Hm. destruct (is_message id' x) eqn:E; [|by apply H].
  unfold read_by. cbn [set_meta r_meta]. apply ack_meta_read.
Qed.

Lemma ack_tables p id reader s : ends (ack_inbox (ss_auth (sv_send cfg)) p id reader) s (λ r s',
  (rs_table s' = rs_table s ∨ rs_table s' = (inbox_ack id reader (rs_table s)).2) ∧
  ∀ y, r = Done y → y = id ∧ rs_table s' = (inbox_ack id reader (rs_table s)).2).
Proof.
  unfold ack_inbox, on_message. apply ends_bind. eapply ends_mono; [apply member_check|].
  intros [x|e] s1 ->; [|split; [by left|done]]. go. destruct (inbox_ack id reader (rs_table s)) as [found t'] eqn:E. go.
  cbn [snd]. destruct found; go; (split; [by right|]); [by intros y [= <-]|done].
Qed.

(** An acknowledgement, carried out or refused. *)
Lemma ack_served token id reader h s : let '(o, s') := served token _ (ApiAck id reader) h s in
  (∀ a, has_read (strip reader) a (rs_table (bk_state s)) → has_read (strip reader) a (rs_table (bk_state s'))) ∧
  ∀ y, o = Done y → y = id ∧ has_read (strip reader) id (rs_table (bk_state s')).
Proof.
  unfold served. destruct (dispatch _ _ _ _ _ _ _) as [[p src| | |] logins]; try (by split).
  cbn [api_route]. unfold body_checked, reader_not_empty, checked. destruct (nonempty (strip reader)); [|by split].
  pose proof (ack_tables p id (strip reader) (bk_state s)) as H. unfold ends in H.
  destruct (ack_inbox _ p id (strip reader) (bk_state s)) as [o st]. cbn [bk_state]. destruct H as [Ht Hd]. split.
  - intros a Ha. destruct Ht as [->| ->]; [done|]. by apply ack_keeps_read.
  - intros y Hy. destruct (Hd y Hy) as [-> ->]. split; [done|]. apply ack_has_read.
Qed.

Lemma ack_request token id reader h (w w' : wire backend) o : _request (served token) (ApiAck id reader) h w = (o, w') →
  (∀ a, has_read (strip reader) a (rs_table (bk_state (wi_server w))) → has_read (strip reader) a (rs_table (bk_state (wi_server w')))) ∧
  ∀ y, o = Done y → y = id ∧ has_read (strip reader) id (rs_table (bk_state (wi_server w'))).
Proof.
  intros E. split.
  - intros a Ha. pose proof (request_iterates (served token) (ApiAck id reader) h w) as [n Hn]. rewrite E in Hn. cbn [snd] in Hn. rewrite Hn.
    apply (Nat.iter_invariant n _ _ (λ s, has_read (strip reader) a (rs_table (bk_state s)))); [|exact Ha]. intros s Hs.
    pose proof (ack_served token id reader h s) as H. unfold step. destruct (served token _ _ h s) as [o1 s1]. by apply H.
  - intros y ->. apply request_last in E as (k & _ & E). pose proof (ack_served token id reader h
      (Nat.iter k (step (served token) (ApiAck id reader) h) (wi_server w))) as H. rewrite E in H. by apply H.
Qed.

(** A batch: whose ids failed, and that those of the others are read. *)
Lemma ack_batch token bcfg pd reader ids (w w' : world) acked failed : ack_each (served token) bcfg pd reader ids w = ((acked, failed), w') →
  (∀ a, has_read (strip reader) a (table_at w) → has_read (strip reader) a (table_at w')) ∧
  (∀ a, a ∈ acked → has_read (strip reader) a (table_at w')) ∧ acked ++ (fst <$> failed) ≡ₚ ids.
Proof.
  revert w w' acked failed. induction ids as [|id ids IH]; intros w w' acked failed.
  - intros [= <- <- <-]. split_and!; [done|by intros a ?%elem_of_nil|done].
  - cbn [ack_each]. unfold bind at 1. destruct (calling (served token) bcfg pd (ApiAck id reader) w) as [o w1] eqn:E.
    apply calling_answer in E as [h E]. apply ack_request in E as [Hkeep Hdone]. unfold bind at 1.
    destruct (ack_each (served token) bcfg pd reader ids w1) as [[ac fl] w2] eqn:E2.
    destruct (IH _ _ _ _ E2) as (Hk2 & Ha2 & Hp). unfold ret. destruct o as [got|e]; intros [= <- <- <-].
    + destruct (Hdone got eq_refl) as [-> Hr]. assert ((if nonempty id then id else id) = id) as -> by (by destruct (nonempty id)).
      split_and!; [by auto| |cbn; by rewrite Hp]. intros a [->|Ha]%elem_of_cons; [by apply Hk2|by apply Ha2].
    + split_and!; [by auto|done|]. cbn. rewrite <- Hp. by rewrite Permutation_middle.
Qed.
Lemma distinct_spec seen l : NoDup (distinct seen l) ∧ ∀ a, a ∈ distinct seen l ↔ a ∈ l ∧ a ∉ seen.
Proof.
  revert seen. induction l as [|b l IH]; intros seen; cbn [distinct].
  - split; [constructor|]. intros a. split; [by intros ?%elem_of_nil|by intros [?%elem_of_nil _]].
  - destruct (b isin seen) eqn:E; [apply bool_decide_eq_true in E|apply bool_decide_eq_false in E].
    + destruct (IH seen) as [Hn Hi]. split; [done|]. intros a. rewrite Hi, elem_of_cons. naive_solver.
    + destruct (IH (seen ++ [b])) as [Hn Hi]. split.
      * constructor; [|done]. rewrite Hi, elem_of_app, list_elem_of_singleton. tauto.
      * intros a. rewrite !elem_of_cons, Hi, elem_of_app, list_elem_of_singleton. destruct (decide (a = b)) as [->|]; naive_solver.
Qed.

Lemma ack_inv token bcfg ids pd (w w' : world) reader acked failed :
  memory_ack (served token) bcfg ids pd w = (Done (reader, acked, failed), w') →
  ∃ w1, ack_each (served token) bcfg (nullable pd) reader (ack_ids ids) w1 = ((acked, failed), w').
Proof.
  unfold memory_ack. cbv zeta. unfold bind at 1. destruct (identity_of (nullable pd) w) as [[rd ls] w1].
  destruct (ack_ids ids) as [|i l]; [done|]. unfold bind at 1.
  destruct (ack_each (served token) bcfg (nullable pd) rd (i :: l) w1) as [[ac fl] w2] eqn:E. intros [= <- <- <- <-]. by exists w1.
Qed.

(** C29. An acknowledged letter stays away. A batch acknowledged, over whatever
    network, tells of each id of the batch exactly once, as done or as failed;
    and the next listing of unread mail by a session of the same name whose
    beat is not due shows none of those that were done. *)
Theorem acked_stays_away tokenA tokenB cfgA cfgB tkB ids pdA limit resolved pdB (wA wA' wB wB' : world) reader acked failed listen l :
  memory_ack (served tokenA) cfgA ids pdA wA = (Done (reader, acked, failed), wA') →
  NoDup (acked ++ (fst <$> failed)) ∧ (∀ a, a ∈ acked ++ (fst <$> failed) ↔ a ∈ ack_ids ids) ∧
  (wi_server (w_wire wB) = wi_server (w_wire wA') → wi_net (w_wire wB) = [] → strip reader = reader →
   beat_due (at_beat tkB) true (br_last_heartbeat (w_bridge wB)) (br_last_activity (w_bridge wB)) = false →
   memory_inbox (served tokenB) cfgB tkB true limit resolved pdB wB = (Done (reader, listen, l), wB') → listen ≠ [] →
   ∀ m, m ∈ rl_messages l → m_id m ∉ acked).
Proof.
  intros HA. apply ack_inv in HA as [w1 HA]. apply ack_batch in HA as (_ & Hread & Hp).
  split; [rewrite Hp; apply distinct_spec|]. split; [intros a; by rewrite Hp|].
  intros Hs Hn Hst Hbeat HB Hne m Hm Ha. apply inbox_inv in HB as (hB & sB & HB); [|done..].
  apply inbox_served in HB; [|done]. cbv zeta in HB. rewrite HB, Hs in Hm.
  apply list_elem_of_fmap in Hm as (m0 & -> & Hm). apply list_elem_of_fmap in Hm as (r & -> & Hr). rewrite mark_handled_id in Ha.
  apply inbox_rows_match in Hr as [Hr Hl]. specialize (Hread _ Ha r Hr). unfold list_match in Hl. rewrite !andb_true_iff in Hl.
  destruct Hl as ((((Hmail & _) & _) & _) & Hunread). rewrite Hst in Hread. cbn [negb orb] in Hunread.
  unfold is_message in Hread. rewrite Hmail in Hread. cbn [_row_to_inbox_message m_id] in Hread.
  rewrite bool_decide_eq_true_2 in Hread by done. by rewrite Hread in Hunread.
Qed.
End server.

(** ** Leaked markup *)

Lemma leak_search_here s subject rest : drop_prefix "</body>" s = Some rest → subject_ok (lstrip rest) = Some subject →
  leak_search s = Some ("", subject).
Proof. intros H1 H2. by destruct s; cbn [leak_search]; rewrite H1, H2. Qed.

(** No tag begins in a text without a bracket. *)
Lemma leak_search_past b s : has_char "<" b = false → leak_search (b +:+ s) = (λ bs, (b +:+ bs.1, bs.2)) <$> leak_search s.
Proof.
  induction b as [|c b IH]; [cbn; by destruct (leak_search s) as [[]|]|]. cbn [has_char String.append leak_search].
  intros H. apply orb_false_iff in H as [Hc H].
  assert (drop_prefix "</body>" (String c (b +:+ s)) = None) as ->.
  { cbn [drop_prefix]. by rewrite Hc. }
  rewrite IH by done. by destruct (leak_search s) as [[]|].
Qed.

Lemma closings_past close c0 b s : close = String "<" c0 → has_char "<" b = false →
  closings close (b +:+ s) = (λ ir, (b +:+ ir.1, ir.2)) <$> closings close s.
Proof.
  intros -> . induction b as [|c b IH]; [intros _; cbn [String.append]; induction (closings _ s) as [|[] l IHl]; [done|by rewrite fmap_cons, <- IHl]|].
  cbn [has_char String.append closings]. intros H. apply orb_false_iff in H as [Hc H].
  assert (drop_prefix (String "<" c0) (String c (b +:+ s)) = None) as ->.
  { cbn [drop_prefix]. by rewrite Hc. }
  rewrite IH by done. by rewrite <- list_fmap_compose.
Qed.

(** A call's own closing tags, leaked into a text with no tag of its own, are
    cut off, and the subject among them is given back. *)
Lemma leak_undone b leaked : nonempty b = true → has_char "<" b = false → has_char "<" leaked = false →
  _strip_leaked_markup (b +:+ "</body><subject>" +:+ leaked +:+ "</subject>") "" =
  Cleaned (rstrip b) (strip leaked) true (nonempty (strip leaked)).
Proof.
  intros Hn Hb Hl. unfold _strip_leaked_markup. rewrite leak_search_past by done.
  rewrite (leak_search_here ("</body><subject>" +:+ leaked +:+ "</subject>") (Some leaked) ("<subject>" +:+ leaked +:+ "</subject>") eq_refl).
  - cbn [fmap option_fmap option_map fst snd]. destruct b as [|c b]; [done|]. cbn [String.append].
    change (nonempty "") with false. cbn [negb andb]. rewrite andb_true_r.
    change (String c (b +:+ "")) with (String c b +:+ ""). by rewrite string_app_nil_r.
  - unfold subject_ok. change (lstrip ("<subject>" +:+ leaked +:+ "</subject>")) with ("<subject>" +:+ leaked +:+ "</subject>").
    rewrite drop_prefix_app, (closings_past _ "/subject>") by done.
    assert (closings "</subject>" "</subject>" = [("", "")]) as -> by (vm_compute; reflexivity).
    assert ((λ ir, (leaked +:+ ir.1, ir.2)) <$> [("", "")] = [(leaked, "")]) as -> by (cbn; by rewrite string_app_nil_r). done.
Qed.

Lemma rstrip_start s : ∃ w, s = rstrip s +:+ w.
Proof.
  induction s as [|c s [w IH]]; [by exists ""|]. cbn [rstrip]. destruct (rstrip s) as [|d r] eqn:E.
  - destruct (is_space_char c); [by exists (String c s)|]. by exists s.
  - exists w. rewrite IH at 1. done.
Qed.

(** Nothing is sent that was not written: a text with no closing tag is sent
    whole, and what is cut is the end. *)
Lemma leak_prefix body subject : ∃ rest, body = cn_body (_strip_leaked_markup body subject) +:+ rest.
Proof.
  assert (∀ s b l, leak_search s = Some (b, l) → ∃ rest, s = b +:+ rest) as Hs.
  { intros s. induction s as [|c s IH]; intros b l; cbn [leak_search]; [done|].
    destruct (match drop_prefix _ _ with Some rest => subject_ok (lstrip rest) | None => None end) as [sub|]; [intros [= <- _]; by eexists|].
    destruct (leak_search s) as [[b1 l1]|]; [|done]. cbn. intros [= <- _]. destruct (IH _ _ eq_refl) as [rest Hr].
    exists rest. cbn. by f_equal. }
  unfold _strip_leaked_markup. destruct (leak_search body) as [[b l]|] eqn:E; [|exists ""; cbn; by rewrite string_app_nil_r].
  destruct (Hs _ _ _ E) as [rest ->]. destruct b as [|c b]; cbn [cn_body]; [exists ""; by rewrite string_app_nil_r|].
  destruct (rstrip_start (String c b)) as [w Hw]. exists (w +:+ rest). by rewrite <- string_app_assoc, <- Hw.
Qed.

(** One leak is cut, not the leak before it: cleaning is not stable. *)
Lemma leak_cut_once : cn_body (_strip_leaked_markup "done</body></body>" "") = "done</body>" ∧
  cn_body (_strip_leaked_markup "done</body>" "") = "done".
Proof. by split; vm_compute. Qed.

(** ** At work *)

Definition ex_session (name : string) (ahead : list net) (s : backend) : Bridge.world :=
  World (started (ex_bridge (Some name)) ex_disk) (Wire no_failures None ahead s []).

(** A letter to two, by [ana]'s session over a poor network, its text with the
    end of the call in it; and the reading by [bo]'s, on a machine that was
    started less than two minutes ago. *)
Definition ex_writing :=
  memory_send (ex_served "engram_a") (ex_settings_of "engram_a") ex_instants "App-Claude-3, web"
    "the tide turns</body><subject>news</subject>" "" "" "action" "" "" (ex_session "app-claude-2" [AnswerLost; Unreached] ex_backend).

Definition ex_early : instants := Instants 100 100 110.

Definition ex_reader : Bridge.world := ex_session "app-claude-3" [] (wi_server (w_wire ex_writing.2)).

Definition ex_listing := memory_inbox (ex_served "engram_b") (ex_settings_of "engram_b") ex_early true 20 false "" ex_reader.

Lemma letter_read_witness : ∃ m, match ex_listing.1 with Done (_, _, l) => m ∈ rl_messages l | Raise _ => False end ∧
  m_to m = "app-claude-3" ∧ m_body m = "the tide turns" ∧ m_from m = Some "app-claude-2@hosta".
Proof.
  assert (match ex_writing.1 with Done rc => rt_reader rc | Raise _ => "" end = "app-claude-2@hosta") as Hrd by (vm_compute; reflexivity).
  assert (match ex_listing.1 with Done (_, listen, l) => (length (rl_messages l), head listen) | Raise _ => (0%nat, None) end =
    (1%nat, Some "app-claude-3")) as Hl by (vm_compute; reflexivity).
  destruct ex_writing as [[rc|e] wA'] eqn:EA; [|discriminate Hrd].
  destruct ex_listing as [[[[reader listen] l]|e] wB'] eqn:EB; [|discriminate Hl].
  cbn [fst] in Hrd, Hl. injection Hl as Hlen Hhd.
  assert ("app-claude-3" ∈ listen) as Hin by (destruct listen as [|y ys]; [discriminate Hhd|injection Hhd as ->; left]).
  destruct (letter_read ex_sha ex_checkpw ex_distance0 (λ _ _, 0%Q) (λ _, "") (λ n, 100 + Z.of_nat n) (λ n i, pretty (100 * n + i)%nat)
    ex_health ex_server "engram_a" "engram_b" (ex_settings_of "engram_a") (ex_settings_of "engram_b") ex_instants ex_early
    "App-Claude-3, web" "the tide turns</body><subject>news</subject>" "" "" "action" "" "" true 20 false ""
    (ex_session "app-claude-2" [AnswerLost; Unreached] ex_backend) wA' ex_reader wB' rc reader listen l "App-Claude-3" "app-claude-3" None)
    as [(m & Hm & _ & Hto & Hb & Hf)|Hfull].
  - exact EA.
  - reflexivity.
  - unfold ex_reader. rewrite EA. reflexivity.
  - reflexivity.
  - vm_compute. reflexivity.
  - exact EB.
  - left.
  - vm_compute. reflexivity.
  - apply elem_of_app. left. apply elem_of_app. left.
    change (lower (current (sv_aliases ex_server) "app-claude-3")) with (lower (lower (strip "app-claude-3"))).
    apply list_elem_of_fmap_2, (list_elem_of_fmap_2 (λ y, lower (strip y))), Hin.
  - exists m. rewrite Hrd in Hf. split_and!; [exact Hm|exact Hto|exact Hb|exact (Hf eq_refl)].
  - exfalso. rewrite Hlen in Hfull. vm_compute in Hfull. discriminate.
Defined.

(** [bo]'s session acknowledges the letter and one that is not there. *)
Definition ex_acking :=
  memory_ack (ex_served "engram_b") (ex_settings_of "engram_b") "inbox/301, inbox/9,inbox/301" "" ex_reader.

Definition ex_reading_on := memory_inbox (ex_served "engram_b") (ex_settings_of "engram_b") ex_early true 20 false ""
  (ex_session "app-claude-3" [] (wi_server (w_wire ex_acking.2))).

Lemma acked_stays_away_witness :
  match ex_acking.1, ex_reading_on.1 with
  | Done (reader, acked, failed), Done (_, listen, l) =>
      acked = ["inbox/301"] ∧ (fst <$> failed) = ["inbox/9"] ∧ ∀ m, m ∈ rl_messages l → m_id m ∉ acked
  | _, _ => False
  end.
Proof.
  assert (match ex_acking.1 with Done (reader, acked, failed) => (reader, acked, fst <$> failed) | Raise _ => ("", [], []) end =
    ("app-claude-3@hosta", ["inbox/301"], ["inbox/9"])) as Ha by (vm_compute; reflexivity).
  assert (match ex_reading_on.1 with Done (reader, listen, _) => (reader, length listen) | Raise _ => ("", 0%nat) end =
    ("app-claude-3@hosta", 9%nat)) as Hl by (vm_compute; reflexivity).
  assert (ex_acking = memory_ack (ex_served "engram_b") (ex_settings_of "engram_b") "inbox/301, inbox/9,inbox/301" "" ex_reader) as EA2
    by (unfold ex_acking; reflexivity).
  destruct ex_acking as [[[[reader acked] failed]|e] wA'] eqn:EA; [|discriminate Ha]. symmetry in EA2.
  destruct ex_reading_on as [[[[reader2 listen] l]|e] wB'] eqn:EB; [|discriminate Hl].
  cbn [fst] in Ha, Hl. injection Ha as Hr Ha Hf. injection Hl as Hr2 Hl.
  assert (reader2 = reader) as -> by congruence. assert (listen ≠ []) as Hne by (intros ->; discriminate Hl).
  destruct (acked_stays_away ex_sha ex_checkpw ex_distance0 (λ _ _, 0%Q) (λ _, "") (λ n, 100 + Z.of_nat n)
    (λ n i, pretty (100 * n + i)%nat) ex_health ex_server "engram_b" "engram_b" (ex_settings_of "engram_b") (ex_settings_of "engram_b")
    ex_early "inbox/301, inbox/9,inbox/301" "" 20 false "" ex_reader wA'
    (ex_session "app-claude-3" [] (wi_server (w_wire ex_acking.2))) wB' reader acked failed listen l EA2) as (_ & _ & Hno).
  split; [exact Ha|]. split; [exact Hf|]. apply Hno.
  - rewrite EA. reflexivity.
  - reflexivity.
  - rewrite Hr. reflexivity.
  - vm_compute. reflexivity.
  - exact EB.
  - exact Hne.
Defined.

(** ** What the order of the steps costs *)

(** The environment of another session of the same seat. *)
Definition ex_rival : environ :=
  let e := ex_bridge (Some "app-claude-2") in
  Environ (ev_fs e) (ev_host e) (ev_startup e) (ev_identity e) (ev_provider e) (Some "app-8") (ev_pid e) (ev_ppid e) (ev_ps e) (ev_ps_local e).

Definition ex_misnamed :=
  memory_send (ex_served "engram_b") (ex_settings_of "engram_b") ex_instants "web" "mine" "" "" "" "" ""
    (World (started ex_rival ex_disk) (Wire no_failures None [] (wi_server (w_wire ex_writing.2)) [])).

(** The name a letter is signed with is read before the beat of the same call,
    whose claim may give the session another: its first letter then goes out
    under the name of the session that holds the seat. *)
Lemma first_letter_misnamed :
  match ex_misnamed.1 with Done rc => rt_reader rc | Raise _ => "" end = "app-claude-2@hosta" ∧
  sh_rename (br_seat (w_bridge ex_misnamed.2)) = Some ("app-claude-2", "app-claude-4") ∧
  (identity_of None ex_misnamed.2).1.1 = "app-claude-4@hosta" ∧
  (λ r, md_text (r_meta r) "session_key") <$> sql_find (seat_pk "app-claude-2" "app") (rs_table (bk_state (wi_server (w_wire ex_misnamed.2)))) =
    Some (Some "app-7").
Proof. split_and!; vm_compute; reflexivity. Qed.

(** The answers that were lost after the letter went out. *)
Definition ex_answering (s : backend) :=
  memory_reply_call (ex_served "engram_b") (ex_settings_of "engram_b") "inbox/301" "it does" "" "" ""
    (ex_session "app-claude-3" [Delivered None; Delivered None; Unreached; Unreached] s).

Definition answers_in (s : backend) : nat :=
  length (select (λ r, is_mail r && (r_value r == "it does")) (t_rows (rs_table (bk_state s)))).

(** A reply, here to the two others of the thread, whose acknowledgement does
    not get through fails as a whole, its letters sent: done again, they are
    sent again. *)
Lemma reply_sent_twice :
  let once := ex_answering (wi_server (w_wire ex_writing.2)) in
  let twice := ex_answering (wi_server (w_wire once.2)) in
  once.1 = Raise (MailFailed Unreachable) ∧ answers_in (wi_server (w_wire once.2)) = 2%nat ∧
  answers_in (wi_server (w_wire twice.2)) = 4%nat.
Proof. cbv zeta. split_and!; vm_compute; reflexivity. Qed.
