(* ===== verification/PyClient.v ===== *)
(** The client library for web applications
    (src/integrations/python-client/src/engram_client/client.py): its settings,
    the name it goes by, its memory verbs, its inbox.

    The server and the network are those of [Client]; the retry of a request is
    the same as the bridge's, whose other bookkeeping is not this client's and
    is never read here. The host's name is an argument. *)

From stdpp Require Import base gmap list strings.
From Stdlib Require Import ZArith Lia Ascii.
From S2P Require Import Prelude PyString Json Store Principals Auth Memory Inbox Send Requests MemoryRoutes InboxRoutes SessionRoutes.
From S2P Require Import Client.

Open Scope Z_scope.
Open Scope tiding_scope.

(** ** Settings *)

Record engram_client := EngramClient {
  ec_url : string;
  ec_token : string;
  ec_namespace : string;
  ec_project : string;
  ec_user_id : option string;
  ec_read_namespaces : option (list string);
  ec_reader_identity : option string;
  ec_scope : string;
  ec_enabled : bool
}.

Fixpoint drop_underscores (s : string) : string :=
  match s with
  | EmptyString => ""
  | String c s' => match drop_underscores s' with
                   | EmptyString => if c == "_"%char then "" else String c ""
                   | r => String c r
                   end
  end.

(** [prefix.rstrip("_").upper()] *)
Definition env_prefix (upper : string → string) (prefix : string) : string := upper (drop_underscores prefix).

Definition enabled_words : list string := ["1"; "true"; "yes"; "on"].

(** Without overrides; [getenv] is the environment. *)
Definition from_env (upper : string → string) (getenv : string → option string) (prefix : string) : engram_client :=
  let g suffix dflt := default dflt (getenv (env_prefix upper prefix +:+ "_ENGRAM_" +:+ suffix)) in
  EngramClient (g "URL" "http://localhost:8920") (g "TOKEN" "") (g "NAMESPACE" "") (g "PROJECT" "") None None None (g "SCOPE" "user")
    (lower (strip (g "ENABLED" "true")) isin enabled_words).

(** The primary namespace first, none twice; [None]: the login's own. *)
Definition _search_namespaces (c : engram_client) : option (list string) :=
  (λ l, foldl (λ ns extra, if extra isin ns then ns else ns ++ [extra]) [ec_namespace c] l) <$> ec_read_namespaces c.

(** ** Steps *)

Inductive sdk_error := SdkFault (e : fault) | MissingArgument.

Section sdk.
Context {Srv : Type} (serve : ∀ A, api A → headers → Srv → outcome refusal A * Srv).
Context (c : engram_client) (hostname : string).

(** [_resolved_user_id], and the wire. *)
Record sdk := Sdk { sd_resolved : option string; sd_wire : wire Srv }.

Definition D (A : Type) : Type := sdk → A * sdk.
Definition done_with {A} (x : A) : D A := λ w, (x, w).
Definition then_do {A B} (m : D A) (k : A → D B) : D B := λ w, let '(x, w') := m w in k x w'.
Notation "'let*' x := m 'in' k" := (then_do m (λ x, k)) (at level 10, x pattern, m at level 100, k at level 200).

Definition asking {A} (x : api A) : D (outcome fault A) := λ w,
  let '(o, wi) := _request serve x (header_list []) (sd_wire w) in (o, Sdk (sd_resolved w) wi).

Definition is_available : D bool :=
  if negb (ec_enabled c) then done_with false
  else let* o := asking ApiHealth in done_with (match o with Done h => hr_status h == "ok" | Raise _ => false end).

(** Once asked, whatever came of it, the name is settled. *)
Definition _resolve_user_id (scope : option string) : D string :=
  if scope == Some "shared" then done_with "global"
  else if scope == Some "machine" then done_with (lower (before "." hostname))
  else if truthy (ec_user_id c) then done_with (or_empty (ec_user_id c))
  else λ w,
    if truthy (sd_resolved w) then (or_empty (sd_resolved w), w)
    else
      (let* o := asking ApiWhoami in
       let name := match o with
                   | Done who => if nonempty (pd_name (wa_principal who)) then pd_name (wa_principal who) else "unknown"
                   | Raise _ => "unknown"
                   end in
       λ w1, (name, Sdk (Some name) (sd_wire w1))) w.

(** ** Memory *)

(** [scope or self.scope] and the like. *)
Definition scope_or (scope : option string) : string := or_empty (py_or scope (Some (ec_scope c))).
Definition namespace_or (namespace : option string) : string := or_empty (py_or namespace (Some (ec_namespace c))).
Definition project_or (project : option string) : string := or_empty (py_or project (Some (ec_project c))).

Definition lifted {A B} (f : A → B) (o : outcome fault A) : outcome sdk_error B :=
  match o with Done r => Done (f r) | Raise e => Raise (SdkFault e) end.

Definition sdk_search (query : string) (project scope : option string) (limit : Z) (namespaces : option (list string))
  : D (outcome sdk_error (list search_result)) :=
  let final_project := default (ec_project c) project in
  let* user := _resolve_user_id (Some (scope_or scope)) in
  let ns := match namespaces with Some l => Some l | None => _search_namespaces c end in
  let* o := asking (ApiSearch (SearchBody None ns query (Some (scope_or scope)) (Some user) (nullable final_project) (Some limit)
                      None None None false)) in
  done_with (lifted rr_results o).

Definition sdk_store (key value tags : string) (project scope namespace : option string) (expiration_days : Z)
  : D (outcome sdk_error string) :=
  let* user := _resolve_user_id (Some (scope_or scope)) in
  let* o := asking (ApiSet (SetBody (namespace_or namespace) key value (Some (scope_or scope)) (Some user) (Some (project_or project))
                      (Some (TagText tags)) None (Some expiration_days) None None None [])) in
  done_with (lifted ro_key o).

(** The row a get or a forget names. *)
Definition row_named (key user : string) (project scope namespace : option string) : row_body :=
  RowBody (namespace_or namespace) key (Some (scope_or scope)) (Some user) (Some (project_or project)).

Definition sdk_get (key : string) (project scope namespace : option string) : D (outcome sdk_error (option mem_item)) :=
  let* user := _resolve_user_id (Some (scope_or scope)) in
  let* o := asking (ApiGet (row_named key user project scope namespace)) in
  done_with (lifted (λ g, match g with GetFound m => Some m | GetNotFound _ => None end) o).

Definition sdk_forget (key : string) (project scope namespace : option string) : D (outcome sdk_error bool) :=
  let* user := _resolve_user_id (Some (scope_or scope)) in
  let* o := asking (ApiForget (row_named key user project scope namespace)) in
  done_with (lifted rg_deleted o).

(** ** Inbox *)

(** The name given, else the login's; none when it is not known. *)
Definition _resolve_reader_identity : D (option string) :=
  if truthy (ec_reader_identity c) then done_with (ec_reader_identity c)
  else let* name := _resolve_user_id None in
       done_with (if nonempty name && (name != "unknown") then Some name else None).

Definition given_or_own (given : option string) : D (option string) :=
  match given with Some r => done_with (Some r) | None => _resolve_reader_identity end.

Definition sdk_inbox_send (to body subject : string) (from_ thread_id : option string) : D (outcome sdk_error send_response) :=
  let* sender := given_or_own from_ in
  let* o := asking (ApiSend (SendRequest [to] body subject (given sender) (given thread_id) None None None None false None) None) in
  done_with (lifted id o).

Definition sdk_inbox_list (listen_set : option (list string)) (reader_identity : option string) (unread_only : bool) (limit : Z)
  : D (outcome sdk_error list_response) :=
  let* reader := given_or_own reader_identity in
  match listen_set, truthy reader with
  | None, false => done_with (Raise MissingArgument)
  | _, _ =>
      let* o := asking (ApiInbox (ListBody (default [or_empty reader] listen_set) reader unread_only false limit false false false)) in
      done_with (lifted id o)
  end.

Definition sdk_inbox_ack (message_id : string) (reader_identity : option string) : D (outcome sdk_error string) :=
  let* reader := given_or_own reader_identity in
  if negb (truthy reader) then done_with (Raise MissingArgument)
  else let* o := asking (ApiAck message_id (or_empty reader)) in done_with (lifted id o).

Definition sdk_inbox_archive (message_id : string) (reader_identity : option string) : D (outcome sdk_error string) :=
  let* reader := given_or_own reader_identity in
  if negb (truthy reader) then done_with (Raise MissingArgument)
  else let* o := asking (ApiArchive message_id (or_empty reader)) in done_with (lifted id o).

(** To the sender's name without its host; a failed acknowledgement is
    passed over. *)
Definition inbox_reply (m : inbox_message) (body subject : string) (reader_identity : option string)
  : D (outcome sdk_error send_response) :=
  let* reader := given_or_own reader_identity in
  if negb (truthy (m_from m)) then done_with (Raise MissingArgument)
  else
    let* sent := sdk_inbox_send (before "@" (or_empty (m_from m))) body subject reader (py_or (m_thread_id m) (Some (m_id m))) in
    match sent with
    | Raise e => done_with (Raise e)
    | Done r =>
        if truthy reader then let* _ := sdk_inbox_ack (m_id m) reader in done_with (Done r)
        else done_with (Done r)
    end.
End sdk.
