(* ===== verification/PyClientProps.v ===== *)
(** What the client library keeps: a name once settled, the row it stored; and
    what it does otherwise than the bridge it says it matches. *)

From stdpp Require Import base gmap list strings pretty.
From Stdlib Require Import ZArith QArith Lia Ascii.
From S2P Require Import Prelude PyString Json Store Identity ProjectAlias AddressRoles Principals Auth Memory MemoryProps Search Inbox.
From S2P Require Import Session SessionProps Send Requests MemoryRoutes MemoryRoutesProps InboxRoutes SessionRoutes.
From S2P Require Import Edits Client ClientProps Endpoints EndpointsProps Bridge BridgeProps Tools ToolsProps MailTools MailToolsProps PyClient.

Open Scope Z_scope.
Open Scope tiding_scope.

(** ** The name *)

Section name.
Context {Srv : Type} (serve : ∀ A, api A → headers → Srv → outcome refusal A * Srv).
Context (c : engram_client) (hostname : string).

(** A name once given is given again without asking, for every scope that
    takes the login's. *)
Lemma name_settles scope (w : sdk) : let '(name, w1) := _resolve_user_id serve c hostname scope w in
  ∀ wi, _resolve_user_id serve c hostname scope (Sdk (sd_resolved w1) wi) = (name, Sdk (sd_resolved w1) wi).
Proof.
  unfold _resolve_user_id. destruct (scope == Some "shared"); [done|]. destruct (scope == Some "machine"); [done|].
  destruct (truthy (ec_user_id c)); [done|]. destruct (truthy (sd_resolved w)) eqn:E; [cbn [sd_resolved]; by rewrite E|].
  unfold then_do. destruct (asking serve ApiWhoami w) as [o w1]. cbn [sd_resolved]. intros wi.
  match goal with |- context [truthy (Some ?n)] => assert (truthy (Some n) = true) as -> end; [|done].
  destruct o as [who|e]; [|done]. destruct (nonempty _) eqn:En; [|done]. by destruct (pd_name _).
Qed.

Lemma asking_settled {A} (x : api A) (w : sdk) : sd_resolved (asking serve x w).2 = sd_resolved w.
Proof. unfold asking. by destruct (_request _ _ _ _). Qed.
End name.

(** ** A row stored is the row got *)

Section server.
Context (sha256 : string → string) (checkpw : string → string → bool).
Context (distance : vectors) (similarity : string → string → Q) (iso : Z → string).
Context (clock : nat → Z) (draw : nat → nat → string) (health : health_response) (cfg : server_settings).
Context (c : engram_client) (hostname : string).

Abbreviation served := (served sha256 checkpw distance similarity iso clock draw health cfg (ec_token c)).
Abbreviation state_of w := (bk_state (wi_server (sd_wire w))) (only parsing).

(** Asking for the name is using the wire. *)
Lemma resolve_used scope (w : sdk (Srv := backend)) : used served (sd_wire w) (sd_wire (_resolve_user_id served c hostname scope w).2).
Proof.
  unfold _resolve_user_id. destruct (scope == Some "shared"); [reflexivity|]. destruct (scope == Some "machine"); [reflexivity|].
  destruct (truthy (ec_user_id c)); [reflexivity|]. destruct (truthy (sd_resolved w)); [reflexivity|].
  unfold then_do, asking. destruct (_request served ApiWhoami _ (sd_wire w)) as [o wi] eqn:E. cbn [snd sd_wire].
  change wi with (o, wi).2. rewrite <- E. apply used_request, used_refl.
Qed.

(** What a store that is answered stored, a get of the same name gives back. *)
Lemma stored_then_got key value tags project scope namespace days (w w1 w2 : sdk (Srv := backend)) k g :
  wf (rs_table (state_of w)) → days ≤ 0 →
  sdk_store served c hostname key value tags project scope namespace days w = (Done k, w1) →
  wi_net (sd_wire w1) = [] → sdk_get served c hostname key project scope namespace w1 = (Done g, w2) →
  (lower (_resolve_user_id served c hostname (Some (scope_or c scope)) w).1 ≠ "*" ∨ lower (scope_or c scope) ≠ "project") →
  ∃ m, g = Some m ∧ i_value m = value.
Proof.
  intros Hwf Hdays HA Hn HB Hstar. unfold sdk_store, sdk_get, then_do in HA, HB.
  pose proof (name_settles served c hostname (Some (scope_or c scope)) w) as Hname.
  pose proof (resolve_used (Some (scope_or c scope)) w) as Hused.
  destruct (_resolve_user_id served c hostname (Some (scope_or c scope)) w) as [user w0]. cbn [fst snd] in Hstar, Hused.
  unfold asking in HA. destruct (_request served (ApiSet _) _ _) as [oA wiA] eqn:EA. destruct oA as [r|e]; [|done].
  injection HA as <- <-. cbn [sd_resolved sd_wire] in *. rewrite Hname in HB. unfold asking in HB. cbn [sd_wire sd_resolved] in HB.
  match type of HB with context [_request served ?x ?h wiA] => pose proof (request_up served x h wiA Hn) as Hup;
    destruct (_request served x h wiA) as [oB wiB] end.
  destruct Hup as (_ & _ & Ho). destruct oB as [gr|e]; [|done]. injection HB as <- _.
  apply request_last in EA as (n & _ & EA). match type of EA with served _ _ _ ?s = _ => set (s1 := s) in EA end.
  assert (wf (rs_table (bk_state s1))) as Hwf1 by (apply iterated_wf; by eapply used_wf).
  apply store_served in EA as (p & rq & k0 & created & version & Hv & Hset).
  destruct (served _ (ApiGet _) _ (wi_server wiA)) as [[gr2|f] s2] eqn:EB; cbn in Ho; [|done]. injection Ho as <-.
  apply get_served in EB as (rqB & HvB & Hsays). injection HvB as <-.
  unfold validate_set, checked in Hv. match type of Hv with (if ?b then _ else _) = _ => destruct b; [|done] end. injection Hv as <-.
  destruct (set_then_get sha256 _ _ _ _ _ _ _ (clock (bk_served (wi_server wiA))) (_canon_ns (ss_auth (sv_send cfg)) (namespace_or c namespace)) key
    (scope_or c scope) user (_canonicalize_project (sv_aliases cfg) (Some (project_or c project))) Hwf1 Hset) as [(m & Hm & _ & Hval & _) _].
  - reflexivity.
  - exact Hstar.
  - left. exact Hdays.
  - cbn [a_metadata set_args_of]. by rewrite no_status.
  - match type of Hsays with says ?i _ => assert (i = Some m) as Hi by exact Hm; rewrite Hi in Hsays end.
    exists m. split; [|exact Hval]. cbn in Hsays. by rewrite Hsays.
Qed.
End server.

(** ** At work *)

Definition ex_sdk (project : string) : engram_client :=
  EngramClient "http://localhost:8920" "engram_b" "notes" project None None None "project" true.

Definition ex_sdk_start (ahead : list net) (s : backend) : sdk := Sdk None (Wire no_failures None ahead s []).

(** The client's first request is not answered. *)
Definition ex_unnamed :=
  sdk_store (ex_served "engram_b") (ex_sdk "app") "hosta" "plan" "wait" "" None None None 0 (ex_sdk_start [Unreached; Unreached] ex_backend).

(** Later, the server being up again. *)
Definition ex_still_unnamed :=
  sdk_store (ex_served "engram_b") (ex_sdk "app") "hosta" "other" "go" "" None None None 0 ex_unnamed.2.

(** The name a lost answer leaves stays for good, where the bridge asks again:
    every row of the project is stored under it. *)
Lemma lost_name_latched :
  ex_still_unnamed.1 = Done "other" ∧ sd_resolved ex_still_unnamed.2 = Some "unknown" ∧
  (λ r, k_user (r_pk r)) <$> select (λ r, (r_key r isin ["plan"; "other"]) && (k_project (r_pk r) == Some "app"))
    (t_rows (rs_table (bk_state (wi_server (sd_wire ex_still_unnamed.2))))) = ["unknown"; "unknown"].
Proof. split_and!; vm_compute; reflexivity. Qed.

(** A row of the login's own scope carries the client's project all the same. *)
Definition ex_own :=
  sdk_store (ex_served "engram_b") (ex_sdk "app") "hosta" "taste" "salt" "" None (Some "user") None 0 (ex_sdk_start [] ex_backend).

Lemma own_row_in_project : ex_own.1 = Done "taste" ∧
  (λ r, (k_scope (r_pk r), k_project (r_pk r))) <$> select (λ r, r_key r == "taste") (t_rows (rs_table (bk_state (wi_server (sd_wire ex_own.2))))) =
    [("user", Some "app")].
Proof. split; vm_compute; reflexivity. Qed.

(** [ana]'s session asks [bo]'s application, which answers through the client. *)
Definition ex_asking :=
  memory_send (ex_served "engram_a") (ex_settings_of "engram_a") ex_instants "bo" "which tide?" "" "" "action" "" "" (ex_session "app-claude-2" [] ex_backend).

Definition ex_heard := sdk_inbox_list (ex_served "engram_b") (ex_sdk "app") "hosta" None None true 20
  (ex_sdk_start [] (wi_server (w_wire ex_asking.2))).

Definition ex_asked : option inbox_message := match ex_heard.1 with Done l => head (rl_messages l) | Raise _ => None end.

Definition ex_replied :=
  match ex_asked with
  | Some m => Some (inbox_reply (ex_served "engram_b") (ex_sdk "app") "hosta" m "the high one" "" None ex_heard.2)
  | None => None
  end.

(** The answer arrives, and the question stays unanswered: it names neither the
    question nor an intent. *)
Lemma reply_leaves_ask_open :
  (m_intent <$> ex_asked) = Some (Some "action") ∧
  match ex_replied with
  | Some (Done r, w) =>
      let t := rs_table (bk_state (wi_server (sd_wire w))) in
      ((λ q, (r_value q, r_user q)) <$> select (λ q, is_mail q && (r_key q == sr_id r)) (t_rows t)) = [("the high one", "app-claude-2")] ∧
      (λ m, m_handled (mark_handled_one t m)) <$> ex_asked = Some (Some false)
  | _ => False
  end.
Proof. split; [vm_compute; reflexivity|]. vm_compute. by split. Qed.
